(* ===== verification/_CoqProject ===== *)
-Q . S2P
Prelude.v
Floats.v
Types.v
FlatOrderIndex.v
BookSpec.v
OrderBook.v
BookInvariant.v
BookRefinement.v
BookQueries.v
BookTheorems.v
BookAllocation.v
ByteReader.v
MoldUdp64.v
RecoveryEngine.v
ProtocolCompiler.v
Itch50Schema.v
Emitter.v
Text.v
TextProofs.v
ProtocolProofs.v
SchemaPrinter.v
GeneratedHeader.v
Cpp.v
EmittedHeader.v
SchemaLanguage.v
ItchDecoder.v
ItchProofs.v
BuiltHeader.v
Fuzz.v
Capture.v
Replay.v
UdpReceiver.v
Tests.v
Pipeline.v
PipelineProofs.v
ListenProofs.v
Metrics.v
Program.v
ProgramProofs.v
ListenCommand.v
SystemTests.v
PropertyTests.v
RandomBookTest.v
Benchmark.v
BenchmarkProofs.v
