(* ===== verification/Prelude.v ===== *)
(** MarketWire: a verified model of the exchange feed engine.

    The program receives MoldUDP64 datagrams, puts their messages in order, decodes the ITCH 5.0
    messages that concern the order book, and maintains the book; it records what it receives in
    capture files and replays them through the same path.  A schema compiler, run by the build,
    generates the C++ views that the decoder reads messages with.  A benchmark and two fuzz targets
    exercise the decoders.  Data flows as

      UdpReceiver -> MoldUdp64 -> RecoveryEngine -> ItchDecoder -> OrderBook
           |                                           ^
           v                                           |
        Capture -> Replay -> (MoldUdp64 ...)     itch50.efe -> protocol compiler

    and this library follows that path from the book outwards.

    * How C++ is modelled

    Integers are [Z], with wrap-around written out where the code computes ([u16], [u32], [u64]);
    bytes are [Byte.byte], buffers and text [list byte].  A call has an [outcome]: it returns,
    throws an exception of one of the classes the code throws, or is undefined ([Undef]: an index
    out of range, a copy of bytes that the buffer does not hold, an invalidated iterator, a float
    that does not fit the integer it is converted to).  Code that changes an object is in the state
    monad [M], whose state survives an exception ([catch_rethrow] is a catch block that rethrows).
    Loops with no structural bound carry fuel and end in [OutOfFuel] without it; where a theorem
    states a returned value, the fuel that the definition supplies was enough.  [wp] is total
    correctness: [wp m Q s] says that [m] returns and [Q] holds; [wpx] adds what holds when
    it throws.

    * Components

    Prelude          outcomes, [M], [wp], [wpx], machine words, bytes, vectors, ordered maps; the hint
                     databases [lens] and [mw], the tactics [wp_step], [word_lia], [decided]
    Floats           [double] and [long double] on the Standard Library's IEEE 754 specification,
                     with error bounds, and results that are not NaN
    Types            include/efe/types.hpp, events.hpp: symbols, orders, events
    FlatOrderIndex   include/efe/flat_order_index.hpp: open addressing with tombstones; the class
                     [IndexContract] states what the book needs of it, which is a finite map with
                     a limit on its load
    BookSpec         the abstract book: live orders, and a queue of ids per price level
    OrderBook        include/efe/order_book.hpp, src/order_book.cpp: slots, links, free list,
                     level maps, index; every operation with its guards, and with a [Memory] that
                     says which map nodes can be allocated
    BookInvariant    how slots, links, levels and index represent an abstract book ([rep]), with a
                     rule per helper of the class
    BookRefinement   one simulation per operation, against [IndexContract] only
    BookQueries      the queries and the state hash, read off the abstract book
    BookTheorems     feeds of events on a new book, with the real index
    BookAllocation   events that run out of memory
    ByteReader       include/efe/byte_reader.hpp and the put_ writers of src/main.cpp
    MoldUdp64        include/efe/moldudp64.hpp, src/moldudp64.cpp, mold_packet of src/main.cpp
    RecoveryEngine   include/efe/recovery_engine.hpp, src/recovery_engine.cpp
    ProtocolCompiler tools/protocolc/main.cpp: lexer and parser (Module [Protocolc])
    Itch50Schema     schemas/itch50.efe, its text and its parsed form
    Emitter          tools/protocolc/main.cpp: emitter, files, main
    Text             std::ostream, std::stoi, std::stoull and std::stod as the programs use them
    TextProofs       numbers print and read back; prices print exactly
    ProtocolProofs   the parser terminates, and the layouts it computes
    SchemaPrinter    a printer of schemas that the parser inverts
    GeneratedHeader  include/efe/generated/itch50.hpp, which the build generates: the class
                     [Header] is what the decoder calls, [GeneratedFrom] what the documentation
                     promises of a generated header, and [Interpret] one that keeps the promise
    Cpp              the fragment of C++ that the compiler emits: a reader, the rules a program has
                     to satisfy to compile, and what its classes and functions do
    EmittedHeader    the emitted text, read as C++, keeps the promise
    SchemaLanguage   docs/protocol-compiler.md: the valid protocols, all of which can be written as
                     schemas and are compiled to headers that compile
    ItchDecoder      include/efe/itch_decoder.hpp, src/itch_decoder.cpp: both decoders
    ItchProofs       the decoders invert the wire format, and agree; the class [DecodesWire] is what
                     code that is a template over the decoder relies on
    BuiltHeader      CMakeLists.txt: the compiler run on the checked-in schema, and the decoder
                     compiled with what it writes
    Fuzz             fuzz/fuzz_itch.cpp, fuzz/fuzz_moldudp.cpp
    Capture          include/efe/capture.hpp, src/capture.cpp, on streams with their state bits
    Replay           include/efe/replay.hpp, src/replay.cpp: all four modes
    UdpReceiver      include/efe/udp_receiver.hpp, src/udp_receiver.cpp
    Tests            tests/: the unit tests with fixed inputs, run on the model with the emitted header
    Pipeline         src/main.cpp: sample messages, and what demo, replay and listen do to their
                     local objects; listen on the socket of UdpReceiver; replay options
    PipelineProofs   packets in, book out; replay
    ListenProofs     the live loop: its book, its capture, its re-requests, and how it ends
    Metrics          include/efe/metrics.hpp, src/metrics.cpp
    Program          src/main.cpp: main, its commands, all they print, and exit codes
    ProgramProofs    exit codes, descriptors, replay end to end, the sample session
    ListenCommand    listen end to end
    SystemTests      tests/cli_tests.cmake
    PropertyTests    tests/test_pipeline_property.cpp, for any order that the shuffle leaves
    RandomBookTest   tests/test_order_book.cpp, for anything that its generator draws
    Benchmark        bench/benchmark.cpp
    BenchmarkProofs  the trace of a run and the figures it prints, whatever the clock says

    Definitions keep the names of the code: [OrderBook.replace] is OrderBook::replace, state
    fields end in the underscore the members have.  A reference into a container is a path that
    is read and written back; the state of several local objects that a lambda or a loop shares
    is one record ([Pipeline.t]).

    * What the theorems show

    Book: for every accepted capacity and every feed of well-typed events, each call of the arena
    book returns what the abstract price-time-priority book returns, without exception or
    undefined access ([book_refines_spec]); levels are sorted, their totals exact and within 32
    bits ([levels_are_sound]); time priority is kept by every operation; refused events change
    nothing; the hash depends on what a client sees only.  The index implements a finite map, and
    its probe loops end ([index_refines_map]).

    Transport: the packet parser accepts exactly the encodings of well-formed packets, and is safe
    on every datagram: without the check of a length, a copy would be undefined.  Recovery releases a prefix of the stream, each message once and in order,
    whatever the order of arrival, and its requests ask for what is missing.

    Decoding: the parser of the schema compiler ends on every input; fields tile their messages,
    unless the widths add up to more than [size_t] holds, in which case the code wraps around;
    every protocol that the documentation calls valid can be written as a schema, which the
    compiler takes to a header that compiles ([printed_protocol_parses_back]).  With any header that behaves as documented the decoder inverts
    the wire format and agrees with the handwritten reference.  The text that the compiler emits for
    a schema whose names are usable in C++ ([emittable]) compiles, and what it declares behaves as
    documented ([emitted_header_keeps_the_promise]); the build of the repository is an instance
    ([built_decoder_reads_the_wire]).

    Errors: an event that runs out of memory throws [std::bad_alloc] and leaves the book that a
    client saw before ([allocation_failure_changes_nothing]); a message that the decoder rejects
    ends demo and replay with the book of the messages before it
    ([malformed_message_stops_pipeline]); a datagram that framing rejects ends listen, and is the
    last one in its capture ([rejected_datagram_ends_listen]); no input makes a fuzz target fail.

    Replay: every record is delivered once and in order; the delays are the recorded times divided
    by the speed, up to a nanosecond and a part in 2^62; step mode takes a character for every
    record, which the theorems suppose to be typed ([replay_delivers_every_record]).

    Text: every 32-bit price is printed exactly although it passes through a [double]; a speed on the
    command line is read as a [double] next to it.

    Composition: [pipeline_builds_the_book], [replay_reports_the_book] and
    [listen_command_serves_the_session] carry the guarantees of the components from datagrams to
    the book, for replay and listen up to the printed text and the exit code;
    [arrival_order_leaves_the_same_book] is the convergence that docs/ARCHITECTURE.md requires; a
    capture written by the program loads back and replays to what demo prints; a run of the
    program closes its descriptors, ends with 2 after the usage line of a misused command, and
    turns every exception into its text and exit code 1 ([program_ends_cleanly]).  A stop request
    ends listen, since it wakes the poll even if nothing else ever arrives
    ([stop_request_ends_listen]).

    Benchmark: with any two decoders that satisfy [DecodesWire], each trial decodes the whole stream
    with both, in alternating order; the printed figures are the medians of what the readings of the
    clock around the measured work give, as exact quotients up to a part in 2^48; and the printed
    sink is the one the stream determines ([benchmark_measures_equal_work]).

    Tests: every test of the repository is a program on the model, and passes
    ([repository_tests_pass], [cli_tests_pass], [pipeline_property_test_passes],
    [order_book_test_passes]).

    * Fuel

    The probe loops of the index are bounded by the size of the table in the code, which is their
    structural argument.  [drain] gets one more than the size of the buffer, of which each turn
    takes one element; walks along a queue get one more than the number of slots, and a queue
    repeats none; the parser gets one more than the length of its source, and each turn takes a
    token; reading a capture gets one more than the length of the file, of which a record takes at
    least 12 bytes.  A number has at most as many digits as bits.  The batches of the benchmark get
    one more than the number of messages.  [listen] and [receive] run on what the outside
    delivers, a list.

    * Assumptions

    No axioms.  The clients of the generated header are proved against the class
    [GeneratedFrom], its documented behaviour, so that they hold for whatever header the build
    provides; [EmittedHeader] shows that the emitted one has it, given [Cpp], which is the
    reading of the C++ standard that this rests on: the fragment, unknown text refused, and the
    identifiers of a schema no macros of the standard headers.  [long double]
    is the 80-bit format, [size_t] has 64 bits, the locale is "C".  Whether [char] is signed is a
    parameter where it matters, which is the order of symbols in the state hash.  Theorems about a
    live feed take every arriving packet to be one of the feed, at a time that fits the capture.

    * Not modelled

    System calls, which answer through arguments ([UdpReceiver.Setup], [UdpReceiver.Answer],
    [Pipeline.Turn], [Program.World], [Benchmark.Platform]); so does the clock, in the benchmark as a
    function of what was done before it is read.  Failure to
    allocate anything but the map nodes of the book, whose catch block is the only code that
    handles it.  C++ outside the fragment of [Cpp].  The remaining lines of src/ are includes,
    declarations of what is defined elsewhere, and the build.

    * Behaviour that modelling brought to light

    [drain_erases_twice] (undefined behaviour at the last sequence number);
    [end_of_step_input_is_not_detected]; [nan_speed_is_undefined];
    [quote_type_is_emitted_unescaped]; [unusable_schemas_are_accepted]; [overflowing_layout_is_accepted];
    [benchmark_of_nothing_is_undefined]. *)
From stdpp Require Export base numbers list gmap strings sorting.
From Stdlib Require Export ZArith Lia.
From Stdlib Require Import Strings.Byte.

#[global] Open Scope Z_scope.

(** * Outcomes of C++ code *)

(** The exception classes the code throws; [OutOfRange] is what [std::map::at] throws. *)
Inductive exn : Type :=
| DecodeError (what : string)
| RuntimeError (what : string)
| InvalidArgument (what : string)
| OverflowError (what : string)
| OutOfRange (what : string)
| LengthError (what : string)
| BadAlloc.

(** A call returns a value, throws, or has no defined meaning ([Undef]: an access past the end
    of a vector, an invalidated iterator).  [OutOfFuel] is the model's own: a loop that the
    fuel did not cover; theorems show it does not happen. *)
Inductive outcome (A : Type) : Type :=
| Ret (a : A)
| Throw (e : exn)
| Undef (why : string)
| OutOfFuel.
Arguments Ret {A} a.
Arguments Throw {A} e.
Arguments Undef {A} why.
Arguments OutOfFuel {A}.

#[export] Instance exn_eq_dec : EqDecision exn.
Proof. solve_decision. Defined.
#[export] Instance outcome_eq_dec {A} `{EqDecision A} : EqDecision (outcome A).
Proof. solve_decision. Defined.

#[export] Instance outcome_ret : MRet outcome := λ A a, Ret a.
#[export] Instance outcome_bind : MBind outcome := λ A B k m,
  match m with
  | Ret a => k a
  | Throw e => Throw e
  | Undef why => Undef why
  | OutOfFuel => OutOfFuel
  end.
#[export] Instance outcome_fmap : FMap outcome := λ A B f m, m ≫= λ a, Ret (f a).

(** Code that mutates an object: the object survives an exception, so the state is returned on
    every outcome. *)
Definition M (S A : Type) : Type := S → outcome A * S.

#[export] Instance M_ret S : MRet (M S) := λ A a s, (Ret a, s).
#[export] Instance M_bind S : MBind (M S) := λ A B k m s,
  match m s with
  | (Ret a, s') => k a s'
  | (Throw e, s') => (Throw e, s')
  | (Undef why, s') => (Undef why, s')
  | (OutOfFuel, s') => (OutOfFuel, s')
  end.

Definition get {S} : M S S := λ s, (Ret s, s).
Definition put {S} (s : S) : M S unit := λ _, (Ret tt, s).
Definition modify {S} (f : S → S) : M S unit := λ s, (Ret tt, f s).
Definition throw {S A} (e : exn) : M S A := λ s, (Throw e, s).
Definition undef {S A} (why : string) : M S A := λ s, (Undef why, s).
Definition lift {S A} (o : outcome A) : M S A := λ s, (o, s).
(** [try { m } catch (...) { handler; throw; }] *)
Definition catch_rethrow {S A} (m : M S A) (handler : M S unit) : M S A := λ s,
  match m s with
  | (Throw e, s') => (handler;; throw e) s'
  | r => r
  end.

(** * Total correctness of state-passing code *)

(** [wp m Q s]: run from [s], [m] returns (no exception, no undefined behaviour, no fuel
    shortage) and the value and final state satisfy [Q]. *)
Definition wp {S A} (m : M S A) (Q : A → S → Prop) (s : S) : Prop :=
  match m s with
  | (Ret a, s') => Q a s'
  | _ => False
  end.

Section wp_rules.
Context {S : Type}.
Implicit Types s : S.

Lemma wp_ret {A} (a : A) (Q : A → S → Prop) s : Q a s → wp (mret a) Q s.
Proof. done. Qed.

Lemma wp_bind {A B} (m : M S A) (k : A → M S B) Q s :
  wp m (λ a s', wp (k a) Q s') s → wp (m ≫= k) Q s.
Proof. unfold wp, mbind, M_bind. by destruct (m s) as [[] ?]. Qed.

Lemma wp_assoc {A B C} (m : M S A) (k1 : A → M S B) (k2 : B → M S C) Q s :
  wp (x ← m; k1 x) (λ y s', wp (k2 y) Q s') s → wp (x ← m; y ← k1 x; k2 y) Q s.
Proof.
  unfold wp, mbind, M_bind. destruct (m s) as [[a|?|?|] s']; try done. by destruct (k1 a s') as [[] ?].
Qed.

Lemma wp_mono {A} (m : M S A) (P Q : A → S → Prop) s :
  wp m P s → (∀ a s', P a s' → Q a s') → wp m Q s.
Proof. unfold wp. destruct (m s) as [[] ?]; try done; eauto. Qed.

Lemma wp_get (Q : S → S → Prop) s : Q s s → wp get Q s.
Proof. done. Qed.
Lemma wp_put s' (Q : unit → S → Prop) s : Q tt s' → wp (put s') Q s.
Proof. done. Qed.
Lemma wp_modify f (Q : unit → S → Prop) s : Q tt (f s) → wp (modify f) Q s.
Proof. done. Qed.
Lemma wp_lift {A} (o : outcome A) a (Q : A → S → Prop) s :
  o = Ret a → Q a s → wp (lift o) Q s.
Proof. by intros ->. Qed.

(** A [wp] about one exact result is an equation. *)
Lemma wp_exact {A} (m : M S A) (Q : A → S → Prop) s :
  wp m Q s ↔ ∃ a s', m s = (Ret a, s') ∧ Q a s'.
Proof.
  unfold wp. destruct (m s) as [[] ?]; split.
  all: try (intros HQ; by eauto).
  all: by intros (? & ? & [= <- <-] & ?).
Qed.
End wp_rules.

(** [wpx m Q X s]: run from [s], [m] returns in a state that satisfies [Q] or throws in one that
    satisfies [X]. *)
Definition wpx {S A} (m : M S A) (Q : A → S → Prop) (X : exn → S → Prop) (s : S) : Prop :=
  match m s with
  | (Ret a, s') => Q a s'
  | (Throw e, s') => X e s'
  | _ => False
  end.

Section wpx_rules.
Context {S : Type}.
Implicit Types s : S.

Lemma wpx_ret {A} (a : A) (Q : A → S → Prop) X s : Q a s → wpx (mret a) Q X s.
Proof. done. Qed.
Lemma wpx_bind {A B} (m : M S A) (k : A → M S B) Q X s :
  wpx m (λ a s', wpx (k a) Q X s') X s → wpx (m ≫= k) Q X s.
Proof. unfold wpx, mbind, M_bind. by destruct (m s) as [[] ?]. Qed.
(** Code that cannot throw. *)
Lemma wpx_wp {A} (m : M S A) (Q : A → S → Prop) X s : wp m Q s → wpx m Q X s.
Proof. unfold wp, wpx. by destruct (m s) as [[] ?]. Qed.
Lemma wpx_never {A} (m : M S A) (Q : A → S → Prop) X s : wpx m Q X s → (∀ e s', ¬ X e s') → wp m Q s.
Proof. unfold wp, wpx. destruct (m s) as [[] ?]; naive_solver. Qed.
Lemma wpx_catch {A} (m : M S A) (handler : M S unit) (Q : A → S → Prop) X s :
  wpx m Q (λ e s', wp handler (λ _ s'', X e s'') s') s → wpx (catch_rethrow m handler) Q X s.
Proof.
  unfold wpx, catch_rethrow. destruct (m s) as [[a|e|?|] s']; try done.
  unfold wp, mbind, M_bind, throw. by destruct (handler s') as [[] ?].
Qed.
End wpx_rules.

(** One symbolic execution step: enter a bind, or run a primitive whose result is known. *)
Ltac wp_step :=
  first [ apply wp_bind | apply wp_ret | apply wp_get | apply wp_put | apply wp_modify ].

(** * Notation and automation *)

Declare Scope mw_scope.
Delimit Scope mw_scope with mw.
#[global] Open Scope mw_scope.

(** Lengths of lists, and the facts that are used as they stand. *)
Create Rewrite HintDb lens.
Create HintDb mw.
#[export] Hint Rewrite @length_app @length_fmap @length_replicate @length_take @length_drop : lens.

(** * Machine words *)

(** Unsigned arithmetic of width [w] wraps around. *)
Definition wrap (w z : Z) : Z := z `mod` 2 ^ w.
Definition u16 := wrap 16.
Definition u32 := wrap 32.
Definition u64 := wrap 64.
(** [std::numeric_limits<...>::max()] *)
Definition u32_max : Z := 4294967295.
Definition u64_max : Z := 18446744073709551615.

Lemma wrap_small w z : 0 ≤ z < 2 ^ w → wrap w z = z.
Proof. apply Z.mod_small. Qed.
Lemma wrap_bound w z : 0 ≤ w → 0 ≤ wrap w z < 2 ^ w.
Proof. intros. apply Z.mod_pos_bound. lia. Qed.
Lemma u32_small z : 0 ≤ z ≤ u32_max → u32 z = z.
Proof. intros. apply wrap_small. unfold u32_max in *. lia. Qed.
Lemma u64_small z : 0 ≤ z ≤ u64_max → u64 z = z.
Proof. intros. apply wrap_small. unfold u64_max in *. lia. Qed.

#[export] Hint Resolve wrap_small wrap_bound u32_small u64_small : mw.

(** Linear arithmetic on values bounded by the width of a type. *)
Ltac word_lia :=
  first [ unfold u64_max, u32_max in *; lia | cbn; unfold u64_max, u32_max in *; lia ].

(** * Bytes *)

Definition Z_of_byte (b : byte) : Z := Z.of_N (Byte.to_N b).
(** [static_cast<std::uint8_t>] *)
Definition byte_of_Z (z : Z) : byte :=
  default Byte.x00 (Byte.of_N (Z.to_N (wrap 8 z))).

#[export] Instance byte_eq_dec : EqDecision byte := Byte.byte_eq_dec.

Lemma Z_of_byte_bound b : 0 ≤ Z_of_byte b < 256.
Proof. pose proof (Byte.to_N_bounded b). unfold Z_of_byte. lia. Qed.
Lemma byte_of_Z_of_byte b : byte_of_Z (Z_of_byte b) = b.
Proof.
  unfold byte_of_Z. rewrite wrap_small by apply Z_of_byte_bound.
  unfold Z_of_byte. by rewrite N2Z.id, Byte.of_to_N.
Qed.
Lemma Z_of_byte_of_Z z : Z_of_byte (byte_of_Z z) = wrap 8 z.
Proof.
  unfold byte_of_Z, Z_of_byte.
  pose proof (wrap_bound 8 z ltac:(lia)) as Hb.
  destruct (Byte.of_N (Z.to_N (wrap 8 z))) as [b|] eqn:E; simpl.
  - apply Byte.to_of_N in E. rewrite E. lia.
  - apply Byte.of_N_None_iff in E. lia.
Qed.
#[export] Instance Z_of_byte_inj : Inj (=) (=) Z_of_byte.
Proof. intros x y E. by rewrite <-(byte_of_Z_of_byte x), E, byte_of_Z_of_byte. Qed.
#[export] Instance byte_countable : Countable byte.
Proof. apply (inj_countable' Z_of_byte byte_of_Z). apply byte_of_Z_of_byte. Defined.

(** * Vectors: [std::vector] read and written by index *)

Section vec.
Context {A : Type}.
Implicit Types (l : list A) (i j : Z) (x : A).

(** [v[i]]: [None] stands for an index past the end, undefined in C++. *)
Definition vget l i : option A := if decide (0 ≤ i) then l !! Z.to_nat i else None.
Definition vset l i x : list A := if decide (0 ≤ i) then <[Z.to_nat i := x]> l else l.

Lemma length_vset l i x : length (vset l i x) = length l.
Proof. unfold vset. case_decide; [apply length_insert|done]. Qed.
Lemma vget_bounds l i x : vget l i = Some x → 0 ≤ i < Z.of_nat (length l).
Proof. unfold vget. case_decide; [|done]. intros ?%lookup_lt_Some. lia. Qed.
Lemma vget_is_Some l i : 0 ≤ i < Z.of_nat (length l) → is_Some (vget l i).
Proof. intros. unfold vget. rewrite decide_True by lia. apply lookup_lt_is_Some. lia. Qed.
Lemma vget_vset_eq l i x : 0 ≤ i < Z.of_nat (length l) → vget (vset l i x) i = Some x.
Proof.
  intros. unfold vget, vset. rewrite !decide_True by lia.
  apply list_lookup_insert_eq. lia.
Qed.
Lemma vget_vset_ne l i j x : i ≠ j → vget (vset l i x) j = vget l j.
Proof.
  intros. unfold vget, vset. repeat case_decide; try done.
  apply list_lookup_insert_ne. lia.
Qed.
Lemma vget_vset l i j x :
  0 ≤ i < Z.of_nat (length l) →
  vget (vset l i x) j = if decide (i = j) then Some x else vget l j.
Proof. intros. case_decide; subst; [by apply vget_vset_eq|by apply vget_vset_ne]. Qed.
Lemma vset_vset l i x y : vset (vset l i x) i y = vset l i y.
Proof. unfold vset. case_decide; [|done]. apply list_insert_insert_eq. Qed.
Lemma vset_id l i x : vget l i = Some x → vset l i x = l.
Proof. unfold vget, vset. case_decide; [|done]. apply list_insert_id. Qed.
End vec.
#[export] Hint Rewrite @length_vset : lens.
#[export] Hint Resolve vget_bounds vget_is_Some vget_vset_eq vget_vset_ne : mw.

(** Entry [p] of the vector [v] is [x]. *)
Notation "v @ p ↦ x" := (vget v p = Some x) (at level 70, p at next level) : mw_scope.

(** * Ordered maps: iteration over [std::map] *)

(** [std::map<K, V, R>] is a [gmap]; what depends on its order ([begin()], iteration) goes
    through the list of its keys sorted by [R]. *)
Section ordered.
Context {K : Type} `{Countable K} (R : relation K) `{!RelDecision R}.

Definition sorted_keys {V} (m : gmap K V) : list K := merge_sort R (elements (dom m)).
(** [m.begin()->first], [None] for an empty map. *)
Definition first_key {V} (m : gmap K V) : option K := head (sorted_keys m).

Lemma sorted_keys_dom {V W} (m1 : gmap K V) (m2 : gmap K W) :
  dom m1 = dom m2 → sorted_keys m1 = sorted_keys m2.
Proof. unfold sorted_keys. by intros ->. Qed.

Lemma elem_of_sorted_keys {V} (m : gmap K V) k : k ∈ sorted_keys m ↔ is_Some (m !! k).
Proof. unfold sorted_keys. by rewrite merge_sort_Permutation, elem_of_elements, elem_of_dom. Qed.

Lemma NoDup_sorted_keys {V} (m : gmap K V) : NoDup (sorted_keys m).
Proof. unfold sorted_keys. rewrite merge_sort_Permutation. apply NoDup_elements. Qed.

Lemma length_sorted_keys {V} (m : gmap K V) : length (sorted_keys m) = size m.
Proof. unfold sorted_keys. by rewrite merge_sort_Permutation, <-size_dom. Qed.

Lemma StronglySorted_sorted_keys `{!Transitive R, !Total R} {V} (m : gmap K V) :
  StronglySorted R (sorted_keys m).
Proof. apply StronglySorted_merge_sort; apply _. Qed.

Lemma first_key_None {V} (m : gmap K V) : first_key m = None ↔ m = ∅.
Proof.
  unfold first_key. split.
  - intros Hn. apply map_empty. intros k. apply eq_None_not_Some.
    rewrite <-elem_of_sorted_keys. destruct (sorted_keys m); [|done]. apply not_elem_of_nil.
  - intros ->. by unfold sorted_keys; rewrite dom_empty_L, elements_empty.
Qed.

(** [begin()] is a key of the map that no other key precedes. *)
Lemma first_key_Some `{!Transitive R, !Total R} {V} (m : gmap K V) k :
  first_key m = Some k → is_Some (m !! k) ∧ ∀ k', is_Some (m !! k') → k' ≠ k → R k k'.
Proof.
  unfold first_key. intros Hk. pose proof (StronglySorted_sorted_keys m) as Hs.
  rewrite <-elem_of_sorted_keys. setoid_rewrite <-elem_of_sorted_keys.
  destruct (sorted_keys m) as [|k0 ks]; simplify_eq/=.
  apply StronglySorted_inv in Hs as [_ Hs]. rewrite Forall_forall in Hs.
  split; [left|]. intros k' [?|?]%elem_of_cons; [done|auto].
Qed.
End ordered.

(** * Decisions *)

(** A closed decidable statement holds by evaluation. *)
Ltac decided := apply (bool_decide_unpack _); vm_compute; exact I.

Lemma decide_ext {A} (P Q : Prop) `{!Decision P, !Decision Q} (x y : A) :
  (P ↔ Q) → (if decide P then x else y) = (if decide Q then x else y).
Proof. intros. repeat case_decide; tauto. Qed.

(** * Filters *)

Lemma filter_ext_in {A} (P Q : A → Prop) `{!∀ x, Decision (P x), !∀ x, Decision (Q x)} (l : list A) :
  (∀ x, x ∈ l → P x ↔ Q x) → filter P l = filter Q l.
Proof.
  induction l as [|x l IH]; intros Hl; [done|].
  pose proof (Hl x ltac:(by left)). rewrite !filter_cons, IH by (intros; apply Hl; by right).
  repeat case_decide; tauto.
Qed.
Lemma filter_all {A} (P : A → Prop) `{!∀ x, Decision (P x)} (l : list A) :
  (∀ x, x ∈ l → P x) → filter P l = l.
Proof.
  induction l as [|x l IH]; intros Hl; [done|]. rewrite filter_cons_True by (apply Hl; by left).
  f_equal. apply IH. intros y ?. apply Hl. by right.
Qed.

(** A loop over a list with an accumulator, stopped by the first failure. *)
Fixpoint foldM {A B} (f : B → A → outcome B) (l : list A) (b : B) : outcome B :=
  match l with
  | [] => Ret b
  | a :: l => b' ← f b a; foldM f l b'
  end.
