(* ===== verification/Floats.v ===== *)
(** The floating-point arithmetic that the program uses: conversions from and to 64-bit integers,
    quotients, products and comparisons of [double] and [long double], on the Standard Library's
    specification of IEEE 754, rounding to the nearest even.  [long double] is the 80-bit format
    of x86-64.  The lemmas bound the error of products and quotients, compute the doubles of small
    integers, and show which results are not NaN; percentile indices, printed prices, speeds and
    the figures of the benchmark need them. *)
From S2P Require Import Prelude.
From Stdlib Require Export Floats.SpecFloat.

Module Floats.

Record format : Type := mkFormat { precision : Z; max_exponent : Z }.
Definition double : format := mkFormat 53 1024.
Definition long_double : format := mkFormat 64 16384.

(** [static_cast<double>(z)] for an integer. *)
Definition of_Z (f : format) (z : Z) : spec_float := binary_normalize (precision f) (max_exponent f) z 0 false.
(** [static_cast] from one format to another. *)
Definition convert (f : format) (x : spec_float) : spec_float :=
  match x with
  | S754_finite s m e => binary_round (precision f) (max_exponent f) s m e
  | _ => x
  end.
Definition add (f : format) : spec_float → spec_float → spec_float := SFadd (precision f) (max_exponent f).
Definition mul (f : format) : spec_float → spec_float → spec_float := SFmul (precision f) (max_exponent f).
Definition div (f : format) : spec_float → spec_float → spec_float := SFdiv (precision f) (max_exponent f).
(** A literal: the float nearest to a fraction. *)
Definition literal (f : format) (num den : Z) : spec_float := div f (of_Z f num) (of_Z f den).

(** A [std::chrono::duration] of [double]s, made of nanoseconds of which its period has [period]. *)
Definition duration (period ns : Z) : spec_float := div double (of_Z double ns) (of_Z double period).

(** The integer part. *)
Definition truncate (s : bool) (m : positive) (e : Z) : Z := cond_Zopp s (Z.shiftl (Z.pos m) e).
(** [static_cast<std::uint64_t>(x)]: truncation; undefined when the result does not fit. *)
Definition to_u64 (x : spec_float) : outcome Z :=
  match x with
  | S754_zero _ => Ret 0
  | S754_finite s m e =>
      if decide (0 ≤ truncate s m e ≤ u64_max) then Ret (truncate s m e)
      else Undef "floating-point value out of the range of uint64_t"
  | _ => Undef "NaN or infinity converted to uint64_t"
  end.

(** * Digits and shifts *)

Lemma digits2_bounds p : 2 ^ (Z.pos (digits2_pos p) - 1) ≤ Z.pos p < 2 ^ Z.pos (digits2_pos p).
Proof.
  induction p as [p IH|p IH|]; cbn [digits2_pos]; [| |lia];
    rewrite Pos2Z.inj_succ, Z.sub_succ_l, !Z.pow_succ_r by lia; lia.
Qed.
Lemma digits2_unique p d : 0 < d → 2 ^ (d - 1) ≤ Z.pos p < 2 ^ d → Z.pos (digits2_pos p) = d.
Proof.
  intros Hd [Hlo Hhi]. pose proof (digits2_bounds p) as [H1 H2].
  pose proof (Z.pow_lt_mono_r_iff 2 (d - 1) (Z.pos (digits2_pos p)) ltac:(lia) ltac:(lia)) as [_ Ha].
  pose proof (Z.pow_lt_mono_r_iff 2 (Z.pos (digits2_pos p) - 1) d ltac:(lia) ltac:(lia)) as [_ Hb].
  specialize (Ha ltac:(lia)). specialize (Hb ltac:(lia)). lia.
Qed.

Lemma digits2_upper p k : 0 ≤ k → Z.pos p < 2 ^ k → Z.pos (digits2_pos p) ≤ k.
Proof.
  intros Hk Hp. pose proof (digits2_bounds p) as [Hlo _].
  destruct (decide (Z.pos (digits2_pos p) ≤ k)); [done|].
  pose proof (Z.pow_le_mono_r 2 k (Z.pos (digits2_pos p) - 1) ltac:(lia) ltac:(lia)). lia.
Qed.

Lemma shr_1_div r : 0 ≤ shr_m r → shr_m (shr_1 r) = shr_m r / 2.
Proof.
  destruct r as [[|[p|p|]|p] a b]; cbn [shr_m shr_1]; intros Hr; try done.
  - rewrite Pos2Z.inj_xI. apply (Z.div_unique_pos _ 2 _ 1); lia.
  - rewrite Pos2Z.inj_xO. apply (Z.div_unique_pos _ 2 _ 0); lia.
Qed.
Lemma iter_shr_div p r : 0 ≤ shr_m r → shr_m (iter_pos shr_1 p r) = shr_m r / 2 ^ Z.pos p.
Proof.
  revert r. induction p as [p IH|p IH|]; intros r Hr; cbn [iter_pos].
  - assert (H1 : 0 ≤ shr_m (shr_1 r)) by (rewrite shr_1_div by done; by apply Z.div_pos).
    rewrite !IH, shr_1_div, !Z.div_div by (rewrite ?IH by done; try apply Z.div_pos; lia).
    f_equal. replace (Z.pos p~1) with (1 + Z.pos p + Z.pos p) by lia. rewrite !Z.pow_add_r by lia. lia.
  - rewrite !IH, Z.div_div by (rewrite ?IH by done; try apply Z.div_pos; lia).
    f_equal. replace (Z.pos p~0) with (Z.pos p + Z.pos p) by lia. rewrite Z.pow_add_r by lia. lia.
  - rewrite shr_1_div by done. done.
Qed.

Lemma iter_xO p d : Z.pos (Pos.iter xO p d) = Z.pos p * 2 ^ Z.pos d.
Proof.
  induction d as [|d IH] using Pos.peano_ind; [cbn; lia|].
  rewrite Pos.iter_succ, Pos2Z.inj_succ, Z.pow_succ_r, Pos2Z.inj_xO, IH by lia. lia.
Qed.

(** * Rounding *)

Section rounding.
Context (prec emax : Z) (Hprec : 24 ≤ prec ≤ 64) (Hemax : 1024 ≤ emax).

Lemma fexp_normal x : 24 - emax ≤ x → fexp prec emax x = x - prec.
Proof using Hprec. intros ?. unfold fexp, emin. lia. Qed.
Lemma half_range : 2 ^ prec = 2 * 2 ^ (prec - 1) ∧ 2 ^ (prec - 1) = 2 * 2 ^ (prec - 2) ∧ 0 < 2 ^ (prec - 2).
Proof using Hprec.
  rewrite <-!Z.pow_succ_r by lia. split_and!; [f_equal; lia|f_equal; lia|apply Z.pow_pos_nonneg; lia].
Qed.

(** Rounding up can carry into a new digit, which the second shift of [binary_round_aux] takes
    off again. *)
Lemma renormalise q e :
  2 ^ (prec - 1) ≤ q ≤ 2 ^ prec → 24 - emax ≤ e + prec ≤ emax - 24 →
  ∃ m' e', (let '(mrs'', e'') := shr_fexp prec emax q e loc_Exact in
      match shr_m mrs'' with
      | Z0 => S754_zero false
      | Zpos m => if e'' <=? emax - prec then S754_finite false m e'' else S754_infinity false
      | _ => S754_nan
      end) = S754_finite false m' e' ∧ e ≤ e' ∧ Z.pos m' * 2 ^ (e' - e) = q ∧
    2 ^ (prec - 1) ≤ Z.pos m' < 2 ^ prec.
Proof using Hprec Hemax.
  intros Hq He. pose proof half_range as (Hr1 & Hr2 & Hr3).
  destruct q as [|p|p]; [lia| |lia]. unfold shr_fexp. cbn [Zdigits2 shr_record_of_loc].
  destruct (decide (Z.pos p < 2 ^ prec)).
  - rewrite (digits2_unique p prec), fexp_normal by lia. replace (prec + e - prec - e) with 0 by lia.
    cbn [shr shr_m]. rewrite (proj2 (Z.leb_le _ _)) by lia. eexists p, _. split; [done|]. split; [lia|].
    rewrite Z.sub_diag. lia.
  - assert (Z.pos p = 2 ^ prec) as Hp by lia.
    assert (2 ^ (prec + 1) = 2 * 2 ^ prec) by (rewrite Z.pow_add_r by lia; lia).
    rewrite (digits2_unique p (prec + 1)), fexp_normal by (rewrite ?Z.add_simpl_r; lia).
    replace (prec + 1 + e - prec - e) with 1 by lia.
    unfold shr. cbn [iter_pos]. rewrite shr_1_div by (cbn; lia). cbn [shr_m]. rewrite Hp, Hr1.
    rewrite Z.mul_comm, Z.div_mul by lia. destruct (2 ^ (prec - 1)) as [|q|q] eqn:E; [lia| |lia].
    rewrite (proj2 (Z.leb_le _ _)) by lia. eexists _, _. split; [done|]. split; [lia|].
    replace (e + 1 - e) with 1 by lia. split; lia.
Qed.

(** A number with at least [prec] binary digits, known up to the [loc]ation of its fraction, is
    rounded to a float that differs from it by a factor of at most 1 ± 2^(1 - prec).  Both are
    written as integers in the scale 2^[e]. *)
Lemma round_error m e loc :
  prec ≤ Zdigits2 (Z.pos m) → 24 - emax ≤ e → Zdigits2 (Z.pos m) + e ≤ emax - 24 →
  ∃ m' e', binary_round_aux prec emax false (Z.pos m) e loc = S754_finite false m' e' ∧ e ≤ e' ∧
    Z.pos m * (2 ^ (prec - 1) - 1) ≤ Z.pos m' * 2 ^ (e' - e) * 2 ^ (prec - 1) ≤ Z.pos m * (2 ^ (prec - 1) + 1) ∧
    2 ^ (prec - 1) ≤ Z.pos m' < 2 ^ prec.
Proof using Hprec Hemax.
  intros Hd He Hhi. cbn [Zdigits2] in Hd, Hhi. pose proof (digits2_bounds m) as Hm.
  pose proof half_range as (Hr1 & Hr2 & Hr3).
  set (d := Z.pos (digits2_pos m)) in *. set (k := d - prec).
  unfold binary_round_aux, shr_fexp at 1. cbn [Zdigits2]. fold d. rewrite fexp_normal by lia.
  replace (d + e - prec - e) with k by lia.
  (* the first shift *)
  assert (Hloc : shr_m (shr_record_of_loc (Z.pos m) loc) = Z.pos m) by by destruct loc as [|[]].
  assert (Hshift : ∃ r, shr (shr_record_of_loc (Z.pos m) loc) e k = (r, e + k) ∧ shr_m r = Z.pos m / 2 ^ k).
  { unfold shr. destruct k as [|k'|k'] eqn:Hk; [| |lia].
    - eexists. split; [by rewrite Z.add_0_r|]. by rewrite Hloc, Z.div_1_r.
    - eexists. split; [done|]. by rewrite iter_shr_div, Hloc by (rewrite Hloc; lia). }
  destruct Hshift as (r & -> & Hr). set (q := Z.pos m / 2 ^ k) in *.
  assert (Hk0 : 0 < 2 ^ k) by (apply Z.pow_pos_nonneg; lia).
  assert (Hdm : q * 2 ^ k ≤ Z.pos m < (q + 1) * 2 ^ k).
  { pose proof (Z.div_mod (Z.pos m) (2 ^ k)). pose proof (Z.mod_pos_bound (Z.pos m) (2 ^ k)). unfold q. lia. }
  assert (Hq : 2 ^ (prec - 1) ≤ q < 2 ^ prec).
  { assert (2 ^ (d - 1) = 2 ^ (prec - 1) * 2 ^ k) as E1 by (rewrite <-Z.pow_add_r by lia; f_equal; lia).
    assert (2 ^ d = 2 ^ prec * 2 ^ k) as E2 by (rewrite <-Z.pow_add_r by lia; f_equal; lia). nia. }
  assert (Hround : ∃ q', round_nearest_even (shr_m r) (loc_of_shr_record r) = q' ∧ q ≤ q' ≤ q + 1).
  { eexists. split; [done|]. rewrite Hr. destruct (loc_of_shr_record r) as [|[]]; cbn; [lia| |lia|lia].
    destruct (Z.even q); lia. }
  destruct Hround as (q' & -> & Hq'). clear r Hr.
  destruct (renormalise q' (e + k)) as (m' & e' & -> & He' & Hm' & Hb'); [lia..|].
  exists m', e'. split; [done|]. split; [lia|]. split; [|exact Hb'].
  replace (e' - e) with (e' - (e + k) + k) by lia. rewrite Z.pow_add_r by lia.
  rewrite Z.mul_assoc, Hm'. set (h := 2 ^ (prec - 1)) in *. set (K := 2 ^ k) in *.
  assert (Hh : 1 ≤ h) by lia. set (x := Z.pos m) in *. clearbody h K q x. clear - Hdm Hq Hq' Hk0 Hh. split.
  - assert (x * (h - 1) ≤ (q * K + K) * (h - 1)) by nia. assert (h * K ≤ q * K) by nia.
    assert (q * (K * h) ≤ q' * (K * h)) by nia. lia.
  - assert (q' * (K * h) ≤ (q + 1) * (K * h)) by nia. assert (q * K * h ≤ x * h) by nia.
    assert (h * K ≤ q * K) by nia. lia.
Qed.

(** ** A quotient *)

(** The scale a quotient is computed in: it leaves at least [prec] digits before the point. *)
Definition quotient_scale (m1 : positive) (e1 : Z) (m2 : positive) (e2 : Z) : Z :=
  let d := Zdigits2 (Z.pos m1) - Zdigits2 (Z.pos m2) + (e1 - e2) in Z.min (d - prec) (e1 - e2).

(** A quotient of positive finite numbers, of any precision, is within a factor 1 ± 2^(2 - prec) of
    the exact one. *)
Lemma div_error m1 e1 m2 e2 :
  let s := quotient_scale m1 e1 m2 e2 in
  24 - emax ≤ s → Zdigits2 (Z.pos m1) - Zdigits2 (Z.pos m2) + (e1 - e2) ≤ emax - 124 →
  ∃ m e, SFdiv prec emax (S754_finite false m1 e1) (S754_finite false m2 e2) = S754_finite false m e ∧ s ≤ e ∧
    Z.pos m1 * 2 ^ (e1 - e2 - s) * (2 ^ (prec - 2) - 1) ≤ Z.pos m * 2 ^ (e - s) * Z.pos m2 * 2 ^ (prec - 2)
      ≤ Z.pos m1 * 2 ^ (e1 - e2 - s) * (2 ^ (prec - 2) + 1) ∧
    2 ^ (prec - 1) ≤ Z.pos m < 2 ^ prec.
Proof using Hprec Hemax.
  intros s Hs Hd. pose proof half_range as (Hr1 & Hr2 & Hr3).
  unfold SFdiv, SFdiv_core_binary. cbn [Zdigits2] in *. unfold quotient_scale in *.
  cbn [Zdigits2] in *. set (d1 := Z.pos (digits2_pos m1)) in *. set (d2 := Z.pos (digits2_pos m2)) in *.
  rewrite fexp_normal by lia. replace (d1 + e1 - (d2 + e2) - prec) with (d1 - d2 + (e1 - e2) - prec) by lia.
  fold s. set (k := e1 - e2 - s). assert (Hk : 0 ≤ k) by lia.
  assert (Hm' : match k with Z0 => Z.pos m1 | Zpos _ => Z.shiftl (Z.pos m1) k | Zneg _ => Z0 end = Z.pos m1 * 2 ^ k).
  { destruct k as [|k'|k']; [lia|by rewrite Z.shiftl_mul_pow2 by lia|lia]. }
  rewrite Hm'. set (x := Z.pos m1 * 2 ^ k) in *.
  destruct (Z.div_eucl x (Z.pos m2)) as [q r] eqn:Hq.
  pose proof (Z_div_mod x (Z.pos m2) ltac:(lia)) as Hdm. rewrite Hq in Hdm. destruct Hdm as [Hx Hr]. clear Hq.
  pose proof (digits2_bounds m1) as H1. pose proof (digits2_bounds m2) as H2. fold d1 in H1. fold d2 in H2.
  assert (Hk0 : 0 < 2 ^ k) by (apply Z.pow_pos_nonneg; lia).
  (* the quotient has at least [prec] digits *)
  assert (Hxlo : 2 ^ (prec - 1) * Z.pos m2 ≤ x).
  { assert (2 ^ (d1 - 1) * 2 ^ k = 2 ^ (d1 - 1 + k)) as E1 by (rewrite Z.pow_add_r by lia; done).
    assert (2 ^ (prec - 1) * 2 ^ d2 = 2 ^ (prec - 1 + d2)) as E2 by (rewrite Z.pow_add_r by lia; done).
    assert (2 ^ (prec - 1 + d2) ≤ 2 ^ (d1 - 1 + k)) by (apply Z.pow_le_mono_r; lia). unfold x. nia. }
  assert (Hqlo : 2 ^ (prec - 1) ≤ q) by (clear - Hxlo Hx Hr; nia).
  destruct q as [|q|q]; [lia| |lia].
  assert (Hqd : prec ≤ Zdigits2 (Z.pos q) ≤ d1 + k - d2 + 1).
  { cbn [Zdigits2]. pose proof (digits2_bounds q) as Hqb. set (dq := Z.pos (digits2_pos q)) in *. split.
    - destruct (decide (prec ≤ dq)); [done|]. pose proof (Z.pow_le_mono_r 2 dq (prec - 1) ltac:(lia) ltac:(lia)). lia.
    - destruct (decide (dq ≤ d1 + k - d2 + 1)); [done|]. exfalso.
      assert (2 ^ (dq - 1) * 2 ^ (d2 - 1) = 2 ^ (dq - 1 + (d2 - 1))) as E1 by (rewrite Z.pow_add_r by lia; done).
      assert (2 ^ d1 * 2 ^ k = 2 ^ (d1 + k)) as E2 by (rewrite Z.pow_add_r by lia; done).
      pose proof (Z.pow_le_mono_r 2 (d1 + k) (dq - 1 + (d2 - 1)) ltac:(lia) ltac:(lia)).
      unfold x in Hx. nia. }
  destruct (round_error q s (new_location (Z.pos m2) r)) as (m & e & Hround & He & Hb & Hmb); [lia..|].
  cbn [xorb]. exists m, e. split; [done|]. split; [done|]. split; [|exact Hmb].
  set (y := Z.pos m * 2 ^ (e - s)) in *. assert (0 < y) by (unfold y; apply Z.mul_pos_pos; [lia|apply Z.pow_pos_nonneg; lia]).
  set (h := 2 ^ (prec - 2)) in *. rewrite Hr2 in *. clearbody x y h. clear - Hx Hr Hb Hqlo Hr3. nia.
Qed.

(** ** Exact conversions *)

(** A number of at most [prec] digits is a float: the one whose mantissa has [prec] digits. *)
Lemma round_exact p e :
  let d := Zdigits2 (Z.pos p) in
  d ≤ prec → 24 - emax ≤ d + e ≤ emax - 24 →
  ∃ m, binary_round prec emax false p e = S754_finite false m (e - (prec - d)) ∧
    Z.pos m = Z.pos p * 2 ^ (prec - d) ∧ 2 ^ (prec - 1) ≤ Z.pos m < 2 ^ prec.
Proof using Hprec Hemax.
  intros d Hd He. pose proof (digits2_bounds p) as Hp. cbn [Zdigits2] in d. fold d in Hp.
  unfold binary_round. fold d. rewrite fexp_normal by lia.
  assert (Halign : ∃ m, shl_align p e (d + e - prec) = (m, e - (prec - d)) ∧ Z.pos m = Z.pos p * 2 ^ (prec - d)).
  { unfold shl_align. replace (d + e - prec - e) with (d - prec) by lia. destruct (d - prec) as [|k|k] eqn:Hk; [|lia|].
    - exists p. split; [f_equal; lia|]. replace (prec - d) with 0 by lia. lia.
    - eexists. split; [f_equal; lia|]. rewrite iter_xO. do 2 f_equal. lia. }
  destruct Halign as (m & -> & Hm). exists m.
  assert (Hbounds : 2 ^ (prec - 1) ≤ Z.pos m < 2 ^ prec).
  { assert (2 ^ (prec - 1) = 2 ^ (d - 1) * 2 ^ (prec - d)) as -> by (rewrite <-Z.pow_add_r by lia; f_equal; lia).
    assert (2 ^ prec = 2 ^ d * 2 ^ (prec - d)) as -> by (rewrite <-Z.pow_add_r by lia; f_equal; lia).
    assert (0 < 2 ^ (prec - d)) by (apply Z.pow_pos_nonneg; lia). rewrite Hm. nia. }
  split; [|done]. unfold binary_round_aux, shr_fexp. cbn [Zdigits2]. rewrite (digits2_unique m prec), fexp_normal by lia.
  replace (prec + (e - (prec - d)) - prec - (e - (prec - d))) with 0 by lia.
  cbn [shr shr_record_of_loc shr_m loc_of_shr_record round_nearest_even Zdigits2].
  rewrite (digits2_unique m prec), fexp_normal by lia.
  replace (prec + (e - (prec - d)) - prec - (e - (prec - d))) with 0 by lia.
  cbn [shr shr_m]. rewrite (proj2 (Z.leb_le _ _)) by lia. done.
Qed.
End rounding.

(** * A fraction of a small integer *)

(** The shift that makes 53 digits of a positive number. *)
Definition align (n : Z) : Z := 53 - Zdigits2 n.

(** A positive number below 2^53 is a double. *)
Lemma of_Z_double n :
  0 < n < 2 ^ 53 →
  0 ≤ align n ≤ 52 ∧
  ∃ m, of_Z double n = S754_finite false m (- align n) ∧ Z.pos m = n * 2 ^ align n ∧ 2 ^ 52 ≤ Z.pos m < 2 ^ 53.
Proof.
  intros Hn. destruct n as [|p|p]; [lia| |lia]. unfold align. cbn [Zdigits2].
  pose proof (digits2_upper p 53 ltac:(lia) ltac:(lia)) as Hd.
  split; [lia|]. exact (round_exact 53 1024 ltac:(lia) ltac:(lia) p 0 Hd ltac:(cbn [Zdigits2]; lia)).
Qed.

Lemma shiftl_div m e s : 0 ≤ s → 0 ≤ e + s → Z.shiftl m e = m * 2 ^ (e + s) / 2 ^ s.
Proof.
  intros Hs He. assert (0 < 2 ^ s) by (apply Z.pow_pos_nonneg; lia). destruct (decide (0 ≤ e)).
  - rewrite Z.shiftl_mul_pow2, Z.pow_add_r, Z.mul_assoc, Z.div_mul by lia. done.
  - rewrite Z.shiftl_div_pow2 by lia. replace s with (- e + (e + s)) at 2 by lia.
    rewrite (Z.pow_add_r 2 (- e)), Z.div_mul_cancel_r by (try apply Z.pow_nonzero; lia). done.
Qed.

(** [static_cast<std::uint64_t>(p * static_cast<double>(n))] with [p] = [P] / 2^53: the exact
    product up to a factor of 1 ± 2^-52, truncated. *)
Lemma fraction_of P n :
  2 ^ 52 ≤ Z.pos P < 2 ^ 53 → 0 < n < 2 ^ 53 →
  ∃ w, to_u64 (mul double (S754_finite false P (-53)) (of_Z double n)) = Ret (w / 2 ^ (53 + align n)) ∧
    Z.pos P * (n * 2 ^ align n) * (2 ^ 52 - 1) ≤ w * 2 ^ 52 ≤ Z.pos P * (n * 2 ^ align n) * (2 ^ 52 + 1).
Proof.
  intros HP Hn. destruct (of_Z_double n Hn) as (Ha & m & -> & Hm & Hmb).
  cbn [mul double precision max_exponent]. unfold mul, SFmul. cbn [precision max_exponent double xorb].
  pose proof (digits2_bounds (P * m)) as Hd. rewrite Pos2Z.inj_mul in Hd.
  assert (53 ≤ Z.pos (digits2_pos (P * m)) ≤ 106) as Hdig.
  { split.
    - destruct (decide (53 ≤ Z.pos (digits2_pos (P * m)))); [done|].
      pose proof (Z.pow_le_mono_r 2 (Z.pos (digits2_pos (P * m))) 52 ltac:(lia) ltac:(lia)). nia.
    - destruct (decide (Z.pos (digits2_pos (P * m)) ≤ 106)); [done|].
      pose proof (Z.pow_le_mono_r 2 106 (Z.pos (digits2_pos (P * m)) - 1) ltac:(lia) ltac:(lia)). nia. }
  destruct (round_error 53 1024 ltac:(lia) ltac:(lia) (P * m) (-53 + - align n) loc_Exact) as (m' & e' & -> & He & Hw & _);
    [cbn [Zdigits2]; lia..|].
  rewrite Pos2Z.inj_mul, Hm in Hw. replace (e' - (-53 + - align n)) with (e' + (53 + align n)) in Hw by lia.
  exists (Z.pos m' * 2 ^ (e' + (53 + align n))). split; [|done].
  set (s := 53 + align n) in *. unfold to_u64, truncate. cbn [cond_Zopp].
  rewrite (shiftl_div _ _ s) by lia. set (w := Z.pos m' * 2 ^ (e' + s)) in *.
  assert (Hs : 2 ^ s = 2 ^ 53 * 2 ^ align n) by (apply Z.pow_add_r; lia).
  assert (0 < 2 ^ align n) by (apply Z.pow_pos_nonneg; lia). set (a := 2 ^ align n) in *.
  rewrite decide_True; [done|]. split; [apply Z.div_pos; nia|].
  apply Z.div_le_upper_bound; [lia|]. unfold u64_max. rewrite Hs.
  assert (w * 2 ^ 52 ≤ 2 ^ 53 * (2 ^ 53 * a) * (2 ^ 52 + 1)) by nia. nia.
Qed.

(** * A 64-bit integer divided by a double *)

(** [m * 2^e] as a fraction. *)
Definition ratio (m : positive) (e : Z) : Z * Z := (Z.pos m * 2 ^ Z.max e 0, 2 ^ Z.max (- e) 0).

(** The finite doubles: 53 digits and the range of the exponents. *)
Lemma valid_double m e :
  valid_binary 53 1024 (S754_finite false m e) = true → Z.pos (digits2_pos m) ≤ 53 ∧ -1074 ≤ e ≤ 971.
Proof.
  cbn [valid_binary]. unfold bounded, canonical_mantissa, fexp, emin. intros [Hc He]%andb_prop.
  apply Z.eqb_eq in Hc. apply Z.leb_le in He. lia.
Qed.

(** The integer part of [m * 2^e] in a scale that makes it whole. *)
Lemma truncate_scaled m e t :
  0 ≤ t → 0 ≤ e + t → let y := Z.pos m * 2 ^ (e + t) in
  truncate false m e * 2 ^ t ≤ y < (truncate false m e + 1) * 2 ^ t.
Proof.
  intros Ht He y. unfold truncate. cbn [cond_Zopp]. rewrite (shiftl_div _ _ t) by done. fold y.
  assert (0 < 2 ^ t) by (apply Z.pow_pos_nonneg; lia).
  pose proof (Z.div_mod y (2 ^ t)). pose proof (Z.mod_pos_bound y (2 ^ t)). lia.
Qed.

(** The quotient of a positive 64-bit integer by a positive double [P] / [Q] in the 64 digits of a
    [long double]: a float of 64 digits that, in a scale 2^-[t] that makes it whole, differs from
    the exact quotient by a factor of at most 1 ± 2^-62. *)
Lemma long_quotient n m e :
  0 < n ≤ u64_max → valid_binary 53 1024 (S754_finite false m e) = true →
  ∃ m' e' t P Q,
    div long_double (of_Z long_double n) (convert long_double (S754_finite false m e)) = S754_finite false m' e' ∧
    ratio m e = (P, Q) ∧ 0 < P ∧ 0 < Q ∧ 0 ≤ t ∧ 0 ≤ e' + t ∧ 2 ^ 63 ≤ Z.pos m' < 2 ^ 64 ∧
    n * Q * 2 ^ t * (2 ^ 62 - 1) ≤ Z.pos m' * 2 ^ (e' + t) * P * 2 ^ 62 ≤ n * Q * 2 ^ t * (2 ^ 62 + 1).
Proof.
  intros Hn [Hd He]%valid_double. destruct n as [|n|n]; [lia| |lia].
  pose proof (digits2_upper n 64 ltac:(lia) ltac:(word_lia)) as Hdn.
  destruct (round_exact 64 16384 ltac:(lia) ltac:(lia) n 0 Hdn ltac:(cbn [Zdigits2]; lia)) as (m1 & Hm1 & Hv1 & Hb1).
  destruct (round_exact 64 16384 ltac:(lia) ltac:(lia) m e ltac:(cbn [Zdigits2]; lia) ltac:(cbn [Zdigits2]; lia))
    as (m2 & Hm2 & Hv2 & Hb2).
  cbn [Zdigits2] in *. set (a1 := 64 - Z.pos (digits2_pos n)) in *. set (a2 := 64 - Z.pos (digits2_pos m)) in *.
  change (of_Z long_double (Z.pos n)) with (binary_round 64 16384 false n 0).
  change (convert long_double (S754_finite false m e)) with (binary_round 64 16384 false m e).
  unfold div. cbn [precision max_exponent long_double]. rewrite Hm1, Hm2.
  pose proof (div_error 64 16384 ltac:(lia) ltac:(lia) m1 (0 - a1) m2 (e - a2)) as Hdiv. cbn [Zdigits2] in Hdiv.
  set (s := 0 - a1 - (e - a2) - 64).
  assert (Hs : quotient_scale 64 m1 (0 - a1) m2 (e - a2) = s).
  { unfold quotient_scale. cbn [Zdigits2]. rewrite (digits2_unique m1 64), (digits2_unique m2 64) by lia. lia. }
  rewrite Hs, (digits2_unique m1 64), (digits2_unique m2 64) in Hdiv by lia.
  destruct Hdiv as (m' & e' & -> & He' & Hb & Hm'); [lia..|].
  exists m', e', (Z.max (- s) 0). eexists _, _. split; [done|]. split; [reflexivity|].
  set (t := Z.max (- s) 0). assert (Hpow : ∀ k, 0 ≤ k → 0 < 2 ^ k) by (intros; by apply Z.pow_pos_nonneg).
  pose proof (Hpow (Z.max e 0) ltac:(lia)). pose proof (Hpow (Z.max (- e) 0) ltac:(lia)).
  split_and!; [nia|lia|lia|lia|lia|lia| |].
  all: replace (0 - a1 - (e - a2) - s) with 64 in Hb by lia; rewrite Hv1, Hv2 in Hb.
  all: replace (e' + t) with (e' - s + (s + t)) by lia; rewrite (Z.pow_add_r 2 (e' - s)) by lia.
  all: set (y := Z.pos m' * 2 ^ (e' - s)) in *; rewrite (Z.mul_assoc (Z.pos m')); fold y.
  all: assert (Hscale : 2 ^ a1 * 2 ^ 64 * 2 ^ (s + t) * 2 ^ Z.max e 0 = 2 ^ a2 * 2 ^ Z.max (- e) 0 * 2 ^ t)
    by (rewrite <-!Z.pow_add_r by lia; f_equal; lia).
  all: pose proof (Hpow a2 ltac:(lia)) as Hp2; pose proof (Hpow (s + t) ltac:(lia)) as Hpt.
  all: apply (Z.mul_le_mono_pos_l _ _ (2 ^ a2) Hp2).
  all: set (A1 := 2 ^ a1) in *; set (A2 := 2 ^ a2) in *; set (E := 2 ^ Z.max e 0) in *;
    set (F := 2 ^ Z.max (- e) 0) in *; set (T := 2 ^ t) in *; set (S := 2 ^ (s + t)) in *.
  - transitivity (Z.pos n * A1 * 2 ^ 64 * (2 ^ 62 - 1) * (S * E)).
    { apply Z.eq_le_incl. transitivity (Z.pos n * (A2 * F * T) * (2 ^ 62 - 1)); [ring|]. rewrite <-Hscale. ring. }
    transitivity (y * (Z.pos m * A2) * 2 ^ 62 * (S * E)).
    { apply Z.mul_le_mono_nonneg_r; [nia|]. exact (proj1 Hb). }
    apply Z.eq_le_incl. ring.
  - transitivity (y * (Z.pos m * A2) * 2 ^ 62 * (S * E)); [apply Z.eq_le_incl; ring|].
    transitivity (Z.pos n * A1 * 2 ^ 64 * (2 ^ 62 + 1) * (S * E)).
    { apply Z.mul_le_mono_nonneg_r; [nia|]. exact (proj2 Hb). }
    apply Z.eq_le_incl. transitivity (Z.pos n * (A2 * F * T) * (2 ^ 62 + 1)); [|ring]. rewrite <-Hscale. ring.
Qed.

(** * Results that are numbers *)

Definition is_nan (x : spec_float) : bool := match x with S754_nan => true | _ => false end.

Section numbers.
Context (prec emax : Z).

Lemma shr_nonneg r e n : 0 ≤ shr_m r → 0 ≤ shr_m (shr r e n).1.
Proof.
  intros Hr. destruct n as [|n|n]; [done| |done]. cbn [shr fst]. rewrite iter_shr_div by done.
  apply Z.div_pos; [done|]. apply Z.pow_pos_nonneg; lia.
Qed.
Lemma shr_fexp_nonneg m e l : 0 ≤ m → 0 ≤ shr_m (shr_fexp prec emax m e l).1.
Proof. intros. apply shr_nonneg. by destruct l as [|[]]. Qed.
(** Rounding gives a number. *)
Lemma rounded_not_nan s m e l : 0 ≤ m → is_nan (binary_round_aux prec emax s m e l) = false.
Proof.
  intros Hm. unfold binary_round_aux. pose proof (shr_fexp_nonneg m e l Hm) as H1.
  destruct (shr_fexp prec emax m e l) as [r e']. cbn [fst] in H1. set (m' := round_nearest_even _ _).
  assert (Hm' : 0 ≤ m').
  { unfold m', round_nearest_even. destruct (loc_of_shr_record r) as [|[]]; [lia| |lia..]. destruct (Z.even (shr_m r)); lia. }
  pose proof (shr_fexp_nonneg m' e' loc_Exact Hm') as H2. destruct (shr_fexp prec emax m' e' loc_Exact) as [r' e''].
  cbn [fst] in H2. destruct (shr_m r'); [done| |lia]. by destruct (_ <=? _).
Qed.
Lemma normalized_not_nan z e s : is_nan (binary_normalize prec emax z e s) = false.
Proof. by destruct z as [|p|p]; [|unfold binary_normalize, binary_round; destruct (shl_align _ _ _); apply rounded_not_nan..]. Qed.

(** A quotient is a number unless it is 0/0 or the quotient of two infinities. *)
Lemma quotient_not_nan x y :
  is_nan x = false → is_nan y = false →
  match x, y with S754_zero _, S754_zero _ | S754_infinity _, S754_infinity _ => False | _, _ => True end →
  is_nan (SFdiv prec emax x y) = false.
Proof.
  intros Hx Hy Hxy. destruct x as [| | |s m e], y as [| | |s' m' e']; try done. unfold SFdiv.
  destruct (SFdiv_core_binary prec emax (Z.pos m) e (Z.pos m') e') as [[q e''] l] eqn:Hq. apply rounded_not_nan.
  unfold SFdiv_core_binary in Hq. set (k := _ - Z.min _ _) in Hq. set (n := match k with Z0 => _ | _ => _ end) in Hq.
  assert (0 ≤ n) by (unfold n; destruct k; [lia| |lia]; apply Z.shiftl_nonneg; lia).
  pose proof (Z_div_mod n (Z.pos m') ltac:(lia)) as Hdiv. destruct (Z.div_eucl n (Z.pos m')) as [q' r]. simplify_eq. nia.
Qed.
End numbers.

Lemma duration_not_nan period ns : 0 < period < 2 ^ 53 → is_nan (duration period ns) = false.
Proof.
  intros Hp. unfold duration, div. destruct (of_Z_double period Hp) as (_ & m & -> & _).
  pose proof (normalized_not_nan 53 1024 ns 0 false : is_nan (of_Z double ns) = false) as Hn.
  apply quotient_not_nan; [done..|]. by destruct (of_Z double ns).
Qed.
(** * Quotients of doubles *)

Lemma ratio_positive m e : 0 < (ratio m e).1 ∧ 0 < (ratio m e).2.
Proof. unfold ratio. cbn [fst snd]. split; [apply Z.mul_pos_pos; [lia|]|]; apply Z.pow_pos_nonneg; lia. Qed.

(** [x] is a double that differs from [num] / [den] by at most a part in 2^[k]. *)
Definition approximates (k num den : Z) (x : spec_float) : Prop :=
  match x with
  | S754_finite false m e => let '(P, Q) := ratio m e in Z.abs (P * den - num * Q) * 2 ^ k ≤ num * Q
  | _ => False
  end.
(** One with 53 digits, and [r] as a bound of its exponent. *)
Definition approximately (r k num den : Z) (x : spec_float) : Prop :=
  ∃ m e, x = S754_finite false m e ∧ 2 ^ 52 ≤ Z.pos m < 2 ^ 53 ∧ Z.abs e ≤ r ∧ approximates k num den x.

Lemma of_Z_approximately n : 0 < n < 2 ^ 53 → approximately 52 60 n 1 (of_Z double n).
Proof.
  intros Hn. destruct (of_Z_double n Hn) as (Ha & m & -> & Hm & Hb). exists m, (- align n).
  split_and!; [done|lia..|]. unfold approximates, ratio. rewrite Hm, Z.max_r, Z.opp_involutive, Z.max_l, Z.pow_0_r by lia.
  assert (0 < 2 ^ align n) by (apply Z.pow_pos_nonneg; lia). replace (_ * 1 * 1 - _) with 0 by ring. cbn. nia.
Qed.

(** The errors of the operands and of the division add up. *)
Definition errors_fit (a b k : Z) : Prop :=
  (2 ^ 51 + 1) * (2 ^ a + 1) * 2 ^ b * 2 ^ k ≤ (2 ^ k + 1) * (2 ^ b - 1) * 2 ^ 51 * 2 ^ a ∧
  (2 ^ k - 1) * (2 ^ b + 1) * 2 ^ 51 * 2 ^ a ≤ (2 ^ 51 - 1) * (2 ^ a - 1) * 2 ^ b * 2 ^ k.

Lemma cancel_products c x y a1 a2 a3 a4 b1 b2 b3 b4 :
  0 < c → 0 ≤ a1 ≤ b1 → 0 ≤ a2 ≤ b2 → 0 ≤ a3 ≤ b3 → 0 ≤ a4 ≤ b4 →
  x * c = a1 * a2 * (a3 * a4) → y * c = b1 * b2 * (b3 * b4) → x ≤ y.
Proof.
  intros Hc H1 H2 H3 H4 Hx Hy. apply (Z.mul_le_mono_pos_r _ _ c Hc). rewrite Hx, Hy.
  repeat apply Z.mul_le_mono_nonneg; try apply Z.mul_nonneg_nonneg; lia.
Qed.
Lemma quotient_bounds P1 Q1 P2 Q2 P Q n1 d1 n2 d2 A B K :
  0 < P1 → 0 < Q1 → 0 < P2 → 0 < Q2 → 0 < P → 0 < Q → 0 < n1 → 0 < d1 → 0 < n2 → 0 < d2 → 1 < A → 1 < B → 1 < K →
  n1 * Q1 * (A - 1) ≤ P1 * d1 * A ≤ n1 * Q1 * (A + 1) →
  n2 * Q2 * (B - 1) ≤ P2 * d2 * B ≤ n2 * Q2 * (B + 1) →
  P1 * Q2 * Q * (2 ^ 51 - 1) ≤ P * Q1 * P2 * 2 ^ 51 ≤ P1 * Q2 * Q * (2 ^ 51 + 1) →
  (2 ^ 51 + 1) * (A + 1) * B * K ≤ (K + 1) * (B - 1) * 2 ^ 51 * A →
  (K - 1) * (B + 1) * 2 ^ 51 * A ≤ (2 ^ 51 - 1) * (A - 1) * B * K →
  n1 * d2 * Q * (K - 1) ≤ P * (d1 * n2) * K ≤ n1 * d2 * Q * (K + 1).
Proof.
  intros HP1 HQ1 HP2 HQ2 HP HQ Hn1 Hd1 Hn2 Hd2 HA HB HK [X1 X2] [Y1 Y2] [Z1 Z2] E1 E2. set (h := 2 ^ 51) in *.
  assert (Hh : 1 < h) by (unfold h; lia). clearbody h. split.
  - apply (cancel_products (P1 * P2 * Q1 * Q2 * A * B * h * (A - 1) * (B + 1) * (h - 1)) _ _
      (P1 * Q2 * Q * (h - 1)) (n1 * Q1 * (A - 1)) (P2 * d2 * B) ((K - 1) * (B + 1) * h * A)
      (P * Q1 * P2 * h) (P1 * d1 * A) (n2 * Q2 * (B + 1)) ((h - 1) * (A - 1) * B * K)); [..|ring|ring].
    1: repeat apply Z.mul_pos_pos; lia.
    all: split; [repeat apply Z.mul_nonneg_nonneg; lia|lia].
  - apply (cancel_products (P1 * P2 * Q1 * Q2 * A * B * h * (A + 1) * (B - 1) * (h + 1)) _ _
      (P * Q1 * P2 * h) (P1 * d1 * A) (n2 * Q2 * (B - 1)) ((h + 1) * (A + 1) * B * K)
      (P1 * Q2 * Q * (h + 1)) (n1 * Q1 * (A + 1)) (P2 * d2 * B) ((K + 1) * (B - 1) * h * A)); [..|ring|ring].
    1: repeat apply Z.mul_pos_pos; lia.
    all: split; [repeat apply Z.mul_nonneg_nonneg; lia|lia].
Qed.

(** The quotient of two doubles of 53 digits. *)
Lemma double_quotient m1 e1 m2 e2 :
  2 ^ 52 ≤ Z.pos m1 < 2 ^ 53 → 2 ^ 52 ≤ Z.pos m2 < 2 ^ 53 → Z.abs (e1 - e2) ≤ 700 →
  ∃ m e, div double (S754_finite false m1 e1) (S754_finite false m2 e2) = S754_finite false m e ∧
    2 ^ 52 ≤ Z.pos m < 2 ^ 53 ∧ Z.abs e ≤ Z.abs (e1 - e2) + 53 ∧
    let '(P1, Q1) := ratio m1 e1 in let '(P2, Q2) := ratio m2 e2 in let '(P, Q) := ratio m e in
    P1 * Q2 * Q * (2 ^ 51 - 1) ≤ P * Q1 * P2 * 2 ^ 51 ≤ P1 * Q2 * Q * (2 ^ 51 + 1).
Proof.
  intros H1 H2 He. pose proof (div_error 53 1024 ltac:(lia) ltac:(lia) m1 e1 m2 e2) as Hdiv.
  assert (quotient_scale 53 m1 e1 m2 e2 = e1 - e2 - 53) as Hs.
  { unfold quotient_scale. cbn [Zdigits2]. rewrite (digits2_unique m1 53), (digits2_unique m2 53) by lia. lia. }
  cbn [Zdigits2] in Hdiv. rewrite Hs, (digits2_unique m1 53), (digits2_unique m2 53) in Hdiv by lia.
  destruct Hdiv as (m & e & Hq & Hle & Hb & Hm); [lia..|]. set (s := e1 - e2 - 53) in *.
  replace (e1 - e2 - s) with 53 in Hb by lia. exists m, e. split; [exact Hq|]. split; [exact Hm|].
  change (53 - 2) with 51 in Hb. change (53 - 1) with 52 in Hm.
  assert (Hup : e - s ≤ 53).
  { destruct (decide (e - s ≤ 53)); [done|]. exfalso. pose proof (Z.pow_le_mono_r 2 54 (e - s) ltac:(lia) ltac:(lia)) as Hp.
    assert (2 ^ 52 * 2 ^ 54 ≤ Z.pos m * 2 ^ (e - s)) by (apply Z.mul_le_mono_nonneg; lia). nia. }
  split; [lia|]. unfold ratio.
  set (x := Z.max e1 0 + Z.max (- e2) 0 + Z.max (- e) 0). set (y := Z.max e 0 + Z.max (- e1) 0 + Z.max e2 0).
  assert (Hx : 2 ^ Z.max e1 0 * 2 ^ Z.max (- e2) 0 * 2 ^ Z.max (- e) 0 = 2 ^ x) by (rewrite <-!Z.pow_add_r by lia; done).
  assert (Hy : 2 ^ Z.max e 0 * 2 ^ Z.max (- e1) 0 * 2 ^ Z.max e2 0 = 2 ^ y) by (rewrite <-!Z.pow_add_r by lia; done).
  assert (Hx0 : 0 ≤ x) by (unfold x; clear; lia). assert (Hy0 : 0 ≤ y) by (unfold y; clear; lia).
  assert (Hxy : e - s + x = y + 53).
  { unfold x, y, s. assert (Hmax : ∀ z, Z.max z 0 = z + Z.max (- z) 0) by (clear; lia).
    rewrite (Hmax e), (Hmax e1), (Hmax e2). clear. ring. }
  assert (Hscale : 2 ^ (e - s) * 2 ^ x = 2 ^ y * 2 ^ 53) by (rewrite <-!Z.pow_add_r by (done || (clear - Hle; lia)); by f_equal).
  assert (0 < 2 ^ x) as Hp by by apply Z.pow_pos_nonneg. set (h := 2 ^ 51) in *. set (K := 2 ^ 53) in *.
  assert (0 < K) as HK by done. clearbody h K.
  set (X := 2 ^ x) in *. set (Y := 2 ^ y) in *. set (W := 2 ^ (e - s)) in *. clearbody X Y W.
  set (E1 := 2 ^ Z.max e1 0) in *. set (F1 := 2 ^ Z.max (- e1) 0) in *. set (E2 := 2 ^ Z.max e2 0) in *.
  set (F2 := 2 ^ Z.max (- e2) 0) in *. set (E := 2 ^ Z.max e 0) in *. set (F := 2 ^ Z.max (- e) 0) in *.
  clearbody E1 F1 E2 F2 E F. clear - Hb Hx Hy Hscale Hp HK.
  assert (Hmid : Z.pos m * E * F1 * (Z.pos m2 * E2) * h * K = Z.pos m * W * Z.pos m2 * h * X).
  { transitivity (Z.pos m * Z.pos m2 * h * (Y * K)); [rewrite <-Hy; ring|rewrite <-Hscale; ring]. }
  split; apply (Z.mul_le_mono_pos_r _ _ K HK); rewrite Hmid.
  - transitivity (Z.pos m1 * K * (h - 1) * X); [rewrite <-Hx; apply Z.eq_le_incl; ring|].
    apply Z.mul_le_mono_nonneg_r; lia.
  - transitivity (Z.pos m1 * K * (h + 1) * X); [|rewrite <-Hx; apply Z.eq_le_incl; ring].
    apply Z.mul_le_mono_nonneg_r; lia.
Qed.

Lemma approximates_bounds k num den m e :
  0 ≤ k → approximates k num den (S754_finite false m e) ↔
    let '(P, Q) := ratio m e in num * Q * (2 ^ k - 1) ≤ P * den * 2 ^ k ≤ num * Q * (2 ^ k + 1).
Proof.
  intros Hk. unfold approximates. destruct (ratio m e) as [P Q]. assert (0 < 2 ^ k) by (apply Z.pow_pos_nonneg; lia).
  destruct (Z.abs_spec (P * den - num * Q)) as [[? ->]|[? ->]]; nia.
Qed.
Lemma div_approximately r1 r2 a b k n1 d1 n2 d2 x y :
  approximately r1 a n1 d1 x → approximately r2 b n2 d2 y → 0 ≤ r1 + r2 ≤ 700 → errors_fit a b k →
  0 < a → 0 < b → 0 < k → 0 < n1 → 0 < d1 → 0 < n2 → 0 < d2 →
  approximately (r1 + r2 + 53) k (n1 * d2) (d1 * n2) (div double x y).
Proof.
  intros (m1 & e1 & -> & H1 & R1 & A1) (m2 & e2 & -> & H2 & R2 & A2) Hr [E1 E2] Ha Hb Hk Hn1 Hd1 Hn2 Hd2.
  destruct (double_quotient m1 e1 m2 e2 H1 H2 ltac:(lia)) as (m & e & -> & Hm & He & Hq).
  exists m, e. split_and!; [done|lia..|]. apply approximates_bounds; [lia|].
  apply approximates_bounds in A1; [|lia]. apply approximates_bounds in A2; [|lia].
  pose proof (ratio_positive m1 e1) as [HP1 HQ1]. pose proof (ratio_positive m2 e2) as [HP2 HQ2].
  pose proof (ratio_positive m e) as [HP HQ].
  destruct (ratio m1 e1) as [P1 Q1], (ratio m2 e2) as [P2 Q2], (ratio m e) as [P Q]. cbn [fst snd] in *.
  assert (∀ z, 0 < z → 1 < 2 ^ z) as Hpow by (intros; by apply Z.pow_gt_1).
  by apply (quotient_bounds P1 Q1 P2 Q2 P Q n1 d1 n2 d2 (2 ^ a) (2 ^ b) (2 ^ k)); auto.
Qed.

(** A duration of less than 104 days, in a unit of [period] nanoseconds. *)
Lemma duration_approximately period ns :
  0 < period < 2 ^ 53 → 0 < ns < 2 ^ 53 → approximately 157 50 ns period (duration period ns).
Proof.
  intros Hp Hns. pose proof (div_approximately 52 52 60 60 50 ns 1 period 1 _ _
    (of_Z_approximately ns Hns) (of_Z_approximately period Hp)) as Hd. rewrite Z.mul_1_r, Z.mul_1_l in Hd.
  apply Hd; first [done|split; done|lia].
Qed.
Lemma approximately_approximates r k num den x : approximately r k num den x → approximates k num den x.
Proof. by intros (m & e & -> & _ & _ & ?). Qed.

End Floats.
