(* ===== verification/Types.v ===== *)
(** Domain types: [include/efe/types.hpp] and [include/efe/events.hpp].  The aliases [OrderId],
    [Timestamp], [SequenceNumber] (64-bit), [Quantity], [Price], [SlotIndex] (32-bit) are [Z]
    with the width stated where it matters ([order_ok]). *)
From S2P Require Import Prelude Floats.
From Stdlib Require Import Strings.Byte.

Definition kInvalidSlot : Z := 4294967295.

(** A price has four implied decimal places. *)
Definition to_decimal_price (raw_price : Z) : spec_float :=
  Floats.div Floats.double (Floats.of_Z Floats.double raw_price) (Floats.of_Z Floats.double 10000).

(** * Symbols: eight bytes, space padded *)

Definition space : byte := Byte.x20.

Module Symbol.
Definition width : nat := 8.

Record t : Type := mk { bytes : list byte }.

(** [memcpy] of the first [min (size, 8)] characters, then spaces. *)
Definition from_string (value : list byte) : t :=
  let n := Nat.min (length value) width in
  mk (take n value ++ replicate (width - n) space).

Definition from_padded (value : list byte) : t :=
  let n := Nat.min (length value) width in
  mk (take n value ++ replicate (width - n) space).

(** The loop [while (n > 0 && bytes[n - 1] == ' ') --n]. *)
Fixpoint str_len (bs : list byte) (n : nat) : nat :=
  match n with
  | O => O
  | S n' => if decide (bs !! n' = Some space) then str_len bs n' else n
  end.
Definition str (s : t) : list byte := take (str_len (bytes s) (length (bytes s))) (bytes s).

(** [operator<<]; a stream is the text written to it. *)
Definition output (os : list byte) (s : t) : list byte := os ++ str s.

(** [SymbolHash]: FNV-1a. *)
Definition hash (s : t) : Z :=
  foldl (λ h c, u64 (Z.lxor h (Z_of_byte c) * 1099511628211)) 1469598103934665603 (bytes s).
End Symbol.

#[export] Instance symbol_eq_dec : EqDecision Symbol.t.
Proof. solve_decision. Defined.
#[export] Instance symbol_countable : Countable Symbol.t.
Proof. by apply (inj_countable' Symbol.bytes Symbol.mk); intros []. Defined.

(** Symbols order [std::map<Symbol, SymbolBook>] by [std::array<char, 8>]'s lexicographic [<].
    Whether [char] is signed is the implementation's choice, so it is an argument. *)
Definition char_value (char_is_signed : bool) (b : byte) : Z :=
  let z := Z_of_byte b in
  if char_is_signed && (128 <=? z) then z - 256 else z.

Fixpoint bytes_le (char_is_signed : bool) (a b : list byte) : bool :=
  match a, b with
  | [], _ => true
  | _ :: _, [] => false
  | x :: a', y :: b' =>
      let vx := char_value char_is_signed x in
      let vy := char_value char_is_signed y in
      if vx <? vy then true else if vy <? vx then false else bytes_le char_is_signed a' b'
  end.

(** [!(b < a)]: the order [std::map] iterates in. *)
Definition symbol_le (char_is_signed : bool) : relation Symbol.t := λ a b,
  bytes_le char_is_signed (Symbol.bytes a) (Symbol.bytes b) = true.
#[export] Instance symbol_le_dec c : RelDecision (symbol_le c).
Proof. intros a b. unfold symbol_le. apply _. Defined.

(** * Sides *)

Variant Side : Type := Buy | Sell.
#[export] Instance side_eq_dec : EqDecision Side.
Proof. solve_decision. Defined.
#[export] Instance side_countable : Countable Side.
Proof.
  apply (inj_countable' (λ s, match s with Buy => true | Sell => false end)
           (λ b : bool, if b then Buy else Sell)).
  by intros [].
Defined.
(** [static_cast<std::uint8_t>(side)] *)
Definition side_value (s : Side) : Z := match s with Buy => 0 | Sell => 1 end.
Definition side_to_string (s : Side) : string :=
  match s with Buy => "BUY" | Sell => "SELL" end.

(** * Orders and events *)

Record EventMeta : Type := mkMeta {
  stock_locate : Z;
  tracking_number : Z;
  timestamp_ns : Z }.

Record Order : Type := mkOrder {
  id : Z;
  symbol : Symbol.t;
  side : Side;
  quantity : Z;
  price : Z }.

Definition default_order : Order :=
  mkOrder 0 (Symbol.mk (replicate 8 Byte.x00)) Buy 0 0.

Record AddEvent : Type := mkAdd { add_meta : EventMeta; add_order : Order }.
Record ExecuteEvent : Type := mkExecute {
  exec_meta : EventMeta;
  exec_order_id : Z;
  executed_shares : Z;
  match_number : Z;
  has_execution_price : bool;
  execution_price : Z;
  printable : bool }.
Record CancelEvent : Type := mkCancel {
  cancel_meta : EventMeta;
  cancel_order_id : Z;
  canceled_shares : Z }.
Record DeleteEvent : Type := mkDelete { delete_meta : EventMeta; delete_order_id : Z }.
Record ReplaceEvent : Type := mkReplace {
  replace_meta : EventMeta;
  old_order_id : Z;
  new_order_id : Z;
  new_quantity : Z;
  new_price : Z }.

(** [std::variant<AddEvent, ExecuteEvent, CancelEvent, DeleteEvent, ReplaceEvent>] *)
Inductive MarketEvent : Type :=
| Add (e : AddEvent)
| Execute (e : ExecuteEvent)
| Cancel (e : CancelEvent)
| Delete (e : DeleteEvent)
| Replace (e : ReplaceEvent).

(** [std::variant::index] *)
Definition event_index (e : MarketEvent) : Z :=
  match e with Add _ => 0 | Execute _ => 1 | Cancel _ => 2 | Delete _ => 3 | Replace _ => 4 end.

#[export] Instance meta_eq_dec : EqDecision EventMeta.
Proof. solve_decision. Defined.
#[export] Instance order_eq_dec : EqDecision Order.
Proof. solve_decision. Defined.
#[export] Instance add_eq_dec : EqDecision AddEvent.
Proof. solve_decision. Defined.
#[export] Instance execute_eq_dec : EqDecision ExecuteEvent.
Proof. solve_decision. Defined.
#[export] Instance cancel_eq_dec : EqDecision CancelEvent.
Proof. solve_decision. Defined.
#[export] Instance delete_eq_dec : EqDecision DeleteEvent.
Proof. solve_decision. Defined.
#[export] Instance replace_eq_dec : EqDecision ReplaceEvent.
Proof. solve_decision. Defined.
#[export] Instance event_eq_dec : EqDecision MarketEvent.
Proof. solve_decision. Defined.

(** The fields have the width of their C++ type. *)
Definition order_ok (o : Order) : Prop := 0 ≤ id o ≤ u64_max ∧ 0 ≤ quantity o ≤ u32_max.
Definition event_ok (e : MarketEvent) : Prop :=
  match e with
  | Add e => order_ok (add_order e)
  | Execute e => 0 ≤ exec_order_id e ≤ u64_max ∧ 0 ≤ executed_shares e ≤ u32_max
  | Cancel e => 0 ≤ cancel_order_id e ≤ u64_max ∧ 0 ≤ canceled_shares e ≤ u32_max
  | Delete e => 0 ≤ delete_order_id e ≤ u64_max
  | Replace e =>
      0 ≤ old_order_id e ≤ u64_max ∧ 0 ≤ new_order_id e ≤ u64_max ∧ 0 ≤ new_quantity e ≤ u32_max
  end.
