(* ===== verification/FlatOrderIndex.v ===== *)
(** The open-addressing order index: [include/efe/flat_order_index.hpp].  First the class as the
    code has it, then its refinement of a finite map: the probe-path invariant [models] and one
    law per operation, packed for clients in the class [IndexContract]. *)
From S2P Require Import Prelude Types.

Module FlatOrderIndex.

Variant State : Type := Empty | Occupied | Tombstone.
#[export] Instance state_eq_dec : EqDecision State.
Proof. solve_decision. Defined.

Record Entry : Type := mkEntry { key : Z; value : Z; state : State }.
Definition default_entry : Entry := mkEntry 0 kInvalidSlot Empty.

Record t : Type := mk { entries_ : list Entry; mask_ : Z; size_ : Z }.

(** The SplitMix64 finalizer. *)
Definition hash (x : Z) : Z :=
  let x := Z.lxor x (Z.shiftr x 30) in
  let x := u64 (x * 0xbf58476d1ce4e5b9) in
  let x := Z.lxor x (Z.shiftr x 27) in
  let x := u64 (x * 0x94d049bb133111eb) in
  Z.lxor x (Z.shiftr x 31).

(** [std::bit_ceil]: the smallest power of two not below [x]; undefined when it is not
    representable in 64 bits. *)
Definition bit_ceil (x : Z) : outcome Z :=
  if x <=? 1 then Ret 1
  else if x <=? 2 ^ 63 then Ret (2 ^ Z.log2_up x)
  else Undef "std::bit_ceil: result not representable".

Definition new (max_entries : Z) : outcome t :=
  let wanted := if max_entries <? 8 then 16 else u64 (max_entries * 2) in
  cap ← bit_ceil wanted;
  Ret (mk (replicate (Z.to_nat cap) default_entry) (cap - 1) 0).

(** [entries_[pos]] *)
Definition at_ (es : list Entry) (pos : Z) : outcome Entry :=
  match vget es pos with
  | Some e => Ret e
  | None => Undef "entries_[pos]: index out of range"
  end.

(** The probe loops are bounded by [entries_.size()]: the structural argument is the number of
    probes left. *)
Fixpoint find_loop (es : list Entry) (mask k : Z) (probes_left : nat) (pos : Z)
    : outcome (option Z) :=
  match probes_left with
  | O => Ret None
  | S n =>
      e ← at_ es pos;
      if decide (state e = Empty) then Ret None
      else if decide (state e = Occupied ∧ key e = k) then Ret (Some (value e))
      else find_loop es mask k n (Z.land (pos + 1) mask)
  end.

Definition find (idx : t) (k : Z) : outcome (option Z) :=
  find_loop (entries_ idx) (mask_ idx) k (length (entries_ idx)) (Z.land (hash k) (mask_ idx)).

(** [entries_[target] = Entry{key, value, Occupied}; ++size_;] *)
Definition occupy (idx : t) (target k v : Z) : t :=
  mk (vset (entries_ idx) target (mkEntry k v Occupied)) (mask_ idx) (size_ idx + 1).

Fixpoint insert_loop (idx : t) (k v : Z) (probes_left : nat) (pos : Z) (tombstone : option Z)
    : outcome (bool * t) :=
  match probes_left with
  | O =>
      match tombstone with
      | Some target => Ret (true, occupy idx target k v)
      | None => Ret (false, idx)
      end
  | S n =>
      e ← at_ (entries_ idx) pos;
      if decide (state e = Occupied ∧ key e = k) then Ret (false, idx)
      else
        let tombstone :=
          if decide (state e = Tombstone ∧ tombstone = None) then Some pos else tombstone in
        if decide (state e = Empty) then
          let target := default pos tombstone in
          Ret (true, occupy idx target k v)
        else insert_loop idx k v n (Z.land (pos + 1) (mask_ idx)) tombstone
  end.

Definition insert (idx : t) (k v : Z) : outcome (bool * t) :=
  let n := Z.of_nat (length (entries_ idx)) in
  if u64 (n * 7) <=? u64 (size_ idx * 10) then Ret (false, idx)
  else insert_loop idx k v (length (entries_ idx)) (Z.land (hash k) (mask_ idx)) None.

Fixpoint erase_loop (idx : t) (k : Z) (probes_left : nat) (pos : Z) : outcome (bool * t) :=
  match probes_left with
  | O => Ret (false, idx)
  | S n =>
      e ← at_ (entries_ idx) pos;
      if decide (state e = Empty) then Ret (false, idx)
      else if decide (state e = Occupied ∧ key e = k) then
        Ret (true, mk (vset (entries_ idx) pos (mkEntry (key e) (value e) Tombstone))
                     (mask_ idx) (size_ idx - 1))
      else erase_loop idx k n (Z.land (pos + 1) (mask_ idx))
  end.

Definition erase (idx : t) (k : Z) : outcome (bool * t) :=
  erase_loop idx k (length (entries_ idx)) (Z.land (hash k) (mask_ idx)).

Definition size (idx : t) : Z := size_ idx.
Definition capacity (idx : t) : Z := Z.of_nat (length (entries_ idx)).
End FlatOrderIndex.

(** * The invariant *)

Module FlatOrderIndexProofs.
Import FlatOrderIndex.

Definition cap (es : list Entry) : Z := Z.of_nat (length es).
(** The [d]-th position probed for [k]. *)
Definition probe (es : list Entry) (k d : Z) : Z := (hash k + d) `mod` cap es.
Definition holds (e : Entry) (k : Z) : Prop := state e = Occupied ∧ key e = k.

(** Position [p] is on [k]'s probe path, with no empty entry before it. *)
Definition on_path (es : list Entry) (k p : Z) : Prop :=
  ∃ d, 0 ≤ d < cap es ∧ p = probe es k d ∧
    ∀ j f, 0 ≤ j < d → es @ probe es k j ↦ f → state f ≠ Empty.

(** The table holds the map [m]: the occupied entries are [m]'s bindings, each key once, and no
    empty entry stands before a key on its probe path. *)
Record models (idx : t) (m : gmap Z Z) : Prop := {
  models_cap : ∃ b, 0 ≤ b ≤ 60 ∧ cap (entries_ idx) = 2 ^ b;
  models_mask : mask_ idx = cap (entries_ idx) - 1;
  models_size : size_ idx = Z.of_nat (base.size m);
  models_room : Z.of_nat (base.size m) ≤ cap (entries_ idx);
  models_lookup k v :
    m !! k = Some v ↔ ∃ p e, entries_ idx @ p ↦ e ∧ holds e k ∧ value e = v;
  models_unique k p q e f :
    entries_ idx @ p ↦ e → entries_ idx @ q ↦ f → holds e k → holds f k → p = q;
  models_path k p e : entries_ idx @ p ↦ e → holds e k → on_path (entries_ idx) k p
}.

Lemma insert_loop_capacity idx k v n pos ts r idx' :
  insert_loop idx k v n pos ts = Ret (r, idx') → capacity idx' = capacity idx.
Proof.
  unfold capacity. revert pos ts. induction n as [|n IH]; intros pos ts; cbn.
  - destruct ts; intros; simplify_eq/=; by rewrite ?length_vset.
  - unfold at_. destruct (vget _ _); [|done]. cbn. repeat case_decide; intros; simplify_eq/=; eauto.
    all: by rewrite ?length_vset.
Qed.
Lemma erase_loop_capacity idx k n pos r idx' :
  erase_loop idx k n pos = Ret (r, idx') → capacity idx' = capacity idx.
Proof.
  unfold capacity. revert pos. induction n as [|n IH]; intros pos; cbn.
  - intros; by simplify_eq/=.
  - unfold at_. destruct (vget _ _); [|done]. cbn. repeat case_decide; intros; simplify_eq/=; eauto.
    by rewrite ?length_vset.
Qed.

Section probing.
Context (idx : t) (m : gmap Z Z) (Hm : models idx m).
Abbreviation es := (entries_ idx).

Lemma cap_pos : 0 < cap es.
Proof. destruct (models_cap _ _ Hm) as (b & ? & ->). lia. Qed.

Lemma land_mask z : Z.land z (mask_ idx) = z `mod` cap es.
Proof.
  rewrite (models_mask _ _ Hm). destruct (models_cap _ _ Hm) as (b & ? & ->).
  rewrite <-Z.land_ones by lia. f_equal. rewrite Z.ones_equiv. lia.
Qed.
Lemma load_check : u64 (cap es * 7) = cap es * 7 ∧ u64 (size_ idx * 10) = size_ idx * 10.
Proof.
  destruct (models_cap _ _ Hm) as (b & Hb & Hc). pose proof (models_room _ _ Hm).
  pose proof (Z.pow_le_mono_r 2 b 60 ltac:(lia) ltac:(lia)). rewrite (models_size _ _ Hm).
  split; apply u64_small; word_lia.
Qed.
Lemma probe_start k : Z.land (hash k) (mask_ idx) = probe es k 0.
Proof. rewrite land_mask. unfold probe. f_equal. lia. Qed.
Lemma probe_next k d : Z.land (probe es k d + 1) (mask_ idx) = probe es k (d + 1).
Proof.
  rewrite land_mask. unfold probe. rewrite Zplus_mod_idemp_l. f_equal. lia.
Qed.
Lemma probe_lookup k d : ∃ e, es @ probe es k d ↦ e.
Proof. apply vget_is_Some, Z.mod_pos_bound, cap_pos. Qed.

(** Within one turn of the table the probe positions are distinct. *)
Lemma probe_inj k i j :
  0 ≤ i < cap es → 0 ≤ j < cap es → probe es k i = probe es k j → i = j.
Proof.
  pose proof cap_pos. unfold probe. intros ?? E.
  rewrite <-(Z.mod_small i (cap es)), <-(Z.mod_small j (cap es)) by done.
  replace i with ((hash k + i) - hash k) by lia. replace j with ((hash k + j) - hash k) by lia.
  by rewrite <-Zminus_mod_idemp_l, E, Zminus_mod_idemp_l.
Qed.

(** Every position is probed within one turn. *)
Lemma probe_surj k p : 0 ≤ p < cap es → ∃ d, 0 ≤ d < cap es ∧ p = probe es k d.
Proof.
  pose proof cap_pos. intros ?. exists ((p - hash k) `mod` cap es).
  split; [by apply Z.mod_pos_bound|]. unfold probe.
  rewrite Zplus_mod_idemp_r, <-(Z.mod_small p (cap es)) at 1 by done. f_equal. lia.
Qed.

(** The first [i] probes for [k] met neither [k] nor an empty entry. *)
Definition scanned (k i : Z) : Prop :=
  0 ≤ i ∧ ∀ j e, 0 ≤ j < i → es @ probe es k j ↦ e → state e ≠ Empty ∧ ¬ holds e k.

Lemma scanned_0 k : scanned k 0.
Proof. split; [done|]. intros j e. lia. Qed.
Lemma scanned_S k i e :
  scanned k i → es @ probe es k i ↦ e → state e ≠ Empty → ¬ holds e k → scanned k (i + 1).
Proof.
  intros [? Hs] He ??. split; [lia|]. intros j f ??.
  destruct (decide (j = i)) as [->|]; [by simplify_eq|]. apply (Hs j); [lia|done].
Qed.

Lemma held_lookup k p e : es @ p ↦ e → holds e k → m !! k = Some (value e).
Proof. intros. apply (models_lookup _ _ Hm). eauto. Qed.

Lemma scanned_stop k i e :
  scanned k i → es @ probe es k i ↦ e → state e = Empty → m !! k = None.
Proof.
  intros [? Hs] He Hemp. apply eq_None_not_Some.
  intros [v (p & f & Hf & Hk & _)%(models_lookup _ _ Hm)].
  destruct (models_path _ _ Hm k p f Hf Hk) as (d & Hd & -> & Hpath).
  destruct (Z.lt_total d i) as [?|[->|?]].
  - by destruct (Hs d f ltac:(lia) Hf) as [_ []].
  - simplify_eq. destruct Hk. congruence.
  - exfalso. by apply (Hpath i e ltac:(lia) He).
Qed.

Lemma scanned_all k : scanned k (cap es) → m !! k = None.
Proof.
  intros [? Hs]. apply eq_None_not_Some.
  intros [v (p & f & Hf & Hk & _)%(models_lookup _ _ Hm)].
  destruct (models_path _ _ Hm k p f Hf Hk) as (d & Hd & -> & Hpath).
  by destruct (Hs d f Hd Hf) as [_ []].
Qed.

Lemma find_loop_models n k i :
  scanned k i → i + Z.of_nat n = cap es →
  find_loop es (mask_ idx) k n (probe es k i) = Ret (m !! k).
Proof.
  revert i. induction n as [|n IH]; intros i Hs Hi; cbn [find_loop].
  - rewrite scanned_all; [done|]. by replace (cap es) with i by lia.
  - destruct (probe_lookup k i) as [e He]. unfold at_. rewrite He. cbn.
    repeat case_decide.
    + by erewrite scanned_stop.
    + by erewrite held_lookup.
    + rewrite probe_next. apply IH; [by eapply scanned_S|lia].
Qed.

(** A table below its capacity has an entry that is not occupied. *)
Lemma all_occupied_full :
  (∀ p e, es @ p ↦ e → state e = Occupied) → cap es ≤ Z.of_nat (base.size m).
Proof.
  intros Hall.
  assert (Hget : ∀ i e, es !! i = Some e → es @ (Z.of_nat i) ↦ e).
  { intros i e He. unfold vget. by rewrite decide_True, Nat2Z.id by lia. }
  assert (Hnd : NoDup (key <$> es)).
  { apply NoDup_alt. intros i j k Hi Hj. apply list_lookup_fmap_Some in Hi as (e & -> & He).
    apply list_lookup_fmap_Some in Hj as (f & Hk & Hf). apply Nat2Z.inj.
    eapply (models_unique _ _ Hm (key e)); unfold holds; eauto. }
  apply Nat2Z.inj_le. rewrite <-size_dom, <-(length_fmap key), <-(size_list_to_set (C:=gset Z)) by done.
  apply subseteq_size. intros k Hk.
  apply elem_of_list_to_set, list_elem_of_fmap in Hk as (e & -> & [i He]%list_elem_of_lookup).
  apply elem_of_dom. exists (value e). eapply held_lookup; [|split]; eauto.
Qed.

(** Writing a non-empty entry keeps every probe path. *)
Lemma on_path_vset p e k q : state e ≠ Empty → on_path es k q → on_path (vset es p e) k q.
Proof.
  intros He (d & Hd & -> & Hpath). unfold on_path, probe, cap. rewrite length_vset.
  exists d. split; [done|]. split; [done|]. intros j f Hj Hf.
  destruct (decide (p = probe es k j)) as [->|].
  - pose proof (vget_bounds _ _ _ Hf) as Hb. rewrite length_vset in Hb.
    unfold probe, cap in Hf. rewrite vget_vset_eq in Hf by done. by simplify_eq.
  - rewrite vget_vset_ne in Hf by done. eauto.
Qed.

(** The slot an insertion writes: on [k]'s path, not occupied. *)
Lemma occupy_models k v target e :
  m !! k = None → Z.of_nat (base.size m) < cap es →
  es @ target ↦ e → state e ≠ Occupied → on_path es k target →
  models (occupy idx target k v) (<[k:=v]> m).
Proof.
  intros Hk Hroom He Hocc Hpath. pose proof (vget_bounds _ _ _ He) as Hb.
  assert (Hne : ∀ p f k', es @ p ↦ f → holds f k' → p ≠ target).
  { intros p f k' Hf [Hof _] ->. congruence. }
  split; cbn -[base.size].
  - unfold cap. rewrite length_vset. apply Hm.
  - unfold cap. rewrite length_vset. apply Hm.
  - rewrite map_size_insert_None by done. rewrite (models_size _ _ Hm). lia.
  - rewrite map_size_insert_None by done. unfold cap in *. rewrite length_vset. lia.
  - intros k' w. rewrite lookup_insert_Some, (models_lookup _ _ Hm). split.
    + intros [[<- <-]|[Hkk' (p & f & Hf & Hh & <-)]].
      * exists target, (mkEntry k v Occupied). by rewrite vget_vset_eq.
      * exists p, f. rewrite vget_vset_ne; [done|]. by eapply not_eq_sym, Hne.
    + intros (p & f & Hf & Hh & <-). rewrite vget_vset in Hf by done. case_decide; simplify_eq.
      * left. by destruct Hh.
      * right. split; [|by eauto]. intros ->. destruct Hh as [Ho Hkk].
        assert (m !! k' = Some (value f)) by (by eapply held_lookup). congruence.
  - intros k' p q f g. rewrite !vget_vset by done. repeat case_decide; simplify_eq; try done.
    + intros [= <-] Hg [_ Heq] Hh. simpl in Heq. subst k'. exfalso.
      assert (m !! k = Some (value g)) by (by eapply held_lookup). congruence.
    + intros Hf [= <-] Hh [_ Heq]. simpl in Heq. subst k'. exfalso.
      assert (m !! k = Some (value f)) by (by eapply held_lookup). congruence.
    + apply (models_unique _ _ Hm).
  - intros k' p f Hf Hh. rewrite vget_vset in Hf by done. apply on_path_vset; [done|].
    case_decide; simplify_eq; [|by eapply (models_path _ _ Hm)].
    destruct Hh as [_ <-]. done.
Qed.
(** What the insertion loop knows about the tombstone it remembers after [i] probes. *)
Definition tombstone_ok (k i : Z) (tombstone : option Z) : Prop :=
  match tombstone with
  | Some p => ∃ j e, 0 ≤ j < i ∧ p = probe es k j ∧ es @ p ↦ e ∧ state e = Tombstone
  | None => ∀ j e, 0 ≤ j < i → es @ probe es k j ↦ e → state e = Occupied
  end.

Lemma tombstone_ok_S k i e tombstone :
  tombstone_ok k i tombstone → 0 ≤ i → es @ probe es k i ↦ e → state e ≠ Empty →
  tombstone_ok k (i + 1)
    (if decide (state e = Tombstone ∧ tombstone = None) then Some (probe es k i) else tombstone).
Proof.
  intros Ht ? He Hne. case_decide as Hd.
  - destruct Hd as [? ->]. exists i, e. repeat split; try done; lia.
  - destruct tombstone as [p|].
    + destruct Ht as (j & f & ? & ?). exists j, f. split; [lia|done].
    + intros j g ? Hg. destruct (decide (j = i)) as [->|]; [|apply (Ht j); [lia|done]].
      simplify_eq. destruct (state e) eqn:?; [done|done|]. by destruct Hd.
Qed.

Lemma scanned_on_path k i j :
  scanned k i → 0 ≤ j ≤ i → j < cap es → on_path es k (probe es k j).
Proof.
  intros [_ Hs] ??. exists j. split; [lia|]. split; [done|].
  intros j' f ? Hf. eapply Hs; [|done]. lia.
Qed.

Lemma insert_loop_fresh n k v i tombstone :
  m !! k = None → Z.of_nat (base.size m) < cap es → scanned k i → i + Z.of_nat n = cap es →
  tombstone_ok k i tombstone →
  ∃ idx', insert_loop idx k v n (probe es k i) tombstone = Ret (true, idx') ∧
    models idx' (<[k:=v]> m).
Proof.
  intros Hk Hroom. revert i tombstone. induction n as [|n IH]; intros i ts Hs Hi Ht.
  - assert (i = cap es) as -> by lia. destruct ts as [p|]; cbn.
    + destruct Ht as (j & e & ? & -> & He & Het). eexists; split; [done|].
      eapply occupy_models; [done..|congruence|]. eapply scanned_on_path; [done|lia..].
    + exfalso. apply Z.lt_nge in Hroom. apply Hroom, all_occupied_full. intros p e Hp.
      destruct (probe_surj k p (vget_bounds _ _ _ Hp)) as (d & ? & ->). eauto.
  - cbn [insert_loop]. destruct (probe_lookup k i) as [e He]. unfold at_. rewrite He. cbn.
    rewrite decide_False.
    2: { intros Hh. pose proof (held_lookup _ _ _ He Hh). congruence. }
    pose proof (proj1 Hs) as Hi0. case_decide as Hemp.
    + rewrite decide_False by (intros [? _]; congruence).
      destruct ts as [p|]; cbn; (eexists; split; [done|]).
      * destruct Ht as (j & f & ? & -> & Hf & Hft).
        eapply occupy_models; [done..|congruence|]. eapply scanned_on_path; [done|lia..].
      * eapply occupy_models; [done..|congruence|]. eapply scanned_on_path; [done|lia..].
    + rewrite probe_next. apply IH; [|lia|by apply tombstone_ok_S].
      eapply scanned_S; [done..|]. intros Hh. pose proof (held_lookup _ _ _ He Hh). congruence.
Qed.

Lemma insert_loop_present n k v w i tombstone :
  m !! k = Some w → scanned k i → i + Z.of_nat n = cap es →
  insert_loop idx k v n (probe es k i) tombstone = Ret (false, idx).
Proof.
  intros Hk. revert i tombstone. induction n as [|n IH]; intros i ts Hs Hi.
  - assert (i = cap es) as -> by lia. apply scanned_all in Hs. congruence.
  - cbn [insert_loop]. destruct (probe_lookup k i) as [e He]. unfold at_. rewrite He. cbn.
    case_decide; [done|]. rewrite (decide_False (P := state e = Empty)).
    2: { intros Hemp. pose proof (scanned_stop _ _ _ Hs He Hemp). congruence. }
    rewrite probe_next. apply IH; [|lia]. eapply scanned_S; [done..| |done].
    intros Hemp. pose proof (scanned_stop _ _ _ Hs He Hemp). congruence.
Qed.

(** Turning the entry of [k] into a tombstone removes exactly [k]'s binding. *)
Lemma bury_models k p e :
  es @ p ↦ e → holds e k →
  models (mk (vset es p (mkEntry (key e) (value e) Tombstone)) (mask_ idx) (size_ idx - 1))
    (delete k m).
Proof.
  intros He Hh. pose proof (vget_bounds _ _ _ He) as Hb.
  assert (Hstay : ∀ q f k', vget (vset es p (mkEntry (key e) (value e) Tombstone)) q = Some f →
    holds f k' → q ≠ p ∧ es @ q ↦ f).
  { intros q f k' Hq [Ho _]. rewrite vget_vset in Hq by done.
    case_decide; simplify_eq/=. by split; [apply not_eq_sym|]. }
  split; cbn -[base.size].
  - unfold cap. rewrite length_vset. apply Hm.
  - unfold cap. rewrite length_vset. apply Hm.
  - rewrite map_size_delete_Some by (eexists; by eapply held_lookup).
    rewrite (models_size _ _ Hm). pose proof (held_lookup _ _ _ He Hh) as Hk.
    assert (base.size m ≠ 0%nat) by (intros ?%map_size_empty_iff; simplify_map_eq). lia.
  - rewrite map_size_delete_Some by (eexists; by eapply held_lookup).
    pose proof (models_room _ _ Hm). unfold cap in *. rewrite length_vset. lia.
  - intros k' w. rewrite lookup_delete_Some, (models_lookup _ _ Hm). split.
    + intros [Hkk' (q & f & Hf & Hh' & <-)]. exists q, f. rewrite vget_vset_ne; [done|].
      intros <-. simplify_eq. destruct Hh, Hh'. congruence.
    + intros (q & f & Hf & Hh' & <-). destruct (Hstay _ _ _ Hf Hh') as [Hqp Hf'].
      split; [|by eauto]. intros <-. apply Hqp. by eapply (models_unique _ _ Hm).
  - intros k' q r f g Hf Hg Hhf Hhg.
    destruct (Hstay _ _ _ Hf Hhf), (Hstay _ _ _ Hg Hhg). by eapply (models_unique _ _ Hm).
  - intros k' q f Hf Hhf. destruct (Hstay _ _ _ Hf Hhf) as [_ Hf'].
    apply on_path_vset; [done|]. by eapply (models_path _ _ Hm).
Qed.

Lemma erase_loop_models n k i :
  scanned k i → i + Z.of_nat n = cap es →
  ∃ idx', erase_loop idx k n (probe es k i) = Ret (bool_decide (is_Some (m !! k)), idx') ∧
    models idx' (delete k m).
Proof.
  revert i. induction n as [|n IH]; intros i Hs Hi.
  - assert (i = cap es) as -> by lia. exists idx. rewrite scanned_all by done.
    split; [done|]. rewrite delete_id; [done|]. by apply scanned_all.
  - cbn [erase_loop]. destruct (probe_lookup k i) as [e He]. unfold at_. rewrite He. cbn.
    case_decide as Hemp; [|case_decide as Hh].
    + rewrite (scanned_stop _ _ _ Hs He Hemp). exists idx. split; [done|].
      rewrite delete_id; [done|]. by eapply scanned_stop.
    + eexists. rewrite (held_lookup _ _ _ He Hh), bool_decide_true by eauto.
      split; [done|]. by apply bury_models.
    + rewrite probe_next. apply IH; [by eapply scanned_S|lia].
Qed.

(** ** One law per operation *)

Lemma find_models k : find idx k = Ret (m !! k).
Proof.
  unfold find. rewrite probe_start. apply find_loop_models; [apply scanned_0|done].
Qed.

(** An insertion succeeds exactly below 70% load and for a new key. *)
Definition admits (k : Z) : bool :=
  (Z.of_nat (base.size m) * 10 <? cap es * 7) && bool_decide (m !! k = None).

Lemma insert_models k v :
  ∃ idx', insert idx k v = Ret (admits k, idx') ∧
    models idx' (if admits k then <[k:=v]> m else m) ∧ capacity idx' = capacity idx.
Proof.
  unfold insert, admits. change (Z.of_nat (length es)) with (cap es).
  rewrite (proj1 load_check), (proj2 load_check), (models_size _ _ Hm).
  replace (_ * 10 <? _) with (negb (cap es * 7 <=? Z.of_nat (base.size m) * 10)) by lia.
  destruct (_ <=? _) eqn:Hload; cbn -[insert_loop]; [by eauto|].
  rewrite probe_start. apply Z.leb_gt in Hload. pose proof cap_pos.
  case_bool_decide as Hk.
  - destruct (insert_loop_fresh (length es) k v 0 None) as (idx' & Heq & Hm'); try done.
    + lia.
    + apply scanned_0.
    + intros j e. lia.
    + exists idx'. do 2 (split; [done|]). by eapply insert_loop_capacity.
  - apply not_eq_None_Some in Hk as [w Hk]. exists idx.
    rewrite (insert_loop_present _ _ _ w); [done|done|apply scanned_0|done].
Qed.

Lemma erase_models k :
  ∃ idx', erase idx k = Ret (bool_decide (is_Some (m !! k)), idx') ∧ models idx' (delete k m) ∧
    capacity idx' = capacity idx.
Proof.
  unfold erase. rewrite probe_start.
  destruct (erase_loop_models (length es) k 0) as (idx' & Heq & Hm').
  - apply scanned_0.
  - done.
  - exists idx'. split; [done|]. split; [done|]. by eapply erase_loop_capacity.
Qed.
End probing.

(** A new index holds the empty map; its capacity is a power of two, at least 16 and at least
    twice the entries asked for. *)
Lemma new_models max :
  0 ≤ max ≤ 2 ^ 59 →
  ∃ idx, new max = Ret idx ∧ models idx ∅ ∧ 16 ≤ capacity idx ∧ 2 * max ≤ capacity idx.
Proof.
  intros Hmax. unfold new. set (wanted := if max <? 8 then 16 else u64 (max * 2)).
  assert (Hw : 16 ≤ wanted ≤ 2 ^ 60 ∧ 2 * max ≤ wanted).
  { unfold wanted. destruct (Z.ltb_spec max 8); [lia|].
    rewrite u64_small by (word_lia). lia. }
  clearbody wanted. unfold bit_ceil.
  rewrite (proj2 (Z.leb_gt wanted 1)), (proj2 (Z.leb_le wanted (2 ^ 63))) by lia. cbn -[Z.pow].
  pose proof (Z.log2_up_spec wanted ltac:(lia)) as [_ Hlog].
  pose proof (Z.log2_up_nonneg wanted).
  assert (Hb60 : Z.log2_up wanted ≤ 60).
  { apply (Z.log2_up_le_mono wanted (2 ^ 60)). lia. }
  set (b := Z.log2_up wanted) in *. clearbody b.
  assert (Hlen : Z.of_nat (length (replicate (Z.to_nat (2 ^ b)) default_entry)) = 2 ^ b).
  { rewrite length_replicate. lia. }
  assert (Hempty : ∀ p e k, vget (replicate (Z.to_nat (2 ^ b)) default_entry) p = Some e →
    ¬ holds e k).
  { intros p e k. unfold vget. case_decide; [|done].
    intros [-> _]%lookup_replicate. by intros []. }
  eexists. split; [done|]. unfold capacity. cbn -[Z.pow]. rewrite Hlen.
  split; [split|split; lia]; unfold cap; cbn -[Z.pow]; rewrite ?Hlen.
  - by exists b.
  - done.
  - by rewrite map_size_empty.
  - rewrite map_size_empty. lia.
  - intros k v. rewrite lookup_empty. split; [done|]. intros (p & e & Hp & Hh & _).
    by destruct (Hempty _ _ _ Hp Hh).
  - intros k p q e f Hp _ Hh. by destruct (Hempty _ _ _ Hp Hh).
  - intros k p e Hp Hh. by destruct (Hempty _ _ _ Hp Hh).
Qed.
End FlatOrderIndexProofs.

(** * What the index promises its clients *)

(** The contract the order book relies on: an index built for [max] entries behaves as a finite
    map, and never refuses a new key while it holds at most [max] others.  (The book needs the
    [max + 1]st entry: [replace] inserts the new id before it erases the old one.) *)
Class IndexContract (max : Z) (holds_map : FlatOrderIndex.t → gmap Z Z → Prop) : Prop := {
  contract_new : ∃ idx, FlatOrderIndex.new max = Ret idx ∧ holds_map idx ∅;
  contract_size idx m : holds_map idx m → FlatOrderIndex.size idx = Z.of_nat (size m);
  contract_find idx m k : holds_map idx m → FlatOrderIndex.find idx k = Ret (m !! k);
  contract_insert idx m k v :
    holds_map idx m → m !! k = None → Z.of_nat (size m) ≤ max →
    ∃ idx', FlatOrderIndex.insert idx k v = Ret (true, idx') ∧ holds_map idx' (<[k:=v]> m);
  contract_erase idx m k :
    holds_map idx m →
    ∃ idx', FlatOrderIndex.erase idx k = Ret (bool_decide (is_Some (m !! k)), idx') ∧
      holds_map idx' (delete k m)
}.

(** The table for [max] entries. *)
Definition index_holds (max : Z) (idx : FlatOrderIndex.t) (m : gmap Z Z) : Prop :=
  FlatOrderIndexProofs.models idx m ∧ 16 ≤ FlatOrderIndex.capacity idx ∧
  2 * max ≤ FlatOrderIndex.capacity idx.

Lemma index_contract max : 0 ≤ max ≤ 2 ^ 59 → IndexContract max (index_holds max).
Proof.
  intros Hmax. split.
  - by apply FlatOrderIndexProofs.new_models.
  - intros idx m [Hm _]. by rewrite <-(FlatOrderIndexProofs.models_size _ _ Hm).
  - intros idx m k [Hm _]. by apply FlatOrderIndexProofs.find_models.
  - intros idx m k v (Hm & H16 & Hcap) Hk Hsize.
    destruct (FlatOrderIndexProofs.insert_models idx m Hm k v) as (idx' & Heq & Hm' & Hc).
    assert (Hadm : FlatOrderIndexProofs.admits idx m k = true).
    { unfold FlatOrderIndexProofs.admits. rewrite bool_decide_true by done.
      unfold FlatOrderIndexProofs.cap, FlatOrderIndex.capacity in *. lia. }
    rewrite Hadm in *. exists idx'. split; [done|]. split; [done|]. by rewrite Hc.
  - intros idx m k (Hm & H16 & Hcap).
    destruct (FlatOrderIndexProofs.erase_models idx m Hm k) as (idx' & Heq & Hm' & Hc).
    exists idx'. split; [done|]. split; [done|]. by rewrite Hc.
Qed.

(** * Sequences of operations *)

Variant index_op : Type := OpFind (k : Z) | OpInsert (k v : Z) | OpErase (k : Z).
Variant index_result : Type := Found (o : option Z) | Done (b : bool).

(** The code, from state [idx]. *)
Definition index_step (idx : FlatOrderIndex.t) (op : index_op)
    : outcome (index_result * FlatOrderIndex.t) :=
  match op with
  | OpFind k => o ← FlatOrderIndex.find idx k; Ret (Found o, idx)
  | OpInsert k v => '(b, idx') ← FlatOrderIndex.insert idx k v; Ret (Done b, idx')
  | OpErase k => '(b, idx') ← FlatOrderIndex.erase idx k; Ret (Done b, idx')
  end.
Fixpoint index_run (idx : FlatOrderIndex.t) (ops : list index_op)
    : outcome (list index_result * FlatOrderIndex.t) :=
  match ops with
  | [] => Ret ([], idx)
  | op :: ops =>
      '(r, idx') ← index_step idx op;
      '(rs, idx'') ← index_run idx' ops;
      Ret (r :: rs, idx'')
  end.

(** The specification: a finite map that refuses keys it has, and new keys at 70% load. *)
Definition map_step (capacity : Z) (m : gmap Z Z) (op : index_op) : index_result * gmap Z Z :=
  match op with
  | OpFind k => (Found (m !! k), m)
  | OpInsert k v =>
      if (Z.of_nat (size m) * 10 <? capacity * 7) && bool_decide (m !! k = None)
      then (Done true, <[k:=v]> m) else (Done false, m)
  | OpErase k => (Done (bool_decide (is_Some (m !! k))), delete k m)
  end.
Fixpoint map_run (capacity : Z) (m : gmap Z Z) (ops : list index_op)
    : list index_result * gmap Z Z :=
  match ops with
  | [] => ([], m)
  | op :: ops =>
      let '(r, m') := map_step capacity m op in
      let '(rs, m'') := map_run capacity m' ops in
      (r :: rs, m'')
  end.

Lemma index_step_models idx m op :
  FlatOrderIndexProofs.models idx m →
  ∃ idx', index_step idx op = Ret ((map_step (FlatOrderIndex.capacity idx) m op).1, idx') ∧
    FlatOrderIndexProofs.models idx' (map_step (FlatOrderIndex.capacity idx) m op).2 ∧
    FlatOrderIndex.capacity idx' = FlatOrderIndex.capacity idx.
Proof.
  intros Hm. destruct op as [k|k v|k]; cbn [index_step map_step].
  - exists idx. by rewrite (FlatOrderIndexProofs.find_models idx m Hm).
  - destruct (FlatOrderIndexProofs.insert_models idx m Hm k v) as (idx' & -> & Hm' & Hc).
    exists idx'. unfold FlatOrderIndexProofs.admits, FlatOrderIndexProofs.cap in *.
    fold (FlatOrderIndex.capacity idx) in *. by destruct (_ && _).
  - destruct (FlatOrderIndexProofs.erase_models idx m Hm k) as (idx' & -> & Hm' & Hc). by exists idx'.
Qed.

Lemma index_run_models ops idx m :
  FlatOrderIndexProofs.models idx m →
  ∃ idx', index_run idx ops = Ret ((map_run (FlatOrderIndex.capacity idx) m ops).1, idx') ∧
    FlatOrderIndexProofs.models idx' (map_run (FlatOrderIndex.capacity idx) m ops).2.
Proof.
  revert idx m. induction ops as [|op ops IH]; intros idx m Hm; cbn [index_run map_run]; [by eauto|].
  destruct (index_step_models idx m op Hm) as (idx' & -> & Hm' & Hc).
  destruct (map_step _ m op) as [r m'] eqn:Hstep. cbn in *.
  destruct (IH idx' m' Hm') as (idx'' & -> & Hm''). rewrite Hc in *.
  destruct (map_run _ m' ops) as [rs m'']. cbn in *. by eauto.
Qed.

(** C15: an index built for [max_entries] and driven by any sequence of finds, inserts and erases
    gives, call by call, the results of a finite map that refuses a present key and refuses
    everything from 70% load on; no call reads outside the table, and every probe loop ends. *)
Theorem index_refines_map (max_entries : Z) (ops : list index_op) :
  0 ≤ max_entries ≤ 2 ^ 59 →
  ∃ idx idx', FlatOrderIndex.new max_entries = Ret idx ∧
    index_run idx ops = Ret ((map_run (FlatOrderIndex.capacity idx) ∅ ops).1, idx') ∧
    FlatOrderIndex.size idx' =
      Z.of_nat (size (map_run (FlatOrderIndex.capacity idx) ∅ ops).2).
Proof.
  intros Hmax. destruct (FlatOrderIndexProofs.new_models max_entries Hmax) as (idx & Hnew & Hm & _).
  destruct (index_run_models ops idx ∅ Hm) as (idx' & Hrun & Hm').
  exists idx, idx'. split; [done|]. split; [done|].
  by rewrite <-(FlatOrderIndexProofs.models_size _ _ Hm').
Qed.

Lemma index_refines_map_witness :
  (0 ≤ 2 ≤ 2 ^ 59) ∧
  ∃ idx idx', FlatOrderIndex.new 2 = Ret idx ∧
    index_run idx [OpInsert 7 1; OpInsert 7 2; OpErase 7; OpFind 7; OpInsert 7 3; OpFind 7] =
      Ret ([Done true; Done false; Done true; Found None; Done true; Found (Some 3)], idx') ∧
    FlatOrderIndex.size idx' = 1.
Proof.
  split; [lia|].
  destruct (index_refines_map 2
    [OpInsert 7 1; OpInsert 7 2; OpErase 7; OpFind 7; OpInsert 7 3; OpFind 7] ltac:(lia))
    as (idx & idx' & Hnew & Hrun & Hsize).
  exists idx, idx'. split; [exact Hnew|].
  vm_compute in Hnew. injection Hnew as <-. vm_compute in Hrun, Hsize |- *. auto.
Defined.
