(* ===== verification/BookSpec.v ===== *)
(** What a limit order book promises, without arenas, links or hash tables: the live orders by
    id, and for every (symbol, side, price) the queue of ids in time priority.  The operations
    are the specification [BookRefinement] shows [OrderBook] to implement. *)
From S2P Require Import Prelude Types.

Module BookSpec.

(** A price level. *)
Abbreviation level_key := (Symbol.t * Side * Z)%type.

Record t : Type := mk {
  orders : gmap Z Order;
  queues : gmap level_key (list Z) }.
Definition empty : t := mk ∅ ∅.

Definition key_of (o : Order) : level_key := (symbol o, side o, price o).

Definition qty (os : gmap Z Order) (i : Z) : Z :=
  match os !! i with Some o => quantity o | None => 0 end.
Fixpoint total (os : gmap Z Order) (q : list Z) : Z :=
  match q with
  | [] => 0
  | i :: q => qty os i + total os q
  end.

Definition queue (a : t) (k : level_key) : list Z := default [] (queues a !! k).
Definition level_total (a : t) (k : level_key) : Z := total (orders a) (queue a k).

(** Levels without orders are not kept. *)
Definition set_queue (k : level_key) (q : list Z) (qs : gmap level_key (list Z)) :
    gmap level_key (list Z) :=
  if decide (q = []) then delete k qs else <[k:=q]> qs.

(** A new order goes to the tail of its level. *)
Definition push (o : Order) (a : t) : t :=
  mk (<[id o:=o]> (orders a)) (set_queue (key_of o) (queue a (key_of o) ++ [id o]) (queues a)).

Definition remove (i : Z) (a : t) : t :=
  match orders a !! i with
  | None => a
  | Some o =>
      mk (delete i (orders a))
         (set_queue (key_of o) (filter (λ j, j ≠ i) (queue a (key_of o))) (queues a))
  end.

Definition with_quantity (o : Order) (q : Z) : Order :=
  mkOrder (id o) (symbol o) (side o) q (price o).

(** The aggregate quantity of a level is a 32-bit number. *)
Definition fits (o : Order) (a : t) : bool := level_total a (key_of o) + quantity o <=? u32_max.

Definition add (capacity : Z) (o : Order) (a : t) : bool * t :=
  if decide (id o = 0 ∨ quantity o = 0 ∨ is_Some (orders a !! id o) ∨
             capacity ≤ Z.of_nat (size (orders a)))
  then (false, a)
  else if fits o a then (true, push o a) else (false, a).

(** Executions and cancellations take [n] shares off an order, which keeps its place. *)
Definition reduce (i n : Z) (a : t) : bool * t :=
  match orders a !! i with
  | None => (false, a)
  | Some o =>
      if decide (n = 0 ∨ quantity o < n) then (false, a)
      else if decide (quantity o = n) then (true, remove i a)
      else (true, mk (<[i:=with_quantity o (quantity o - n)]> (orders a)) (queues a))
  end.

Definition erase (i : Z) (a : t) : bool * t := (bool_decide (is_Some (orders a !! i)), remove i a).

(** A replacement is a removal and an addition under the new id, on the same side of the same
    symbol, that either both happen or neither. *)
Definition replace (i i' q p : Z) (a : t) : bool * t :=
  match orders a !! i with
  | None => (false, a)
  | Some o =>
      if decide (i' = 0 ∨ q = 0 ∨ is_Some (orders a !! i')) then (false, a)
      else
        let o' := mkOrder i' (symbol o) (side o) q p in
        if fits o' (remove i a) then (true, push o' (remove i a)) else (false, a)
  end.

Definition apply (capacity : Z) (event : MarketEvent) (a : t) : bool * t :=
  match event with
  | Add e => add capacity (add_order e) a
  | Execute e => reduce (exec_order_id e) (executed_shares e) a
  | Cancel e => reduce (cancel_order_id e) (canceled_shares e) a
  | Delete e => erase (delete_order_id e) a
  | Replace e => replace (old_order_id e) (new_order_id e) (new_quantity e) (new_price e) a
  end.

(** * Well-formed books *)

Record order_wf (a : t) (i : Z) (o : Order) : Prop := {
  order_wf_id : id o = i;
  order_wf_nonzero : i ≠ 0;
  order_wf_quantity : 0 ≤ quantity o ≤ u32_max;
  order_wf_queued : i ∈ queue a (key_of o)
}.
Record queue_wf (a : t) (k : level_key) (q : list Z) : Prop := {
  queue_wf_nonempty : q ≠ [];
  queue_wf_nodup : NoDup q;
  queue_wf_live i : i ∈ q → ∃ o, orders a !! i = Some o ∧ key_of o = k;
  queue_wf_total : total (orders a) q ≤ u32_max
}.
Record wf (a : t) : Prop := {
  wf_orders i o : orders a !! i = Some o → order_wf a i o;
  wf_queues k q : queues a !! k = Some q → queue_wf a k q
}.

(** No order rests with nothing left to trade. *)
Definition positive (a : t) : Prop := ∀ i o, orders a !! i = Some o → 0 < quantity o.

(** * Queues and totals *)

Lemma lookup_set_queue k q qs k' :
  set_queue k q qs !! k' =
    if decide (k = k') then (if decide (q = []) then None else Some q) else qs !! k'.
Proof.
  unfold set_queue. repeat case_decide; subst.
  all: by rewrite ?lookup_delete_eq, ?lookup_insert_eq, ?lookup_delete_ne, ?lookup_insert_ne.
Qed.
Lemma queue_set_queue os k q qs k' :
  queue (mk os (set_queue k q qs)) k' = if decide (k = k') then q else default [] (qs !! k').
Proof.
  unfold queue. cbn. rewrite lookup_set_queue. repeat case_decide; subst; done.
Qed.

Lemma total_app os q1 q2 : total os (q1 ++ q2) = total os q1 + total os q2.
Proof. induction q1 as [|i q1 IH]; cbn; [done|]. rewrite IH. lia. Qed.
Lemma total_ext os os' q : (∀ i, i ∈ q → qty os i = qty os' i) → total os q = total os' q.
Proof.
  induction q as [|i q IH]; cbn; intros Heq; [done|].
  rewrite (Heq i) by set_solver. rewrite IH by set_solver. done.
Qed.
Lemma qty_insert os i o j : qty (<[i:=o]> os) j = if decide (i = j) then quantity o else qty os j.
Proof. unfold qty. rewrite lookup_insert. by case_decide. Qed.
Lemma qty_Some os i o : os !! i = Some o → qty os i = quantity o.
Proof. unfold qty. by intros ->. Qed.
Lemma qty_delete os i j : qty (delete i os) j = if decide (i = j) then 0 else qty os j.
Proof. unfold qty. rewrite lookup_delete. by case_decide. Qed.

Lemma filter_ne_id (i : Z) (q : list Z) : i ∉ q → filter (λ j, j ≠ i) q = q.
Proof.
  induction q as [|j q IH]; intros Hi; [done|].
  rewrite filter_cons_True by set_solver. f_equal. set_solver.
Qed.
Lemma filter_ne_split (i : Z) (q1 q2 : list Z) :
  NoDup (q1 ++ i :: q2) → filter (λ j, j ≠ i) (q1 ++ i :: q2) = q1 ++ q2.
Proof.
  intros (_ & Hi & Hn)%NoDup_app. apply NoDup_cons in Hn as [Hi2 _].
  rewrite filter_app, filter_cons_False by naive_solver.
  rewrite !filter_ne_id; [done|done|]. intros Hi1. apply (Hi i); set_solver.
Qed.
(** An id of a queue splits it. *)
Lemma queue_split (i : Z) (q : list Z) :
  NoDup q → i ∈ q →
  ∃ q1 q2, q = q1 ++ i :: q2 ∧ (i ∉ q1) ∧ (i ∉ q2) ∧ filter (λ j, j ≠ i) q = q1 ++ q2.
Proof.
  intros Hnd (q1 & q2 & ->)%list_elem_of_split. exists q1, q2.
  pose proof (filter_ne_split i q1 q2 Hnd). apply NoDup_app in Hnd as (_ & Hi & Hn).
  apply NoDup_cons in Hn as [? _]. split_and!; try done. intros ?. apply (Hi i); set_solver.
Qed.

Lemma total_insert os i o q :
  NoDup q → total (<[i:=o]> os) q =
    total os q + (if decide (i ∈ q) then quantity o - qty os i else 0).
Proof.
  intros Hq. case_decide as Hi.
  - destruct (queue_split i q Hq Hi) as (q1 & q2 & -> & ? & ? & _).
    rewrite !total_app. cbn. rewrite qty_insert, decide_True by done.
    rewrite !(total_ext (<[i:=o]> os) os); [lia| |].
    all: intros j Hj; rewrite qty_insert, decide_False; [done|set_solver].
  - rewrite (total_ext (<[i:=o]> os) os); [lia|].
    intros j Hj. rewrite qty_insert, decide_False; [done|set_solver].
Qed.

(** * The operations keep books well-formed *)

Lemma empty_wf : wf empty.
Proof. by split; intros ??; cbn; rewrite lookup_empty. Qed.

Section wf_lemmas.
Context (a : t) (Ha : wf a).

Lemma qty_nonneg i : 0 ≤ qty (orders a) i.
Proof.
  unfold qty. destruct (orders a !! i) eqn:E; [|done].
  pose proof (order_wf_quantity _ _ _ (wf_orders _ Ha _ _ E)). lia.
Qed.
Lemma total_nonneg q : 0 ≤ total (orders a) q.
Proof. induction q as [|i q]; cbn; [done|]. pose proof (qty_nonneg i). lia. Qed.

Lemma queue_elem k i : i ∈ queue a k ↔ ∃ o, orders a !! i = Some o ∧ key_of o = k.
Proof.
  split.
  - unfold queue. destruct (queues a !! k) as [q|] eqn:E; cbn; [|set_solver].
    apply (queue_wf_live _ _ _ (wf_queues _ Ha _ _ E)).
  - intros (o & Ho & <-). apply (order_wf_queued _ _ _ (wf_orders _ Ha _ _ Ho)).
Qed.
Lemma queue_nodup k : NoDup (queue a k).
Proof.
  unfold queue. destruct (queues a !! k) as [q|] eqn:E; cbn; [|constructor].
  apply (queue_wf_nodup _ _ _ (wf_queues _ Ha _ _ E)).
Qed.
Lemma level_total_bound k : 0 ≤ level_total a k ≤ u32_max.
Proof.
  unfold level_total. split; [apply total_nonneg|].
  unfold queue. destruct (queues a !! k) as [q|] eqn:E; cbn; [|unfold u32_max; lia].
  apply (queue_wf_total _ _ _ (wf_queues _ Ha _ _ E)).
Qed.
Lemma queue_Some k q : queues a !! k = Some q → queue a k = q.
Proof. unfold queue. by intros ->. Qed.
Lemma queue_None k : queues a !! k = None ↔ queue a k = [].
Proof.
  unfold queue. destruct (queues a !! k) as [q|] eqn:E; cbn; [|done].
  pose proof (queue_wf_nonempty _ _ _ (wf_queues _ Ha _ _ E)). naive_solver.
Qed.

(** Taking an order's id out of its queue takes its quantity off the total. *)
Lemma total_filter_ne i o :
  orders a !! i = Some o →
  total (delete i (orders a)) (filter (λ j, j ≠ i) (queue a (key_of o))) =
    level_total a (key_of o) - quantity o.
Proof.
  intros Ho. unfold level_total.
  destruct (queue_split i (queue a (key_of o))) as (q1 & q2 & Hq & Hi1 & Hi2 & Hf).
  { apply queue_nodup. }
  { apply queue_elem. eauto. }
  rewrite Hf, Hq, !total_app. cbn. rewrite (qty_Some _ _ _ Ho).
  rewrite !(total_ext (delete i (orders a)) (orders a)); [lia| |].
  all: intros j Hj; rewrite qty_delete, decide_False; [done|set_solver].
Qed.

Lemma level_total_ge i o :
  orders a !! i = Some o → quantity o ≤ level_total a (key_of o).
Proof.
  intros Ho. pose proof (total_filter_ne i o Ho) as Ht.
  rewrite (total_ext (delete i (orders a)) (orders a)) in Ht.
  - pose proof (total_nonneg (filter (λ j, j ≠ i) (queue a (key_of o)))). lia.
  - intros j [Hj _]%list_elem_of_filter. rewrite qty_delete, decide_False; done.
Qed.

Lemma queue_remove i o k :
  orders a !! i = Some o →
  queue (remove i a) k =
    if decide (key_of o = k) then filter (λ j, j ≠ i) (queue a k) else queue a k.
Proof.
  intros Ho. unfold remove. rewrite Ho, queue_set_queue. case_decide; by subst.
Qed.
Lemma level_total_remove i o k :
  orders a !! i = Some o →
  level_total (remove i a) k =
    if decide (key_of o = k) then level_total a k - quantity o else level_total a k.
Proof.
  intros Ho. unfold level_total at 1. rewrite (queue_remove i o) by done.
  unfold remove. rewrite Ho. cbn. case_decide as Hk; subst; [by apply total_filter_ne|].
  apply total_ext. intros j (o' & Ho' & Hk')%queue_elem. rewrite qty_delete, decide_False; [done|].
  intros <-. congruence.
Qed.

Lemma push_wf o :
  orders a !! id o = None → id o ≠ 0 → 0 ≤ quantity o ≤ u32_max → fits o a = true →
  wf (push o a).
Proof.
  intros Hid H0 Hq Hfit. apply Z.leb_le in Hfit.
  assert (Hfresh : ∀ k, id o ∉ queue a k).
  { intros k (o' & ? & _)%queue_elem. congruence. }
  assert (Htot : ∀ q, id o ∉ q → total (<[id o:=o]> (orders a)) q = total (orders a) q).
  { intros q Hq'. apply total_ext. intros j ?. rewrite qty_insert, decide_False; [done|set_solver]. }
  split; cbn.
  - intros i o' [[<- <-]|[Hne Ho']]%lookup_insert_Some.
    + split; try done. unfold push. rewrite queue_set_queue, decide_True by done. set_solver.
    + destruct (wf_orders _ Ha _ _ Ho') as [? ? ? Hin]. split; try done.
      unfold push. rewrite queue_set_queue. case_decide as Hk; [|done].
      rewrite Hk. set_solver.
  - intros k q Hkq. rewrite lookup_set_queue in Hkq. case_decide as Hk.
    + subst k. rewrite decide_False in Hkq by (by destruct (queue _ _)).
      simplify_eq. split; cbn.
      * by destruct (queue _ _).
      * apply NoDup_app. split_and!; [apply queue_nodup|set_solver|apply NoDup_singleton].
      * intros i [(o' & Ho' & Hk)%queue_elem|Hi]%elem_of_app.
        -- exists o'. rewrite lookup_insert_ne; [done|]. intros <-. congruence.
        -- apply list_elem_of_singleton in Hi as ->. exists o. by rewrite lookup_insert_eq.
      * rewrite total_app, Htot by done. cbn. rewrite qty_insert, decide_True by done.
        unfold level_total in Hfit. lia.
    + destruct (wf_queues _ Ha _ _ Hkq) as [? ? Hlive ?]. rewrite <-(queue_Some _ _ Hkq) in *.
      split; cbn; try done.
      * intros i (o' & Ho' & <-)%Hlive. exists o'. rewrite lookup_insert_ne; [done|congruence].
      * by rewrite Htot.
Qed.

Lemma remove_wf i : wf (remove i a).
Proof.
  unfold remove. destruct (orders a !! i) as [o|] eqn:Ho; [|done]. split; cbn.
  - intros j o' [Hij Ho']%lookup_delete_Some.
    destruct (wf_orders _ Ha _ _ Ho') as [? ? ? Hin]. split; try done.
    rewrite queue_set_queue. case_decide as Hk; [|done].
    rewrite Hk. apply list_elem_of_filter. naive_solver.
  - intros k q Hkq. rewrite lookup_set_queue in Hkq. case_decide as Hk.
    + subst k. case_decide as Hne; simplify_eq. split; cbn; try done.
      * apply NoDup_filter, queue_nodup.
      * intros j [Hij (o' & Ho' & ?)%queue_elem]%list_elem_of_filter. exists o'.
        by rewrite lookup_delete_ne.
      * rewrite total_filter_ne by done. pose proof (level_total_bound (key_of o)).
        pose proof (order_wf_quantity _ _ _ (wf_orders _ Ha _ _ Ho)). lia.
    + destruct (wf_queues _ Ha _ _ Hkq) as [? ? Hlive ?]. split; cbn; try done.
      * intros j (o' & Ho' & <-)%Hlive. exists o'. rewrite lookup_delete_ne; [done|congruence].
      * rewrite (total_ext _ (orders a)); [done|]. intros j (o' & Ho' & <-)%Hlive.
        rewrite qty_delete, decide_False; [done|congruence].
Qed.

(** Shares may be taken off an order down to none left. *)
Definition shrink (i : Z) (o : Order) (n : Z) : t :=
  mk (<[i:=with_quantity o (quantity o - n)]> (orders a)) (queues a).

Lemma shrink_wf i o n : orders a !! i = Some o → 0 ≤ n ≤ quantity o → wf (shrink i o n).
Proof.
  intros Ho Hn. destruct (wf_orders _ Ha _ _ Ho) as [Hid ? ? Hin].
  split; cbn.
  - intros j o' [[<- <-]|[? Ho']]%lookup_insert_Some; [|by destruct (wf_orders _ Ha _ _ Ho')].
    split; cbn; try done. lia.
  - intros k q Hkq. destruct (wf_queues _ Ha _ _ Hkq) as [? ? Hlive ?]. split; cbn; try done.
    + intros j (o' & Ho' & <-)%Hlive. destruct (decide (i = j)) as [->|].
      * simplify_eq. eexists. by rewrite lookup_insert_eq.
      * exists o'. by rewrite lookup_insert_ne.
    + rewrite total_insert by done. pose proof (qty_Some _ _ _ Ho). case_decide; cbn; lia.
Qed.
Lemma remove_shrink i o n : orders a !! i = Some o → remove i (shrink i o n) = remove i a.
Proof.
  intros Ho. unfold remove, shrink. cbn. by rewrite lookup_insert_eq, Ho, delete_insert_eq.
Qed.

Lemma reduce_wf i n : 0 ≤ n → wf (reduce i n a).2.
Proof.
  intros Hn. unfold reduce. destruct (orders a !! i) as [o|] eqn:Ho; [|done].
  repeat case_decide; cbn; [done|by apply remove_wf|]. apply (shrink_wf i o n Ho). lia.
Qed.

Lemma erase_wf i : wf (erase i a).2.
Proof. apply remove_wf. Qed.

Lemma add_wf capacity o : 0 ≤ quantity o ≤ u32_max → wf (add capacity o a).2.
Proof.
  intros Hq. unfold add. case_decide as Hd; [done|]. destruct (fits o a) eqn:Hf; [|done].
  apply push_wf; try done.
  - apply eq_None_not_Some. naive_solver.
  - naive_solver.
Qed.
End wf_lemmas.

Lemma replace_wf a i i' q p : wf a → 0 ≤ q ≤ u32_max → wf (replace i i' q p a).2.
Proof.
  intros Ha Hq. unfold replace. destruct (orders a !! i) as [o|] eqn:Ho; [|done].
  case_decide as Hd; [done|]. destruct (fits _ _) eqn:Hf; [|done].
  apply push_wf; try done; cbn.
  - by apply remove_wf.
  - unfold remove. rewrite Ho. cbn. apply lookup_delete_None. right.
    apply eq_None_not_Some. naive_solver.
  - naive_solver.
Qed.

Lemma remove_positive a i : positive a → positive (remove i a).
Proof.
  intros Hp j o. unfold remove. destruct (orders a !! i) eqn:E; cbn; [|apply Hp].
  intros [_ Hj]%lookup_delete_Some. by apply (Hp j).
Qed.
Lemma push_positive a o : positive a → 0 < quantity o → positive (push o a).
Proof. intros Hp Ho j o'. cbn. intros [[<- <-]|[_ Hj]]%lookup_insert_Some; [done|by apply (Hp j)]. Qed.

Lemma apply_wf capacity e a : wf a → event_ok e → wf (apply capacity e a).2.
Proof.
  intros Ha He. destruct e as [e|e|e|e|e]; cbn in *.
  - apply add_wf; [done|]. apply He.
  - apply reduce_wf; [done|]. lia.
  - apply reduce_wf; [done|]. lia.
  - by apply erase_wf.
  - apply replace_wf; [done|]. lia.
Qed.

Lemma reduce_positive a i n : positive a → positive (reduce i n a).2.
Proof.
  intros Hp. unfold reduce. destruct (orders a !! i) as [o|] eqn:Ho; [|done].
  repeat case_decide; cbn; [done|by apply remove_positive|].
  intros j o'. cbn. intros [[<- <-]|[_ Hj]]%lookup_insert_Some; cbn; [|by apply (Hp j)].
  assert (¬ (n = 0) ∧ ¬ (quantity o < n)) by naive_solver. lia.
Qed.

Lemma apply_positive capacity e a : positive a → event_ok e → positive (apply capacity e a).2.
Proof.
  intros Hp He. destruct e as [e|e|e|e|e]; cbn in *.
  - unfold add. case_decide as Hd; [done|]. destruct (fits _ _); [|done].
    apply push_positive; [done|]. destruct He as [_ ?].
    assert (quantity (add_order e) ≠ 0) by naive_solver. lia.
  - by apply reduce_positive.
  - by apply reduce_positive.
  - by apply remove_positive.
  - unfold replace. destruct (orders a !! _) as [o|] eqn:Ho; [|done].
    case_decide as Hd; [done|]. destruct (fits _ _); [|done].
    apply push_positive; [by apply remove_positive|]. cbn.
    assert (new_quantity e ≠ 0) by naive_solver. lia.
Qed.
End BookSpec.
