(* ===== verification/OrderBook.v ===== *)
(** The arena-backed limit order book: [include/efe/order_book.hpp] and [src/order_book.cpp].
    Definitions only; the abstract book is in [BookSpec], the invariant and the refinement in
    [BookInvariant] and [BookRefinement].

    References into maps and vectors are paths: [level_at] and [set_level] read and write the
    level of a symbol, side and price; a [PriceLevel&] parameter is a value passed in and
    returned.  Slots and levels never alias, so this is the code's sharing.

    The slots and the index are allocated by the constructor.  What a later call may still
    allocate is a node of [books_] and a node of a level map; a [Memory] says whether there is
    room for one, and [BadAlloc] is thrown if there is not.  [add], [replace] and [apply] without a
    [Memory] run with [plenty]. *)
From S2P Require Import Prelude Types FlatOrderIndex.

Module OrderBook.

Record PriceLevel : Type := mkLevel {
  total_quantity : Z;
  level_head : Z;
  level_tail : Z }.
Definition default_level : PriceLevel := mkLevel 0 kInvalidSlot kInvalidSlot.

Record SymbolBook : Type := mkSymbolBook {
  bids : gmap Z PriceLevel;
  asks : gmap Z PriceLevel }.
Definition default_symbol_book : SymbolBook := mkSymbolBook ∅ ∅.

Record Slot : Type := mkSlot {
  order : Order;
  prev : Z;
  next : Z;
  next_free : Z;
  alive : bool }.
Definition default_slot : Slot :=
  mkSlot default_order kInvalidSlot kInvalidSlot kInvalidSlot false.

Record t : Type := mk {
  slots_ : list Slot;
  free_head_ : Z;
  index_ : FlatOrderIndex.t;
  books_ : gmap Symbol.t SymbolBook }.

(** Assignments to one member. *)
Definition set_order (o : Order) (s : Slot) : Slot :=
  mkSlot o (prev s) (next s) (next_free s) (alive s).
Definition set_prev (p : Z) (s : Slot) : Slot :=
  mkSlot (order s) p (next s) (next_free s) (alive s).
Definition set_next (n : Z) (s : Slot) : Slot :=
  mkSlot (order s) (prev s) n (next_free s) (alive s).
Definition set_quantity (q : Z) (o : Order) : Order :=
  mkOrder (id o) (symbol o) (side o) q (price o).
Definition set_total (q : Z) (l : PriceLevel) : PriceLevel :=
  mkLevel q (level_head l) (level_tail l).
Definition set_head (h : Z) (l : PriceLevel) : PriceLevel :=
  mkLevel (total_quantity l) h (level_tail l).
Definition set_tail (h : Z) (l : PriceLevel) : PriceLevel :=
  mkLevel (total_quantity l) (level_head l) h.
Definition set_slots (f : list Slot → list Slot) (b : t) : t :=
  mk (f (slots_ b)) (free_head_ b) (index_ b) (books_ b).
Definition set_free_head (h : Z) (b : t) : t := mk (slots_ b) h (index_ b) (books_ b).
Definition set_index (i : FlatOrderIndex.t) (b : t) : t :=
  mk (slots_ b) (free_head_ b) i (books_ b).
Definition set_books (f : gmap Symbol.t SymbolBook → gmap Symbol.t SymbolBook) (b : t) : t :=
  mk (slots_ b) (free_head_ b) (index_ b) (f (books_ b)).

(** * Access to the members *)

(** [slots_[i]], read and written through a function on the slot. *)
Definition slot_at (i : Z) : M t Slot := λ b,
  match vget (slots_ b) i with
  | Some s => (Ret s, b)
  | None => (Undef "slots_[i]: index out of range", b)
  end.
Definition update_slot (i : Z) (f : Slot → Slot) : M t unit :=
  s ← slot_at i; modify (set_slots (λ ss, vset ss i (f s))).

Definition index_find (k : Z) : M t (option Z) := λ b, (FlatOrderIndex.find (index_ b) k, b).
(** A member function of [index_] that may change it. *)
Definition index_call {A} (f : FlatOrderIndex.t → outcome (A * FlatOrderIndex.t)) : M t A := λ b,
  match f (index_ b) with
  | Ret (a, i) => (Ret a, set_index i b)
  | Throw e => (Throw e, b)
  | Undef why => (Undef why, b)
  | OutOfFuel => (OutOfFuel, b)
  end.
Definition index_insert (k v : Z) : M t bool := index_call (λ i, FlatOrderIndex.insert i k v).
Definition index_erase (k : Z) : M t bool := index_call (λ i, FlatOrderIndex.erase i k).

Definition side_levels (s : Side) (sb : SymbolBook) : gmap Z PriceLevel :=
  match s with Buy => bids sb | Sell => asks sb end.
Definition set_side_levels (s : Side) (levels : gmap Z PriceLevel) (sb : SymbolBook) : SymbolBook :=
  match s with
  | Buy => mkSymbolBook levels (asks sb)
  | Sell => mkSymbolBook (bids sb) levels
  end.

(** Room for one more node of [books_], and for one of a level map. *)
Record Memory : Type := mkMemory { book_node : bool; level_node : bool }.
Definition plenty : Memory := mkMemory true true.

(** [books_.at(symbol)], [books_[symbol]] and [books_.erase(symbol)]. *)
Definition book_at (sym : Symbol.t) : M t SymbolBook := λ b,
  match books_ b !! sym with
  | Some sb => (Ret sb, b)
  | None => (Throw (OutOfRange "map::at"), b)
  end.
Definition book_subscript (mem : Memory) (sym : Symbol.t) : M t SymbolBook := λ b,
  match books_ b !! sym with
  | Some sb => (Ret sb, b)
  | None =>
      if book_node mem then (Ret default_symbol_book, set_books (insert sym default_symbol_book) b)
      else (Throw BadAlloc, b)
  end.
Definition set_book (sym : Symbol.t) (sb : SymbolBook) : M t unit := modify (set_books (insert sym sb)).
Definition erase_book (sym : Symbol.t) : M t unit := modify (set_books (delete sym)).

(** [side == Side::Buy ? book.bids.at(price) : book.asks.at(price)] *)
Definition level_at (sym : Symbol.t) (s : Side) (p : Z) : M t PriceLevel :=
  sb ← book_at sym;
  match side_levels s sb !! p with
  | Some l => mret l
  | None => throw (OutOfRange "map::at")
  end.
(** Writing through a reference to a level, and [levels.erase(it)]. *)
Definition set_level (sym : Symbol.t) (s : Side) (p : Z) (l : PriceLevel) : M t unit :=
  sb ← book_at sym; set_book sym (set_side_levels s (<[p:=l]> (side_levels s sb)) sb).
Definition erase_level (sym : Symbol.t) (s : Side) (p : Z) : M t unit :=
  sb ← book_at sym; set_book sym (set_side_levels s (delete p (side_levels s sb)) sb).
(** [levels.try_emplace(price)]: the level, and whether it is new. *)
Definition try_emplace (mem : Memory) (sym : Symbol.t) (s : Side) (p : Z) : M t (PriceLevel * bool) :=
  sb ← book_at sym;
  match side_levels s sb !! p with
  | Some l => mret (l, false)
  | None =>
      if level_node mem then set_level sym s p default_level;; mret (default_level, true)
      else throw BadAlloc
  end.
(** [levels.find(price)->second]: dereferencing [end()] is undefined. *)
Definition level_find (sym : Symbol.t) (s : Side) (p : Z) : M t PriceLevel :=
  sb ← book_at sym;
  match side_levels s sb !! p with
  | Some l => mret l
  | None => undef "dereference of levels.end()"
  end.

Definition is_empty (sb : SymbolBook) : bool := bool_decide (bids sb = ∅ ∧ asks sb = ∅).

(** * The arena *)

Definition new (max_orders : Z) : outcome t :=
  let slots := replicate (Z.to_nat max_orders) default_slot in
  index ← FlatOrderIndex.new max_orders;
  if (max_orders =? 0) || (kInvalidSlot <=? max_orders)
  then Throw (InvalidArgument "max_orders must be between 1 and UINT32_MAX-1")
  else
    let link i (s : Slot) :=
      let i := Z.of_nat i in
      mkSlot (order s) (prev s) (next s)
        (if i + 1 <? max_orders then u32 (i + 1) else kInvalidSlot) (alive s) in
    Ret (mk (imap link slots) 0 index ∅).

Definition allocate_slot : M t Z :=
  b ← get;
  if decide (free_head_ b = kInvalidSlot) then mret kInvalidSlot
  else
    let slot := free_head_ b in
    s ← slot_at slot;
    modify (set_free_head (next_free s));;
    update_slot slot (λ s, mkSlot (order s) (prev s) (next s) kInvalidSlot true);;
    mret slot.

Definition release_slot (slot : Z) : M t unit :=
  b ← get;
  update_slot slot (λ _, mkSlot (order default_slot) (prev default_slot) (next default_slot)
    (free_head_ b) (alive default_slot));;
  modify (set_free_head slot).

Definition link_at_tail (level : PriceLevel) (slot : Z) : M t PriceLevel :=
  update_slot slot (set_prev (level_tail level));;
  update_slot slot (set_next kInvalidSlot);;
  level ← (if decide (level_tail level ≠ kInvalidSlot)
           then update_slot (level_tail level) (set_next slot);; mret level
           else mret (set_head slot level));
  mret (set_tail slot level).

Definition unlink (level : PriceLevel) (slot : Z) : M t PriceLevel :=
  s ← slot_at slot;
  let p := prev s in
  let n := next s in
  level ← (if decide (p ≠ kInvalidSlot)
           then update_slot p (set_next n);; mret level
           else mret (set_head n level));
  level ← (if decide (n ≠ kInvalidSlot)
           then update_slot n (set_prev p);; mret level
           else mret (set_tail p level));
  update_slot slot (λ s, set_prev kInvalidSlot (set_next kInvalidSlot s));;
  mret level.

(** * Book operations *)

Definition erase_empty_level (o : Order) : M t unit :=
  b ← get;
  match books_ b !! symbol o with
  | None => mret tt
  | Some book =>
      (match side_levels (side o) book !! price o with
       | Some l =>
           if decide (level_head l = kInvalidSlot)
           then erase_level (symbol o) (side o) (price o) else mret tt
       | None => mret tt
       end);;
      book ← book_at (symbol o);
      if is_empty book then erase_book (symbol o) else mret tt
  end.

Definition remove_order (order_id : Z) : M t bool :=
  slot_opt ← index_find order_id;
  match slot_opt with
  | None => mret false
  | Some idx =>
      s ← slot_at idx;
      let o := order s in
      level ← level_at (symbol o) (side o) (price o);
      let level := set_total (u32 (total_quantity level - quantity o)) level in
      level ← unlink level idx;
      set_level (symbol o) (side o) (price o) level;;
      index_erase order_id;;
      release_slot idx;;
      erase_empty_level o;;
      mret true
  end.

(** The end of [add_to] when the order fits its level. *)
Definition join_level (o : Order) (slot : Z) (level : PriceLevel) : M t bool :=
  let level := set_total (u32 (total_quantity level + quantity o)) level in
  level ← link_at_tail level slot;
  set_level (symbol o) (side o) (price o) level;;
  mret true.
(** ... and the end of [add] when it does not. *)
Definition refuse_order (o : Order) (slot : Z) (inserted : bool) : M t bool :=
  (if inserted then erase_level (symbol o) (side o) (price o) else mret tt);;
  symbol_book ← book_at (symbol o);
  (if is_empty symbol_book then erase_book (symbol o) else mret tt);;
  index_erase (id o);;
  release_slot slot;;
  mret false.
(** The catch block of [add]. *)
Definition undo_add (o : Order) (slot : Z) : M t unit :=
  index_erase (id o);;
  release_slot slot;;
  b ← get;
  match books_ b !! symbol o with
  | Some book => if is_empty book then erase_book (symbol o) else mret tt
  | None => mret tt
  end.

Definition add_in (mem : Memory) (event : AddEvent) : M t bool :=
  let o := add_order event in
  if decide (id o = 0 ∨ quantity o = 0) then mret false
  else
    found ← index_find (id o);
    if decide (is_Some found) then mret false
    else
      slot ← allocate_slot;
      if decide (slot = kInvalidSlot) then mret false
      else
        update_slot slot (set_order o);;
        ok ← index_insert (id o) slot;
        if negb ok then release_slot slot;; mret false
        else
          catch_rethrow
            (book_subscript mem (symbol o);;
             '(level, inserted) ← try_emplace mem (symbol o) (side o) (price o);
             if u32 (u32_max - total_quantity level) <? quantity o then refuse_order o slot inserted
             else join_level o slot level)
            (undo_add o slot).
Definition add : AddEvent → M t bool := add_in plenty.

Definition execute (event : ExecuteEvent) : M t bool :=
  slot_opt ← index_find (exec_order_id event);
  match slot_opt with
  | None => mret false
  | Some i =>
      if decide (executed_shares event = 0) then mret false
      else
        slot ← slot_at i;
        let o := order slot in
        if quantity o <? executed_shares event then mret false
        else
          level ← level_at (symbol o) (side o) (price o);
          set_level (symbol o) (side o) (price o)
            (set_total (u32 (total_quantity level - executed_shares event)) level);;
          update_slot i (set_order (set_quantity (u32 (quantity o - executed_shares event)) o));;
          slot ← slot_at i;
          if decide (quantity (order slot) = 0) then remove_order (exec_order_id event)
          else mret true
  end.

Definition cancel (event : CancelEvent) : M t bool :=
  slot_opt ← index_find (cancel_order_id event);
  match slot_opt with
  | None => mret false
  | Some i =>
      if decide (canceled_shares event = 0) then mret false
      else
        slot ← slot_at i;
        let o := order slot in
        if quantity o <? canceled_shares event then mret false
        else
          level ← level_at (symbol o) (side o) (price o);
          set_level (symbol o) (side o) (price o)
            (set_total (u32 (total_quantity level - canceled_shares event)) level);;
          update_slot i (set_order (set_quantity (u32 (quantity o - canceled_shares event)) o));;
          slot ← slot_at i;
          if decide (quantity (order slot) = 0) then remove_order (cancel_order_id event)
          else mret true
  end.

Definition erase (event : DeleteEvent) : M t bool := remove_order (delete_order_id event).

(** [replace_in] on the old price: the level keeps its total apart from the one order, which
    moves to the tail under its new id. *)
Definition replace_same_price (event : ReplaceEvent) (old : Order) (i : Z) : M t bool :=
  level ← level_find (symbol old) (side old) (price old);
  let without_old := u64 (total_quantity level - quantity old) in
  if u32_max <? u64 (without_old + new_quantity event) then mret false
  else
    ok ← index_insert (new_order_id event) i;
    if negb ok then mret false
    else
      level ← unlink level i;
      let level := set_total (u32 (without_old + new_quantity event)) level in
      update_slot i (λ s, set_order
        (mkOrder (new_order_id event) (symbol (order s)) (side (order s)) (new_quantity event)
           (price (order s))) s);;
      level ← link_at_tail level i;
      set_level (symbol old) (side old) (price old) level;;
      index_erase (old_order_id event);;
      mret true.

(** The end of [replace_in] on another price, when the index holds both orders. *)
Definition move_order (event : ReplaceEvent) (old : Order) (i : Z) (new_level : PriceLevel) : M t bool :=
  old_level ← level_find (symbol old) (side old) (price old);
  old_level ← unlink old_level i;
  let old_level := set_total (u32 (total_quantity old_level - quantity old)) old_level in
  set_level (symbol old) (side old) (price old) old_level;;
  update_slot i (λ s, set_order
    (mkOrder (new_order_id event) (symbol (order s)) (side (order s)) (new_quantity event)
       (new_price event)) s);;
  let new_level := set_total (u32 (total_quantity new_level + new_quantity event)) new_level in
  new_level ← link_at_tail new_level i;
  set_level (symbol old) (side old) (new_price event) new_level;;
  index_erase (old_order_id event);;
  (if decide (level_head old_level = kInvalidSlot)
   then erase_level (symbol old) (side old) (price old) else mret tt);;
  mret true.
(** [replace_in] on another price. *)
Definition replace_new_price (mem : Memory) (event : ReplaceEvent) (old : Order) (i : Z) : M t bool :=
  '(new_level, inserted) ← try_emplace mem (symbol old) (side old) (new_price event);
  let undo := if (inserted : bool) then erase_level (symbol old) (side old) (new_price event)
              else mret tt in
  if u32 (u32_max - total_quantity new_level) <? new_quantity event then undo;; mret false
  else
    ok ← index_insert (new_order_id event) i;
    if negb ok then undo;; mret false else move_order event old i new_level.

Definition replace_in (mem : Memory) (event : ReplaceEvent) : M t bool :=
  old_slot ← index_find (old_order_id event);
  match old_slot with
  | None => mret false
  | Some i =>
      if decide (new_order_id event = 0 ∨ new_quantity event = 0) then mret false
      else
        clash ← index_find (new_order_id event);
        if decide (is_Some clash) then mret false
        else
          slot ← slot_at i;
          let old := order slot in
          book_at (symbol old);;
          if decide (price old = new_price event)
          then replace_same_price event old i
          else replace_new_price mem event old i
  end.
Definition replace : ReplaceEvent → M t bool := replace_in plenty.

(** [std::visit] dispatches on the alternative held. *)
Definition apply_in (mem : Memory) (event : MarketEvent) : M t bool :=
  match event with
  | Add e => add_in mem e
  | Execute e => execute e
  | Cancel e => cancel e
  | Delete e => erase e
  | Replace e => replace_in mem e
  end.
Definition apply : MarketEvent → M t bool := apply_in plenty.

(** * Queries *)

Definition slot_of (b : t) (i : Z) : outcome Slot :=
  match vget (slots_ b) i with
  | Some s => Ret s
  | None => Undef "slots_[i]: index out of range"
  end.

Definition find (b : t) (order_id : Z) : outcome (option Order) :=
  slot ← FlatOrderIndex.find (index_ b) order_id;
  match slot with
  | Some i => s ← slot_of b i; Ret (Some (order s))
  | None => Ret None
  end.

(** The keys of [bids] in [std::greater] order, of [asks] in [std::less] order. *)
Definition level_order (s : Side) : relation Z := match s with Buy => Z.ge | Sell => Z.le end.
#[export] Instance level_order_dec s : RelDecision (level_order s).
Proof. destruct s; unfold level_order; apply _. Defined.

Definition best (s : Side) (b : t) (sym : Symbol.t) : option Z :=
  match books_ b !! sym with
  | None => None
  | Some sb => first_key (level_order s) (side_levels s sb)
  end.
Definition best_bid : t → Symbol.t → option Z := best Buy.
Definition best_ask : t → Symbol.t → option Z := best Sell.

(** The orders of the loop
    [for (slot = head; slot != kInvalidSlot; slot = slots_[slot].next)]. *)
Fixpoint walk (b : t) (fuel : nat) (slot : Z) : outcome (list Order) :=
  match fuel with
  | O => OutOfFuel
  | S fuel =>
      if decide (slot = kInvalidSlot) then Ret []
      else
        s ← slot_of b slot;
        rest ← walk b fuel (next s);
        Ret (order s :: rest)
  end.
(** A queue visits each slot at most once. *)
Definition level_orders (b : t) (l : PriceLevel) : outcome (list Order) :=
  walk b (S (length (slots_ b))) (level_head l).

Record LevelSnapshot : Type := mkSnapshot {
  snapshot_price : Z;
  snapshot_total : Z;
  fifo_order_ids : list Z }.
#[export] Instance snapshot_eq_dec : EqDecision LevelSnapshot.
Proof. solve_decision. Defined.

(** The levels of one side in map order. *)
Definition in_order {V} (s : Side) (levels : gmap Z V) : list (Z * V) :=
  omap (λ p, (λ l, (p, l)) <$> levels !! p) (sorted_keys (level_order s) levels).

Definition levels (s : Side) (b : t) (sym : Symbol.t) : outcome (list LevelSnapshot) :=
  match books_ b !! sym with
  | None => Ret []
  | Some sb =>
      mapM (λ '(p, l), os ← level_orders b l; Ret (mkSnapshot p (total_quantity l) (id <$> os)))
        (in_order s (side_levels s sb))
  end.
Definition bid_levels : t → Symbol.t → outcome (list LevelSnapshot) := levels Buy.
Definition ask_levels : t → Symbol.t → outcome (list LevelSnapshot) := levels Sell.

Definition live_order_count (b : t) : Z := FlatOrderIndex.size (index_ b).
Definition max_orders (b : t) : Z := Z.of_nat (length (slots_ b)).

Definition hash_mix (h value : Z) : Z :=
  Z.lxor h (u64 (value + 0x9e3779b97f4a7c15 + u64 (Z.shiftl h 6) + Z.shiftr h 2)).

Definition hash_order (h : Z) (o : Order) : Z := hash_mix (hash_mix h (id o)) (quantity o).
Definition hash_level (b : t) (h : Z) (pl : Z * PriceLevel) : outcome Z :=
  let '(p, l) := pl in
  let h := hash_mix (hash_mix h p) (total_quantity l) in
  os ← level_orders b l;
  Ret (hash_mix (foldl hash_order h os) kInvalidSlot).
Definition hash_levels (b : t) (s : Side) (levels : gmap Z PriceLevel) (h : Z) : outcome Z :=
  let h := hash_mix (hash_mix h (side_value s)) (Z.of_nat (size levels)) in
  foldM (hash_level b) (in_order s levels) h.

Definition state_hash (char_is_signed : bool) (b : t) : outcome Z :=
  let h := hash_mix 0xcbf29ce484222325 (Z.of_nat (size (books_ b))) in
  foldM (λ h sym,
    match books_ b !! sym with
    | None => Ret h
    | Some book =>
        let h := foldl (λ h c, hash_mix h (Z_of_byte c)) h (Symbol.bytes sym) in
        h ← hash_levels b Buy (bids book) h;
        hash_levels b Sell (asks book) h
    end) (sorted_keys (symbol_le char_is_signed) (books_ b)) h.
End OrderBook.
