(* ===== verification/BookInvariant.v ===== *)
(** The invariant of [OrderBook]: intrusive queues, the free list, the level maps and the index
    together represent a [BookSpec] book.  One specification per helper of the class, proved as
    [wp] rules that [BookRefinement] composes. *)
From S2P Require Import Prelude Types FlatOrderIndex BookSpec OrderBook.
Import OrderBook.

(** * Doubly linked segments *)

Abbreviation INV := kInvalidSlot.

(** What follows, and what precedes, a position next to the list [l]. *)
Definition first_or (n : Z) (l : list Z) : Z := match l with [] => n | i :: _ => i end.
Fixpoint last_or (p : Z) (l : list Z) : Z := match l with [] => p | i :: l => last_or i l end.

(** The slots [l] are linked in this order, after [p] and before [n]. *)
Fixpoint segment (ss : list Slot) (p : Z) (l : list Z) (n : Z) : Prop :=
  match l with
  | [] => True
  | i :: l' =>
      ∃ s, vget ss i = Some s ∧ prev s = p ∧ next s = first_or n l' ∧ segment ss i l' n
  end.

Lemma first_or_app n l1 l2 : first_or n (l1 ++ l2) = first_or (first_or n l2) l1.
Proof. by destruct l1. Qed.
Lemma last_or_app p l1 l2 : last_or p (l1 ++ l2) = last_or (last_or p l1) l2.
Proof. revert p. induction l1; intros p; cbn; auto. Qed.

Lemma segment_app ss p l1 l2 n :
  segment ss p (l1 ++ l2) n ↔
  segment ss p l1 (first_or n l2) ∧ segment ss (last_or p l1) l2 n.
Proof.
  revert p. induction l1 as [|i l1 IH]; intros p; cbn; [naive_solver|].
  setoid_rewrite IH. rewrite first_or_app. naive_solver.
Qed.

(** Links of other slots do not matter. *)
Lemma segment_frame ss ss' p l n :
  (∀ i, i ∈ l → vget ss' i = vget ss i) → segment ss p l n → segment ss' p l n.
Proof.
  revert p. induction l as [|i l IH]; intros p Hf; cbn; [done|].
  intros (s & Hs & ? & ? & ?). exists s. rewrite Hf by set_solver.
  split_and!; try done. apply IH; [|done]. set_solver.
Qed.
Lemma segment_vset ss i s p l n :
  i ∉ l → segment ss p l n → segment (vset ss i s) p l n.
Proof. intros Hi. apply segment_frame. intros j Hj. apply vget_vset_ne. set_solver. Qed.

Lemma segment_lookup ss p l n i : segment ss p l n → i ∈ l → ∃ s, vget ss i = Some s.
Proof.
  revert p. induction l as [|j l IH]; intros p; cbn; [set_solver|].
  intros (s & ? & ? & ? & ?) [->|]%elem_of_cons; eauto.
Qed.

(** Redirecting the two ends of a segment. *)
Lemma segment_set_prev ss p p' i l n s :
  segment ss p (i :: l) n → NoDup (i :: l) → vget ss i = Some s →
  segment (vset ss i (set_prev p' s)) p' (i :: l) n.
Proof.
  cbn. intros (s' & ? & ? & ? & ?) [Hi _]%NoDup_cons Hs. assert (s' = s) as -> by congruence.
  exists (set_prev p' s). rewrite vget_vset_eq by (by eauto with mw).
  split_and!; try done. by apply segment_vset.
Qed.
Lemma segment_set_next ss p l i n n' s :
  segment ss p (l ++ [i]) n → NoDup (l ++ [i]) → vget ss i = Some s →
  segment (vset ss i (set_next n' s)) p (l ++ [i]) n'.
Proof.
  rewrite !segment_app. cbn. intros [Hl (s' & ? & ? & ? & _)] Hnd Hs.
  assert (s' = s) as -> by congruence.
  apply NoDup_app in Hnd as (_ & Hi & _).
  split; [apply segment_vset; [set_solver|done]|].
  exists (set_next n' s). by rewrite vget_vset_eq by (by eauto with mw).
Qed.

(** * Changing links only *)

Definition slot_data (s : Slot) : Order * Z * bool := (order s, next_free s, alive s).

(** [ss'] is [ss] with new links on slots of [l]. *)
Record relinked (l : list Z) (ss ss' : list Slot) : Prop := {
  relinked_length : length ss' = length ss;
  relinked_data i : slot_data <$> vget ss' i = slot_data <$> vget ss i;
  relinked_frame i : i ∉ l → vget ss' i = vget ss i
}.

Lemma relinked_refl l ss : relinked l ss ss.
Proof. done. Qed.
Lemma relinked_trans l ss1 ss2 ss3 : relinked l ss1 ss2 → relinked l ss2 ss3 → relinked l ss1 ss3.
Proof.
  intros [L1 D1 F1] [L2 D2 F2]. split; [congruence| |].
  - intros i. by rewrite D2.
  - intros i ?. by rewrite F2, F1.
Qed.
Lemma relinked_vset l ss i s s' :
  vget ss i = Some s → i ∈ l → slot_data s' = slot_data s → relinked l ss (vset ss i s').
Proof.
  intros Hs Hi Hd. pose proof (vget_bounds _ _ _ Hs). split.
  - apply length_vset.
  - intros j. rewrite vget_vset by done. case_decide; [|done]. subst. rewrite Hs. cbn. by f_equal.
  - intros j ?. apply vget_vset_ne. set_solver.
Qed.
Lemma relinked_lookup l ss ss' i s :
  relinked l ss ss' → vget ss i = Some s → ∃ s', vget ss' i = Some s' ∧ slot_data s' = slot_data s.
Proof.
  intros Hr Hs. pose proof (relinked_data _ _ _ Hr i) as Hd. rewrite Hs in Hd. cbn in Hd.
  apply fmap_Some in Hd as (s' & ? & ?). eauto.
Qed.
Lemma relinked_lookup_inv l ss ss' i s' :
  relinked l ss ss' → vget ss' i = Some s' → ∃ s, vget ss i = Some s ∧ slot_data s' = slot_data s.
Proof.
  intros Hr Hs. pose proof (relinked_data _ _ _ Hr i) as Hd. rewrite Hs in Hd. cbn in Hd.
  symmetry in Hd. apply fmap_Some in Hd as (s & ? & ?). eauto.
Qed.

(** * The queue of a level *)

Record fifo (ss : list Slot) (lvl : PriceLevel) (l : list Z) : Prop := {
  fifo_head : level_head lvl = first_or INV l;
  fifo_tail : level_tail lvl = last_or INV l;
  fifo_segment : segment ss INV l INV;
  fifo_nodup : NoDup l;
  fifo_valid : INV ∉ l
}.

Lemma fifo_frame ss ss' lvl l :
  (∀ i, i ∈ l → vget ss' i = vget ss i) → fifo ss lvl l → fifo ss' lvl l.
Proof. intros Hf [? ? ? ? ?]. split; try done. by eapply segment_frame. Qed.

(** What a slot holds does not matter to its queue. *)
Lemma fifo_set_order ss lvl l j s o :
  vget ss j = Some s → fifo ss lvl l → fifo (vset ss j (set_order o s)) lvl l.
Proof.
  intros Hs [? ? Hseg ? ?]. split; try done. clear -Hs Hseg. revert Hseg. generalize INV at 1 3.
  induction l as [|i l IH]; intros p; cbn; [done|].
  intros (s' & Hs' & ? & ? & Hseg). pose proof (vget_bounds _ _ _ Hs).
  rewrite vget_vset by done. case_decide as Hij.
  - exists (set_order o s). simplify_eq. split_and!; try done. by apply IH.
  - exists s'. split_and!; try done. by apply IH.
Qed.

Lemma fifo_set_total ss lvl l q : fifo ss lvl l → fifo ss (set_total q lvl) l.
Proof. by intros [? ? ? ? ?]. Qed.

Lemma fifo_empty ss q : fifo ss (mkLevel q INV INV) [].
Proof. split; cbn; try done; [constructor|set_solver]. Qed.

Lemma fifo_head_INV ss lvl l : fifo ss lvl l → level_head lvl = INV ↔ l = [].
Proof.
  intros [-> _ _ _ Hv]. destruct l as [|i l]; cbn; [done|]. split; [|done]. intros ->. set_solver.
Qed.

(** * Symbolic execution of the arena *)

Lemma wp_slot_at i s (Q : Slot → OrderBook.t → Prop) b :
  vget (slots_ b) i = Some s → Q s b → wp (slot_at i) Q b.
Proof. intros Hs. unfold wp, slot_at. by rewrite Hs. Qed.
Lemma wp_update_slot i f s (Q : unit → OrderBook.t → Prop) b :
  vget (slots_ b) i = Some s → Q tt (set_slots (λ ss, vset ss i (f s)) b) → wp (update_slot i f) Q b.
Proof. intros. apply wp_bind. by eapply wp_slot_at. Qed.

(** A slot that is already the end of nothing joins the queue at its tail. *)
Lemma link_slots ss lvl l i s :
  fifo ss lvl l → i ∉ l → i ≠ INV → vget ss i = Some s →
  let s1 := set_next INV (set_prev (last_or INV l) s) in
  let ss1 := vset ss i s1 in
  let ss2 := match list.last l with
             | Some t => from_option (λ st, vset ss1 t (set_next i st)) ss1 (vget ss1 t)
             | None => ss1
             end in
  relinked (i :: l) ss ss2 ∧ segment ss2 INV (l ++ [i]) INV.
Proof.
  intros [_ _ Hseg Hnd Hv] Hi Hinv Hs s1 ss1.
  pose proof (vget_bounds _ _ _ Hs) as Hb.
  assert (Hr1 : relinked (i :: l) ss ss1) by (eapply relinked_vset; [done|set_solver|done]).
  assert (H1 : vget ss1 i = Some s1) by (by apply vget_vset_eq).
  destruct l as [|t l _] using rev_ind; cbn.
  - split; [done|]. exists s1. by rewrite H1.
  - rewrite last_snoc. apply (segment_vset _ i s1) in Hseg; [|done].
    destruct (segment_lookup _ _ _ _ t Hseg) as [st Hst]; [set_solver|].
    fold ss1 in Hst, Hseg. rewrite Hst. cbn. split.
    { eapply relinked_trans; [done|]. eapply relinked_vset; [done|set_solver|done]. }
    assert (t ≠ i) by set_solver. rewrite segment_app. split.
    + eapply segment_set_next; try done.
    + cbn. rewrite vget_vset_ne by done. exists s1. rewrite H1.
      unfold s1. cbn. by rewrite last_or_app.
Qed.

Lemma last_or_last p l : last_or p l = default p (list.last l).
Proof. destruct l as [|i l _] using rev_ind; [done|]. by rewrite last_or_app, last_snoc. Qed.

Lemma wp_link_at_tail lvl i l (Q : PriceLevel → OrderBook.t → Prop) b :
  fifo (slots_ b) lvl l → i ∉ l → i ≠ INV → is_Some (vget (slots_ b) i) →
  (∀ ss' lvl', relinked (i :: l) (slots_ b) ss' → fifo ss' lvl' (l ++ [i]) →
     total_quantity lvl' = total_quantity lvl → Q lvl' (set_slots (λ _, ss') b)) →
  wp (link_at_tail lvl i) Q b.
Proof.
  intros Hf Hi Hinv [s Hs] HQ. pose proof (vget_bounds _ _ _ Hs) as Hb.
  pose proof (link_slots _ _ _ _ _ Hf Hi Hinv Hs) as [Hr Hseg].
  pose proof Hf as [Hh Ht _ Hnd Hv]. unfold link_at_tail.
  apply wp_bind. eapply wp_update_slot; [done|].
  apply wp_bind. eapply wp_update_slot; [by apply vget_vset_eq|]. cbn.
  assert (Hset : ∀ s1 s2, vset (vset (slots_ b) i s1) i s2 = vset (slots_ b) i s2).
  { intros s1 s2. apply vset_vset. }
  assert (Hdone : ∀ ss' lvl' f, f (slots_ b) = ss' → relinked (i :: l) (slots_ b) ss' →
    segment ss' INV (l ++ [i]) INV → level_head lvl' = first_or INV (l ++ [i]) →
    level_tail lvl' = i → total_quantity lvl' = total_quantity lvl → Q lvl' (set_slots f b)).
  { intros ss' lvl' f <- ?????. apply (HQ (f (slots_ b))); [done| |done]. split; try done.
    - by rewrite last_or_app.
    - apply NoDup_app. split_and!; [done|set_solver|apply NoDup_singleton].
    - set_solver. }
  rewrite Ht, last_or_last in *. apply wp_bind. destruct l as [|t l _] using rev_ind.
  - cbn in *. rewrite decide_False by naive_solver. apply wp_ret, wp_ret.
    eapply (Hdone _ _ (λ ss, vset (vset ss i _) i _)); [by rewrite Hset|done..].
  - rewrite last_snoc in *. cbn in *. rewrite decide_True by set_solver.
    set (ss1 := vset (slots_ b) i _) in *.
    destruct (vget ss1 t) as [st|] eqn:Hst; cbn in *; [|].
    + apply wp_bind. eapply wp_update_slot; [cbn; by rewrite Hset|]. apply wp_ret, wp_ret. cbn.
      eapply (Hdone _ _ (λ ss, vset (vset (vset ss i _) i _) t _)); try done.
      all: rewrite ?Hset; try done. cbn. rewrite Hh, !first_or_app. by destruct l.
    + exfalso. destruct (segment_lookup _ _ _ _ t Hseg) as [? ?]; [set_solver|congruence].
Qed.

(** The two link updates of [unlink]: the part of the queue before the slot, then the part
    after it. *)
Lemma wp_cut_before lvl l1 i n (Q : PriceLevel → OrderBook.t → Prop) b :
  segment (slots_ b) INV l1 i → NoDup l1 → INV ∉ l1 → level_head lvl = first_or i l1 →
  (∀ ss', relinked l1 (slots_ b) ss' → segment ss' INV l1 n →
     Q (set_head (first_or n l1) lvl) (set_slots (λ _, ss') b)) →
  wp (if decide (last_or INV l1 ≠ INV)
      then update_slot (last_or INV l1) (set_next n);; mret lvl
      else mret (set_head n lvl)) Q b.
Proof.
  intros Hseg Hnd Hv Hh HQ. destruct l1 as [|p l1 _] using rev_ind; cbn.
  { rewrite decide_False by naive_solver. apply wp_ret. by destruct b; apply HQ. }
  rewrite last_or_app. cbn. rewrite decide_True by set_solver.
  destruct (segment_lookup _ _ _ _ p Hseg) as [s Hs]; [set_solver|].
  apply wp_bind. eapply wp_update_slot; [done|]. apply wp_ret.
  assert (set_head (first_or n (l1 ++ [p])) lvl = lvl) as <-.
  { destruct lvl. cbn in *. rewrite Hh. unfold set_head. cbn. by destruct l1. }
  apply (HQ (vset (slots_ b) p (set_next n s))).
  - eapply relinked_vset; [done|set_solver|done].
  - by eapply segment_set_next.
Qed.

Lemma wp_cut_after lvl l2 i p (Q : PriceLevel → OrderBook.t → Prop) b :
  segment (slots_ b) i l2 INV → NoDup l2 → INV ∉ l2 → level_tail lvl = last_or i l2 →
  (∀ ss', relinked l2 (slots_ b) ss' → segment ss' p l2 INV →
     Q (set_tail (last_or p l2) lvl) (set_slots (λ _, ss') b)) →
  wp (if decide (first_or INV l2 ≠ INV)
      then update_slot (first_or INV l2) (set_prev p);; mret lvl
      else mret (set_tail p lvl)) Q b.
Proof.
  intros Hseg Hnd Hv Ht HQ. destruct l2 as [|n l2]; cbn.
  { rewrite decide_False by naive_solver. apply wp_ret. by destruct b; apply HQ. }
  rewrite decide_True by set_solver.
  destruct (segment_lookup _ _ _ _ n Hseg) as [s Hs]; [set_solver|].
  apply wp_bind. eapply wp_update_slot; [done|]. apply wp_ret.
  assert (set_tail (last_or p (n :: l2)) lvl = lvl) as <-.
  { destruct lvl. cbn in *. by rewrite Ht. }
  apply (HQ (vset (slots_ b) n (set_prev p s))).
  - eapply relinked_vset; [done|set_solver|done].
  - by eapply segment_set_prev.
Qed.

Lemma relinked_mono l l' ss ss' : (∀ i, i ∈ l → i ∈ l') → relinked l ss ss' → relinked l' ss ss'.
Proof. intros Hl [? ? Hf]. split; try done. intros i Hi. apply Hf. set_solver. Qed.

Lemma wp_unlink lvl l1 i l2 (Q : PriceLevel → OrderBook.t → Prop) b :
  fifo (slots_ b) lvl (l1 ++ i :: l2) →
  (∀ ss' lvl', relinked (l1 ++ i :: l2) (slots_ b) ss' → fifo ss' lvl' (l1 ++ l2) →
     total_quantity lvl' = total_quantity lvl → Q lvl' (set_slots (λ _, ss') b)) →
  wp (unlink lvl i) Q b.
Proof.
  intros [Hh Ht Hseg Hnd Hv] HQ. rewrite first_or_app in Hh. rewrite last_or_app in Ht.
  apply segment_app in Hseg as [Hseg1 (s & Hs & Hp & Hn & Hseg2)]. cbn in Ht, Hh, Hseg1.
  apply NoDup_app in Hnd as (Hnd1 & Hd & [Hi2 Hnd2]%NoDup_cons).
  assert (Hi1 : i ∉ l1) by (intros ?; apply (Hd i); set_solver).
  unfold unlink. apply wp_bind. eapply wp_slot_at; [done|]. rewrite Hp, Hn.
  apply wp_bind. eapply wp_cut_before; [done|done|set_solver|done|]. intros ss1 Hr1 Hs1.
  assert (Hseg2' : segment ss1 i l2 INV).
  { eapply segment_frame; [|done]. intros j Hj. apply Hr1. intros ?. apply (Hd j); set_solver. }
  apply wp_bind. eapply (wp_cut_after _ l2 i); [done|done|set_solver|done|]. intros ss2 Hr2 Hs2.
  assert (Hi : vget ss2 i = Some s).
  { rewrite (relinked_frame _ _ _ Hr2), (relinked_frame _ _ _ Hr1); done. }
  apply wp_bind. eapply wp_update_slot; [done|]. apply wp_ret.
  apply (HQ (vset ss2 i (set_prev INV (set_next INV s)))); [| |done].
  - eapply relinked_trans; [eapply relinked_mono; [|done]; set_solver|].
    eapply relinked_trans; [eapply relinked_mono; [|exact Hr2]; set_solver|].
    eapply relinked_vset; [done|set_solver|done].
  - split; cbn.
    + by rewrite first_or_app.
    + by rewrite last_or_app.
    + apply segment_vset; [set_solver|]. apply segment_app. split; [|done].
      eapply segment_frame; [|done]. intros j Hj. apply Hr2. intros ?. apply (Hd j); set_solver.
    + apply NoDup_app. split_and!; [done|set_solver|done].
    + set_solver.
Qed.

(** * The level maps *)

Implicit Types (bs : gmap Symbol.t SymbolBook) (k : BookSpec.level_key).

Definition lookup_level bs k : option PriceLevel :=
  sb ← bs !! k.1.1; side_levels k.1.2 sb !! k.2.

(** Symbols are kept only while they have a level; inside an operation the one being worked on
    may be an exception. *)
Definition nonempty bs : Prop := ∀ sym sb, bs !! sym = Some sb → is_empty sb = false.
Definition nonempty_but (sym : Symbol.t) bs : Prop :=
  ∀ sym' sb, sym' ≠ sym → bs !! sym' = Some sb → is_empty sb = false.

(** [bs'] is [bs] with level [k] as given. *)
Definition updated k (ol : option PriceLevel) bs bs' : Prop :=
  ∀ k', lookup_level bs' k' = if decide (k' = k) then ol else lookup_level bs k'.

Lemma updated_trans k ol ol' bs bs' bs'' :
  updated k ol bs bs' → updated k ol' bs' bs'' → updated k ol' bs bs''.
Proof.
  intros Hu Hu' k'. rewrite Hu', Hu. by destruct (decide (k' = k)).
Qed.

Lemma side_levels_set s s' ls sb :
  side_levels s' (set_side_levels s ls sb) = if decide (s' = s) then ls else side_levels s' sb.
Proof. by destruct s, s'. Qed.

Lemma is_empty_false sb s p l : side_levels s sb !! p = Some l → is_empty sb = false.
Proof.
  intros Hl. unfold is_empty. apply bool_decide_false. intros [Hb Ha].
  destruct s; cbn in Hl; rewrite ?Hb, ?Ha, lookup_empty in Hl; done.
Qed.

Lemma nonempty_weaken sym bs : nonempty bs → nonempty_but sym bs.
Proof. intros Hn sym' sb _. apply Hn. Qed.

(** Replacing the levels of one side of one symbol. *)
Lemma updated_side k ol sb ls bs :
  bs !! k.1.1 = Some sb →
  (∀ p, ls !! p = if decide (p = k.2) then ol else side_levels k.1.2 sb !! p) →
  updated k ol bs (<[k.1.1:=set_side_levels k.1.2 ls sb]> bs).
Proof.
  destruct k as [[sym s] p]. cbn. intros Hsb Hls [[sym' s'] p']. unfold lookup_level. cbn.
  destruct (decide (sym' = sym)) as [->|Hsym].
  - rewrite lookup_insert_eq, Hsb. cbn. rewrite side_levels_set.
    repeat case_decide; simplify_eq; rewrite ?Hls, ?decide_True, ?decide_False by congruence; try done.
  - rewrite lookup_insert_ne by done. rewrite decide_False; [done|congruence].
Qed.

Lemma lookup_level_book bs k l : lookup_level bs k = Some l → is_Some (bs !! k.1.1).
Proof. intros (sb & -> & _)%bind_Some. eauto. Qed.

Lemma wp_level_at sym s p l (Q : PriceLevel → OrderBook.t → Prop) b :
  lookup_level (books_ b) (sym, s, p) = Some l → Q l b → wp (level_at sym s p) Q b.
Proof.
  intros (sb & Hsb & Hl)%bind_Some HQ. cbn in *. unfold level_at, wp, mbind, M_bind, book_at.
  rewrite Hsb. by rewrite Hl.
Qed.
Lemma wp_level_find sym s p l (Q : PriceLevel → OrderBook.t → Prop) b :
  lookup_level (books_ b) (sym, s, p) = Some l → Q l b → wp (level_find sym s p) Q b.
Proof.
  intros (sb & Hsb & Hl)%bind_Some HQ. cbn in *. unfold level_find, wp, mbind, M_bind, book_at.
  rewrite Hsb. by rewrite Hl.
Qed.
Lemma wp_book_at sym sb (Q : SymbolBook → OrderBook.t → Prop) b :
  books_ b !! sym = Some sb → Q sb b → wp (book_at sym) Q b.
Proof. intros Hsb. unfold wp, book_at. by rewrite Hsb. Qed.

Lemma wp_set_level sym s p l (Q : unit → OrderBook.t → Prop) b :
  is_Some (books_ b !! sym) → nonempty_but sym (books_ b) →
  (∀ bs', updated (sym, s, p) (Some l) (books_ b) bs' → is_Some (bs' !! sym) → nonempty bs' →
     Q tt (set_books (λ _, bs') b)) →
  wp (set_level sym s p l) Q b.
Proof.
  intros [sb Hsb] Hn HQ. apply wp_bind. eapply wp_book_at; [done|]. apply wp_modify.
  set (ls := <[p:=l]> (side_levels s sb)).
  apply (HQ (<[sym:=set_side_levels s ls sb]> (books_ b))).
  - apply (updated_side (sym, s, p)); [done|]. intros p'. cbn. unfold ls.
    rewrite lookup_insert. repeat case_decide; congruence.
  - by rewrite lookup_insert_eq.
  - intros sym' sb' [[<- <-]|[? ?]]%lookup_insert_Some; [|by eapply Hn].
    apply (is_empty_false _ s p l). rewrite side_levels_set, decide_True by done.
    apply lookup_insert_eq.
Qed.

Lemma wp_erase_level sym s p (Q : unit → OrderBook.t → Prop) b :
  is_Some (books_ b !! sym) → nonempty_but sym (books_ b) →
  (∀ bs', updated (sym, s, p) None (books_ b) bs' → is_Some (bs' !! sym) → nonempty_but sym bs' →
     Q tt (set_books (λ _, bs') b)) →
  wp (erase_level sym s p) Q b.
Proof.
  intros [sb Hsb] Hn HQ. apply wp_bind. eapply wp_book_at; [done|]. apply wp_modify.
  set (ls := delete p (side_levels s sb)).
  apply (HQ (<[sym:=set_side_levels s ls sb]> (books_ b))).
  - apply (updated_side (sym, s, p)); [done|]. intros p'. cbn. unfold ls.
    rewrite lookup_delete. repeat case_decide; congruence.
  - by rewrite lookup_insert_eq.
  - intros sym' sb' ? [[<- <-]|[? ?]]%lookup_insert_Some; [done|by eapply Hn].
Qed.

(** [books_[symbol]] leaves the levels alone. *)
Lemma wpx_book_subscript mem sym (Q : SymbolBook → OrderBook.t → Prop) (X : exn → OrderBook.t → Prop) b :
  nonempty (books_ b) → (book_node mem = false → X BadAlloc b) →
  (∀ sb bs', is_Some (bs' !! sym) → (∀ k, lookup_level bs' k = lookup_level (books_ b) k) →
     nonempty_but sym bs' → Q sb (set_books (λ _, bs') b)) →
  wpx (book_subscript mem sym) Q X b.
Proof.
  intros Hn HX HQ. unfold wpx, book_subscript. destruct (books_ b !! sym) as [sb|] eqn:Hsb.
  - destruct b as [? ? ? bs]. apply (HQ sb bs); cbn in *; [eauto|done|by apply nonempty_weaken].
  - destruct (book_node mem); [|by apply HX].
    apply (HQ default_symbol_book (<[sym:=default_symbol_book]> (books_ b))).
    + by rewrite lookup_insert_eq.
    + intros [[sym' s'] p']. unfold lookup_level. cbn. rewrite lookup_insert.
      case_decide; [subst|done]. rewrite Hsb. cbn. by destruct s'; cbn; rewrite lookup_empty.
    + intros sym' sb' ? [[<- <-]|[? ?]]%lookup_insert_Some; [done|by eapply Hn].
Qed.

(** Dropping a symbol that has become empty. *)
Lemma wp_drop_empty sym (Q : unit → OrderBook.t → Prop) b :
  is_Some (books_ b !! sym) → nonempty_but sym (books_ b) →
  (∀ bs', (∀ k, lookup_level bs' k = lookup_level (books_ b) k) → nonempty bs' →
     Q tt (set_books (λ _, bs') b)) →
  wp (sb ← book_at sym; if is_empty sb then erase_book sym else mret tt) Q b.
Proof.
  intros [sb Hsb] Hn HQ. apply wp_bind. eapply wp_book_at; [done|].
  destruct (is_empty sb) eqn:He.
  - apply wp_modify, (HQ (delete sym (books_ b))).
    + intros [[sym' s'] p']. unfold lookup_level. cbn. rewrite lookup_delete.
      case_decide; [subst|done]. rewrite Hsb. cbn.
      apply bool_decide_eq_true in He as [Hb Ha]. by destruct s'; cbn; rewrite ?Hb, ?Ha.
    + intros sym' sb' [? ?]%lookup_delete_Some. by eapply Hn.
  - apply wp_ret. destruct b as [? ? ? bs]. apply (HQ bs); cbn in *; [done|].
    intros sym' sb' Hsb'. destruct (decide (sym' = sym)) as [->|]; [by simplify_eq|by eapply Hn].
Qed.

(** Dropping a symbol if it is there and empty. *)
Lemma wp_drop_found sym (Q : unit → OrderBook.t → Prop) b :
  nonempty_but sym (books_ b) →
  (∀ bs', (∀ k, lookup_level bs' k = lookup_level (books_ b) k) → nonempty bs' →
     Q tt (set_books (λ _, bs') b)) →
  wp (b' ← get; match books_ b' !! sym with
                | Some book => if is_empty book then erase_book sym else mret tt
                | None => mret tt
                end) Q b.
Proof.
  intros Hn HQ. apply wp_bind, wp_get. destruct (books_ b !! sym) as [sb|] eqn:Hsb.
  - pose proof (wp_drop_empty sym Q b ltac:(by eauto) Hn HQ) as Hd.
    unfold wp, mbind, M_bind, book_at in Hd. by rewrite Hsb in Hd.
  - apply wp_ret. destruct b as [? ? ? bs]. apply (HQ bs); [done|]. intros sym' sb' Hsb'.
    eapply Hn; [|done]. intros ->. cbn in *. congruence.
Qed.

(** The level under a key, as [try_emplace] leaves it. *)
Definition level_or_new bs k : PriceLevel := default default_level (lookup_level bs k).

Lemma wpx_try_emplace mem sym s p (Q : PriceLevel * bool → OrderBook.t → Prop) (X : exn → OrderBook.t → Prop) b :
  is_Some (books_ b !! sym) → nonempty_but sym (books_ b) → (level_node mem = false → X BadAlloc b) →
  (∀ bs' (inserted : bool),
     (if inserted then lookup_level (books_ b) (sym, s, p) = None
      else is_Some (lookup_level (books_ b) (sym, s, p)) ∧ bs' = books_ b) →
     updated (sym, s, p) (Some (level_or_new (books_ b) (sym, s, p))) (books_ b) bs' →
     is_Some (bs' !! sym) → nonempty_but sym bs' →
     Q (level_or_new (books_ b) (sym, s, p), inserted) (set_books (λ _, bs') b)) →
  wpx (try_emplace mem sym s p) Q X b.
Proof.
  intros [sb Hsb] Hn HX HQ. apply wpx_bind, wpx_wp. eapply wp_book_at; [done|].
  assert (Hlk : lookup_level (books_ b) (sym, s, p) = side_levels s sb !! p).
  { unfold lookup_level. cbn. by rewrite Hsb. }
  unfold level_or_new in HQ. rewrite Hlk in HQ.
  destruct (side_levels s sb !! p) as [l|] eqn:Hl.
  - apply wpx_ret. destruct b as [? ? ? bs]. apply (HQ bs false); cbn in *; [eauto| |eauto|done].
    intros k. case_decide; by subst.
  - destruct (level_node mem); [|by apply HX].
    apply wpx_bind, wpx_wp, wp_set_level; [by eauto|done|]. intros bs' Hu Hs Hn'.
    apply wpx_ret, (HQ bs' true); [done|done|done|by apply nonempty_weaken].
Qed.

Lemma wp_erase_empty_level o lvl (Q : unit → OrderBook.t → Prop) b :
  lookup_level (books_ b) (BookSpec.key_of o) = Some lvl → nonempty (books_ b) →
  (∀ bs', updated (BookSpec.key_of o)
      (if decide (level_head lvl = INV) then None else Some lvl) (books_ b) bs' →
     nonempty bs' → Q tt (set_books (λ _, bs') b)) →
  wp (erase_empty_level o) Q b.
Proof.
  intros Hl Hn HQ. pose proof Hl as (sb & Hsb & Hl')%bind_Some. cbn in Hsb, Hl'.
  apply wp_bind, wp_get. rewrite Hsb, Hl'. apply wp_bind. case_decide.
  - apply wp_erase_level; [by eauto|by apply nonempty_weaken|].
    intros bs1 Hu1 Hs1 Hn1. apply wp_drop_empty; cbn; [done|done|].
    intros bs2 Hsame Hn2. apply (HQ bs2); [|done]. intros k. rewrite Hsame. apply Hu1.
  - apply wp_ret, wp_drop_empty; [by eauto|by apply nonempty_weaken|].
    intros bs2 Hsame Hn2. apply (HQ bs2); [|done]. intros k. rewrite Hsame.
    case_decide; by subst.
Qed.

Lemma nonempty_level sym s p l bs :
  nonempty_but sym bs → lookup_level bs (sym, s, p) = Some l → nonempty bs.
Proof.
  intros Hn (sb & Hsb & Hl)%bind_Some sym' sb' Hsb'. cbn in *.
  destruct (decide (sym' = sym)) as [->|]; [|by eapply Hn]. simplify_eq. by eapply is_empty_false.
Qed.

(** A level can always be replaced, or dropped with its symbol. *)
Lemma updated_exists b o lvl lvl1 :
  lookup_level (books_ b) (BookSpec.key_of o) = Some lvl → nonempty (books_ b) →
  ∃ bs', updated (BookSpec.key_of o)
           (if decide (level_head lvl1 = INV) then None else Some lvl1) (books_ b) bs' ∧ nonempty bs'.
Proof.
  intros Hl Hn.
  assert (wp (set_level (symbol o) (side o) (price o) lvl1;; erase_empty_level o) (λ _ _, ∃ bs',
    updated (BookSpec.key_of o)
      (if decide (level_head lvl1 = INV) then None else Some lvl1) (books_ b) bs' ∧ nonempty bs') b)
    as (? & ? & _ & HQ)%wp_exact; [|done].
  apply wp_bind, wp_set_level; [by eapply lookup_level_book in Hl|by apply nonempty_weaken|].
  intros bs1 Hu1 _ Hn1. eapply (wp_erase_empty_level _ lvl1); cbn; [by rewrite Hu1, decide_True|done|].
  intros bs2 Hu2 Hn2. exists bs2. split; [by eapply updated_trans|done].
Qed.

(** * The arena as data: which order each slot holds, and the free list *)

(** What a slot holds apart from its queue links. *)
Definition view (ss : list Slot) (j : Z) : option (Order * Z * bool) := slot_data <$> vget ss j.

Implicit Types (d : Z → option (Order * Z * bool)) (os : gmap Z Order) (ids : gmap Z Z).

Fixpoint free_chain d (h : Z) (free : list Z) : Prop :=
  match free with
  | [] => h = INV
  | j :: free' =>
      h = j ∧ j ≠ INV ∧ ∃ o n, d j = Some (o, n, false) ∧ free_chain d n free'
  end.

(** The live slots hold the orders [os], found through [ids]; the free list starts at [h]. *)
Record arena d os ids (h : Z) (free : list Z) : Prop := {
  arena_orders i : os !! i = ids !! i ≫= λ j, fst ∘ fst <$> d j;
  arena_ids i j : ids !! i = Some j → ∃ o n, d j = Some (o, n, true) ∧ id o = i;
  arena_alive j o n : d j = Some (o, n, true) → ids !! id o = Some j;
  arena_chain : free_chain d h free;
  arena_nodup : NoDup free
}.

Lemma free_chain_frame d d' h free :
  (∀ j, j ∈ free → d' j = d j) → free_chain d h free → free_chain d' h free.
Proof.
  revert h. induction free as [|j free IH]; intros h Hf; cbn; [done|].
  intros (? & ? & o & n & Hd & Hc). split_and!; try done. exists o, n.
  rewrite Hf by set_solver. split; [done|]. apply IH; set_solver.
Qed.
Lemma free_chain_dead d h free j : free_chain d h free → j ∈ free → ∃ o n, d j = Some (o, n, false).
Proof.
  revert h. induction free as [|j' free IH]; intros h; cbn; [set_solver|].
  intros (_ & _ & o & n & Hd & Hc) [->|?]%elem_of_cons; eauto.
Qed.

Section arena.
Context d os ids h free (Har : arena d os ids h free).

Lemma arena_lookup i o :
  os !! i = Some o ↔ ∃ j n, ids !! i = Some j ∧ d j = Some (o, n, true).
Proof.
  rewrite (arena_orders _ _ _ _ _ Har). split.
  - intros (j & Hj & Ho)%bind_Some. destruct (arena_ids _ _ _ _ _ Har _ _ Hj) as (o' & n & Hd & _).
    rewrite Hd in Ho. cbn in Ho. simplify_eq. eauto.
  - intros (j & n & -> & Hd). cbn. by rewrite Hd.
Qed.
Lemma arena_None i : os !! i = None ↔ ids !! i = None.
Proof.
  split; intros Hi.
  - destruct (ids !! i) as [j|] eqn:Hj; [|done].
    destruct (arena_ids _ _ _ _ _ Har _ _ Hj) as (o & n & Hd & _).
    assert (os !! i = Some o) by (apply arena_lookup; eauto). congruence.
  - by rewrite (arena_orders _ _ _ _ _ Har), Hi.
Qed.
Lemma arena_inj i i' j : ids !! i = Some j → ids !! i' = Some j → i = i'.
Proof.
  intros (o & n & Hd & <-)%(arena_ids _ _ _ _ _ Har) (o' & n' & Hd' & <-)%(arena_ids _ _ _ _ _ Har).
  congruence.
Qed.
Lemma arena_free_not_live i j : ids !! i = Some j → j ∉ free.
Proof.
  intros (o & n & Hd & _)%(arena_ids _ _ _ _ _ Har) Hj.
  destruct (free_chain_dead _ _ _ j (arena_chain _ _ _ _ _ Har) Hj) as (? & ? & ?). congruence.
Qed.

(** Releasing a slot. *)
Lemma arena_release i j o' d' :
  ids !! i = Some j → j ≠ INV →
  (∀ j', d' j' = if decide (j' = j) then Some (o', h, false) else d j') →
  arena d' (delete i os) (delete i ids) j (j :: free).
Proof.
  intros Hj Hinv Hd'. pose proof (arena_free_not_live _ _ Hj) as Hfree. split.
  - intros i'. rewrite !lookup_delete. case_decide; [done|].
    rewrite (arena_orders _ _ _ _ _ Har). destruct (ids !! i') as [j'|] eqn:Hj'; [|done]. cbn.
    rewrite Hd', decide_False; [done|]. intros ->. eauto using arena_inj.
  - intros i' j' [? Hj']%lookup_delete_Some. rewrite Hd', decide_False.
    + by apply (arena_ids _ _ _ _ _ Har).
    + intros ->. eauto using arena_inj.
  - intros j' o n. rewrite Hd'. case_decide; [done|]. intros Hd.
    pose proof (arena_alive _ _ _ _ _ Har _ _ _ Hd) as Hid. rewrite lookup_delete_ne; [done|].
    intros ->. simplify_eq.
  - cbn. split_and!; try done. exists o', h. rewrite Hd', decide_True by done. split; [done|].
    eapply free_chain_frame; [|apply Har]. intros j' ?. rewrite Hd', decide_False; set_solver.
  - constructor; [done|apply Har].
Qed.

(** Giving a live slot another order. *)
Lemma arena_relabel i j o n o' d' :
  ids !! i = Some j → d j = Some (o, n, true) → id o' = i ∨ ids !! id o' = None →
  (∀ j', d' j' = if decide (j' = j) then Some (o', n, true) else d j') →
  arena d' (<[id o':=o']> (delete i os)) (<[id o':=j]> (delete i ids)) h free.
Proof.
  intros Hj Hd Hid' Hd'. pose proof (arena_free_not_live _ _ Hj) as Hfree.
  assert (Hother : ∀ i' j', ids !! i' = Some j' → i' ≠ i → d' j' = d j' ∧ id o' ≠ i').
  { intros i' j' Hj' Hne. rewrite Hd', decide_False; [split; [done|]|].
    - intros <-. destruct Hid'; congruence.
    - intros ->. eauto using arena_inj. }
  split.
  - intros i'. rewrite !lookup_insert, !lookup_delete. repeat case_decide; cbn; try done.
    + by rewrite Hd', decide_True.
    + rewrite (arena_orders _ _ _ _ _ Har). destruct (ids !! i') as [j'|] eqn:Hj'; [|done]. cbn.
      by rewrite (proj1 (Hother i' j' Hj' ltac:(congruence))).
  - intros i' j' [[<- <-]|[? [? Hj']%lookup_delete_Some]]%lookup_insert_Some.
    + exists o', n. by rewrite Hd', decide_True.
    + rewrite (proj1 (Hother i' j' Hj' ltac:(congruence))). by apply (arena_ids _ _ _ _ _ Har).
  - intros j' o'' n'. rewrite Hd'. case_decide as Hjj; intros Hdd; simplify_eq.
    + apply lookup_insert_eq.
    + pose proof (arena_alive _ _ _ _ _ Har _ _ _ Hdd) as Hids.
      assert (id o'' ≠ i) by (intros <-; congruence).
      rewrite lookup_insert_ne, lookup_delete_ne; [done|congruence|].
      by apply (Hother (id o'') j').
  - eapply free_chain_frame; [|apply Har]. intros j' ?. rewrite Hd', decide_False; set_solver.
  - apply Har.
Qed.
End arena.

(** Taking the first free slot for a new order. *)
Lemma arena_allocate d os ids h j free o n' d' :
  arena d os ids h (j :: free) → ids !! id o = None →
  (∀ j', d' j' = if decide (j' = j) then Some (o, n', true) else d j') →
  ∃ o0 n, h = j ∧ d j = Some (o0, n, false) ∧ arena d' (<[id o:=o]> os) (<[id o:=j]> ids) n free.
Proof.
  intros Har Hid Hd'. pose proof (arena_chain _ _ _ _ _ Har) as (-> & Hinv & o0 & n & Hd & Hc).
  pose proof (arena_nodup _ _ _ _ _ Har) as [Hj Hnd]%NoDup_cons.
  exists o0, n. split_and!; [done|done|]. split.
  - intros i. rewrite !lookup_insert. case_decide; cbn; [by rewrite Hd', decide_True|].
    rewrite (arena_orders _ _ _ _ _ Har). destruct (ids !! i) as [j'|] eqn:Hj'; [|done]. cbn.
    rewrite Hd', decide_False; [done|]. intros ->.
    destruct (arena_ids _ _ _ _ _ Har _ _ Hj') as (? & ? & ? & _). congruence.
  - intros i j' [[<- <-]|[? Hj']]%lookup_insert_Some; rewrite Hd'; [rewrite decide_True; eauto|].
    destruct (arena_ids _ _ _ _ _ Har _ _ Hj') as (? & ? & ? & <-).
    rewrite decide_False by congruence. eauto.
  - intros j' o' m'. rewrite Hd'. case_decide; intros Hdd; simplify_eq; [apply lookup_insert_eq|].
    pose proof (arena_alive _ _ _ _ _ Har _ _ _ Hdd). rewrite lookup_insert_ne; [done|congruence].
  - eapply free_chain_frame; [|done]. intros j' ?. rewrite Hd', decide_False; [done|]. set_solver.
  - done.
Qed.

(** Writing over the first free slot. *)
Lemma arena_bounce d os ids h j free o n o' d' :
  arena d os ids h (j :: free) → d j = Some (o, n, false) →
  (∀ j', d' j' = if decide (j' = j) then Some (o', n, false) else d j') →
  arena d' os ids j (j :: free).
Proof.
  intros Har Hd Hd'. pose proof (arena_chain _ _ _ _ _ Har) as (_ & Hinv & o0 & n0 & Hd0 & Hc).
  simplify_eq. pose proof (arena_nodup _ _ _ _ _ Har) as Hnd. pose proof Hnd as [Hj _]%NoDup_cons.
  assert (Hlive : ∀ i j', ids !! i = Some j' → j' ≠ j).
  { intros i j' (? & ? & ? & _)%(arena_ids _ _ _ _ _ Har) ->. congruence. }
  split; [| | | |done].
  - intros i. rewrite (arena_orders _ _ _ _ _ Har). destruct (ids !! i) as [j'|] eqn:Hj'; [|done].
    cbn. rewrite Hd', decide_False; [done|by eapply Hlive].
  - intros i j' Hj'. rewrite Hd', decide_False by (by eapply Hlive).
    by apply (arena_ids _ _ _ _ _ Har).
  - intros j' o1 n1. rewrite Hd'. case_decide; [done|]. apply (arena_alive _ _ _ _ _ Har).
  - cbn. split_and!; [done|done|]. eexists o', _. rewrite Hd', decide_True by done. split; [done|].
    eapply free_chain_frame; [|exact Hc]. intros j' ?. rewrite Hd', decide_False; set_solver.
Qed.

Lemma view_vset ss j s j' :
  is_Some (vget ss j) →
  view (vset ss j s) j' = if decide (j' = j) then Some (slot_data s) else view ss j'.
Proof.
  intros [s0 Hs]. unfold view. rewrite vget_vset by (by eauto with mw).
  destruct (decide (j = j')) as [->|]; [by rewrite decide_True|by rewrite decide_False].
Qed.
Lemma view_relinked l ss ss' j : relinked l ss ss' → view ss' j = view ss j.
Proof. intros Hr. apply Hr. Qed.
Lemma view_Some ss j x :
  view ss j = Some x → ∃ s, vget ss j = Some s ∧ slot_data s = x.
Proof. unfold view. intros (s & ? & ->)%fmap_Some. eauto. Qed.

(** * Levels *)

Definition slots_of ids (q l : list Z) : Prop := Forall2 (λ i j, ids !! i = Some j) q l.

(** The level map has exactly the levels of the abstract book, each with the right total and
    its queue linked in order. *)
Definition level_ok ss bs os ids k (oq : option (list Z)) : Prop :=
  match oq with
  | None => lookup_level bs k = None
  | Some q =>
      ∃ lvl l, lookup_level bs k = Some lvl ∧ slots_of ids q l ∧ fifo ss lvl l ∧
        total_quantity lvl = BookSpec.total os q
  end.

Lemma slots_of_elem ids q l j : slots_of ids q l → j ∈ l → ∃ i, i ∈ q ∧ ids !! i = Some j.
Proof.
  intros Hql (n & Hn)%list_elem_of_lookup.
  destruct (Forall2_lookup_r _ _ _ _ _ Hql Hn) as (i & Hi & ?).
  exists i. split; [|done]. apply list_elem_of_lookup. eauto.
Qed.

Lemma slots_of_frame ids ids' q l :
  (∀ i, i ∈ q → ids' !! i = ids !! i) → slots_of ids q l → slots_of ids' q l.
Proof.
  intros Hf Hql. induction Hql as [|i j q l Hij Hql IH]; constructor.
  - rewrite Hf; [done|set_solver].
  - apply IH. intros i' ?. apply Hf. set_solver.
Qed.

Lemma level_frame ss ss' bs bs' os os' ids ids' k oq :
  level_ok ss bs os ids k oq → lookup_level bs' k = lookup_level bs k →
  (∀ q i, oq = Some q → i ∈ q →
     BookSpec.qty os' i = BookSpec.qty os i ∧ ids' !! i = ids !! i ∧
     ∀ j, ids !! i = Some j → vget ss' j = vget ss j) →
  level_ok ss' bs' os' ids' k oq.
Proof.
  intros Hok Hl Hf. destruct oq as [q|]; cbn in *; [|congruence].
  destruct Hok as (lvl & l & ? & Hql & Hfifo & Ht). exists lvl, l. split_and!.
  - congruence.
  - eapply slots_of_frame; [|done]. intros i Hi. apply (Hf q i eq_refl Hi).
  - eapply fifo_frame; [|done]. intros j (i & Hi & Hij)%(slots_of_elem _ _ _ _ Hql).
    by apply (Hf q i eq_refl Hi).
  - rewrite Ht. apply BookSpec.total_ext. intros i Hi. symmetry. by apply (Hf q i eq_refl Hi).
Qed.

(** * The invariant *)

Section invariant.
Context (max : Z) (holds_map : FlatOrderIndex.t → gmap Z Z → Prop).
Context `{!IndexContract max holds_map}.

(** The book [b] represents [a]; [ids] is what the index holds and [free] the free list. *)
Record rep (b : OrderBook.t) (a : BookSpec.t) (ids : gmap Z Z) (free : list Z) : Prop := {
  rep_max : Z.of_nat (length (slots_ b)) = max;
  rep_index : holds_map (index_ b) ids;
  rep_arena : arena (view (slots_ b)) (BookSpec.orders a) ids (free_head_ b) free;
  rep_count : Z.of_nat (size ids + length free) = max;
  rep_levels k :
    level_ok (slots_ b) (books_ b) (BookSpec.orders a) ids k (BookSpec.queues a !! k);
  rep_nonempty : nonempty (books_ b)
}.

Lemma wp_index_find b a ids free i (Q : option Z → OrderBook.t → Prop) :
  rep b a ids free → Q (ids !! i) b → wp (index_find i) Q b.
Proof.
  intros Hr HQ. unfold wp, index_find.
  by rewrite (contract_find (max:=max) _ _ i (rep_index _ _ _ _ Hr)).
Qed.
Lemma wp_index_insert b ids i v (Q : bool → OrderBook.t → Prop) :
  holds_map (index_ b) ids → ids !! i = None → Z.of_nat (size ids) ≤ max →
  (∀ idx', holds_map idx' (<[i:=v]> ids) → Q true (set_index idx' b)) → wp (index_insert i v) Q b.
Proof.
  intros Hi Hk Hs HQ. unfold wp, index_insert, index_call.
  destruct (contract_insert _ _ i v Hi Hk Hs) as (idx' & -> & ?). by apply HQ.
Qed.
Lemma wp_index_erase b ids i (Q : bool → OrderBook.t → Prop) :
  holds_map (index_ b) ids →
  (∀ r idx', holds_map idx' (delete i ids) → Q r (set_index idx' b)) → wp (index_erase i) Q b.
Proof.
  intros Hi HQ. unfold wp, index_erase, index_call.
  destruct (contract_erase (max:=max) _ _ i Hi) as (idx' & -> & ?). by apply HQ.
Qed.

Lemma wp_release_slot b j (Q : unit → OrderBook.t → Prop) :
  is_Some (vget (slots_ b) j) →
  (∀ ss' s', ss' = vset (slots_ b) j s' →
     slot_data s' = (default_order, free_head_ b, false) →
     Q tt (set_free_head j (set_slots (λ _, ss') b))) →
  wp (release_slot j) Q b.
Proof.
  intros [s Hs] HQ. apply wp_bind, wp_get, wp_bind. eapply wp_update_slot; [done|].
  apply wp_modify. by apply (HQ _ _ eq_refl).
Qed.
End invariant.
