(* ===== verification/BookRefinement.v ===== *)
(** [OrderBook] implements [BookSpec]: one theorem per operation, from any represented book, by
    symbolic execution with the rules of [BookInvariant]. *)
From S2P Require Import Prelude Types FlatOrderIndex BookSpec OrderBook BookInvariant.
Import OrderBook.

Section operations.
Context (max : Z) (holds_map : FlatOrderIndex.t → gmap Z Z → Prop).
Context `{!IndexContract max holds_map} (Hmax : 0 < max < INV).

Abbreviation rep := (rep max holds_map).

(** Where order [i] lives: slot [j], between [l1] and [l2] in the queue of its level. *)
Record located (b : OrderBook.t) (a : BookSpec.t) (ids : gmap Z Z) (i : Z) (o : Order) (j : Z)
    (s : Slot) (lvl : PriceLevel) (q1 q2 l1 l2 : list Z) : Prop := {
  loc_ids : ids !! i = Some j;
  loc_slot : vget (slots_ b) j = Some s;
  loc_data : slot_data s = (o, next_free s, true);
  loc_valid : j ≠ INV;
  loc_queue : BookSpec.queues a !! BookSpec.key_of o = Some (q1 ++ i :: q2);
  loc_level : lookup_level (books_ b) (BookSpec.key_of o) = Some lvl;
  loc_slots1 : slots_of ids q1 l1;
  loc_slots2 : slots_of ids q2 l2;
  loc_fifo : fifo (slots_ b) lvl (l1 ++ j :: l2);
  loc_total : total_quantity lvl = BookSpec.level_total a (BookSpec.key_of o);
  loc_filter : filter (λ i', i' ≠ i) (q1 ++ i :: q2) = q1 ++ q2;
  loc_notin : (i ∉ q1) ∧ (i ∉ q2)
}.

Lemma rep_valid b a ids free j s : rep b a ids free → vget (slots_ b) j = Some s → j ≠ INV.
Proof.
  intros Hr Hs. apply vget_bounds in Hs. pose proof (rep_max _ _ _ _ _ _ Hr). lia.
Qed.

Lemma rep_located b a ids free i o :
  rep b a ids free → BookSpec.wf a → BookSpec.orders a !! i = Some o →
  ∃ j s lvl q1 q2 l1 l2, located b a ids i o j s lvl q1 q2 l1 l2.
Proof.
  intros Hr Ha Ho. pose proof (rep_arena _ _ _ _ _ _ Hr) as Har.
  destruct (proj1 (arena_lookup _ _ _ _ _ Har _ _) Ho) as (j & n & Hj & Hd).
  apply view_Some in Hd as (s & Hs & Hd).
  pose proof (BookSpec.order_wf_queued _ _ _ (BookSpec.wf_orders _ Ha _ _ Ho)) as Hin.
  pose proof (rep_levels _ _ _ _ _ _ Hr (BookSpec.key_of o)) as Hl.
  destruct (BookSpec.queues a !! BookSpec.key_of o) as [q|] eqn:Hq.
  2: { apply BookSpec.queue_None in Hq; [|done]. rewrite Hq in Hin. set_solver. }
  rewrite (BookSpec.queue_Some _ _ _ Hq) in Hin. destruct Hl as (lvl & l & Hl & Hql & Hf & Ht).
  destruct (BookSpec.queue_split i q) as (q1 & q2 & -> & Hi1 & Hi2 & Hfilter); [|done|].
  { apply (BookSpec.queue_wf_nodup _ _ _ (BookSpec.wf_queues _ Ha _ _ Hq)). }
  apply Forall2_app_inv_l in Hql as (l1 & l' & Hql1 & Hql & ->).
  apply Forall2_cons_inv_l in Hql as (j' & l2 & Hj' & Hql2 & ->). simplify_eq.
  exists j, s, lvl, q1, q2, l1, l2. split; try done.
  - unfold slot_data in *. congruence.
  - by eapply rep_valid.
  - rewrite Ht. unfold BookSpec.level_total. by rewrite (BookSpec.queue_Some _ _ _ Hq).
Qed.

(** Queues of different levels share no slot. *)
Lemma slots_disjoint b a ids free i j q l k k' :
  rep b a ids free → BookSpec.wf a → k ≠ k' →
  BookSpec.queue a k = q → slots_of ids q l → i ∈ BookSpec.queue a k' → ids !! i = Some j → j ∉ l.
Proof.
  intros Hr Ha Hk <- Hql Hi Hj (i' & Hi' & Hj')%(slots_of_elem _ _ _ _ Hql).
  assert (i = i') as <- by (eapply arena_inj; [by eapply rep_arena|done|done]).
  apply BookSpec.queue_elem in Hi as (o & Ho & <-); [|done].
  apply BookSpec.queue_elem in Hi' as (o' & Ho' & <-); [|done]. congruence.
Qed.

(** The levels an operation on order [i] and slot [j] at level [k] does not touch. *)
Lemma other_level b a ids free i j l k ss' bs' os' ids' k' :
  rep b a ids free → BookSpec.wf a →
  (∀ o, BookSpec.orders a !! i = Some o → BookSpec.key_of o = k) →
  (∀ i', i' ≠ i → ids !! i' ≠ Some j) →
  slots_of ids (BookSpec.queue a k) l → k' ≠ k →
  lookup_level bs' k' = lookup_level (books_ b) k' →
  (∀ j', j' ∉ l → j' ≠ j → vget ss' j' = vget (slots_ b) j') →
  (∀ i' o', i' ≠ i → BookSpec.orders a !! i' = Some o' →
     os' !! i' = Some o' ∧ ids' !! i' = ids !! i') →
  level_ok ss' bs' os' ids' k' (BookSpec.queues a !! k').
Proof.
  intros Hr Ha Hk Hj Hql Hkk' Hl Hss Hothers.
  eapply level_frame; [by eapply rep_levels|done|]. intros q' i' Hq' Hi'.
  rewrite <-(BookSpec.queue_Some _ _ _ Hq') in Hi'.
  pose proof Hi' as (o' & Ho' & Hk')%BookSpec.queue_elem; [|done].
  assert (Hii : i' ≠ i) by (intros ->; naive_solver).
  destruct (Hothers i' o' Hii Ho') as [Ho'' Hids]. split_and!; [|done|].
  - by rewrite !(BookSpec.qty_Some _ _ o').
  - intros j' Hj'. apply Hss.
    + by eapply (slots_disjoint b a ids free i' j' _ l k k').
    + intros ->. by apply (Hj i').
Qed.

Lemma located_slots b a ids i o j s lvl q1 q2 l1 l2 :
  located b a ids i o j s lvl q1 q2 l1 l2 →
  BookSpec.queue a (BookSpec.key_of o) = q1 ++ i :: q2 ∧
  slots_of ids (BookSpec.queue a (BookSpec.key_of o)) (l1 ++ j :: l2).
Proof.
  intros Hl. rewrite (BookSpec.queue_Some _ _ _ (loc_queue _ _ _ _ _ _ _ _ _ _ _ _ Hl)).
  split; [done|]. apply Forall2_app; [apply Hl|]. constructor; apply Hl.
Qed.

(** ** The state after an order has left its queue and its slot has been released *)
Lemma rep_remove b a ids free i o j s lvl q1 q2 l1 l2 b' ss1 lvl1 s2 o2 :
  rep b a ids free → BookSpec.wf a → BookSpec.orders a !! i = Some o →
  located b a ids i o j s lvl q1 q2 l1 l2 →
  relinked (l1 ++ j :: l2) (slots_ b) ss1 → fifo ss1 lvl1 (l1 ++ l2) →
  total_quantity lvl1 = BookSpec.level_total a (BookSpec.key_of o) - quantity o →
  slots_ b' = vset ss1 j s2 → slot_data s2 = (o2, free_head_ b, false) → free_head_ b' = j →
  updated (BookSpec.key_of o) (if decide (level_head lvl1 = INV) then None else Some lvl1)
    (books_ b) (books_ b') →
  nonempty (books_ b') → holds_map (index_ b') (delete i ids) →
  rep b' (BookSpec.remove i a) (delete i ids) (j :: free).
Proof.
  intros Hr Ha Ho Hloc Hrel Hf1 Ht1 Hss' Hd2 Hfh Hu Hn Hidx.
  pose proof (located_slots _ _ _ _ _ _ _ _ _ _ _ _ Hloc) as [Hq Hql].
  destruct Hloc as [Hj Hs Hd Hv Hqs Hl Hql1 Hql2 Hf Ht Hfilter [Hi1 Hi2]].
  pose proof (rep_arena _ _ _ _ _ _ Hr) as Har.
  assert (Hb1 : is_Some (vget ss1 j)) by (destruct (relinked_lookup _ _ _ _ _ Hrel Hs) as (? & ? & _); eauto).
  assert (Hrem : BookSpec.remove i a = BookSpec.mk (delete i (BookSpec.orders a))
    (BookSpec.set_queue (BookSpec.key_of o) (q1 ++ q2) (BookSpec.queues a))).
  { unfold BookSpec.remove. by rewrite Ho, Hq, Hfilter. }
  assert (Hview : ∀ j', view (slots_ b') j' =
    if decide (j' = j) then Some (o2, free_head_ b, false) else view (slots_ b) j').
  { intros j'. rewrite Hss', view_vset, Hd2 by done. by rewrite (view_relinked _ _ _ _ Hrel). }
  rewrite Hrem. split; cbn.
  - rewrite Hss', length_vset, (relinked_length _ _ _ Hrel). apply Hr.
  - done.
  - rewrite Hfh. by eapply arena_release.
  - pose proof (rep_count _ _ _ _ _ _ Hr) as Hc. rewrite map_size_delete_Some by eauto.
    assert (size ids ≠ 0%nat) by (intros ->%map_size_empty_iff; by rewrite lookup_empty in Hj). lia.
  - intros k'. rewrite BookSpec.lookup_set_queue.
    destruct (decide (BookSpec.key_of o = k')) as [<-|Hk].
    + unfold level_ok. destruct (decide (q1 ++ q2 = [])) as [Hnil|Hne];
        rewrite Hu, (decide_True (P:=BookSpec.key_of o = _)) by done.
      * apply app_nil in Hnil as [-> ->]. inversion Hql1; inversion Hql2; subst.
        by rewrite decide_True by (by apply (fifo_head_INV _ _ _ Hf1)).
      * rewrite decide_False.
        2: { rewrite (fifo_head_INV _ _ _ Hf1). intros [-> ->]%app_nil.
             inversion Hql1; inversion Hql2; subst. done. }
        exists lvl1, (l1 ++ l2). split_and!; [done| | |].
        -- apply (slots_of_frame ids); [|by apply Forall2_app].
           intros i' Hi'. rewrite lookup_delete_ne; [done|]. set_solver.
        -- eapply fifo_frame; [|done]. intros j' Hj'. rewrite Hss', vget_vset_ne; [done|].
           pose proof (fifo_nodup _ _ _ Hf) as Hnd. apply NoDup_app in Hnd as (? & Hdis & [? ?]%NoDup_cons).
           intros <-. apply elem_of_app in Hj' as [?|?]; [|done]. by apply (Hdis j); [|left].
        -- rewrite Ht1, <-Hfilter, <-(BookSpec.total_filter_ne a Ha i o Ho). by rewrite Hq.
    + eapply (other_level b a ids free i j _ (BookSpec.key_of o)); try done.
      * naive_solver.
      * intros i' Hne Hi'. apply Hne. by eapply arena_inj.
      * rewrite Hu, decide_False; [done|congruence].
      * intros j' Hj' Hjj. rewrite Hss', vget_vset_ne by done. by apply (relinked_frame _ _ _ Hrel).
      * intros i' o' Hne Ho'. by rewrite !lookup_delete_ne.
  - done.
Qed.

(** ** The state after an order has taken a free slot and joined its queue *)
Lemma rep_push b a ids j free o n s1 l lvl b' :
  rep b a ids (j :: free) → BookSpec.wf a → ids !! id o = None →
  slots_of ids (BookSpec.queue a (BookSpec.key_of o)) l →
  slot_data s1 = (o, n, true) → relinked (j :: l) (vset (slots_ b) j s1) (slots_ b') →
  fifo (slots_ b') lvl (l ++ [j]) →
  total_quantity lvl = BookSpec.level_total a (BookSpec.key_of o) + quantity o →
  updated (BookSpec.key_of o) (Some lvl) (books_ b) (books_ b') → nonempty (books_ b') →
  holds_map (index_ b') (<[id o:=j]> ids) →
  next_free <$> vget (slots_ b) j = Some (free_head_ b') →
  rep b' (BookSpec.push o a) (<[id o:=j]> ids) free.
Proof.
  intros Hr Ha Hid Hql Hd1 Hrel Hf Ht Hu Hn Hidx Hfh.
  pose proof (rep_arena _ _ _ _ _ _ Hr) as Har.
  apply fmap_Some in Hfh as (s0 & Hs0 & Hfh).
  assert (Hview : ∀ j', view (slots_ b') j' =
    if decide (j' = j) then Some (o, n, true) else view (slots_ b) j').
  { intros j'. rewrite (view_relinked _ _ _ _ Hrel), view_vset, Hd1; eauto. }
  destruct (arena_allocate _ _ _ _ _ _ _ _ _ Har Hid Hview) as (o0 & n0 & Hj & Hdj & Har').
  unfold view in Hdj. rewrite Hs0 in Hdj. unfold slot_data in Hdj. cbn in Hdj. simplify_eq.
  assert (Hoid : BookSpec.orders a !! id o = None) by (by eapply arena_None).
  assert (Hnew : ∀ k, id o ∉ BookSpec.queue a k).
  { intros k (o' & ? & _)%BookSpec.queue_elem; [congruence|done]. }
  split; cbn.
  - rewrite (relinked_length _ _ _ Hrel), length_vset. apply Hr.
  - done.
  - by rewrite Hfh.
  - pose proof (rep_count _ _ _ _ _ _ Hr) as Hc. rewrite map_size_insert_None by done.
    cbn in Hc. lia.
  - intros k'. rewrite BookSpec.lookup_set_queue.
    destruct (decide (BookSpec.key_of o = k')) as [<-|Hk].
    + rewrite (decide_False (P:=_ = [])) by (by destruct (BookSpec.queue _ _)).
      unfold level_ok. exists lvl, (l ++ [free_head_ b]). split_and!; [by rewrite Hu, (decide_True (P:=_ = _))| |done|].
      * apply Forall2_app; [|constructor; [apply lookup_insert_eq|constructor]].
        apply (slots_of_frame ids); [|done]. intros i' Hi'.
        rewrite lookup_insert_ne; [done|]. intros <-. by eapply Hnew.
      * rewrite Ht, BookSpec.total_app. cbn. rewrite BookSpec.qty_insert, decide_True by done.
        unfold BookSpec.level_total. rewrite (BookSpec.total_ext (<[id o:=o]> _) (BookSpec.orders a)).
        { lia. }
        intros i' Hi'. rewrite BookSpec.qty_insert, decide_False; [done|].
        intros <-. by eapply Hnew.
    + eapply (other_level b a ids _ (id o) (free_head_ b) l (BookSpec.key_of o)); try done.
      * naive_solver.
      * intros i' _ Hi'. eapply arena_free_not_live; [exact Har|done|]. by left.
      * rewrite Hu, decide_False; [done|congruence].
      * intros j' Hj' Hjj. rewrite (relinked_frame _ _ _ Hrel) by set_solver. by apply vget_vset_ne.
      * intros i' o' Hne Ho'. by rewrite !lookup_insert_ne.
  - done.
Qed.

(** ** The state after an order has lost some of its quantity *)
Lemma rep_shrink b a ids free i o j s lvl q1 q2 l1 l2 b' n :
  rep b a ids free → BookSpec.wf a → BookSpec.orders a !! i = Some o →
  located b a ids i o j s lvl q1 q2 l1 l2 →
  slots_ b' = vset (slots_ b) j (set_order (BookSpec.with_quantity o (quantity o - n)) s) →
  free_head_ b' = free_head_ b → index_ b' = index_ b →
  updated (BookSpec.key_of o)
    (Some (set_total (BookSpec.level_total a (BookSpec.key_of o) - n) lvl)) (books_ b) (books_ b') →
  nonempty (books_ b') →
  rep b' (BookSpec.shrink a i o n) ids free.
Proof.
  intros Hr Ha Ho Hloc Hss Hfh Hidx Hu Hn.
  pose proof (located_slots _ _ _ _ _ _ _ _ _ _ _ _ Hloc) as [Hq Hql].
  destruct Hloc as [Hj Hs Hd Hv Hqs Hl Hql1 Hql2 Hf Ht Hfilter [Hi1 Hi2]].
  pose proof (rep_arena _ _ _ _ _ _ Hr) as Har.
  pose proof (BookSpec.wf_orders _ Ha _ _ Ho) as [Hid _ _ _].
  split; cbn.
  - rewrite Hss, length_vset. apply Hr.
  - rewrite Hidx. apply Hr.
  - rewrite Hfh.
    assert (Hview : ∀ j', view (slots_ b') j' = if decide (j' = j)
      then Some (BookSpec.with_quantity o (quantity o - n), next_free s, true)
      else view (slots_ b) j').
    { intros j'. rewrite Hss, view_vset by eauto. case_decide; [|done].
      unfold slot_data in *. cbn. congruence. }
    eapply arena_relabel in Hview; [|exact Har|exact Hj| |by left].
    + cbn in Hview. rewrite Hid, !insert_delete_eq, (insert_id ids) in Hview; done.
    + unfold view. rewrite Hs. cbn. by rewrite Hd.
  - apply Hr.
  - intros k'. destruct (decide (BookSpec.key_of o = k')) as [<-|Hk].
    + rewrite Hqs. unfold level_ok. rewrite Hu, decide_True by done.
      eexists _, (l1 ++ j :: l2). split_and!; [done| | |].
      * by rewrite Hq in Hql.
      * rewrite Hss. by apply fifo_set_order, fifo_set_total.
      * cbn. rewrite <-Hq, BookSpec.total_insert, decide_True by (rewrite ?Hq; try set_solver; rewrite <-Hq; by apply BookSpec.queue_nodup).
        rewrite (BookSpec.qty_Some _ _ o) by done. cbn. unfold BookSpec.level_total. lia.
    + eapply (other_level b a ids free i j _ (BookSpec.key_of o)); try done.
      * naive_solver.
      * intros i' Hne Hi'. apply Hne. by eapply arena_inj.
      * rewrite Hu, decide_False; [done|congruence].
      * intros j' Hj' Hjj. by rewrite Hss, vget_vset_ne.
      * intros i' o' Hne Ho'. by rewrite lookup_insert_ne.
  - done.
Qed.

(** * One theorem per operation *)

(** [m], run on [b], returns [r.1] and leaves a book that represents [r.2]. *)
Definition simulates (m : M OrderBook.t bool) (r : bool * BookSpec.t) (b : OrderBook.t) : Prop :=
  wp m (λ ok b', ok = r.1 ∧ ∃ ids free, rep b' r.2 ids free) b.

(** The same with little memory: [m] may throw [std::bad_alloc] instead, and then leaves a book
    that represents [a] still. *)
Definition simulates_in (mem : Memory) (m : M OrderBook.t bool) (r : bool * BookSpec.t) (a : BookSpec.t)
    (b : OrderBook.t) : Prop :=
  wpx m (λ ok b', ok = r.1 ∧ ∃ ids free, rep b' r.2 ids free)
    (λ e b', e = BadAlloc ∧ mem ≠ plenty ∧ ∃ ids free, rep b' a ids free) b.
Lemma simulates_plenty m r a b : simulates_in plenty m r a b → simulates m r b.
Proof. intros Hm. eapply wpx_never; [exact Hm|]. by intros e b' (_ & ? & _). Qed.
Lemma simulates_any mem m r a b : simulates m r b → simulates_in mem m r a b.
Proof. apply wpx_wp. Qed.

Lemma remove_order_Some b a ids free i o :
  rep b a ids free → BookSpec.wf a → BookSpec.orders a !! i = Some o →
  simulates (remove_order i) (true, BookSpec.remove i a) b.
Proof.
  intros Hr Ha Ho. destruct (rep_located _ _ _ _ _ _ Hr Ha Ho) as (j&s&lvl&q1&q2&l1&l2&Hloc).
  pose proof Hloc as [Hj Hs Hd Hv Hqs Hl Hql1 Hql2 Hf Ht Hfilter [Hi1 Hi2]].
  assert (order s = o) as Hso by (unfold slot_data in Hd; congruence).
  pose proof (BookSpec.level_total_bound _ Ha (BookSpec.key_of o)) as Hbound.
  pose proof (BookSpec.level_total_ge _ Ha _ _ Ho).
  pose proof (BookSpec.order_wf_quantity _ _ _ (BookSpec.wf_orders _ Ha _ _ Ho)).
  unfold simulates, remove_order. apply wp_bind. eapply (wp_index_find max holds_map); [done|]. rewrite Hj.
  apply wp_bind. eapply wp_slot_at; [done|]. rewrite Hso.
  apply wp_bind. eapply wp_level_at; [done|].
  apply wp_bind. eapply wp_unlink; [by apply fifo_set_total|]. intros ss1 lvl1 Hrel Hf1 Ht1.
  cbn in Ht1. rewrite u32_small, Ht in Ht1 by lia.
  apply wp_bind. apply wp_set_level; cbn.
  { by eapply lookup_level_book in Hl. }
  { apply nonempty_weaken, Hr. }
  intros bs1 Hu1 Hs1 Hn1. apply wp_bind. eapply (wp_index_erase max holds_map); [by apply Hr|]. intros r idx' Hidx.
  apply wp_bind. eapply wp_release_slot; cbn.
  { destruct (relinked_lookup _ _ _ _ _ Hrel Hs) as (? & ? & _); eauto. }
  intros ss2 s2 -> Hd2. apply wp_bind. eapply (wp_erase_empty_level _ lvl1); cbn.
  { rewrite Hu1, decide_True; done. }
  { done. }
  intros bs2 Hu2 Hn2. apply wp_ret. split; [done|]. exists (delete i ids), (j :: free).
  eapply (rep_remove b a ids free i o j s lvl q1 q2 l1 l2); try done; cbn.
  by eapply updated_trans.
Qed.

Lemma remove_order_spec b a ids free i :
  rep b a ids free → BookSpec.wf a → simulates (remove_order i) (BookSpec.erase i a) b.
Proof.
  intros Hr Ha. destruct (BookSpec.orders a !! i) as [o|] eqn:Ho.
  - unfold BookSpec.erase. rewrite bool_decide_true by eauto. by apply (remove_order_Some b a ids free i o).
  - unfold BookSpec.erase, BookSpec.remove. rewrite bool_decide_false, Ho by (intros [? ?]; congruence).
    unfold simulates, remove_order. apply wp_bind. eapply (wp_index_find max holds_map); [done|].
    rewrite (proj1 (arena_None _ _ _ _ _ (rep_arena _ _ _ _ _ _ Hr) _) Ho).
    apply wp_ret. eauto.
Qed.

Lemma execute_spec b a ids free e :
  rep b a ids free → BookSpec.wf a → 0 ≤ executed_shares e →
  simulates (execute e) (BookSpec.reduce (exec_order_id e) (executed_shares e) a) b.
Proof.
  intros Hr Ha He. unfold simulates, execute, BookSpec.reduce.
  set (i := exec_order_id e) in *. set (n := executed_shares e) in *.
  apply wp_bind. eapply (wp_index_find max holds_map); [done|].
  destruct (BookSpec.orders a !! i) as [o|] eqn:Ho.
  2: { rewrite (proj1 (arena_None _ _ _ _ _ (rep_arena _ _ _ _ _ _ Hr) _) Ho). apply wp_ret. eauto. }
  destruct (rep_located _ _ _ _ _ _ Hr Ha Ho) as (j&s&lvl&q1&q2&l1&l2&Hloc).
  pose proof Hloc as [Hj Hs Hd Hv Hqs Hl Hql1 Hql2 Hf Ht Hfilter [Hi1 Hi2]].
  assert (order s = o) as Hso by (unfold slot_data in Hd; congruence). rewrite Hj.
  destruct (decide (n = 0)) as [Hn0|Hn0].
  { rewrite decide_True by auto. apply wp_ret. eauto. }
  apply wp_bind. eapply wp_slot_at; [done|]. rewrite Hso.
  destruct (Z.ltb_spec (quantity o) n) as [Hlt|Hle].
  { rewrite decide_True by auto. apply wp_ret. eauto. }
  rewrite (decide_False (P:=n = 0 ∨ _)) by lia.
  pose proof (BookSpec.level_total_bound _ Ha (BookSpec.key_of o)) as Hbound.
  pose proof (BookSpec.level_total_ge _ Ha _ _ Ho).
  pose proof (BookSpec.order_wf_quantity _ _ _ (BookSpec.wf_orders _ Ha _ _ Ho)).
  apply wp_bind. eapply wp_level_at; [done|]. apply wp_bind. apply wp_set_level; cbn.
  { by eapply lookup_level_book in Hl. }
  { apply nonempty_weaken, Hr. }
  intros bs1 Hu1 Hs1 Hn1. rewrite !u32_small, Ht in Hu1 by lia.
  apply wp_bind. eapply wp_update_slot; [done|]. rewrite u32_small by lia.
  apply wp_bind. eapply wp_slot_at; [by apply vget_vset_eq; eapply vget_bounds|]. cbn.
  match goal with |- wp _ _ ?b1 => assert (Hr1 : rep b1 (BookSpec.shrink a i o n) ids free) end.
  { by eapply (rep_shrink b a ids free i o j s lvl q1 q2 l1 l2). }
  destruct (decide (quantity o = n)) as [Heq|Hne].
  - rewrite decide_True by lia. rewrite <-(BookSpec.remove_shrink a i o n Ho).
    eapply (remove_order_Some _ _ _ _ _ (BookSpec.with_quantity o (quantity o - n)) Hr1).
    + by apply BookSpec.shrink_wf.
    + apply lookup_insert_eq.
  - rewrite decide_False by lia. apply wp_ret. eauto.
Qed.

(** [cancel] is the same code. *)
Lemma cancel_spec b a ids free e :
  rep b a ids free → BookSpec.wf a → 0 ≤ canceled_shares e →
  simulates (cancel e) (BookSpec.reduce (cancel_order_id e) (canceled_shares e) a) b.
Proof.
  intros Hr Ha He.
  apply (execute_spec b a ids free
    (mkExecute (mkMeta 0 0 0) (cancel_order_id e) (canceled_shares e) 0 false 0 false) Hr Ha He).
Qed.

(** ** Additions *)

Lemma rep_size b a ids free :
  rep b a ids free → size (BookSpec.orders a) = size ids.
Proof.
  intros Hr. rewrite <-!size_dom. f_equal. apply set_eq. intros i.
  pose proof (arena_None _ _ _ _ _ (rep_arena _ _ _ _ _ _ Hr) i) as Hi.
  rewrite !elem_of_dom, <-!not_eq_None_Some. tauto.
Qed.

Lemma wp_allocate_slot b a ids free (Q : Z → OrderBook.t → Prop) :
  rep b a ids free →
  (free = [] → Q INV b) →
  (∀ j free' s, free = j :: free' → vget (slots_ b) j = Some s → j ≠ INV → alive s = false →
     Q j (OrderBook.mk (vset (slots_ b) j (mkSlot (order s) (prev s) (next s) INV true))
            (next_free s) (index_ b) (books_ b))) →
  wp allocate_slot Q b.
Proof.
  intros Hr Hnil Hcons. pose proof (arena_chain _ _ _ _ _ (rep_arena _ _ _ _ _ _ Hr)) as Hc.
  unfold allocate_slot. apply wp_bind, wp_get. destruct free as [|j free]; cbn in Hc.
  { rewrite decide_True by done. by apply wp_ret, Hnil. }
  destruct Hc as (Hh & Hinv & o & n & (s & Hs & Hd)%view_Some & _). subst j.
  rewrite decide_False by done. apply wp_bind. eapply wp_slot_at; [done|].
  apply wp_bind, wp_modify. apply wp_bind. eapply wp_update_slot; [done|]. apply wp_ret.
  apply (Hcons (free_head_ b) free s); try done. unfold slot_data in Hd. congruence.
Qed.

(** The level an order is about to join, present or not. *)
Lemma rep_level_or_new b a ids free k :
  rep b a ids free → BookSpec.wf a →
  ∃ l, slots_of ids (BookSpec.queue a k) l ∧
    fifo (slots_ b) (level_or_new (books_ b) k) l ∧
    total_quantity (level_or_new (books_ b) k) = BookSpec.level_total a k.
Proof.
  intros Hr Ha. pose proof (rep_levels _ _ _ _ _ _ Hr k) as Hl.
  unfold BookSpec.level_total, BookSpec.queue, level_or_new.
  destruct (BookSpec.queues a !! k) as [q|]; cbn in *.
  - destruct Hl as (lvl & l & -> & ? & ? & ?). by exists l.
  - rewrite Hl. exists []. split_and!; [constructor|apply fifo_empty|done].
Qed.

Lemma free_not_queued b a ids free j q l :
  rep b a ids free → j ∈ free → slots_of ids q l → j ∉ l.
Proof.
  intros Hr Hj Hql (i & _ & Hi)%(slots_of_elem _ _ _ _ Hql).
  by eapply arena_free_not_live; [by eapply rep_arena| |].
Qed.

(** An allocation that is taken back. *)
Lemma rep_bounce b a ids j free s s' b' :
  rep b a ids (j :: free) → vget (slots_ b) j = Some s → alive s = false →
  slots_ b' = vset (slots_ b) j s' → slot_data s' = (default_order, next_free s, false) →
  free_head_ b' = j → (∀ k, lookup_level (books_ b') k = lookup_level (books_ b) k) →
  nonempty (books_ b') → holds_map (index_ b') ids →
  rep b' a ids (j :: free).
Proof.
  intros Hr Hs Hdead Hss Hd Hfh Hl Hn Hidx. pose proof (rep_arena _ _ _ _ _ _ Hr) as Har. split.
  - rewrite Hss, length_vset. apply Hr.
  - done.
  - rewrite Hfh. eapply arena_bounce; [exact Har| |].
    + unfold view. rewrite Hs. unfold slot_data. cbn. by rewrite Hdead.
    + intros j'. rewrite Hss, view_vset by eauto. by rewrite Hd.
  - apply Hr.
  - intros k. eapply level_frame; [by apply Hr|done|]. intros q i _ _. split_and!; [done..|].
    intros j' Hj'. rewrite Hss, vget_vset_ne; [done|]. intros <-.
    eapply arena_free_not_live; [exact Har|done|]. by left.
  - done.
Qed.

(** The [catch] block of [add]: order [i] has slot [j] and an index entry, but no place in a level. *)
Section added.
(** [b1] is the book [b] in which the slot [j] and an index entry have been taken for the order [o]. *)
Context (b : OrderBook.t) (a : BookSpec.t) (ids : gmap Z Z) (j : Z) (free : list Z) (s s1 : Slot) (o : Order).
Context (Hr : rep b a ids (j :: free)) (Hs : vget (slots_ b) j = Some s) (Hdead : alive s = false).
Context (Hi : ids !! id o = None).
Definition taken (b1 : OrderBook.t) : Prop :=
  slots_ b1 = vset (slots_ b) j s1 ∧ free_head_ b1 = next_free s ∧ holds_map (index_ b1) (<[id o:=j]> ids).

Lemma wp_undo_add b1 :
  taken b1 → (∀ k, lookup_level (books_ b1) k = lookup_level (books_ b) k) → nonempty_but (symbol o) (books_ b1) →
  wp (undo_add o j) (λ _ b', ∃ ids free, rep b' a ids free) b1.
Proof using All.
  intros (Hss & Hfh & Hidx) Hl Hn. apply wp_bind. eapply (wp_index_erase max holds_map); [exact Hidx|].
  intros r idx' Hidx'. rewrite delete_insert_id in Hidx' by done.
  pose proof (vget_bounds _ _ _ Hs). apply wp_bind, wp_release_slot; cbn.
  { rewrite Hss. apply vget_is_Some. by rewrite length_vset. }
  intros ss s' -> Hd. apply wp_drop_found; [done|]. cbn. intros bs Hl2 Hn2. exists ids, (j :: free).
  rewrite Hss, Hfh in *. eapply (rep_bounce b a ids j free s s'); try done; cbn; [by rewrite vset_vset|].
  intros k. by rewrite Hl2, Hl.
Qed.

(** The level of an order that does not fit was there before. *)
Lemma wp_refuse_order b1 :
  taken b1 → (∀ k, lookup_level (books_ b1) k = lookup_level (books_ b) k) → nonempty_but (symbol o) (books_ b1) →
  is_Some (books_ b1 !! symbol o) →
  wp (refuse_order o j false) (λ ok b', ok = false ∧ ∃ ids free, rep b' a ids free) b1.
Proof using All.
  intros (Hss & Hfh & Hidx) Hl Hn Hsym. apply wp_bind, wp_ret, wp_assoc, wp_drop_empty; [done|done|]. cbn.
  intros bs3 Hl3 Hn3. apply wp_bind. eapply (wp_index_erase max holds_map); [done|].
  intros r idx'' Hidx''. rewrite delete_insert_id in Hidx'' by done. pose proof (vget_bounds _ _ _ Hs).
  apply wp_bind, wp_release_slot; cbn; [by apply vget_is_Some; rewrite Hss, length_vset|].
  intros ss4 s4 -> Hd4. apply wp_ret. split; [done|]. exists ids, (j :: free). rewrite Hss, Hfh in *.
  eapply (rep_bounce b a ids j free s s4); try done; cbn; [by rewrite vset_vset|]. intros k. by rewrite Hl3, Hl.
Qed.

Lemma wp_join_level b1 l lvl bs n :
  taken b1 → BookSpec.wf a → slot_data s1 = (o, n, true) →
  slots_of ids (BookSpec.queue a (BookSpec.key_of o)) l → fifo (slots_ b) lvl l →
  total_quantity lvl = BookSpec.level_total a (BookSpec.key_of o) →
  BookSpec.level_total a (BookSpec.key_of o) + quantity o ≤ u32_max → 0 ≤ quantity o → j ≠ INV →
  (∀ k, lookup_level bs k = lookup_level (books_ b) k) →
  updated (BookSpec.key_of o) (Some lvl) bs (books_ b1) → nonempty_but (symbol o) (books_ b1) →
  is_Some (books_ b1 !! symbol o) →
  wp (join_level o j lvl) (λ ok b', ok = true ∧ ∃ ids free, rep b' (BookSpec.push o a) ids free) b1.
Proof using All.
  intros (Hss & Hfh & Hidx) Ha Hd1 Hql Hf Ht Hfit Hq Hinv Hl Hu Hn Hsym. unfold join_level.
  pose proof (BookSpec.level_total_bound _ Ha (BookSpec.key_of o)) as Hbound.
  assert (Hjl : j ∉ l) by (eapply (free_not_queued b a ids (j :: free)); [done|by left|done]).
  pose proof (vget_bounds _ _ _ Hs). rewrite Ht, u32_small by lia. apply wp_bind. eapply (wp_link_at_tail _ j l); cbn.
  { apply fifo_set_total. rewrite Hss. eapply fifo_frame; [|done]. intros j' ?. apply vget_vset_ne. set_solver. }
  { done. }
  { done. }
  { rewrite Hss. apply vget_is_Some. by rewrite length_vset. }
  intros ss5 lvl5 Hrel5 Hf5 Ht5. cbn in Ht5. apply wp_bind, wp_set_level; [done|done|].
  intros bs6 Hu6 Hsym6 Hn6. apply wp_ret. split; [done|]. exists (<[id o:=j]> ids), free. rewrite Hss in Hrel5.
  eapply (rep_push b a ids j free o n _ l lvl5); try done; cbn.
  - intros k. rewrite Hu6, Hu, Hl. unfold BookSpec.key_of. by case_decide.
  - by rewrite Hs, Hfh.
Qed.
End added.

Lemma add_spec mem b a ids free e :
  rep b a ids free → BookSpec.wf a → order_ok (add_order e) →
  simulates_in mem (add_in mem e) (BookSpec.add max (add_order e) a) a b.
Proof.
  intros Hr Ha [Hid Hq]. unfold simulates_in, add_in, BookSpec.add. set (o := add_order e) in *.
  assert (Hno : ∀ P : Prop, P → false = (false, a).1 ∧ ∃ ids free, rep b (false, a).2 ids free) by eauto.
  destruct (decide (id o = 0 ∨ quantity o = 0)) as [H0|H0].
  { rewrite decide_True by tauto. apply wpx_ret. by eapply Hno. }
  apply wpx_bind, wpx_wp. eapply (wp_index_find max holds_map); [done|].
  pose proof (arena_None _ _ _ _ _ (rep_arena _ _ _ _ _ _ Hr) (id o)) as Hnone.
  destruct (ids !! id o) as [j'|] eqn:Hj'.
  { rewrite decide_True by eauto. rewrite decide_True; [apply wpx_ret; by eapply Hno|].
    right. right. left. apply not_eq_None_Some. by intros ?%Hnone. }
  rewrite (decide_False (P:=is_Some None)) by (by intros [? ?]). pose proof (proj2 Hnone eq_refl) as Hfresh.
  apply wpx_bind, wpx_wp. eapply wp_allocate_slot; [done| |].
  { intros ->. pose proof (rep_count _ _ _ _ _ _ Hr) as Hc. cbn in Hc.
    rewrite (rep_size _ _ _ _ Hr), !decide_True by (try done; lia). apply wpx_ret. by eapply Hno. }
  intros j free' s -> Hs Hinv Hdead. rewrite (decide_False (P:=j = INV)) by done.
  pose proof (vget_bounds _ _ _ Hs) as Hjb.
  pose proof (rep_count _ _ _ _ _ _ Hr) as Hc. cbn in Hc.
  rewrite (rep_size _ _ _ _ Hr), (decide_False (P:=id o = 0 ∨ _)).
  2: { rewrite <-not_eq_None_Some. intros [?|[?|[?|?]]]; [tauto|tauto|tauto|lia]. }
  apply wpx_bind, wpx_wp. eapply wp_update_slot; [by apply vget_vset_eq|]. unfold set_slots; cbn. rewrite vset_vset.
  apply wpx_bind, wpx_wp. eapply (wp_index_insert max holds_map); [apply Hr|done|lia|]. intros idx' Hidx'. cbn.
  apply wpx_catch, wpx_bind, wpx_book_subscript; [apply Hr| |].
  { intros Hfail. eapply wp_mono; [eapply (wp_undo_add b a ids j free' s); try done; apply nonempty_weaken, Hr|].
    intros ? b' Hb'. split; [done|]. split; [|exact Hb']. intros Heq. by rewrite Heq in Hfail. }
  intros sb bs1 Hsym1 Hl1 Hn1. cbn in *.
  destruct (rep_level_or_new _ _ _ _ (BookSpec.key_of o) Hr Ha) as (l & Hql & Hf & Ht).
  set (lvl := level_or_new (books_ b) (BookSpec.key_of o)) in *.
  assert (level_or_new bs1 (BookSpec.key_of o) = lvl) as Hlvl.
  { unfold level_or_new. by rewrite Hl1. }
  pose proof (BookSpec.level_total_bound _ Ha (BookSpec.key_of o)) as Hbound.
  apply wpx_bind, wpx_try_emplace; [done|done| |].
  { intros Hfail. eapply wp_mono; [by eapply (wp_undo_add b a ids j free' s)|].
    intros ? b' Hb'. split; [done|]. split; [|exact Hb']. intros Heq. by rewrite Heq in Hfail. }
  cbn. intros bs2 ins Hins Hu2 Hsym2 Hn2. apply wpx_wp.
  fold (BookSpec.key_of o) in Hins, Hu2. rewrite Hlvl in *. fold (BookSpec.key_of o). rewrite Hlvl.
  rewrite Ht, u32_small by lia. unfold BookSpec.fits.
  destruct (Z.ltb_spec (u32_max - BookSpec.level_total a (BookSpec.key_of o)) (quantity o)) as [Hov|Hfit].
  - rewrite (proj2 (Z.leb_gt _ _)) by lia. destruct ins.
    { exfalso. rewrite Hl1 in Hins. unfold lvl, level_or_new in Ht. rewrite Hins in Ht. cbn in Ht. lia. }
    destruct Hins as [_ ->]. by eapply (wp_refuse_order b a ids j free' s).
  - rewrite (proj2 (Z.leb_le _ _)) by lia.
    eapply (wp_join_level b a ids j free' s _ o) with (bs := bs1); try done; cbn; lia.
Qed.

(** ** Replacements *)

(** The state after an order has moved: seen as a removal, through a book that only the proof
    builds, followed by an addition to the slot just released. *)
Lemma rep_move b a ids free i o j s lvl q1 q2 l1 l2 ss1 lvl1 o' n s1 l' lvl' b' :
  rep b a ids free → BookSpec.wf a → BookSpec.orders a !! i = Some o →
  located b a ids i o j s lvl q1 q2 l1 l2 →
  relinked (l1 ++ j :: l2) (slots_ b) ss1 → fifo ss1 lvl1 (l1 ++ l2) →
  total_quantity lvl1 = BookSpec.level_total a (BookSpec.key_of o) - quantity o →
  ids !! id o' = None →
  slots_of (delete i ids) (BookSpec.queue (BookSpec.remove i a) (BookSpec.key_of o')) l' →
  slot_data s1 = (o', n, true) → relinked (j :: l') (vset ss1 j s1) (slots_ b') →
  fifo (slots_ b') lvl' (l' ++ [j]) →
  total_quantity lvl' =
    BookSpec.level_total (BookSpec.remove i a) (BookSpec.key_of o') + quantity o' →
  (∀ k, lookup_level (books_ b') k =
     if decide (k = BookSpec.key_of o') then Some lvl'
     else if decide (k = BookSpec.key_of o)
     then (if decide (level_head lvl1 = INV) then None else Some lvl1)
     else lookup_level (books_ b) k) →
  nonempty (books_ b') → holds_map (index_ b') (<[id o':=j]> (delete i ids)) →
  free_head_ b' = free_head_ b →
  rep b' (BookSpec.push o' (BookSpec.remove i a)) (<[id o':=j]> (delete i ids)) free.
Proof.
  intros Hr Ha Ho Hloc Hrel Hf1 Ht1 Hid' Hql' Hd1 Hrel' Hf' Ht' Hl' Hn' Hidx' Hfh'.
  destruct (contract_erase (max:=max) _ _ i (rep_index _ _ _ _ _ _ Hr)) as (idx & _ & Hidx).
  destruct (updated_exists b o lvl lvl1) as (bs & Hu & Hn); [apply Hloc|apply Hr|].
  destruct (relinked_lookup _ _ _ _ _ Hrel (loc_slot _ _ _ _ _ _ _ _ _ _ _ _ Hloc)) as (sj & Hsj & _).
  set (gone := mkSlot default_order INV INV (free_head_ b) false).
  set (g := OrderBook.mk (vset ss1 j gone) j idx bs).
  assert (Hrg : rep g (BookSpec.remove i a) (delete i ids) (j :: free)).
  { by eapply (rep_remove b a ids free i o j s lvl q1 q2 l1 l2 g ss1 lvl1 gone). }
  eapply (rep_push g _ _ j free o' n s1 l' lvl'); try done; cbn.
  - by apply BookSpec.remove_wf.
  - rewrite lookup_delete_None. by right.
  - by rewrite vset_vset.
  - intros k. rewrite Hl', Hu. by destruct (decide (k = BookSpec.key_of o')).
  - rewrite vget_vset_eq by (by eauto with mw). cbn. by rewrite Hfh'.
Qed.

(** The order a replacement creates. *)
Definition replacement (e : ReplaceEvent) (o : Order) (p : Z) : Order :=
  mkOrder (new_order_id e) (symbol o) (side o) (new_quantity e) p.
Definition replaced (a : BookSpec.t) (i : Z) (o' : Order) : bool * BookSpec.t :=
  if BookSpec.fits o' (BookSpec.remove i a)
  then (true, BookSpec.push o' (BookSpec.remove i a)) else (false, a).

Lemma queue_slots b a ids i o j s lvl q1 q2 l1 l2 :
  located b a ids i o j s lvl q1 q2 l1 l2 → BookSpec.orders a !! i = Some o → BookSpec.wf a →
  slots_of (delete i ids) (BookSpec.queue (BookSpec.remove i a) (BookSpec.key_of o)) (l1 ++ l2).
Proof.
  intros Hloc Ho Ha. rewrite (BookSpec.queue_remove _ _ _ _ Ho), decide_True by done.
  rewrite (BookSpec.queue_Some _ _ _ (loc_queue _ _ _ _ _ _ _ _ _ _ _ _ Hloc)).
  rewrite (loc_filter _ _ _ _ _ _ _ _ _ _ _ _ Hloc).
  apply (slots_of_frame ids); [|apply Forall2_app; apply Hloc].
  intros i' Hi'. rewrite lookup_delete_ne; [done|].
  pose proof (loc_notin _ _ _ _ _ _ _ _ _ _ _ _ Hloc). set_solver.
Qed.

Lemma replace_same_price_spec b a ids free e o j s lvl q1 q2 l1 l2 :
  rep b a ids free → BookSpec.wf a → BookSpec.orders a !! old_order_id e = Some o →
  located b a ids (old_order_id e) o j s lvl q1 q2 l1 l2 →
  ids !! new_order_id e = None → 0 < new_quantity e ≤ u32_max →
  simulates (replace_same_price e o j)
    (replaced a (old_order_id e) (replacement e o (price o))) b.
Proof.
  intros Hr Ha Ho Hloc Hnew Hq. unfold simulates, replace_same_price, replaced, BookSpec.fits.
  set (i := old_order_id e) in *. set (o' := replacement e o (price o)).
  change (BookSpec.key_of o') with (BookSpec.key_of o).
  pose proof (BookSpec.level_total_remove _ Ha i o (BookSpec.key_of o) Ho) as Htr.
  rewrite decide_True in Htr by done. rewrite Htr.
  pose proof (queue_slots _ _ _ _ _ _ _ _ _ _ _ _ Hloc Ho Ha) as Hqs'.
  pose proof Hloc as [Hj Hs Hd Hv Hqs Hl Hql1 Hql2 Hf Ht Hfilter [Hi1 Hi2]].
  assert (Hii : new_order_id e ≠ i) by congruence.
  pose proof (BookSpec.level_total_bound _ Ha (BookSpec.key_of o)) as Hbound.
  pose proof (BookSpec.level_total_ge _ Ha _ _ Ho).
  pose proof (BookSpec.order_wf_quantity _ _ _ (BookSpec.wf_orders _ Ha _ _ Ho)).
  unfold u32_max in *. change (quantity o') with (new_quantity e).
  apply wp_bind. eapply wp_level_find; [done|]. rewrite Ht.
  set (w := BookSpec.level_total a (BookSpec.key_of o) - quantity o) in *.
  rewrite (u64_small w), u64_small by (word_lia).
  destruct (Z.ltb_spec 4294967295 (w + new_quantity e)).
  { rewrite (proj2 (Z.leb_gt _ _)) by lia. apply wp_ret. eauto. }
  rewrite (proj2 (Z.leb_le _ _)) by lia.
  apply wp_bind. eapply (wp_index_insert max holds_map); [apply Hr|done| |].
  { pose proof (rep_count _ _ _ _ _ _ Hr). lia. }
  intros idx1 Hidx1. apply wp_bind. eapply wp_unlink; [exact Hf|]. intros ss1 lvl1 Hrel Hf1 Ht1.
  destruct (relinked_lookup _ _ _ _ _ Hrel Hs) as (sj & Hsj & Hdj).
  pose proof (fifo_nodup _ _ _ Hf) as Hnd.
  assert (Hjl : j ∉ l1 ++ l2).
  { apply NoDup_app in Hnd as (_ & Hdis & [? _]%NoDup_cons). intros [?|?]%elem_of_app; [|done].
    by apply (Hdis j); [|left]. }
  apply wp_bind. eapply wp_update_slot; [done|]. apply wp_bind. eapply (wp_link_at_tail _ j (l1 ++ l2)); cbn.
  { apply fifo_set_total. by apply fifo_set_order. }
  { done. }
  { done. }
  { apply vget_is_Some. autorewrite with lens. by eauto with mw. }
  intros ss2 lvl2 Hrel2 Hf2 Ht2. cbn in Ht2. rewrite u32_small in Ht2 by (unfold u32_max; lia).
  apply wp_bind, wp_set_level; cbn.
  { by eapply lookup_level_book in Hl. }
  { apply nonempty_weaken, Hr. }
  intros bs1 Hu1 Hs1 Hn1. apply wp_bind. eapply (wp_index_erase max holds_map); [exact Hidx1|].
  intros r idx2 Hidx2. apply wp_ret. split; [done|].
  exists (<[new_order_id e:=j]> (delete i ids)), free. rewrite delete_insert_ne in Hidx2 by done.
  assert (Hoj : order sj = o ∧ alive sj = true) by (unfold slot_data in *; naive_solver congruence).
  eapply (rep_move b a ids free i o j s lvl q1 q2 l1 l2 ss1 (set_total w lvl1) o' (next_free sj) _ (l1 ++ l2) lvl2);
    try done; cbn.
  - by apply fifo_set_total.
  - unfold slot_data. cbn. destruct Hoj as [-> ->]. done.
  - rewrite Ht2. change (BookSpec.key_of o') with (BookSpec.key_of o). by rewrite Htr.
  - intros k. rewrite Hu1. change (BookSpec.key_of o') with (BookSpec.key_of o).
    unfold BookSpec.key_of. by destruct (decide _).
Qed.

(** The end of [replace_new_price]: the level left behind is dropped when it is empty; the book of
    its symbol keeps the level moved to. *)
Lemma wp_drop_left_level o p lvl lvl' (Q : bool → OrderBook.t → Prop) b :
  p ≠ price o → nonempty (books_ b) →
  lookup_level (books_ b) (BookSpec.key_of o) = Some lvl →
  lookup_level (books_ b) (symbol o, side o, p) = Some lvl' →
  (∀ bs', updated (BookSpec.key_of o)
      (if decide (level_head lvl = INV) then None else Some lvl) (books_ b) bs' →
     nonempty bs' → Q true (set_books (λ _, bs') b)) →
  wp ((if decide (level_head lvl = INV) then erase_level (symbol o) (side o) (price o)
       else mret tt);; mret true) Q b.
Proof.
  intros Hp Hn Hl Hl' HQ. apply wp_bind. case_decide.
  - pose proof Hl as (sb & Hsb & _)%bind_Some. cbn in Hsb.
    apply wp_erase_level; [by eauto|by apply nonempty_weaken|]. intros bs Hu Hs Hnb.
    apply wp_ret, HQ; [done|]. eapply (nonempty_level _ (side o) p lvl'); [done|].
    rewrite Hu, decide_False; [done|]. congruence.
  - apply wp_ret, wp_ret. destruct b as [? ? ? bs]. apply (HQ bs); [|done].
    intros k. case_decide; by subst.
Qed.

(** The queue of another price level is untouched when order [i] leaves its own. *)
Lemma left_queue a ids i o k l :
  BookSpec.wf a → BookSpec.orders a !! i = Some o → k ≠ BookSpec.key_of o →
  slots_of ids (BookSpec.queue a k) l →
  slots_of (delete i ids) (BookSpec.queue (BookSpec.remove i a) k) l.
Proof.
  intros Ha Ho Hk Hl. rewrite (BookSpec.queue_remove _ _ _ _ Ho), decide_False by done.
  apply (slots_of_frame ids); [|done]. intros i0 (o0 & Ho0 & <-)%BookSpec.queue_elem; [|done].
  rewrite lookup_delete_ne; [done|]. intros <-. congruence.
Qed.

(** The order leaves its level for the level [nl] at another price; the index holds both its ids. *)
Lemma wp_move_order b a ids free e o j s lvl q1 q2 l1 l2 l' nl idx1 bs1 :
  let o' := replacement e o (new_price e) in
  let k' := BookSpec.key_of o' in
  rep b a ids free → BookSpec.wf a → BookSpec.orders a !! old_order_id e = Some o →
  located b a ids (old_order_id e) o j s lvl q1 q2 l1 l2 →
  ids !! new_order_id e = None → 0 < new_quantity e → price o ≠ new_price e →
  slots_of ids (BookSpec.queue a k') l' → fifo (slots_ b) nl l' → total_quantity nl = BookSpec.level_total a k' →
  BookSpec.level_total a k' + new_quantity e ≤ u32_max →
  holds_map idx1 (<[new_order_id e:=j]> ids) → updated k' (Some nl) (books_ b) bs1 →
  is_Some (bs1 !! symbol o) → nonempty_but (symbol o) bs1 →
  wp (move_order e o j nl)
    (λ ok b', ok = true ∧ ∃ ids free, rep b' (BookSpec.push o' (BookSpec.remove (old_order_id e) a)) ids free)
    (OrderBook.mk (slots_ b) (free_head_ b) idx1 bs1).
Proof.
  intros o' k' Hr Ha Ho Hloc Hnew Hq Hp Hql' Hf' Ht' Hfit Hidx1 Hu1 Hsym1 Hn1. unfold move_order.
  set (i := old_order_id e) in *. set (k := BookSpec.key_of o).
  assert (Hkk : k ≠ k') by (unfold k, k', BookSpec.key_of, o'; cbn; congruence).
  pose proof (BookSpec.level_total_remove _ Ha i o k' Ho) as Htr. rewrite decide_False in Htr by done.
  pose proof (located_slots _ _ _ _ _ _ _ _ _ _ _ _ Hloc) as [Hqk Hqlk].
  pose proof Hloc as [Hj Hs Hd Hv Hqs Hl Hql1 Hql2 Hf Ht Hfilter [Hi1 Hi2]].
  pose proof (BookSpec.level_total_bound _ Ha k) as Hbound. pose proof (BookSpec.level_total_bound _ Ha k') as Hbound'.
  pose proof (BookSpec.level_total_ge _ Ha _ _ Ho).
  pose proof (BookSpec.order_wf_quantity _ _ _ (BookSpec.wf_orders _ Ha _ _ Ho)).
  apply wp_bind. eapply (wp_level_find _ _ _ lvl); cbn.
  { change (symbol o, side o, price o) with k. by rewrite Hu1, decide_False. }
  apply wp_bind. eapply wp_unlink; [exact Hf|]. intros ss1 lvl1 Hrel Hf1 Ht1. cbn.
  rewrite Ht1, Ht. fold k. rewrite (u32_small (BookSpec.level_total a k - _)) by (fold k in H; lia).
  apply wp_bind, wp_set_level; cbn; [done|done|]. intros bs2 Hu2 Hsym2 Hn2.
  destruct (relinked_lookup _ _ _ _ _ Hrel Hs) as (sj & Hsj & Hdj).
  assert (Hoj : order sj = o ∧ alive sj = true) by (unfold slot_data in *; naive_solver congruence).
  assert (Hdis : ∀ j', j' ∈ l1 ++ j :: l2 → j' ∉ l').
  { intros j' (i0 & Hi0 & Hj')%(slots_of_elem _ _ _ _ Hqlk). fold k in Hi0.
    eapply (slots_disjoint b a ids free i0 j' _ l' k' k); done. }
  apply wp_bind. eapply wp_update_slot; [done|]. apply wp_bind. eapply (wp_link_at_tail _ j l'); cbn.
  { apply fifo_set_total, fifo_set_order; [done|]. eapply fifo_frame; [|exact Hf'].
    intros j' Hj'. apply (relinked_frame _ _ _ Hrel). intros ?. by eapply Hdis. }
  { apply Hdis. set_solver. }
  { done. }
  { apply vget_is_Some. autorewrite with lens. by eauto with mw. }
  intros ss2 lvl2 Hrel2 Hf2 Ht2. cbn in Ht2. rewrite u32_small in Ht2 by lia.
  apply wp_bind, wp_set_level; cbn; [done|by apply nonempty_weaken|]. intros bs3 Hu3 Hsym3 Hn3.
  change (symbol o, side o, new_price e) with k' in Hu3. change (symbol o, side o, price o) with k in Hu2.
  apply wp_bind. eapply (wp_index_erase max holds_map); [exact Hidx1|]. intros r idx2 Hidx2.
  assert (Hii : new_order_id e ≠ i) by congruence. rewrite delete_insert_ne in Hidx2 by done.
  set (old1 := set_total (BookSpec.level_total a k - quantity o) lvl1) in *.
  apply (wp_drop_left_level o (new_price e) old1 lvl2); cbn; [done|done| | |].
  { change (BookSpec.key_of o) with k. by rewrite Hu3, decide_False, Hu2, decide_True. }
  { change (symbol o, side o, new_price e) with k'. by rewrite Hu3, decide_True. }
  intros bs4 Hu4 Hn4. change (BookSpec.key_of o) with k in Hu4. split; [done|].
  exists (<[new_order_id e:=j]> (delete i ids)), free.
  eapply (rep_move b a ids free i o j s lvl q1 q2 l1 l2 ss1 old1 o' (next_free sj) _ l' lvl2); try done; cbn.
  - by apply fifo_set_total.
  - by eapply left_queue.
  - unfold slot_data. cbn. destruct Hoj as [-> ->]. done.
  - rewrite Ht2, Ht'. change (BookSpec.key_of o') with k'. by rewrite Htr.
  - intros k0. change (BookSpec.key_of o') with k'. change (BookSpec.key_of o) with k.
    rewrite Hu4, Hu3, Hu2, Hu1. destruct (decide (k0 = k)), (decide (k0 = k')); congruence.
Qed.

Lemma replace_new_price_spec mem b a ids free e o j s lvl q1 q2 l1 l2 :
  rep b a ids free → BookSpec.wf a → BookSpec.orders a !! old_order_id e = Some o →
  located b a ids (old_order_id e) o j s lvl q1 q2 l1 l2 →
  ids !! new_order_id e = None → 0 < new_quantity e ≤ u32_max → price o ≠ new_price e →
  simulates_in mem (replace_new_price mem e o j)
    (replaced a (old_order_id e) (replacement e o (new_price e))) a b.
Proof.
  intros Hr Ha Ho Hloc Hnew Hq Hp. unfold simulates_in, replace_new_price, replaced, BookSpec.fits.
  set (o' := replacement e o (new_price e)). set (k' := BookSpec.key_of o').
  assert (Hkk : BookSpec.key_of o ≠ k') by (unfold k', BookSpec.key_of, o'; cbn; congruence).
  rewrite (BookSpec.level_total_remove _ Ha _ o k' Ho), decide_False by done.
  pose proof (located_slots _ _ _ _ _ _ _ _ _ _ _ _ Hloc) as [Hqk Hqlk].
  pose proof Hloc as [Hj _ _ Hv _ Hl _ _ _ _ _ _]. pose proof (BookSpec.level_total_bound _ Ha k') as Hbound'.
  change (quantity o') with (new_quantity e).
  destruct (rep_level_or_new _ _ _ _ k' Hr Ha) as (l' & Hql' & Hf' & Ht').
  apply wpx_bind, wpx_try_emplace; cbn.
  { by eapply lookup_level_book in Hl. }
  { apply nonempty_weaken, Hr. }
  { intros Hfail. split; [done|]. split; [intros Heq; by rewrite Heq in Hfail|by eauto]. }
  change (symbol o, side o, new_price e) with k'. set (nl := level_or_new (books_ b) k') in *.
  intros bs1 ins Hins Hu1 Hsym1 Hn1. apply wpx_wp. rewrite Ht', u32_small by lia.
  destruct (Z.ltb_spec (u32_max - BookSpec.level_total a k') (new_quantity e)) as [Hov|Hfit].
  { rewrite (proj2 (Z.leb_gt _ _)) by lia. destruct ins.
    - exfalso. unfold nl, level_or_new in Ht'. rewrite Hins in Ht'. cbn in Ht'. lia.
    - destruct Hins as [_ ->]. apply wp_bind, wp_ret, wp_ret. split; [done|]. exists ids, free.
      by destruct b. }
  rewrite (proj2 (Z.leb_le _ _)) by lia.
  apply wp_bind. eapply (wp_index_insert max holds_map); [apply Hr|done| |].
  { pose proof (rep_count _ _ _ _ _ _ Hr). lia. }
  intros idx1 Hidx1. eapply (wp_move_order b a ids free e o j s lvl q1 q2 l1 l2 l' nl idx1 bs1); try done; [lia|].
  change (BookSpec.level_total a k' + new_quantity e ≤ u32_max). lia.
Qed.

Lemma replace_spec mem b a ids free e :
  rep b a ids free → BookSpec.wf a → 0 ≤ new_quantity e ≤ u32_max →
  simulates_in mem (replace_in mem e)
    (BookSpec.replace (old_order_id e) (new_order_id e) (new_quantity e) (new_price e) a) a b.
Proof.
  intros Hr Ha He. unfold simulates_in, replace_in, BookSpec.replace.
  set (i := old_order_id e) in *. set (i' := new_order_id e) in *.
  assert (Hno : ∀ P : Prop, P → false = (false, a).1 ∧ ∃ ids free, rep b (false, a).2 ids free) by eauto.
  apply wpx_bind, wpx_wp. eapply (wp_index_find max holds_map); [done|].
  destruct (BookSpec.orders a !! i) as [o|] eqn:Ho.
  2: { rewrite (proj1 (arena_None _ _ _ _ _ (rep_arena _ _ _ _ _ _ Hr) _) Ho). apply wpx_ret. by eapply Hno. }
  destruct (rep_located _ _ _ _ _ _ Hr Ha Ho) as (j&s&lvl&q1&q2&l1&l2&Hloc).
  pose proof Hloc as [Hj Hs Hd Hv Hqs Hl Hql1 Hql2 Hf Ht Hfilter [Hi1 Hi2]].
  assert (order s = o) as Hso by (unfold slot_data in Hd; congruence). rewrite Hj.
  destruct (decide (i' = 0 ∨ new_quantity e = 0)) as [H0|H0].
  { rewrite decide_True by tauto. apply wpx_ret. by eapply Hno. }
  apply wpx_bind, wpx_wp. eapply (wp_index_find max holds_map); [done|].
  pose proof (arena_None _ _ _ _ _ (rep_arena _ _ _ _ _ _ Hr) i') as Hnone.
  destruct (ids !! i') as [j'|] eqn:Hj'.
  { rewrite decide_True by eauto. rewrite decide_True; [apply wpx_ret; by eapply Hno|].
    right. right. apply not_eq_None_Some. by intros ?%Hnone. }
  rewrite (decide_False (P:=is_Some None)) by (by intros [? ?]).
  pose proof (proj2 Hnone eq_refl) as Hfresh.
  rewrite (decide_False (P:=i' = 0 ∨ _)) by (rewrite <-not_eq_None_Some; tauto).
  apply wpx_bind, wpx_wp. eapply wp_slot_at; [done|]. rewrite Hso.
  destruct (lookup_level_book _ _ _ Hl) as [sb Hsb].
  apply wpx_bind, wpx_wp. eapply wp_book_at; [done|].
  destruct (decide (price o = new_price e)) as [Hp|Hp].
  - apply simulates_any. rewrite <-Hp. apply (replace_same_price_spec b a ids free e o j s lvl q1 q2 l1 l2); try done. lia.
  - apply (replace_new_price_spec mem b a ids free e o j s lvl q1 q2 l1 l2); try done. lia.
Qed.

(** * Construction and dispatch *)

Lemma free_chain_seqZ d m h :
  0 < h + Z.of_nat m < INV →
  (∀ j, h ≤ j < h + Z.of_nat m → d j =
     Some (default_order, if j + 1 <? h + Z.of_nat m then j + 1 else INV, false)) →
  free_chain d (if h <? h + Z.of_nat m then h else INV) (seqZ h (Z.of_nat m)).
Proof.
  revert h. induction m as [|m IH]; intros h Hh Hd.
  { by rewrite Z.add_0_r, Z.ltb_irrefl. }
  rewrite seqZ_cons by lia. rewrite (proj2 (Z.ltb_lt _ _)) by lia. cbn.
  split; [done|]. split; [lia|]. eexists _, _. split; [apply Hd; lia|].
  replace (h + Z.of_nat (S m)) with (h + 1 + Z.of_nat m) in * by lia.
  replace (Z.pred _) with (Z.of_nat m) by lia. replace (Z.succ h) with (h + 1) by lia.
  apply IH; [lia|]. intros j Hj. apply Hd. lia.
Qed.

Lemma new_spec : ∃ b, new max = Ret b ∧ ∃ ids free, rep b BookSpec.empty ids free.
Proof.
  destruct (contract_new (max:=max) (holds_map:=holds_map)) as (idx & Hnew & Hidx).
  unfold new. rewrite Hnew. cbn [mbind outcome_bind].
  rewrite (proj2 (Z.eqb_neq _ _)), (proj2 (Z.leb_gt _ _)) by lia. cbn [orb].
  eexists. split; [done|]. exists ∅, (seqZ 0 max). split; cbn.
  - rewrite length_imap, length_replicate. lia.
  - done.
  - set (ss := imap _ _). assert (Hview : ∀ j, view ss j = if decide (0 ≤ j < max) then
      Some (default_order, if j + 1 <? max then j + 1 else INV, false) else None).
    { intros j. unfold view, vget, ss. destruct (decide (0 ≤ j)); [|by rewrite decide_False by lia].
      rewrite list_lookup_imap. destruct (decide (j < max)).
      - rewrite lookup_replicate_2, decide_True by lia. cbn. rewrite Z2Nat.id by lia.
        destruct (Z.ltb_spec (j + 1) max); [|done]. rewrite u32_small; [done|].
        unfold kInvalidSlot, u32_max in *. lia.
      - rewrite decide_False by lia. by rewrite lookup_ge_None_2 by (rewrite length_replicate; lia). }
    split.
    + done.
    + intros i j. by rewrite lookup_empty.
    + intros j o n. rewrite Hview. by case_decide.
    + pose proof (free_chain_seqZ (view ss) (Z.to_nat max) 0) as Hc.
      rewrite Z2Nat.id in Hc by lia. rewrite (proj2 (Z.ltb_lt 0 (0 + max))) in Hc by lia.
      apply Hc; [lia|]. intros j Hj. by rewrite Hview, decide_True.
    + apply NoDup_seqZ.
  - rewrite map_size_empty, length_seqZ. lia.
  - intros k. by rewrite lookup_empty.
  - intros sym sb. by rewrite lookup_empty.
Qed.

Lemma apply_in_spec mem b a ids free e :
  rep b a ids free → BookSpec.wf a → event_ok e →
  simulates_in mem (apply_in mem e) (BookSpec.apply max e a) a b.
Proof.
  intros Hr Ha He. destruct e as [e|e|e|e|e]; cbn in *.
  - by eapply add_spec.
  - eapply simulates_any, execute_spec; [done|done|lia].
  - eapply simulates_any, cancel_spec; [done|done|lia].
  - by eapply simulates_any, remove_order_spec.
  - eapply replace_spec; [done|done|apply He].
Qed.
Lemma apply_spec b a ids free e :
  rep b a ids free → BookSpec.wf a → event_ok e →
  simulates (apply e) (BookSpec.apply max e a) b.
Proof. intros Hr Ha He. eapply simulates_plenty. by eapply apply_in_spec. Qed.
End operations.
