(* ===== verification/BookQueries.v ===== *)
(** The queries of [OrderBook] — lookups, best prices, snapshots and the state hash — read off the
    abstract book. *)
From S2P Require Import Prelude Types FlatOrderIndex BookSpec OrderBook BookInvariant.
From S2P Require Import BookRefinement.
Import OrderBook.

(** * The queries on the abstract book *)

Module BookView.

(** The levels of one side of a symbol, with the ids queued. *)
Definition levels_of (a : BookSpec.t) (sym : Symbol.t) (s : Side) : gmap Z (list Z) :=
  list_to_map (omap (λ '(k, q), if decide (k.1 = (sym, s)) then Some (k.2, q) else None)
                 (map_to_list (BookSpec.queues a))).

Definition symbols (a : BookSpec.t) : gset Symbol.t :=
  set_map (λ k : BookSpec.level_key, k.1.1) (dom (BookSpec.queues a)).

(** The orders of a queue, first in first. *)
Definition orders_of (a : BookSpec.t) (q : list Z) : list Order :=
  omap (λ i, BookSpec.orders a !! i) q.

Definition best (s : Side) (a : BookSpec.t) (sym : Symbol.t) : option Z :=
  first_key (level_order s) (levels_of a sym s).

Definition levels (s : Side) (a : BookSpec.t) (sym : Symbol.t) : list LevelSnapshot :=
  (λ '(p, q), mkSnapshot p (BookSpec.total (BookSpec.orders a) q) q) <$>
    in_order s (levels_of a sym s).

Definition hash_level (a : BookSpec.t) (h : Z) (pq : Z * list Z) : Z :=
  let '(p, q) := pq in
  let h := hash_mix (hash_mix h p) (BookSpec.total (BookSpec.orders a) q) in
  hash_mix (foldl hash_order h (orders_of a q)) kInvalidSlot.
Definition hash_side (a : BookSpec.t) (sym : Symbol.t) (s : Side) (h : Z) : Z :=
  let ls := levels_of a sym s in
  foldl (hash_level a) (hash_mix (hash_mix h (side_value s)) (Z.of_nat (size ls)))
    (in_order s ls).
Definition hash_symbol (a : BookSpec.t) (h : Z) (sym : Symbol.t) : Z :=
  let h := foldl (λ h c, hash_mix h (Z_of_byte c)) h (Symbol.bytes sym) in
  hash_side a sym Sell (hash_side a sym Buy h).
Definition state_hash (char_is_signed : bool) (a : BookSpec.t) : Z :=
  foldl (hash_symbol a)
    (hash_mix 0xcbf29ce484222325 (Z.of_nat (size (symbols a))))
    (merge_sort (symbol_le char_is_signed) (elements (symbols a))).

Lemma lookup_levels_of a sym s p :
  levels_of a sym s !! p = BookSpec.queues a !! (sym, s, p).
Proof.
  unfold levels_of. set (l := omap _ _).
  assert (Hin : ∀ p q, (p, q) ∈ l ↔ BookSpec.queues a !! (sym, s, p) = Some q).
  { intros p' q. unfold l. rewrite list_elem_of_omap. split.
    - intros ([[k p''] q'] & Hq & Hk). apply elem_of_map_to_list in Hq. cbn in *.
      case_decide; naive_solver.
    - intros Hq. exists (sym, s, p', q). split; [by apply elem_of_map_to_list|].
      cbn. by rewrite decide_True. }
  assert (Hnd : NoDup (l.*1)).
  { unfold l. pose proof (NoDup_fst_map_to_list (BookSpec.queues a)) as Hnd. clear l Hin.
    induction (map_to_list (BookSpec.queues a)) as [|[[k' p'] q'] kqs IH]; cbn; [constructor|].
    apply NoDup_cons in Hnd as [Hk Hnd]. specialize (IH Hnd). case_decide as Hkk; [|done]. cbn.
    apply NoDup_cons. split; [|done].
    intros ([p1 q1] & -> & ([[k1 p2] q2] & Hkq & Hd)%list_elem_of_omap)%list_elem_of_fmap.
    cbn in *. case_decide; simplify_eq. apply Hk. apply list_elem_of_fmap.
    by exists (sym, s, p1, q1). }
  destruct (BookSpec.queues a !! (sym, s, p)) as [q|] eqn:Hq.
  - by apply elem_of_list_to_map_1, Hin.
  - apply not_elem_of_list_to_map_1. intros ([p' q] & -> & Hpq)%list_elem_of_fmap.
    apply Hin in Hpq. cbn in *. congruence.
Qed.

Lemma elem_of_symbols a sym : sym ∈ symbols a ↔ ∃ s p, is_Some (BookSpec.queues a !! (sym, s, p)).
Proof.
  unfold symbols. rewrite elem_of_map. setoid_rewrite elem_of_dom. split.
  - intros ([[sym' s] p] & -> & Hs). eauto.
  - intros (s & p & Hs). by exists (sym, s, p).
Qed.

Lemma ids_of_orders a q :
  BookSpec.wf a → (∀ i, i ∈ q → is_Some (BookSpec.orders a !! i)) → id <$> orders_of a q = q.
Proof.
  intros Ha Hq. induction q as [|i q IH]; [done|]. cbn.
  destruct (Hq i) as [o Ho]; [by left|]. rewrite Ho. cbn.
  rewrite (BookSpec.order_wf_id _ _ _ (BookSpec.wf_orders _ Ha _ _ Ho)). f_equal. apply IH.
  intros j ?. apply Hq. by right.
Qed.
End BookView.

(** * Reading lists of levels in map order *)

Lemma omap_keys {V} (m : gmap Z V) (ks : list Z) (k : Z) :
  omap (λ p, (λ l, (p, l)) <$> m !! p) (k :: ks) =
    match m !! k with
    | Some l => (k, l) :: omap (λ p, (λ l, (p, l)) <$> m !! p) ks
    | None => omap (λ p, (λ l, (p, l)) <$> m !! p) ks
    end.
Proof. cbn. by destruct (m !! k). Qed.

Section in_order.
Context {V W : Type} (m : gmap Z V) (m' : gmap Z W) (s : Side) (Hdom : dom m = dom m').

Lemma same_keys p : is_Some (m !! p) ↔ is_Some (m' !! p).
Proof. by rewrite <-!elem_of_dom, Hdom. Qed.

Lemma mapM_in_order {C} (f : Z * V → outcome C) (g : Z * W → C) :
  (∀ p l q, m !! p = Some l → m' !! p = Some q → f (p, l) = Ret (g (p, q))) →
  mapM f (in_order s m) = Ret (g <$> in_order s m').
Proof.
  intros Hf. unfold in_order. rewrite (sorted_keys_dom _ m m' Hdom).
  induction (sorted_keys _ m') as [|p ks IH]; [done|]. rewrite !omap_keys.
  pose proof (same_keys p) as Hk.
  destruct (m !! p) as [l|] eqn:Hl, (m' !! p) as [q|] eqn:Hq; [| | |done].
  - cbn. rewrite (Hf p l q) by done. cbn. by rewrite IH.
  - by destruct (proj1 Hk ltac:(eauto)).
  - by destruct (proj2 Hk ltac:(eauto)).
Qed.

Lemma foldM_in_order {C} (f : C → Z * V → outcome C) (g : C → Z * W → C) h :
  (∀ h p l q, m !! p = Some l → m' !! p = Some q → f h (p, l) = Ret (g h (p, q))) →
  foldM f (in_order s m) h = Ret (foldl g h (in_order s m')).
Proof.
  intros Hf. unfold in_order. rewrite (sorted_keys_dom _ m m' Hdom). revert h.
  induction (sorted_keys _ m') as [|p ks IH]; intros h; [done|]. rewrite !omap_keys.
  pose proof (same_keys p) as Hk.
  destruct (m !! p) as [l|] eqn:Hl, (m' !! p) as [q|] eqn:Hq; [| | |done].
  - cbn. rewrite (Hf h p l q) by done. cbn. by rewrite IH.
  - by destruct (proj1 Hk ltac:(eauto)).
  - by destruct (proj2 Hk ltac:(eauto)).
Qed.
End in_order.

(** * Queues fit the fuel *)

Lemma length_slots (ss : list Slot) l :
  NoDup l → (∀ j, j ∈ l → is_Some (vget ss j)) → (length l ≤ length ss)%nat.
Proof.
  intros Hnd Hl. rewrite <-(Nat2Z.id (length ss)), <-(length_seqZ 0).
  apply submseteq_length, NoDup_submseteq; [done|]. intros j Hj.
  destruct (Hl j Hj) as [? ?%vget_bounds]. apply elem_of_seqZ. lia.
Qed.

Lemma walk_segment b l p fuel :
  segment (slots_ b) p l INV → INV ∉ l → (length l < fuel)%nat →
  ∃ ss, Forall2 (λ j s, vget (slots_ b) j = Some s) l ss ∧
    walk b fuel (first_or INV l) = Ret (order <$> ss).
Proof.
  revert p fuel. induction l as [|j l IH]; intros p [|fuel] Hseg Hinv Hfuel; cbn in Hfuel; try lia.
  { exists []. split; [constructor|]. cbn. by rewrite decide_True. }
  destruct Hseg as (s & Hs & _ & Hn & Hseg).
  destruct (IH j fuel Hseg) as (ss & Hss & Hw); [set_solver|lia|].
  exists (s :: ss). split; [by constructor|]. cbn. rewrite decide_False by set_solver.
  unfold slot_of. rewrite Hs. cbn. rewrite Hn. rewrite Hw. done.
Qed.

Section queries.
Context (max : Z) (holds_map : FlatOrderIndex.t → gmap Z Z → Prop).
Context `{!IndexContract max holds_map} (Hmax : 0 < max < INV).
Context (b : OrderBook.t) (a : BookSpec.t) (ids : gmap Z Z) (free : list Z).
Context (Hr : rep max holds_map b a ids free) (Ha : BookSpec.wf a).

Lemma level_orders_spec lvl l q :
  fifo (slots_ b) lvl l → slots_of ids q l → level_orders b lvl = Ret (BookView.orders_of a q).
Proof.
  intros [Hh _ Hseg Hnd Hinv] Hql. unfold level_orders. rewrite Hh.
  destruct (walk_segment b l INV (S (length (slots_ b)))) as (ss & Hss & ->); [done|done| |].
  { apply Nat.lt_succ_r, length_slots; [done|]. intros j Hj.
    destruct (segment_lookup _ _ _ _ _ Hseg Hj); eauto. }
  f_equal. clear -Hr Hss Hql. revert q Hql. induction Hss as [|j s l ss Hs Hss IH]; intros q Hql.
  { by inversion Hql. }
  inversion Hql as [|i ? q' ? Hi Hq']; subst. cbn.
  assert (Ho : BookSpec.orders a !! i = Some (order s)).
  { destruct (arena_ids _ _ _ _ _ (rep_arena _ _ _ _ _ _ Hr) _ _ Hi) as (o & n & Hd & _).
    apply (arena_lookup _ _ _ _ _ (rep_arena _ _ _ _ _ _ Hr)). exists j, n.
    split; [done|]. unfold view in *. rewrite Hs in *. cbn in *. unfold slot_data in *. congruence. }
  rewrite Ho. by rewrite (IH q' Hq').
Qed.

Lemma level_of_queue k :
  match BookSpec.queues a !! k with
  | None => lookup_level (books_ b) k = None
  | Some q => ∃ lvl, lookup_level (books_ b) k = Some lvl ∧
      total_quantity lvl = BookSpec.total (BookSpec.orders a) q ∧
      level_orders b lvl = Ret (BookView.orders_of a q)
  end.
Proof.
  pose proof (rep_levels _ _ _ _ _ _ Hr k) as Hl.
  destruct (BookSpec.queues a !! k) as [q|]; cbn in Hl; [|done].
  destruct Hl as (lvl & l & Hl & Hql & Hf & Ht). exists lvl. split_and!; [done|done|].
  by eapply level_orders_spec.
Qed.

(** The level map of a symbol and side has the keys of the queues. *)
Lemma dom_levels sym sb s :
  books_ b !! sym = Some sb → dom (side_levels s sb) = dom (BookView.levels_of a sym s).
Proof.
  intros Hsb. apply set_eq. intros p. rewrite !elem_of_dom, BookView.lookup_levels_of.
  pose proof (level_of_queue (sym, s, p)) as Hl. unfold lookup_level in Hl. cbn in Hl.
  rewrite Hsb in Hl. cbn in Hl.
  destruct (BookSpec.queues a !! (sym, s, p)) as [q|].
  - destruct Hl as (lvl & -> & _). split; eauto.
  - rewrite Hl. by split; intros [? ?].
Qed.
Lemma levels_of_no_book sym s : books_ b !! sym = None → BookView.levels_of a sym s = ∅.
Proof.
  intros Hsb. apply map_empty. intros p. rewrite BookView.lookup_levels_of.
  pose proof (level_of_queue (sym, s, p)) as Hl. unfold lookup_level in Hl. cbn in Hl.
  rewrite Hsb in Hl. cbn in Hl. destruct (BookSpec.queues a !! _); [|done]. by destruct Hl as (? & ? & _).
Qed.

Lemma dom_books : dom (books_ b) = BookView.symbols a.
Proof.
  apply set_eq. intros sym. rewrite elem_of_dom, BookView.elem_of_symbols. split.
  - intros [sb Hsb]. pose proof (rep_nonempty _ _ _ _ _ _ Hr _ _ Hsb) as He.
    apply bool_decide_eq_false in He.
    assert (∃ s, side_levels s sb ≠ ∅) as (s & Hs).
    { destruct (decide (bids sb = ∅)); [exists Sell|by exists Buy]. cbn. tauto. }
    apply map_choose in Hs as (p & lvl & Hp). exists s, p.
    rewrite <-BookView.lookup_levels_of, <-elem_of_dom, <-(dom_levels sym sb s Hsb).
    by apply elem_of_dom.
  - intros (s & p & Hq). destruct (books_ b !! sym) eqn:Hsb; [eauto|].
    apply (levels_of_no_book _ s) in Hsb. rewrite <-BookView.lookup_levels_of, Hsb, lookup_empty in Hq.
    by destruct Hq.
Qed.

Lemma find_spec i : find b i = Ret (BookSpec.orders a !! i).
Proof.
  unfold find. rewrite (contract_find (max:=max) _ _ i (rep_index _ _ _ _ _ _ Hr)). cbn.
  pose proof (rep_arena _ _ _ _ _ _ Hr) as Har.
  destruct (ids !! i) as [j|] eqn:Hj.
  - destruct (arena_ids _ _ _ _ _ Har _ _ Hj) as (o & n & Hd & _).
    rewrite (proj2 (arena_lookup _ _ _ _ _ Har i o)) by eauto.
    apply view_Some in Hd as (s & Hs & Hd). unfold slot_of. rewrite Hs. cbn.
    unfold slot_data in Hd. congruence.
  - by rewrite (proj2 (arena_None _ _ _ _ _ Har i)).
Qed.

Lemma live_order_count_spec : live_order_count b = Z.of_nat (size (BookSpec.orders a)).
Proof.
  unfold live_order_count. rewrite (contract_size (max:=max) _ _ (rep_index _ _ _ _ _ _ Hr)).
  by rewrite (rep_size max holds_map Hmax b a ids free Hr).
Qed.

Lemma best_spec s sym : best s b sym = BookView.best s a sym.
Proof.
  unfold best, BookView.best, first_key. destruct (books_ b !! sym) as [sb|] eqn:Hsb.
  - by rewrite (sorted_keys_dom _ _ _ (dom_levels sym sb s Hsb)).
  - by rewrite (levels_of_no_book _ s Hsb).
Qed.

Lemma side_level sym sb s p l q :
  books_ b !! sym = Some sb → side_levels s sb !! p = Some l →
  BookView.levels_of a sym s !! p = Some q →
  total_quantity l = BookSpec.total (BookSpec.orders a) q ∧
  level_orders b l = Ret (BookView.orders_of a q).
Proof.
  intros Hsb Hl Hq. rewrite BookView.lookup_levels_of in Hq.
  pose proof (level_of_queue (sym, s, p)) as Hlk. rewrite Hq in Hlk.
  destruct Hlk as (lvl & Hlk & Ht & Ho). unfold lookup_level in Hlk. cbn in Hlk.
  rewrite Hsb in Hlk. cbn in Hlk. by simplify_eq.
Qed.

Lemma levels_spec s sym : levels s b sym = Ret (BookView.levels s a sym).
Proof.
  unfold levels, BookView.levels. destruct (books_ b !! sym) as [sb|] eqn:Hsb.
  - apply (mapM_in_order _ _ s (dom_levels sym sb s Hsb)). intros p l q Hl Hq.
    destruct (side_level sym sb s p l q Hsb Hl Hq) as [-> ->]. cbn. f_equal. f_equal.
    apply BookView.ids_of_orders; [done|]. intros i Hi.
    rewrite BookView.lookup_levels_of in Hq.
    destruct (BookSpec.queue_wf_live _ _ _ (BookSpec.wf_queues _ Ha _ _ Hq) i Hi) as (? & ? & _). eauto.
  - by rewrite (levels_of_no_book _ s Hsb).
Qed.

Lemma hash_levels_spec sym sb s h :
  books_ b !! sym = Some sb →
  hash_levels b s (side_levels s sb) h = Ret (BookView.hash_side a sym s h).
Proof.
  intros Hsb. unfold hash_levels, BookView.hash_side.
  pose proof (dom_levels sym sb s Hsb) as Hdom.
  rewrite <-(size_dom (side_levels s sb)), <-(size_dom (BookView.levels_of _ _ _)), Hdom.
  apply (foldM_in_order _ _ s Hdom). intros h' p l q Hl Hq.
  destruct (side_level sym sb s p l q Hsb Hl Hq) as [Ht Ho].
  unfold hash_level. by rewrite Ht, Ho.
Qed.

Lemma state_hash_spec cs : state_hash cs b = Ret (BookView.state_hash cs a).
Proof.
  unfold state_hash, BookView.state_hash, sorted_keys.
  rewrite <-(size_dom (books_ b)). rewrite dom_books.
  assert (Hin : ∀ sym, sym ∈ merge_sort (symbol_le cs) (elements (BookView.symbols a)) →
    is_Some (books_ b !! sym)).
  { intros sym. rewrite merge_sort_Permutation, elem_of_elements, <-dom_books. by rewrite elem_of_dom. }
  revert Hin. generalize (hash_mix 0xcbf29ce484222325 (Z.of_nat (size (BookView.symbols a)))).
  induction (merge_sort _ _) as [|sym syms IH]; intros h Hin; [done|].
  cbn [foldM foldl]. destruct (Hin sym) as [sb Hsb]; [by left|]. rewrite Hsb.
  rewrite (hash_levels_spec sym sb Buy _ Hsb). cbn [mbind outcome_bind].
  rewrite (hash_levels_spec sym sb Sell _ Hsb). cbn [mbind outcome_bind].
  apply IH. intros sym' ?. apply Hin. by right.
Qed.
End queries.
