(* ===== verification/BookTheorems.v ===== *)
(** The order book as its clients see it: theorems about feeds of events applied to a new book,
    and about every reachable book.  The proofs combine [BookRefinement] and [BookQueries] with
    the real index ([index_contract]). *)
From S2P Require Import Prelude Types FlatOrderIndex BookSpec OrderBook BookInvariant.
From S2P Require Import BookRefinement BookQueries.
Import OrderBook.

(** * Feeds *)

(** The calls [book.apply(event)] of a feed, with their results. *)
Fixpoint run (events : list MarketEvent) : M OrderBook.t (list bool) :=
  match events with
  | [] => mret []
  | e :: events => ok ← apply e; oks ← run events; mret (ok :: oks)
  end.

Fixpoint spec_run (capacity : Z) (events : list MarketEvent) (a : BookSpec.t)
    : list bool * BookSpec.t :=
  match events with
  | [] => ([], a)
  | e :: events =>
      let '(ok, a') := BookSpec.apply capacity e a in
      let '(oks, a'') := spec_run capacity events a' in
      (ok :: oks, a'')
  end.

(** The capacities the constructor accepts. *)
Definition capacity_ok (max : Z) : Prop := 0 < max < kInvalidSlot.
Existing Class capacity_ok.
#[export] Instance capacity_ok_dec max : Decision (capacity_ok max).
Proof. unfold capacity_ok. apply _. Defined.

Inductive reachable (max : Z) : OrderBook.t → Prop :=
| reachable_new b : new max = Ret b → reachable max b
| reachable_apply b b' e ok :
    reachable max b → event_ok e → apply e b = (Ret ok, b') → reachable max b'.

(** What a client can see. *)
Record same_view (b b' : OrderBook.t) : Prop := {
  same_find i : find b i = find b' i;
  same_levels s sym : levels s b sym = levels s b' sym;
  same_best s sym : best s b sym = best s b' sym;
  same_count : live_order_count b = live_order_count b';
  same_hash cs : state_hash cs b = state_hash cs b'
}.

(** * Representation with the real index *)

Record represents (max : Z) (b : OrderBook.t) (a : BookSpec.t) : Prop := {
  represents_wf : BookSpec.wf a;
  represents_positive : BookSpec.positive a;
  represents_rep : ∃ ids free, rep max (index_holds max) b a ids free
}.

#[export] Instance capacity_contract max : capacity_ok max → IndexContract max (index_holds max).
Proof. intros [? ?]. apply index_contract. unfold kInvalidSlot in *. lia. Qed.

Section represented.
Context (max : Z) (Hmax : capacity_ok max).

Lemma represents_new : ∃ b, new max = Ret b ∧ represents max b BookSpec.empty.
Proof.
  destruct (new_spec max (index_holds max) Hmax) as (b & Hb & Hr).
  exists b. split; [done|]. split; [apply BookSpec.empty_wf| |done].
  intros i o. cbn. by rewrite lookup_empty.
Qed.

Lemma represents_apply b a e :
  represents max b a → event_ok e →
  ∃ b', apply e b = (Ret (BookSpec.apply max e a).1, b') ∧
    represents max b' (BookSpec.apply max e a).2.
Proof.
  intros [Ha Hp (ids & free & Hr)] He.
  pose proof (apply_spec max (index_holds max) Hmax b a ids free e Hr Ha He)
    as (ok & b' & Heq & -> & Hr')%wp_exact.
  exists b'. split; [done|]. split; [by apply BookSpec.apply_wf|by apply BookSpec.apply_positive|done].
Qed.

Lemma represents_run events b a :
  represents max b a → Forall event_ok events →
  ∃ b', run events b = (Ret (spec_run max events a).1, b') ∧
    represents max b' (spec_run max events a).2.
Proof.
  intros Hr Hev. revert b a Hr. induction Hev as [|e events He Hev IH]; intros b a Hr; [by eauto|].
  destruct (represents_apply b a e Hr He) as (b1 & H1 & Hr1). cbn.
  destruct (BookSpec.apply max e a) as [ok a1]. cbn in *.
  destruct (IH b1 a1 Hr1) as (b2 & H2 & Hr2).
  destruct (spec_run max events a1) as [oks a2]. cbn in *.
  exists b2. split; [|done]. unfold mbind, M_bind. by rewrite H1, H2.
Qed.

Lemma reachable_represents b : reachable max b → ∃ a, represents max b a.
Proof.
  induction 1 as [b Hb|b b' e ok _ [a Hr] He Happly].
  - destruct represents_new as (b' & Hb' & Hr).
    assert (b' = b) as -> by congruence. by exists BookSpec.empty.
  - destruct (represents_apply b a e Hr He) as (b1 & H1 & Hr1).
    assert (b1 = b') as -> by congruence. eauto.
Qed.

Context (b : OrderBook.t) (a : BookSpec.t) (Hrep : represents max b a).

Lemma represents_find i : find b i = Ret (BookSpec.orders a !! i).
Proof. destruct Hrep as [Ha _ (? & ? & Hr)]. by apply (find_spec max (index_holds max) b a _ _ Hr). Qed.
Lemma represents_count : live_order_count b = Z.of_nat (size (BookSpec.orders a)).
Proof. destruct Hrep as [Ha _ (? & ? & Hr)]. by apply (live_order_count_spec max (index_holds max) Hmax b a _ _ Hr). Qed.
Lemma represents_best s sym : best s b sym = BookView.best s a sym.
Proof. destruct Hrep as [Ha _ (? & ? & Hr)]. by apply (best_spec _ _ _ _ _ _ Hr). Qed.
Lemma represents_levels s sym : levels s b sym = Ret (BookView.levels s a sym).
Proof. destruct Hrep as [Ha _ (? & ? & Hr)]. by apply (levels_spec _ _ _ _ _ _ Hr Ha). Qed.
Lemma represents_hash cs : state_hash cs b = Ret (BookView.state_hash cs a).
Proof. destruct Hrep as [Ha _ (? & ? & Hr)]. by apply (state_hash_spec _ _ Hmax _ _ _ _ Hr). Qed.
Lemma represents_max : max_orders b = max.
Proof. destruct Hrep as [Ha _ (? & ? & Hr)]. apply Hr. Qed.
Lemma represents_size : Z.of_nat (size (BookSpec.orders a)) ≤ max.
Proof.
  destruct Hrep as [Ha _ (ids & free & Hr)]. pose proof (rep_count _ _ _ _ _ _ Hr).
  rewrite (rep_size _ _ Hmax _ _ _ _ Hr). lia.
Qed.
End represented.

(** * Feeds from a new book *)

(** C2: a book built for [max] orders and driven by any feed of well-typed events behaves as the
    specification: every call returns (nothing is thrown, no slot, map or iterator access is out
    of range, every loop ends) and gives the specification's result, and afterwards every lookup,
    best price, snapshot, count and hash is the specification's. *)
Theorem book_refines_spec max events :
  capacity_ok max → Forall event_ok events →
  let a := (spec_run max events BookSpec.empty).2 in
  ∃ b b', new max = Ret b ∧
    run events b = (Ret (spec_run max events BookSpec.empty).1, b') ∧ max_orders b' = max ∧
    live_order_count b' = Z.of_nat (size (BookSpec.orders a)) ∧
    (∀ i, find b' i = Ret (BookSpec.orders a !! i)) ∧
    (∀ s sym, best s b' sym = BookView.best s a sym) ∧
    (∀ s sym, levels s b' sym = Ret (BookView.levels s a sym)) ∧
    (∀ cs, state_hash cs b' = Ret (BookView.state_hash cs a)).
Proof.
  intros Hmax Hev. destruct (represents_new max Hmax) as (b & Hb & Hr).
  destruct (represents_run max Hmax events b _ Hr Hev) as (b' & Hrun & Hr').
  exists b, b'. split_and!; try done.
  - by eapply represents_max.
  - by apply (represents_count max Hmax).
  - by apply (represents_find max Hmax).
  - by apply (represents_best max).
  - by apply (represents_levels max).
  - by apply (represents_hash max Hmax).
Qed.

(** A short feed: two orders at one price, a partial execution, a refused duplicate, a
    replacement that joins the other side of the queue, a refused cancellation. *)
Definition example_symbol : Symbol.t :=
  Symbol.from_string (String.list_byte_of_string "ACME").
Definition example_meta : EventMeta := mkMeta 1 0 0.
Definition example_order (i q p : Z) : Order := mkOrder i example_symbol Buy q p.
Definition example_feed : list MarketEvent :=
  [ Add (mkAdd example_meta (example_order 1 100 5000));
    Add (mkAdd example_meta (example_order 2 50 5000));
    Execute (mkExecute example_meta 1 40 9 false 0 true);
    Add (mkAdd example_meta (example_order 1 10 5100));
    Replace (mkReplace example_meta 1 3 70 5000);
    Cancel (mkCancel example_meta 2 51);
    Replace (mkReplace example_meta 3 4 30 5200) ].

Lemma capacity_2 : capacity_ok 2.
Proof. unfold capacity_ok, kInvalidSlot. lia. Qed.
Lemma example_feed_ok : Forall event_ok example_feed.
Proof.
  repeat constructor; unfold event_ok, order_ok, u64_max, u32_max; cbn; lia.
Qed.

Lemma book_refines_spec_witness :
  ∃ b b', new 2 = Ret b ∧
    run example_feed b = (Ret [true; true; true; false; true; false; true], b') ∧
    levels Buy b' example_symbol = Ret [mkSnapshot 5200 30 [4]; mkSnapshot 5000 50 [2]] ∧
    best_bid b' example_symbol = Some 5200 ∧ live_order_count b' = 2.
Proof.
  pose proof (book_refines_spec 2 example_feed capacity_2 example_feed_ok)
    as (b & b' & Hb & Hrun & _ & Hcount & _ & Hbest & Hlevels & _).
  exists b, b'. split; [exact Hb|]. unfold best_bid. rewrite Hrun, Hlevels, Hcount, Hbest.
  split_and!; vm_compute; reflexivity.
Defined.

(** * Every reachable book *)

Lemma spec_rejected capacity e a :
  (BookSpec.apply capacity e a).1 = false → (BookSpec.apply capacity e a).2 = a.
Proof.
  destruct e as [e|e|e|e|e]; cbn.
  - unfold BookSpec.add. case_decide; [done|]. by destruct (BookSpec.fits _ _).
  - unfold BookSpec.reduce. destruct (BookSpec.orders a !! _); [|done]. by repeat case_decide.
  - unfold BookSpec.reduce. destruct (BookSpec.orders a !! _); [|done]. by repeat case_decide.
  - unfold BookSpec.remove. intros Hn%bool_decide_eq_false.
    by destruct (BookSpec.orders a !! _); [destruct Hn; eauto|].
  - unfold BookSpec.replace. destruct (BookSpec.orders a !! _); [|done]. case_decide; [done|].
    by destruct (BookSpec.fits _ _).
Qed.

Lemma represents_same_view max b b' a :
  capacity_ok max → represents max b a → represents max b' a → same_view b b'.
Proof.
  intros Hmax Hr Hr'. split; intros.
  - by rewrite !(represents_find max Hmax _ a).
  - by rewrite !(represents_levels max _ a).
  - by rewrite !(represents_best max _ a).
  - by rewrite !(represents_count max Hmax _ a).
  - by rewrite !(represents_hash max Hmax _ a).
Qed.

(** C23: an event that is refused changes nothing a client can see: a level created for an order
    that does not fit, a slot taken and an index entry made are all undone. *)
Theorem rejected_event_changes_nothing max b e b' :
  capacity_ok max → reachable max b → event_ok e → apply e b = (Ret false, b') → same_view b b'.
Proof.
  intros Hmax Hb He Happly. destruct (reachable_represents max Hmax b Hb) as [a Hr].
  destruct (represents_apply max Hmax b a e Hr He) as (b1 & H1 & Hr1).
  rewrite Happly in H1. injection H1 as Hok <-.
  rewrite spec_rejected in Hr1 by done. by eapply represents_same_view.
Qed.

(** The aggregate of a level would pass 2^32-1. *)
Definition overflow_feed : list MarketEvent :=
  [Add (mkAdd example_meta (example_order 1 4294967295 5000))].
Definition overflow_event : MarketEvent := Add (mkAdd example_meta (example_order 2 1 5000)).
Definition reject_after (max : Z) (events : list MarketEvent) (e : MarketEvent)
    : OrderBook.t * OrderBook.t :=
  match new max with
  | Ret b => let b' := (run events b).2 in (b', (apply e b').2)
  | _ => let b := OrderBook.mk [] 0 (FlatOrderIndex.mk [] 0 0) ∅ in (b, b)
  end.

Lemma reachable_run max events b b' oks :
  reachable max b → Forall event_ok events → run events b = (Ret oks, b') → reachable max b'.
Proof.
  intros Hb Hev. revert b oks Hb. induction Hev as [|e events He Hev IH]; intros b oks Hb; cbn.
  - by intros [= _ <-].
  - unfold mbind, M_bind. destruct (apply e b) as [[ok|?|?|] b1] eqn:H1; try done.
    destruct (run events b1) as [[oks'|?|?|] b2] eqn:H2; try done. intros [= _ <-].
    eapply (IH b1); [by eapply reachable_apply|done].
Qed.

Lemma rejected_event_changes_nothing_witness :
  let '(b, b') := reject_after 4 overflow_feed overflow_event in
  (apply overflow_event b).1 = Ret false ∧ same_view b b'.
Proof.
  assert (Hb : reachable 4 (reject_after 4 overflow_feed overflow_event).1).
  { eapply (reachable_run 4 overflow_feed); [by apply reachable_new|..|by vm_compute].
    repeat constructor; unfold event_ok, order_ok, u64_max, u32_max; cbn; lia. }
  split; [by vm_compute|].
  apply (rejected_event_changes_nothing 4 _ overflow_event); [by vm_compute|exact Hb| |by vm_compute].
  unfold event_ok, order_ok, u64_max, u32_max; cbn; lia.
Defined.

(** ** Levels *)

Definition queue_at (b : OrderBook.t) (k : BookSpec.level_key) : outcome (list Z) :=
  snaps ← levels k.1.2 b k.1.1;
  Ret (default [] (fifo_order_ids <$> head (filter (λ sn, snapshot_price sn = k.2) snaps))).

Lemma head_filter_levels (m : gmap Z (list Z)) (f : list Z → Z) ks p :
  (is_Some (m !! p) → p ∈ ks) →
  head (filter (λ sn, snapshot_price sn = p)
    ((λ '(p, q), mkSnapshot p (f q) q) <$> omap (λ p, (λ q, (p, q)) <$> m !! p) ks)) =
  (λ q, mkSnapshot p (f q) q) <$> m !! p.
Proof.
  induction ks as [|k ks IH]; intros Hp.
  - destruct (m !! p) eqn:E; [|done]. apply not_elem_of_nil in Hp; [done|eauto].
  - rewrite omap_keys. destruct (decide (k = p)) as [->|Hkp].
    + destruct (m !! p) as [q|] eqn:E; [by rewrite fmap_cons, filter_cons_True|]. rewrite IH; [done|].
      by intros [? ?].
    + destruct (m !! k) as [q|] eqn:E; [rewrite fmap_cons, filter_cons_False by done|];
        apply IH; intros Hs; apply Hp in Hs; set_solver.
Qed.

Lemma represents_queue max b a k :
  represents max b a → queue_at b k = Ret (BookSpec.queue a k).
Proof.
  intros Hr. unfold queue_at. rewrite (represents_levels max b a Hr). cbn [mbind outcome_bind].
  unfold BookView.levels, in_order. f_equal. rewrite head_filter_levels.
  - rewrite BookView.lookup_levels_of. destruct k as [[sym s] p]. cbn. unfold BookSpec.queue.
    by destruct (BookSpec.queues a !! _).
  - intros Hs. by apply elem_of_sorted_keys.
Qed.

Lemma elem_of_levels s a sym sn :
  sn ∈ BookView.levels s a sym ↔
  ∃ p q, BookSpec.queues a !! (sym, s, p) = Some q ∧
    sn = mkSnapshot p (BookSpec.total (BookSpec.orders a) q) q.
Proof.
  unfold BookView.levels, in_order. rewrite list_elem_of_fmap.
  setoid_rewrite list_elem_of_omap. split.
  - intros ([p q] & -> & p' & _ & (q' & Hq & [= <- <-])%fmap_Some).
    exists p, q. by rewrite <-BookView.lookup_levels_of.
  - intros (p & q & Hq & ->). rewrite <-BookView.lookup_levels_of in Hq.
    exists (p, q). split; [done|]. exists p. split; [by apply elem_of_sorted_keys|].
    by rewrite Hq.
Qed.

#[export] Instance level_order_trans s : Transitive (level_order s).
Proof. destruct s; intros x y z; unfold level_order; lia. Qed.
#[export] Instance level_order_total s : Total (level_order s).
Proof. destruct s; intros x y; unfold level_order; lia. Qed.

Lemma levels_prices s a sym :
  snapshot_price <$> BookView.levels s a sym =
    sorted_keys (level_order s) (BookView.levels_of a sym s).
Proof.
  unfold BookView.levels, in_order. set (m := BookView.levels_of a sym s).
  assert (Hks : ∀ p, p ∈ sorted_keys (level_order s) m → is_Some (m !! p)).
  { intros p. apply elem_of_sorted_keys. }
  induction (sorted_keys (level_order s) m) as [|p ks IH]; [done|]. rewrite omap_keys.
  destruct (Hks p) as [q ->]; [by left|]. cbn. f_equal. apply IH. intros p' ?. apply Hks. by right.
Qed.

Definition quantities (b : OrderBook.t) (q : list Z) : outcome Z :=
  foldM (λ acc i, o ← find b i; Ret (acc + from_option quantity 0 o)) q 0.

Lemma quantities_total max b a q :
  capacity_ok max → represents max b a →
  quantities b q = Ret (BookSpec.total (BookSpec.orders a) q).
Proof.
  intros Hmax Hr. unfold quantities.
  assert (∀ acc, foldM (λ acc i, o ← find b i; Ret (acc + from_option quantity 0 o)) q acc =
    Ret (acc + BookSpec.total (BookSpec.orders a) q)) as ->; [|done].
  induction q as [|i q IH]; intros acc; cbn [foldM BookSpec.total]; [by rewrite Z.add_0_r|].
  rewrite (represents_find max Hmax b a Hr). cbn [mbind outcome_bind]. rewrite IH. f_equal.
  unfold BookSpec.qty. destruct (BookSpec.orders a !! i); cbn; lia.
Qed.

(** A snapshot of one side is right: the best level first, each price once; a level lists, once
    each, the ids of live orders of that symbol, side and price; its total is the sum of their
    quantities, positive and within 32 bits; and every live order is listed at its price. *)
Record snapshots_ok (b : OrderBook.t) (s : Side) (sym : Symbol.t) (snaps : list LevelSnapshot)
    : Prop := {
  snapshots_sorted : StronglySorted (level_order s) (snapshot_price <$> snaps);
  snapshots_once : NoDup (snapshot_price <$> snaps);
  snapshots_level sn : sn ∈ snaps →
    fifo_order_ids sn ≠ [] ∧ NoDup (fifo_order_ids sn) ∧
    (∀ i, i ∈ fifo_order_ids sn → ∃ o, find b i = Ret (Some o) ∧ id o = i ∧
       symbol o = sym ∧ side o = s ∧ price o = snapshot_price sn ∧ 0 < quantity o) ∧
    quantities b (fifo_order_ids sn) = Ret (snapshot_total sn) ∧ 0 < snapshot_total sn ≤ u32_max;
  snapshots_complete i o : find b i = Ret (Some o) → symbol o = sym → side o = s →
    ∃ sn, sn ∈ snaps ∧ snapshot_price sn = price o ∧ i ∈ fifo_order_ids sn
}.

(** C3: in every reachable book the snapshots of both sides are right: best level first, queues
    of live orders without repetition, totals equal to the sum of the quantities and within
    32 bits, no order or level left out. *)
Theorem levels_are_sound max b s sym :
  capacity_ok max → reachable max b → ∃ snaps, levels s b sym = Ret snaps ∧ snapshots_ok b s sym snaps.
Proof.
  intros Hmax Hb. destruct (reachable_represents max Hmax b Hb) as [a Hr].
  pose proof (represents_wf _ _ _ Hr) as Ha. pose proof (represents_positive _ _ _ Hr) as Hpos.
  exists (BookView.levels s a sym). split; [by apply (represents_levels max)|]. split.
  - rewrite levels_prices. apply StronglySorted_sorted_keys; apply _.
  - rewrite levels_prices. apply NoDup_sorted_keys.
  - intros sn (p & q & Hq & ->)%elem_of_levels. cbn.
    destruct (BookSpec.wf_queues _ Ha _ _ Hq) as [Hne Hnd Hlive Htot].
    assert (Htotal : 0 < BookSpec.total (BookSpec.orders a) q).
    { destruct q as [|i q]; [done|]. cbn. destruct (Hlive i) as (o & Ho & _); [by left|].
      pose proof (Hpos _ _ Ho). rewrite (BookSpec.qty_Some _ _ _ Ho).
      pose proof (BookSpec.total_nonneg _ Ha q). lia. }
    split_and!; try done; [|by apply (quantities_total max)].
    intros i Hi. destruct (Hlive i Hi) as (o & Ho & Hk). exists o.
    rewrite (represents_find max Hmax b a Hr), Ho. unfold BookSpec.key_of in Hk. simplify_eq.
    split_and!; try done; [apply (BookSpec.wf_orders _ Ha _ _ Ho)|by eapply Hpos].
  - intros i o Hi <- <-. rewrite (represents_find max Hmax b a Hr) in Hi. injection Hi as Ho.
    pose proof (BookSpec.order_wf_queued _ _ _ (BookSpec.wf_orders _ Ha _ _ Ho)) as Hin.
    unfold BookSpec.queue in Hin.
    destruct (BookSpec.queues a !! BookSpec.key_of o) as [q|] eqn:Hq; cbn in Hin; [|set_solver].
    exists (mkSnapshot (price o) (BookSpec.total (BookSpec.orders a) q) q). split; [|done].
    apply elem_of_levels. by exists (price o), q.
Qed.

Definition book_after (max : Z) (events : list MarketEvent) : OrderBook.t :=
  (reject_after max events (Delete (mkDelete example_meta 0))).1.

Lemma reachable_book_after max events :
  capacity_ok max → Forall event_ok events → reachable max (book_after max events).
Proof.
  intros Hmax Hev. unfold book_after, reject_after.
  destruct (represents_new max Hmax) as (b & Hb & Hr). rewrite Hb. cbn.
  destruct (represents_run max Hmax events b _ Hr Hev) as (b' & Hrun & _).
  eapply (reachable_run max events b); [by apply reachable_new|done|]. by rewrite Hrun.
Qed.

Lemma levels_are_sound_witness :
  capacity_ok 2 ∧ ∃ snaps, levels Buy (book_after 2 example_feed) example_symbol = Ret snaps ∧
    snapshots_ok (book_after 2 example_feed) Buy example_symbol snaps.
Proof.
  split; [exact capacity_2|].
  apply (levels_are_sound 2); [exact capacity_2|].
  apply reachable_book_after; [exact capacity_2|exact example_feed_ok].
Defined.

(** C26: the best bid is the highest and the best ask the lowest price of a live order of that
    symbol and side; there is none exactly when no such order is live. *)
Theorem best_price_is_extreme max b s sym :
  capacity_ok max → reachable max b →
  let candidate p := ∃ i o, find b i = Ret (Some o) ∧ symbol o = sym ∧ side o = s ∧ price o = p in
  match best s b sym with
  | Some p => candidate p ∧ ∀ p', candidate p' → level_order s p p'
  | None => ∀ p, ¬ candidate p
  end.
Proof.
  intros Hmax Hb candidate. destruct (reachable_represents max Hmax b Hb) as [a Hr].
  pose proof (represents_wf _ _ _ Hr) as Ha.
  assert (Hcand : ∀ p, candidate p ↔ is_Some (BookView.levels_of a sym s !! p)).
  { intros p. rewrite BookView.lookup_levels_of. unfold candidate.
    setoid_rewrite (represents_find max Hmax b a Hr). split.
    - intros (i & o & [= Ho] & <- & <- & <-).
      pose proof (BookSpec.order_wf_queued _ _ _ (BookSpec.wf_orders _ Ha _ _ Ho)) as Hin.
      unfold BookSpec.queue in Hin. change (symbol o, side o, price o) with (BookSpec.key_of o).
      destruct (BookSpec.queues a !! BookSpec.key_of o); [eauto|]. cbn in Hin. set_solver.
    - intros [q Hq]. destruct (BookSpec.wf_queues _ Ha _ _ Hq) as [Hne _ Hlive _].
      destruct q as [|i q]; [done|]. destruct (Hlive i) as (o & Ho & Hk); [by left|].
      exists i, o. unfold BookSpec.key_of in Hk. simplify_eq. by rewrite Ho. }
  rewrite (represents_best max b a Hr). unfold BookView.best.
  destruct (first_key _ _) as [p|] eqn:Hp.
  - apply first_key_Some in Hp as [Hp Hmin]; [|apply _..]. split; [by apply Hcand|].
    intros p' Hp'%Hcand. destruct (decide (p' = p)) as [->|]; [|by apply Hmin].
    destruct s; unfold level_order; lia.
  - apply first_key_None in Hp. intros p [l Hl]%Hcand. by rewrite Hp, lookup_empty in Hl.
Qed.

Lemma best_price_is_extreme_witness :
  best Buy (book_after 2 example_feed) example_symbol = Some 5200 ∧
  ∃ i o, find (book_after 2 example_feed) i = Ret (Some o) ∧ symbol o = example_symbol ∧
    side o = Buy ∧ price o = 5200.
Proof.
  pose proof (best_price_is_extreme 2 (book_after 2 example_feed) Buy example_symbol capacity_2
    (reachable_book_after 2 example_feed capacity_2 example_feed_ok)) as Hx.
  assert (Hbest : best Buy (book_after 2 example_feed) example_symbol = Some 5200).
  { vm_compute. reflexivity. }
  split; [exact Hbest|]. cbv zeta in Hx. rewrite Hbest in Hx. exact (proj1 Hx).
Defined.

(** ** Time priority *)

(** The order an accepted event adds to the book, given the orders before. *)
Definition joins (lookup_order : Z → option Order) (e : MarketEvent) : option Order :=
  match e with
  | Add e => Some (add_order e)
  | Replace e => (λ o, replacement e o (new_price e)) <$> lookup_order (old_order_id e)
  | _ => None
  end.
Definition order_in (b : OrderBook.t) (i : Z) : option Order :=
  match find b i with Ret o => o | _ => None end.

(** The ids of [q] that are still live in [b], in order, then the newcomer of level [k]. *)
Definition queue_after (b : OrderBook.t) (k : BookSpec.level_key) (newcomer : option Order)
    (q : list Z) : list Z :=
  filter (λ i, is_Some (order_in b i)) q ++
    match newcomer with
    | Some o => if decide (BookSpec.key_of o = k) then [id o] else []
    | None => []
    end.

Lemma queue_push a k o :
  BookSpec.queue (BookSpec.push o a) k =
    BookSpec.queue a k ++ (if decide (BookSpec.key_of o = k) then [id o] else []).
Proof.
  unfold BookSpec.push. rewrite BookSpec.queue_set_queue. case_decide; subst; [done|].
  by rewrite app_nil_r.
Qed.

Section queues.
Context (max : Z) (a : BookSpec.t) (Ha : BookSpec.wf a).
Implicit Types (k : BookSpec.level_key) (o : Order).

Abbreviation live os := (λ i : Z, is_Some ((os : gmap Z Order) !! i)).

Lemma live_in_queue k os :
  (∀ i, is_Some (BookSpec.orders a !! i) → is_Some (os !! i)) →
  filter (live os) (BookSpec.queue a k) = BookSpec.queue a k.
Proof. intros Hos. apply filter_all. intros i (o & Ho & _)%BookSpec.queue_elem; eauto. Qed.

Lemma queue_remove_live k i :
  BookSpec.queue (BookSpec.remove i a) k =
    filter (live (BookSpec.orders (BookSpec.remove i a))) (BookSpec.queue a k).
Proof.
  destruct (BookSpec.orders a !! i) as [o|] eqn:Ho.
  2: { unfold BookSpec.remove. rewrite Ho. symmetry. by apply live_in_queue. }
  rewrite (BookSpec.queue_remove _ _ o) by done.
  assert (Hlive : ∀ j, live (BookSpec.orders (BookSpec.remove i a)) j ↔
    j ≠ i ∧ live (BookSpec.orders a) j).
  { intros j. unfold BookSpec.remove. rewrite Ho. cbn. rewrite lookup_delete_is_Some. naive_solver. }
  case_decide as Hk.
  - apply filter_ext_in. intros j (o' & Ho' & _)%BookSpec.queue_elem; [|done].
    rewrite Hlive. naive_solver.
  - symmetry. apply filter_all. intros j (o' & Ho' & Hk')%BookSpec.queue_elem; [|done].
    apply Hlive. split; [|eauto]. intros ->. congruence.
Qed.

Lemma apply_queues e k :
  (BookSpec.apply max e a).1 = true →
  let a' := (BookSpec.apply max e a).2 in
  BookSpec.queue a' k = filter (live (BookSpec.orders a')) (BookSpec.queue a k) ++
    match joins (λ i, BookSpec.orders a !! i) e with
    | Some o => if decide (BookSpec.key_of o = k) then [id o] else []
    | None => []
    end.
Proof.
  assert (Hsame : ∀ os, (∀ i, is_Some (BookSpec.orders a !! i) → is_Some (os !! i)) →
    BookSpec.queue a k = filter (live os) (BookSpec.queue a k) ++ []).
  { intros os Hos. by rewrite app_nil_r, live_in_queue. }
  assert (Hremoved : ∀ i, BookSpec.queue (BookSpec.remove i a) k =
    filter (live (BookSpec.orders (BookSpec.remove i a))) (BookSpec.queue a k) ++ []).
  { intros i. by rewrite app_nil_r, queue_remove_live. }
  assert (Hreduced : ∀ i n, (BookSpec.reduce i n a).1 = true → let a' := (BookSpec.reduce i n a).2 in
    BookSpec.queue a' k = filter (live (BookSpec.orders a')) (BookSpec.queue a k) ++ []).
  { intros i n. unfold BookSpec.reduce. destruct (BookSpec.orders a !! i) as [o|] eqn:Ho; [|done].
    repeat case_decide; cbn; [done|intros _; apply Hremoved|]. intros _. apply Hsame. cbn.
    intros j Hj. destruct (decide (i = j)) as [->|]; [rewrite lookup_insert_eq; eauto|].
    by rewrite lookup_insert_ne. }
  destruct e as [e|e|e|e|e]; cbn; [| | |intros _; apply Hremoved|].
  - unfold BookSpec.add. case_decide as Hd; [done|]. destruct (BookSpec.fits _ _); [|done].
    intros _. cbn. rewrite queue_push. f_equal. symmetry. apply live_in_queue. cbn.
    intros i Hi. rewrite lookup_insert_ne; [done|]. intros <-. tauto.
  - apply Hreduced.
  - apply Hreduced.
  - unfold BookSpec.replace. destruct (BookSpec.orders a !! _) as [o|] eqn:Ho; [|done].
    case_decide as Hd; [done|]. destruct (BookSpec.fits _ _); [|done]. intros _. cbn.
    rewrite queue_push, queue_remove_live. f_equal. apply filter_ext_in.
    intros j (o' & Ho' & _)%BookSpec.queue_elem; [|done]. cbn.
    rewrite lookup_insert_ne; [done|]. intros <-. apply Hd. eauto.
Qed.
End queues.

(** C5: an accepted event keeps time priority: in every level the orders that stay keep their
    relative order, an addition and a replacement go to the back of their queue (also when the
    price does not change), and a partial execution or cancellation does not move the order. *)
Theorem time_priority_is_kept max b e b' k :
  capacity_ok max → reachable max b → event_ok e → apply e b = (Ret true, b') →
  ∃ q, queue_at b k = Ret q ∧ queue_at b' k = Ret (queue_after b' k (joins (order_in b) e) q).
Proof.
  intros Hmax Hb He Happly. destruct (reachable_represents max Hmax b Hb) as [a Hr].
  destruct (represents_apply max Hmax b a e Hr He) as (b1 & H1 & Hr1).
  rewrite Happly in H1. injection H1 as Hok <-.
  assert (Hin : ∀ b a, represents max b a → ∀ i, order_in b i = BookSpec.orders a !! i).
  { intros b2 a2 Hr2 i. unfold order_in. by rewrite (represents_find max Hmax b2 a2 Hr2). }
  exists (BookSpec.queue a k). split; [by apply (represents_queue max)|].
  rewrite (represents_queue max _ _ _ Hr1). f_equal. unfold queue_after.
  rewrite (apply_queues max a (represents_wf _ _ _ Hr)) by done. f_equal.
  - apply filter_ext_in. intros i _. by rewrite (Hin _ _ Hr1).
  - destruct e; cbn; try done. by rewrite (Hin _ _ Hr).
Qed.

(** A replacement at the same price loses its place. *)
Definition priority_feed : list MarketEvent :=
  [ Add (mkAdd example_meta (example_order 1 100 5000));
    Add (mkAdd example_meta (example_order 2 50 5000)) ].
Definition priority_event : MarketEvent := Replace (mkReplace example_meta 1 3 100 5000).
Lemma priority_feed_ok : Forall event_ok priority_feed.
Proof. repeat constructor; unfold event_ok, order_ok, u64_max, u32_max; cbn; lia. Qed.
Lemma priority_event_ok : event_ok priority_event.
Proof. unfold event_ok, u64_max, u32_max; cbn; lia. Qed.

Lemma time_priority_is_kept_witness :
  ∃ q b', apply priority_event (book_after 2 priority_feed) = (Ret true, b') ∧
    queue_at (book_after 2 priority_feed) (example_symbol, Buy, 5000) = Ret q ∧
    queue_at b' (example_symbol, Buy, 5000) =
      Ret (queue_after b' (example_symbol, Buy, 5000)
             (joins (order_in (book_after 2 priority_feed)) priority_event) q).
Proof.
  set (b' := (apply priority_event (book_after 2 priority_feed)).2).
  assert (Happly : apply priority_event (book_after 2 priority_feed) = (Ret true, b')).
  { vm_compute. reflexivity. }
  destruct (time_priority_is_kept 2 _ priority_event b' (example_symbol, Buy, 5000) capacity_2
    (reachable_book_after 2 priority_feed capacity_2 priority_feed_ok) priority_event_ok Happly)
    as (q & Hq & Hq').
  exists q, b'. exact (conj Happly (conj Hq Hq')).
Defined.

(** ** The hash sees the abstract book only *)

Lemma represents_determined max1 max2 b1 b2 a1 a2 :
  capacity_ok max1 → capacity_ok max2 → represents max1 b1 a1 → represents max2 b2 a2 →
  (∀ i, find b1 i = find b2 i) → (∀ s sym, levels s b1 sym = levels s b2 sym) → a1 = a2.
Proof.
  intros H1 H2 Hr1 Hr2 Hfind Hlevels.
  assert (Hq : ∀ k, BookSpec.queue a1 k = BookSpec.queue a2 k).
  { intros k. assert (queue_at b1 k = queue_at b2 k) as Hk by (unfold queue_at; by rewrite Hlevels).
    rewrite (represents_queue _ _ _ _ Hr1), (represents_queue _ _ _ _ Hr2) in Hk. congruence. }
  assert (Ho : BookSpec.orders a1 = BookSpec.orders a2).
  { apply map_eq. intros i. specialize (Hfind i).
    rewrite (represents_find _ _ _ _ Hr1), (represents_find _ _ _ _ Hr2) in Hfind. congruence. }
  assert (Hqs : BookSpec.queues a1 = BookSpec.queues a2).
  { apply map_eq. intros k. pose proof (Hq k) as Hk.
    destruct (BookSpec.queues a1 !! k) as [q1|] eqn:E1; destruct (BookSpec.queues a2 !! k) as [q2|] eqn:E2.
    - rewrite (BookSpec.queue_Some _ _ _ E1), (BookSpec.queue_Some _ _ _ E2) in Hk. congruence.
    - apply (BookSpec.queue_None _ (represents_wf _ _ _ Hr2)) in E2. rewrite E2 in Hk.
      apply (BookSpec.queue_None _ (represents_wf _ _ _ Hr1)) in Hk. congruence.
    - apply (BookSpec.queue_None _ (represents_wf _ _ _ Hr1)) in E1. rewrite E1 in Hk. symmetry in Hk.
      apply (BookSpec.queue_None _ (represents_wf _ _ _ Hr2)) in Hk. congruence.
    - done. }
  destruct a1, a2. cbn in *. congruence.
Qed.

(** C27: the state hash is a function of what a client sees, orders and snapshots: two reachable
    books that agree on these have the same hash, whatever their capacities, their histories, and
    the slots, tombstones and free lists these left behind. *)
Theorem hash_is_determined_by_view max1 max2 b1 b2 cs :
  capacity_ok max1 → capacity_ok max2 → reachable max1 b1 → reachable max2 b2 →
  (∀ i, find b1 i = find b2 i) → (∀ s sym, levels s b1 sym = levels s b2 sym) →
  state_hash cs b1 = state_hash cs b2.
Proof.
  intros H1 H2 Hb1 Hb2 Hfind Hlevels.
  destruct (reachable_represents _ H1 _ Hb1) as [a1 Hr1].
  destruct (reachable_represents _ H2 _ Hb2) as [a2 Hr2].
  pose proof (represents_determined _ _ _ _ _ _ H1 H2 Hr1 Hr2 Hfind Hlevels) as ->.
  by rewrite (represents_hash max1 H1 b1 a2 Hr1), (represents_hash max2 H2 b2 a2 Hr2).
Qed.

Lemma capacity_3 : capacity_ok 3.
Proof. unfold capacity_ok, kInvalidSlot. lia. Qed.
(** The same two orders through another history, in a larger book. *)
Definition detour_feed : list MarketEvent :=
  [ Add (mkAdd example_meta (example_order 7 5 4000));
    Add (mkAdd example_meta (example_order 8 100 5000));
    Replace (mkReplace example_meta 8 1 100 5000);
    Delete (mkDelete example_meta 7);
    Add (mkAdd example_meta (example_order 2 50 5000)) ].
Lemma detour_feed_ok : Forall event_ok detour_feed.
Proof. repeat constructor; unfold event_ok, order_ok, u64_max, u32_max; cbn; lia. Qed.

Lemma book_after_represents max events :
  capacity_ok max → Forall event_ok events →
  represents max (book_after max events) (spec_run max events BookSpec.empty).2.
Proof.
  intros Hmax Hev. unfold book_after, reject_after.
  destruct (represents_new max Hmax) as (b & -> & Hr).
  destruct (represents_run max Hmax events b _ Hr Hev) as (b' & Hrun & Hr'). cbn. by rewrite Hrun.
Qed.

Lemma hash_is_determined_by_view_witness :
  state_hash true (book_after 2 priority_feed) = state_hash true (book_after 3 detour_feed).
Proof.
  pose proof (book_after_represents 2 priority_feed capacity_2 priority_feed_ok) as Hr1.
  pose proof (book_after_represents 3 detour_feed capacity_3 detour_feed_ok) as Hr2.
  assert ((spec_run 3 detour_feed BookSpec.empty).2 = (spec_run 2 priority_feed BookSpec.empty).2)
    as Heq by (vm_compute; reflexivity).
  rewrite Heq in Hr2.
  apply (hash_is_determined_by_view 2 3); [exact capacity_2|exact capacity_3| | | |].
  - exact (reachable_book_after 2 priority_feed capacity_2 priority_feed_ok).
  - exact (reachable_book_after 3 detour_feed capacity_3 detour_feed_ok).
  - intros i. rewrite (represents_find 2 capacity_2 _ _ Hr1), (represents_find 3 capacity_3 _ _ Hr2).
    reflexivity.
  - intros s sym. rewrite (represents_levels 2 _ _ Hr1), (represents_levels 3 _ _ Hr2). reflexivity.
Defined.

(** ** Capacity *)

(** A replacement needs no room: in a book with all [max] slots taken, and the index holding
    [max] ids, a live order can still be replaced by an order at a price with no level yet. *)
Theorem replacement_needs_no_room max b e o :
  capacity_ok max → reachable max b → event_ok (Replace e) →
  find b (old_order_id e) = Ret (Some o) → find b (new_order_id e) = Ret None →
  new_order_id e ≠ 0 → new_quantity e ≠ 0 →
  queue_at b (symbol o, side o, new_price e) = Ret [] →
  ∃ b', apply (Replace e) b = (Ret true, b') ∧ live_order_count b' = live_order_count b ∧
    live_order_count b ≤ max ∧ find b' (old_order_id e) = Ret None ∧
    find b' (new_order_id e) = Ret (Some (replacement e o (new_price e))).
Proof.
  intros Hmax Hb He Hold Hnew Hi0 Hq0 Hempty. pose proof He as (_ & _ & Hq).
  destruct (reachable_represents max Hmax b Hb) as [a Hr].
  pose proof (represents_wf _ _ _ Hr) as Ha.
  rewrite (represents_find max Hmax b a Hr) in Hold, Hnew. injection Hold as Hold. injection Hnew as Hnew.
  rewrite (represents_queue max b a _ Hr) in Hempty. injection Hempty as Hempty.
  destruct (represents_apply max Hmax b a (Replace e) Hr He) as (b' & Happly & Hr').
  assert (Hii : old_order_id e ≠ new_order_id e) by (intros Heq; congruence).
  assert (Hspec : BookSpec.apply max (Replace e) a = (true,
    BookSpec.push (replacement e o (new_price e)) (BookSpec.remove (old_order_id e) a))).
  { cbn. unfold BookSpec.replace. rewrite Hold, decide_False by (rewrite Hnew; intros [?|[?|[? ?]]]; done).
    unfold BookSpec.fits. set (k := BookSpec.key_of (mkOrder _ _ _ _ _)).
    change (symbol o, side o, new_price e) with k in Hempty.
    rewrite (BookSpec.level_total_remove _ Ha _ o) by done.
    assert (BookSpec.level_total a k = 0) as Hk0 by (unfold BookSpec.level_total; by rewrite Hempty).
    rewrite Hk0. cbn.
    case_decide as Hk; [|by rewrite (proj2 (Z.leb_le _ _)) by lia].
    pose proof (BookSpec.order_wf_queued _ _ _ (BookSpec.wf_orders _ Ha _ _ Hold)) as Hin.
    rewrite Hk, Hempty in Hin. by apply not_elem_of_nil in Hin. }
  rewrite Hspec in Happly, Hr'. cbn in Happly, Hr'. exists b'. split; [done|].
  pose proof (represents_size max Hmax b a Hr).
  rewrite !(represents_find max Hmax _ _ Hr'), (represents_count max Hmax _ _ Hr),
    (represents_count max Hmax _ _ Hr'). cbn. unfold BookSpec.remove. rewrite Hold. cbn.
  assert (size (BookSpec.orders a) ≠ 0%nat).
  { intros Hs%map_size_empty_iff. by rewrite Hs, lookup_empty in Hold. }
  split_and!.
  - rewrite map_size_insert_None by (rewrite lookup_delete_None; by right).
    rewrite map_size_delete_Some by eauto. lia.
  - done.
  - rewrite lookup_insert_ne, lookup_delete_eq; done.
  - by rewrite lookup_insert_eq.
Qed.

Lemma replacement_needs_no_room_witness :
  live_order_count (book_after 2 priority_feed) = 2 ∧
  ∃ b', apply (Replace (mkReplace example_meta 1 3 100 6000)) (book_after 2 priority_feed) =
      (Ret true, b') ∧ live_order_count b' = 2.
Proof.
  assert (Hcount : live_order_count (book_after 2 priority_feed) = 2) by (vm_compute; reflexivity).
  split; [exact Hcount|].
  destruct (replacement_needs_no_room 2 (book_after 2 priority_feed)
    (mkReplace example_meta 1 3 100 6000) (example_order 1 100 5000) capacity_2
    (reachable_book_after 2 priority_feed capacity_2 priority_feed_ok)) as (b' & Happly & Hc & _).
  - unfold event_ok, u64_max, u32_max; cbn; lia.
  - vm_compute. reflexivity.
  - vm_compute. reflexivity.
  - cbn. lia.
  - cbn. lia.
  - vm_compute. reflexivity.
  - exists b'. split; [exact Happly|]. rewrite Hc. exact Hcount.
Defined.

(** A capacity of zero, or one that reaches the invalid slot number, is refused with
    [invalid_argument], and every other one is accepted. *)
Theorem capacity_is_checked max :
  0 ≤ max ≤ 2 ^ 59 →
  if decide (capacity_ok max) then ∃ b, new max = Ret b ∧ max_orders b = max ∧ live_order_count b = 0
  else new max = Throw (InvalidArgument "max_orders must be between 1 and UINT32_MAX-1").
Proof.
  intros Hmax. case_decide as Hok.
  - destruct (represents_new max Hok) as (b & Hb & Hr). exists b. split_and!; [done| |].
    + by eapply represents_max.
    + by rewrite (represents_count max Hok _ _ Hr).
  - destruct (index_contract max Hmax) as [(idx & Hidx & _) _ _ _ _].
    unfold new. rewrite Hidx. cbn [mbind outcome_bind]. unfold capacity_ok in Hok.
    destruct (Z.eqb_spec max 0); [done|]. destruct (Z.leb_spec kInvalidSlot max); [done|lia].
Qed.

Lemma capacity_is_checked_witness :
  (0 ≤ 0 ≤ 2 ^ 59) ∧
  new 0 = Throw (InvalidArgument "max_orders must be between 1 and UINT32_MAX-1").
Proof.
  split; [lia|]. pose proof (capacity_is_checked 0 ltac:(lia)) as H.
  rewrite decide_False in H by (unfold capacity_ok; lia). exact H.
Defined.
