(* ===== verification/BookAllocation.v ===== *)
(** The book when memory runs out.  Levels and symbols live in maps, whose nodes are allocated while
    events are applied; a failed allocation makes [add] or [replace] throw [std::bad_alloc].  The
    theorem is the strong exception guarantee, for every sequence of successes and failures. *)
From S2P Require Import Prelude Types FlatOrderIndex BookSpec OrderBook BookInvariant BookRefinement BookTheorems.
Import OrderBook.

(** What a sequence of events leaves when any of them may run out of memory. *)
Inductive reachable_in (max : Z) : OrderBook.t → Prop :=
| reachable_in_new b : new max = Ret b → reachable_in max b
| reachable_in_ret b b' mem e ok :
    reachable_in max b → event_ok e → apply_in mem e b = (Ret ok, b') → reachable_in max b'
| reachable_in_throw b b' mem e x :
    reachable_in max b → event_ok e → apply_in mem e b = (Throw x, b') → reachable_in max b'.

Section allocation.
Context (max : Z) (Hmax : capacity_ok max).

Lemma represents_apply_in mem b a e :
  represents max b a → event_ok e →
  match apply_in mem e b with
  | (Ret ok, b') => ok = (BookSpec.apply max e a).1 ∧ represents max b' (BookSpec.apply max e a).2
  | (Throw x, b') => x = BadAlloc ∧ mem ≠ plenty ∧ represents max b' a
  | _ => False
  end.
Proof.
  intros [Ha Hp (ids & free & Hr)] He.
  pose proof (apply_in_spec max (index_holds max) Hmax mem b a ids free e Hr Ha He) as Hs.
  unfold simulates_in, wpx in Hs. destruct (apply_in mem e b) as [[ok|x|?|] b']; [| |done..].
  2: { destruct Hs as (-> & Hmem & Hr'). done. }
  destruct Hs as [-> Hr']. split; [done|]. split; [by apply BookSpec.apply_wf|by apply BookSpec.apply_positive|done].
Qed.

Lemma reachable_in_represents b : reachable_in max b → ∃ a, represents max b a.
Proof.
  induction 1 as [b Hb|b b' mem e ok _ [a Hr] He Ha|b b' mem e x _ [a Hr] He Ha].
  - destruct (represents_new max Hmax) as (b' & Hb' & Hr). assert (b' = b) as -> by congruence. by eexists.
  - pose proof (represents_apply_in mem b a e Hr He) as Hin. rewrite Ha in Hin. naive_solver.
  - pose proof (represents_apply_in mem b a e Hr He) as Hin. rewrite Ha in Hin. naive_solver.
Qed.
End allocation.

(** C24: Running out of memory changes nothing.  Whatever allocations failed before, an event that
    meets a full memory either has the result it has otherwise, or throws [std::bad_alloc]; then the
    slot, the index entry and the symbol it had taken are given back, a client sees the book it saw
    before, and the event can be tried again with the result it would have had.  With enough memory
    nothing is thrown. *)
Theorem allocation_failure_changes_nothing max mem b e :
  capacity_ok max → reachable_in max b → event_ok e →
  match apply_in mem e b with
  | (Ret ok, b') => ∃ b1, apply e b = (Ret ok, b1) ∧ same_view b1 b'
  | (Throw x, b') =>
      x = BadAlloc ∧ mem ≠ plenty ∧ same_view b b' ∧
      ∃ ok b1 b2, apply e b = (Ret ok, b1) ∧ apply e b' = (Ret ok, b2) ∧ same_view b1 b2
  | _ => False
  end.
Proof.
  intros Hmax Hb He. destruct (reachable_in_represents max Hmax b Hb) as [a Hr].
  pose proof (represents_apply_in max Hmax mem b a e Hr He) as Hin.
  destruct (represents_apply max Hmax b a e Hr He) as (b1 & H1 & Hr1).
  destruct (apply_in mem e b) as [[ok|x|?|] b']; [| |done..].
  - destruct Hin as [-> Hr']. exists b1. split; [done|]. by eapply represents_same_view.
  - destruct Hin as (-> & Hmem & Hr'). destruct (represents_apply max Hmax b' a e Hr' He) as (b2 & H2 & Hr2).
    split_and!; [done|done|by eapply represents_same_view|].
    eexists _, b1, b2. split_and!; [done|done|by eapply represents_same_view].
Qed.

(** An order for a new symbol, with room for the symbol but not for the level. *)
Definition tight : Memory := mkMemory true false.
Definition first_order : MarketEvent := Add (mkAdd example_meta (example_order 1 100 5000)).
Definition book_of (capacity : Z) : OrderBook.t :=
  match new capacity with Ret b => b | _ => OrderBook.mk [] 0 (FlatOrderIndex.mk [] 0 0) ∅ end.
Lemma allocation_failure_changes_nothing_witness :
  let b := book_of 4 in
  (apply_in tight first_order b).1 = Throw BadAlloc ∧ same_view b (apply_in tight first_order b).2.
Proof.
  intros b. split; [vm_compute; reflexivity|].
  assert (Hb : reachable_in 4 b) by (apply reachable_in_new; vm_compute; reflexivity).
  assert (He : event_ok first_order) by (unfold event_ok, order_ok, u64_max, u32_max; cbn; lia).
  pose proof (allocation_failure_changes_nothing 4 tight b first_order ltac:(by vm_compute) Hb He) as Hs.
  assert (Hx : (apply_in tight first_order b).1 = Throw BadAlloc) by (vm_compute; reflexivity).
  destruct (apply_in tight first_order b) as [r b']. cbn in Hx. subst r. apply Hs.
Defined.
