(* ===== verification/ByteReader.v ===== *)
(** Big-endian access to byte buffers: [include/efe/byte_reader.hpp], and the [put_*] writers of
    [src/main.cpp].  Buffers are [list byte]; the specification is [be_value], the number a byte
    string denotes, and its inverse [be_bytes]. *)
From S2P Require Import Prelude.
From Stdlib Require Import Strings.Byte.

(** [bytes.size()] *)
Abbreviation len l := (Z.of_nat (length l)).

Module ByteReader.

(** [bytes[i]] *)
Definition byte_at (bytes : list byte) (i : Z) : outcome Z :=
  match vget bytes i with
  | Some b => Ret (Z_of_byte b)
  | None => Undef "bytes[i]: index out of range"
  end.
Definition set_byte (bytes : list byte) (i v : Z) : outcome (list byte) :=
  match vget bytes i with
  | Some _ => Ret (vset bytes i (byte_of_Z v))
  | None => Undef "bytes[i]: index out of range"
  end.

Definition require_bytes (bytes : list byte) (offset width : Z) : outcome unit :=
  if (len bytes <? offset) || (len bytes - offset <? width)
  then Throw (DecodeError "truncated binary message") else Ret tt.

Definition read_u8 (bytes : list byte) (offset : Z) : outcome Z :=
  require_bytes bytes offset 1;; byte_at bytes offset.

Definition read_u16_be (bytes : list byte) (offset : Z) : outcome Z :=
  require_bytes bytes offset 2;;
  b0 ← byte_at bytes offset;
  b1 ← byte_at bytes (offset + 1);
  Ret (u16 (Z.lor (Z.shiftl b0 8) b1)).

Definition read_u32_be (bytes : list byte) (offset : Z) : outcome Z :=
  require_bytes bytes offset 4;;
  b0 ← byte_at bytes offset;
  b1 ← byte_at bytes (offset + 1);
  b2 ← byte_at bytes (offset + 2);
  b3 ← byte_at bytes (offset + 3);
  Ret (Z.lor (Z.lor (Z.lor (u32 (Z.shiftl b0 24)) (u32 (Z.shiftl b1 16))) (u32 (Z.shiftl b2 8))) b3).

(** [for (i = ...; i < n; ++i) value = (value << 8U) | bytes[offset + i];] *)
Fixpoint read_loop (bytes : list byte) (offset : Z) (n : nat) (value : Z) : outcome Z :=
  match n with
  | O => Ret value
  | S n =>
      b ← byte_at bytes offset;
      read_loop bytes (offset + 1) n (Z.lor (u64 (Z.shiftl value 8)) b)
  end.

Definition read_u48_be (bytes : list byte) (offset : Z) : outcome Z :=
  require_bytes bytes offset 6;; read_loop bytes offset 6 0.
Definition read_u64_be (bytes : list byte) (offset : Z) : outcome Z :=
  require_bytes bytes offset 8;; read_loop bytes offset 8 0.

Definition slice (bytes : list byte) (offset width : Z) : list byte :=
  take (Z.to_nat width) (drop (Z.to_nat offset) bytes).

(** The bytes of a range, as [memcpy], [assign] and [string_view] read them: nothing of the source
    keeps the range inside the buffer. *)
Definition copy_range (bytes : list byte) (offset width : Z) : outcome (list byte) :=
  if decide (0 ≤ offset ∧ 0 ≤ width ∧ offset + width ≤ len bytes) then Ret (slice bytes offset width)
  else Undef "read past the end of the buffer".

Definition read_ascii_view (bytes : list byte) (offset width : Z) : outcome (list byte) :=
  require_bytes bytes offset width;; copy_range bytes offset width.

(** A [char] read from the buffer, as the byte it is stored in. *)
Definition read_char (bytes : list byte) (offset : Z) : outcome byte :=
  v ← read_u8 bytes offset; Ret (byte_of_Z v).

Definition write_u16_be (bytes : list byte) (offset value : Z) : outcome (list byte) :=
  if (len bytes <? offset) || (len bytes - offset <? 2)
  then Throw (DecodeError "short output buffer")
  else
    bytes ← set_byte bytes offset (Z.land (Z.shiftr value 8) 255);
    set_byte bytes (offset + 1) (Z.land value 255).

(** [for (int i = n - 1; i >= 0; --i) bytes[offset + (n - 1 - i)] = uint8_t(value >> (i * 8));] *)
Fixpoint write_loop (bytes : list byte) (offset : Z) (n : nat) (value : Z) : outcome (list byte) :=
  match n with
  | O => Ret bytes
  | S i =>
      bytes ← set_byte bytes offset (Z.land (Z.shiftr value (Z.of_nat i * 8)) 255);
      write_loop bytes (offset + 1) i value
  end.

Definition write_u64_be (bytes : list byte) (offset value : Z) : outcome (list byte) :=
  if (len bytes <? offset) || (len bytes - offset <? 8)
  then Throw (DecodeError "short output buffer")
  else write_loop bytes offset 8 value.
End ByteReader.

(** * The writers of [main.cpp] *)

Module Put.
Import ByteReader.

Definition put_u32 (b : list byte) (off v : Z) : outcome (list byte) :=
  b ← set_byte b off (Z.shiftr v 24);
  b ← set_byte b (off + 1) (Z.shiftr v 16);
  b ← set_byte b (off + 2) (Z.shiftr v 8);
  set_byte b (off + 3) v.
Definition put_u64 (b : list byte) (off v : Z) : outcome (list byte) := write_loop b off 8 v.
Definition put_u16 (b : list byte) (off v : Z) : outcome (list byte) :=
  b ← set_byte b off (Z.shiftr v 8); set_byte b (off + 1) v.
Definition put_u48 (b : list byte) (off v : Z) : outcome (list byte) := write_loop b off 6 v.
Fixpoint put_ascii (b : list byte) (off : Z) (n : nat) (s : list byte) : outcome (list byte) :=
  match n with
  | O => Ret b
  | S n =>
      match vget b off with
      | None => Undef "b[off + i]: index out of range"
      | Some _ => put_ascii (vset b off (default Byte.x20 (head s))) (off + 1) n (tail s)
      end
  end.
End Put.

(** * Specification *)

(** The number a byte string denotes, most significant byte first. *)
Definition be_value (bs : list byte) : Z := foldl (λ v b, v * 256 + Z_of_byte b) 0 bs.
Fixpoint be_bytes (n : nat) (v : Z) : list byte :=
  match n with
  | O => []
  | S n => byte_of_Z (Z.shiftr v (8 * Z.of_nat n)) :: be_bytes n v
  end.

(** [new] written over [bytes] from [offset] on. *)
Definition splice (bytes : list byte) (offset : Z) (new : list byte) : list byte :=
  take (Z.to_nat offset) bytes ++ new ++ drop (Z.to_nat offset + length new) bytes.

Import ByteReader.

Lemma length_be_bytes n v : length (be_bytes n v) = n.
Proof. induction n; cbn; auto. Qed.
#[export] Hint Rewrite length_be_bytes : lens.

Lemma be_value_foldl v bs :
  foldl (λ v b, v * 256 + Z_of_byte b) v bs = v * 256 ^ len bs + be_value bs.
Proof.
  unfold be_value. revert v. induction bs as [|b bs IH]; intros v; cbn [foldl length]; [lia|].
  rewrite IH, (IH (0 * 256 + _)), Nat2Z.inj_succ, Z.pow_succ_r by lia. lia.
Qed.
Lemma be_value_cons b bs : be_value (b :: bs) = Z_of_byte b * 256 ^ len bs + be_value bs.
Proof. unfold be_value at 1. cbn [foldl]. by rewrite be_value_foldl. Qed.
Lemma be_value_app bs1 bs2 : be_value (bs1 ++ bs2) = be_value bs1 * 256 ^ len bs2 + be_value bs2.
Proof. unfold be_value at 1. by rewrite foldl_app, be_value_foldl. Qed.
Lemma be_value_bound bs : 0 ≤ be_value bs < 256 ^ len bs.
Proof.
  induction bs as [|b bs IH]; [by cbv|]. rewrite be_value_cons. cbn [length].
  rewrite Nat2Z.inj_succ, Z.pow_succ_r by lia. pose proof (Z_of_byte_bound b). nia.
Qed.

(** Reading back what was written, and writing back what was read. *)
Lemma be_value_bytes n v : be_value (be_bytes n v) = v `mod` 256 ^ Z.of_nat n.
Proof.
  induction n as [|n IH]; [by rewrite Z.mod_1_r|].
  cbn [be_bytes]. rewrite be_value_cons, length_be_bytes, IH, Z_of_byte_of_Z.
  rewrite Z.shiftr_div_pow2, Nat2Z.inj_succ, Z.pow_succ_r by lia. unfold wrap.
  rewrite Z.pow_mul_r by lia. change (2 ^ 8) with 256. rewrite (Z.mul_comm 256).
  rewrite Z.rem_mul_r by lia. lia.
Qed.
Lemma be_bytes_mod n v w : v `mod` 256 ^ Z.of_nat n = w `mod` 256 ^ Z.of_nat n → be_bytes n v = be_bytes n w.
Proof.
  revert v w. induction n as [|n IH]; intros v w Heq; [done|]. cbn [be_bytes].
  rewrite Nat2Z.inj_succ, Z.pow_succ_r, Z.mul_comm in Heq by lia.
  rewrite !Z.rem_mul_r in Heq by lia.
  pose proof (Z.mod_pos_bound v (256 ^ Z.of_nat n) ltac:(lia)).
  pose proof (Z.mod_pos_bound w (256 ^ Z.of_nat n) ltac:(lia)).
  assert (v `mod` 256 ^ Z.of_nat n = w `mod` 256 ^ Z.of_nat n ∧
    (v `div` 256 ^ Z.of_nat n) `mod` 256 = (w `div` 256 ^ Z.of_nat n) `mod` 256) as [Hlo Hhi].
  { destruct (Z.div_mod_unique (256 ^ Z.of_nat n) ((v `div` 256 ^ Z.of_nat n) `mod` 256)
      ((w `div` 256 ^ Z.of_nat n) `mod` 256) (v `mod` 256 ^ Z.of_nat n) (w `mod` 256 ^ Z.of_nat n));
      [by left|by left|lia|done]. }
  f_equal; [|by apply IH].
  unfold byte_of_Z. do 3 f_equal. unfold wrap. rewrite !Z.shiftr_div_pow2, Z.pow_mul_r by lia. done.
Qed.
Lemma be_bytes_value bs : be_bytes (length bs) (be_value bs) = bs.
Proof.
  induction bs as [|b bs IH]; [done|]. cbn [length be_bytes]. rewrite be_value_cons. f_equal.
  - rewrite Z.shiftr_div_pow2, Z.pow_mul_r by lia. change (2 ^ 8) with 256.
    rewrite Z.div_add_l, Z.div_small by (apply be_value_bound || lia). rewrite Z.add_0_r.
    apply byte_of_Z_of_byte.
  - transitivity (be_bytes (length bs) (be_value bs)); [|done]. apply be_bytes_mod. by rewrite Z.add_comm, Z_mod_plus_full.
Qed.

(** ** Reads *)

Lemma require_bytes_spec bytes offset width :
  0 ≤ offset → 0 ≤ width →
  require_bytes bytes offset width =
    if decide (offset + width ≤ len bytes) then Ret tt
    else Throw (DecodeError "truncated binary message").
Proof.
  intros. unfold require_bytes. case_decide.
  - by rewrite (proj2 (Z.ltb_ge _ _)), (proj2 (Z.ltb_ge _ _)) by lia.
  - destruct (Z.ltb_spec (len bytes) offset); [done|]. by rewrite (proj2 (Z.ltb_lt _ _)) by lia.
Qed.

Lemma length_slice bytes offset width :
  0 ≤ offset → 0 ≤ width → offset + width ≤ len bytes → len (slice bytes offset width) = width.
Proof. intros. unfold slice. rewrite length_take, length_drop. lia. Qed.
Lemma copy_range_in bytes offset width :
  0 ≤ offset → 0 ≤ width → offset + width ≤ len bytes →
  copy_range bytes offset width = Ret (slice bytes offset width).
Proof. intros. unfold copy_range. by rewrite decide_True. Qed.

Lemma vget_drop (bytes : list byte) offset :
  0 ≤ offset → vget bytes offset = head (drop (Z.to_nat offset) bytes).
Proof. intros. unfold vget. rewrite decide_True by done. by rewrite head_lookup, lookup_drop, Nat.add_0_r. Qed.

Lemma slice_succ bytes offset n :
  0 ≤ offset → offset + Z.of_nat (S n) ≤ len bytes →
  ∃ b, vget bytes offset = Some b ∧
    slice bytes offset (Z.of_nat (S n)) = b :: slice bytes (offset + 1) (Z.of_nat n).
Proof.
  intros H0 Hl. destruct (vget_is_Some bytes offset ltac:(lia)) as [b Hb]. exists b.
  split; [done|]. unfold slice. rewrite !Nat2Z.id. unfold vget in Hb. rewrite decide_True in Hb by done.
  rewrite (drop_S _ _ _ Hb). cbn [take]. do 3 f_equal. lia.
Qed.

Lemma lor_add a b n : 0 ≤ n → 0 ≤ b < 2 ^ n → Z.lor (a * 2 ^ n) b = a * 2 ^ n + b.
Proof.
  intros Hn Hb. rewrite <-Z.add_lor_land, <-Z.shiftl_mul_pow2 by done.
  assert (Z.land (Z.shiftl a n) b = 0) as ->; [|lia].
  apply Z.bits_inj'. intros i Hi. rewrite Z.land_spec, Z.bits_0.
  destruct (decide (i < n)).
  - by rewrite Z.shiftl_spec_low.
  - rewrite <-(Z.mod_small b (2 ^ n)) by done. rewrite Z.mod_pow2_bits_high by lia. apply andb_false_r.
Qed.

Lemma read_loop_spec bytes offset n v :
  0 ≤ offset → offset + Z.of_nat n ≤ len bytes → 0 ≤ v → v * 256 ^ Z.of_nat n < 2 ^ 64 →
  v * 256 ^ Z.of_nat n + 256 ^ Z.of_nat n ≤ 2 ^ 64 →
  read_loop bytes offset n v =
    Ret (v * 256 ^ Z.of_nat n + be_value (slice bytes offset (Z.of_nat n))).
Proof.
  revert offset v. induction n as [|n IH]; intros offset v H0 Hl Hv Hb Hb'.
  { cbn [read_loop]. f_equal. change (be_value (slice _ _ _)) with 0. change (256 ^ Z.of_nat 0) with 1. lia. }
  destruct (slice_succ bytes offset n H0 Hl) as (b & Hbyte & ->).
  cbn [read_loop]. unfold byte_at. rewrite Hbyte. cbn [mbind outcome_bind].
  pose proof (Z_of_byte_bound b). rewrite be_value_cons.
  assert (Hlen : len (slice bytes (offset + 1) (Z.of_nat n)) = Z.of_nat n) by (apply length_slice; lia).
  rewrite Hlen. rewrite Nat2Z.inj_succ, Z.pow_succ_r in Hb, Hb' |- * by lia.
  assert (0 < 256 ^ Z.of_nat n) by lia.
  assert (v * 256 + 256 ≤ 2 ^ 64) by nia.
  rewrite Z.shiftl_mul_pow2, u64_small by (word_lia).
  rewrite lor_add by lia. change (2 ^ 8) with 256.
  rewrite IH; [f_equal; lia|lia|lia|lia|nia|nia].
Qed.

(** A read in bounds is the number the bytes denote; out of bounds it throws. *)
Definition reads (bytes : list byte) (offset width : Z) : outcome Z :=
  if decide (offset + width ≤ len bytes) then Ret (be_value (slice bytes offset width))
  else Throw (DecodeError "truncated binary message").

Lemma read_u64_be_spec bytes offset : 0 ≤ offset → read_u64_be bytes offset = reads bytes offset 8.
Proof.
  intros. unfold read_u64_be, reads. rewrite require_bytes_spec by lia. case_decide; [|done].
  cbn [mbind outcome_bind]. rewrite read_loop_spec by lia. done.
Qed.
Lemma read_u48_be_spec bytes offset : 0 ≤ offset → read_u48_be bytes offset = reads bytes offset 6.
Proof.
  intros. unfold read_u48_be, reads. rewrite require_bytes_spec by lia. case_decide; [|done].
  cbn [mbind outcome_bind]. rewrite read_loop_spec by lia. done.
Qed.

Lemma byte_at_Some bytes i b : vget bytes i = Some b → byte_at bytes i = Ret (Z_of_byte b).
Proof. unfold byte_at. by intros ->. Qed.

Ltac next_byte offset n :=
  let b := fresh "b" in let Hb := fresh "Hb" in let Hs := fresh "Hs" in
  lazymatch goal with
  | |- context [be_value (slice ?bytes offset _)] =>
      destruct (slice_succ bytes offset n) as (b & Hb & Hs); [lia|lia|];
      rewrite Hs, be_value_cons, length_slice by lia;
      rewrite (byte_at_Some _ _ _ Hb); cbn [mbind outcome_bind];
      pose proof (Z_of_byte_bound b)
  end.

Lemma slice_0 bytes offset : slice bytes offset (Z.of_nat 0) = [].
Proof. done. Qed.

Lemma read_u8_spec bytes offset : 0 ≤ offset → read_u8 bytes offset = reads bytes offset 1.
Proof.
  intros. unfold read_u8, reads. rewrite require_bytes_spec by lia. case_decide; [|done].
  cbn [mbind outcome_bind]. change 1 with (Z.of_nat 1). next_byte offset 0%nat.
  rewrite slice_0. f_equal. change (be_value []) with 0. cbn. lia.
Qed.
Lemma read_u16_be_spec bytes offset : 0 ≤ offset → read_u16_be bytes offset = reads bytes offset 2.
Proof.
  intros. unfold read_u16_be, reads. rewrite require_bytes_spec by lia. case_decide; [|done].
  cbn [mbind outcome_bind]. change 2 with (Z.of_nat 2).
  next_byte offset 1%nat. next_byte (offset + 1) 0%nat.
  rewrite slice_0. f_equal. change (be_value []) with 0.
  rewrite Z.shiftl_mul_pow2, lor_add by lia. unfold u16. rewrite wrap_small by lia. cbn. lia.
Qed.
Lemma read_u32_be_spec bytes offset : 0 ≤ offset → read_u32_be bytes offset = reads bytes offset 4.
Proof.
  intros. unfold read_u32_be, reads. rewrite require_bytes_spec by lia. case_decide; [|done].
  cbn [mbind outcome_bind]. change 4 with (Z.of_nat 4).
  next_byte offset 3%nat. next_byte (offset + 1) 2%nat.
  replace (offset + 1 + 1) with (offset + 2) by lia. next_byte (offset + 2) 1%nat.
  replace (offset + 2 + 1) with (offset + 3) by lia. next_byte (offset + 3) 0%nat.
  rewrite slice_0. f_equal. change (be_value []) with 0.
  rewrite !Z.shiftl_mul_pow2 by lia. rewrite !u32_small by (unfold u32_max; lia).
  rewrite (lor_add (Z_of_byte b) (Z_of_byte b0 * 2 ^ 16) 24) by lia.
  replace (Z_of_byte b * 2 ^ 24 + Z_of_byte b0 * 2 ^ 16) with
    ((Z_of_byte b * 256 + Z_of_byte b0) * 2 ^ 16) by lia.
  rewrite (lor_add _ (Z_of_byte b1 * 2 ^ 8) 16) by lia.
  replace ((Z_of_byte b * 256 + Z_of_byte b0) * 2 ^ 16 + Z_of_byte b1 * 2 ^ 8) with
    (((Z_of_byte b * 256 + Z_of_byte b0) * 256 + Z_of_byte b1) * 2 ^ 8) by lia.
  rewrite lor_add by lia. cbn. lia.
Qed.

(** ** Writes *)

Lemma length_splice bytes offset new :
  0 ≤ offset → offset + len new ≤ len bytes → length (splice bytes offset new) = length bytes.
Proof. intros. unfold splice. autorewrite with lens. lia. Qed.

Ltac splice_len := repeat first [rewrite length_splice | progress cbn [length]]; lia.

Lemma vset_splice (bytes : list byte) offset b :
  0 ≤ offset < len bytes → vset bytes offset b = splice bytes offset [b].
Proof.
  intros. unfold vset, splice. rewrite decide_True by lia.
  rewrite insert_take_drop by lia. cbn [length app]. do 3 f_equal. lia.
Qed.
Lemma splice_cons bytes offset b new :
  0 ≤ offset → offset + len new < len bytes →
  splice (splice bytes offset [b]) (offset + 1) new = splice bytes offset (b :: new).
Proof.
  intros. unfold splice. cbn [length app].
  assert (Hl : length (take (Z.to_nat offset) bytes) = Z.to_nat offset) by (rewrite length_take; lia).
  replace (Z.to_nat (offset + 1)) with (length (take (Z.to_nat offset) bytes) + 1)%nat by lia.
  rewrite take_app_add. rewrite <-Nat.add_assoc, drop_app_add.
  cbn [take]. rewrite take_0, <-app_assoc. cbn [app]. do 3 f_equal. cbn [drop Nat.add].
  rewrite drop_drop. f_equal. lia.
Qed.
Lemma splice_nil bytes offset : 0 ≤ offset → offset ≤ len bytes → splice bytes offset [] = bytes.
Proof. intros. unfold splice. cbn. by rewrite Nat.add_0_r, take_drop. Qed.

Lemma set_byte_spec bytes offset v :
  0 ≤ offset < len bytes → set_byte bytes offset v = Ret (splice bytes offset [byte_of_Z v]).
Proof.
  intros. unfold set_byte. destruct (vget_is_Some bytes offset) as [b ->]; [done|].
  by rewrite vset_splice.
Qed.

Lemma byte_of_Z_low v : byte_of_Z (Z.land v 255) = byte_of_Z v.
Proof.
  unfold byte_of_Z. do 3 f_equal. unfold wrap. change 255 with (Z.ones 8).
  rewrite Z.land_ones by done. by rewrite Z.mod_mod by done.
Qed.

Lemma write_loop_spec bytes offset n v :
  0 ≤ offset → offset + Z.of_nat n ≤ len bytes →
  write_loop bytes offset n v = Ret (splice bytes offset (be_bytes n v)).
Proof.
  revert bytes offset. induction n as [|n IH]; intros bytes offset H0 Hl.
  { cbn. by rewrite splice_nil by lia. }
  cbn [write_loop be_bytes]. rewrite set_byte_spec by lia. cbn [mbind outcome_bind].
  rewrite byte_of_Z_low, IH by (rewrite ?length_splice; cbn [length]; lia).
  rewrite splice_cons by (rewrite ?length_be_bytes; lia).
  by rewrite (Z.mul_comm (Z.of_nat n)).
Qed.

(** Writes in bounds replace the bytes, and throw out of bounds. *)
Definition writes (bytes : list byte) (offset : Z) (new : list byte) : outcome (list byte) :=
  if decide (offset + len new ≤ len bytes) then Ret (splice bytes offset new)
  else Throw (DecodeError "short output buffer").

Lemma write_u64_be_spec bytes offset v :
  0 ≤ offset → write_u64_be bytes offset v = writes bytes offset (be_bytes 8 v).
Proof.
  intros. unfold write_u64_be, writes. rewrite length_be_bytes. case_decide.
  - rewrite (proj2 (Z.ltb_ge _ _)), (proj2 (Z.ltb_ge _ _)) by lia. cbn [orb]. apply write_loop_spec; lia.
  - destruct (Z.ltb_spec (len bytes) offset); [done|]. by rewrite (proj2 (Z.ltb_lt _ _)) by lia.
Qed.
Lemma write_u16_be_spec bytes offset v :
  0 ≤ offset → write_u16_be bytes offset v = writes bytes offset (be_bytes 2 v).
Proof.
  intros. unfold write_u16_be, writes. rewrite length_be_bytes. case_decide.
  - rewrite (proj2 (Z.ltb_ge _ _)), (proj2 (Z.ltb_ge _ _)) by lia. cbn [orb].
    rewrite set_byte_spec by lia. cbn [mbind outcome_bind].
    rewrite set_byte_spec by (rewrite length_splice; cbn [length]; lia).
    rewrite splice_cons by (cbn [length]; lia). by rewrite !byte_of_Z_low.
  - destruct (Z.ltb_spec (len bytes) offset); [done|]. by rewrite (proj2 (Z.ltb_lt _ _)) by lia.
Qed.

Lemma put_u64_spec b off v :
  0 ≤ off → off + 8 ≤ len b → Put.put_u64 b off v = Ret (splice b off (be_bytes 8 v)).
Proof. intros. by apply write_loop_spec. Qed.
Lemma put_u48_spec b off v :
  0 ≤ off → off + 6 ≤ len b → Put.put_u48 b off v = Ret (splice b off (be_bytes 6 v)).
Proof. intros. by apply write_loop_spec. Qed.
Lemma put_u16_spec b off v :
  0 ≤ off → off + 2 ≤ len b → Put.put_u16 b off v = Ret (splice b off (be_bytes 2 v)).
Proof.
  intros. unfold Put.put_u16. rewrite set_byte_spec by lia. cbn [mbind outcome_bind].
  rewrite set_byte_spec by splice_len.
  by rewrite splice_cons by (cbn [length]; lia).
Qed.
Lemma put_u32_spec b off v :
  0 ≤ off → off + 4 ≤ len b → Put.put_u32 b off v = Ret (splice b off (be_bytes 4 v)).
Proof.
  intros. unfold Put.put_u32.
  do 4 (rewrite set_byte_spec by splice_len; cbn [mbind outcome_bind]).
  replace (off + 3) with (off + 2 + 1) by lia. rewrite splice_cons by splice_len.
  replace (off + 2) with (off + 1 + 1) by lia. rewrite splice_cons by splice_len.
  by rewrite splice_cons by (cbn [length]; lia).
Qed.

(** Text is cut or space padded to the width. *)
Definition padded (n : nat) (s : list byte) : list byte := take n s ++ replicate (n - length s) Byte.x20.
Lemma length_padded n s : length (padded n s) = n.
Proof. unfold padded. autorewrite with lens. lia. Qed.
#[export] Hint Rewrite length_padded : lens.

Lemma put_ascii_spec b off n s :
  0 ≤ off → off + Z.of_nat n ≤ len b →
  Put.put_ascii b off n s = Ret (splice b off (padded n s)).
Proof.
  revert b off s. induction n as [|n IH]; intros b off s H0 Hl.
  { unfold padded. cbn. by rewrite splice_nil by lia. }
  cbn [Put.put_ascii]. destruct (vget_is_Some b off ltac:(lia)) as [x ->].
  rewrite vset_splice, IH by splice_len.
  rewrite splice_cons by (rewrite ?length_padded; lia). do 2 f_equal.
  destruct s as [|c s]; unfold padded; cbn; [by destruct n|done].
Qed.

(** What was spliced in reads back. *)
Lemma slice_splice bytes offset new :
  0 ≤ offset → offset + len new ≤ len bytes → slice (splice bytes offset new) offset (len new) = new.
Proof.
  intros. unfold slice, splice. rewrite Nat2Z.id.
  rewrite drop_app_length' by (rewrite length_take; lia). by rewrite take_app_length.
Qed.
(** ... and does not disturb what lies beside it. *)
Lemma slice_splice_before bytes offset new o w :
  0 ≤ o → 0 ≤ w → o + w ≤ offset → offset + len new ≤ len bytes →
  slice (splice bytes offset new) o w = slice bytes o w.
Proof.
  intros. unfold slice, splice.
  rewrite drop_app_le by (rewrite length_take; lia).
  rewrite take_app_le by (rewrite length_drop, length_take; lia).
  by rewrite skipn_firstn_comm, take_take, Nat.min_l by lia.
Qed.
Lemma slice_splice_after bytes offset new o w :
  0 ≤ offset → 0 ≤ w → offset + len new ≤ o → offset + len new ≤ len bytes →
  slice (splice bytes offset new) o w = slice bytes o w.
Proof.
  intros. unfold slice, splice. f_equal. rewrite app_assoc.
  rewrite drop_app_ge by (rewrite length_app, length_take; lia).
  rewrite length_app, length_take, drop_drop. f_equal. lia.
Qed.

(** A buffer splits at any read. *)
Lemma drop_slice bytes offset width :
  0 ≤ offset → 0 ≤ width →
  drop (Z.to_nat offset) bytes = slice bytes offset width ++ drop (Z.to_nat (offset + width)) bytes.
Proof.
  intros. unfold slice. rewrite <-(take_drop (Z.to_nat width) (drop (Z.to_nat offset) bytes)) at 1.
  by rewrite drop_drop, Z2Nat.inj_add.
Qed.
Lemma slice_drop bytes offset (new rest : list byte) :
  drop (Z.to_nat offset) bytes = new ++ rest → slice bytes offset (len new) = new.
Proof. unfold slice. intros ->. by rewrite Nat2Z.id, take_app_length. Qed.
Lemma len_drop (bytes : list byte) offset new rest :
  0 ≤ offset ≤ len bytes → drop (Z.to_nat offset) bytes = new ++ rest →
  len bytes = offset + len new + len rest.
Proof. intros ? Hd%(f_equal length). rewrite length_drop, length_app in Hd. lia. Qed.

Lemma reads_be bytes offset n v (rest : list byte) :
  0 ≤ offset ≤ len bytes → drop (Z.to_nat offset) bytes = be_bytes n v ++ rest →
  0 ≤ v < 256 ^ Z.of_nat n → reads bytes offset (Z.of_nat n) = Ret v.
Proof.
  intros Ho Hd Hv. pose proof (len_drop _ _ _ _ Ho Hd) as Hl. rewrite length_be_bytes in Hl.
  unfold reads. rewrite decide_True by lia. f_equal.
  pose proof (slice_drop _ _ _ _ Hd) as Hs. rewrite length_be_bytes in Hs.
  by rewrite Hs, be_value_bytes, Z.mod_small.
Qed.
Lemma reads_Ret bytes offset n v :
  0 ≤ offset → reads bytes offset (Z.of_nat n) = Ret v →
  offset + Z.of_nat n ≤ len bytes ∧ 0 ≤ v < 256 ^ Z.of_nat n ∧
  slice bytes offset (Z.of_nat n) = be_bytes n v.
Proof.
  unfold reads. intros Ho Hr. case_decide; [|done]. injection Hr as <-.
  assert (Hl : len (slice bytes offset (Z.of_nat n)) = Z.of_nat n) by (apply length_slice; lia).
  pose proof (be_value_bound (slice bytes offset (Z.of_nat n))) as Hb. rewrite Hl in Hb.
  split_and!; [lia|lia|lia|]. rewrite <-(be_bytes_value (slice _ _ _)) at 1. f_equal. lia.
Qed.

(** Failure of the reader is always a [DecodeError]: no access is out of range. *)
Definition decodes {A} (o : outcome A) : Prop :=
  match o with Ret _ | Throw (DecodeError _) => True | _ => False end.
Lemma decodes_bind {A B} (o : outcome A) (k : A → outcome B) :
  decodes o → (∀ a, o = Ret a → decodes (k a)) → decodes (o ≫= k).
Proof. destruct o as [a|e|?|]; cbn; auto. Qed.
Lemma decodes_reads bytes offset width : decodes (reads bytes offset width).
Proof. unfold reads. by case_decide. Qed.
Lemma decodes_require bytes offset width : decodes (require_bytes bytes offset width).
Proof. unfold require_bytes. by destruct (_ || _). Qed.

Lemma splice_app bytes offset a b :
  0 ≤ offset → offset + len a + len b ≤ len bytes →
  splice (splice bytes offset a) (offset + len a) b = splice bytes offset (a ++ b).
Proof.
  revert bytes offset. induction a as [|x a IH]; intros bytes offset H0 Hl.
  - rewrite Z.add_0_r, splice_nil by (cbn [length] in Hl; lia). done.
  - cbn [length] in *. rewrite <-(splice_cons bytes offset x a) by lia.
    replace (offset + Z.of_nat (S (length a))) with (offset + 1 + len a) by lia.
    rewrite IH by splice_len. cbn [app]. apply splice_cons; rewrite ?length_app; lia.
Qed.
Lemma splice_all bytes a : len a = len bytes → splice bytes 0 a = a.
Proof. intros. unfold splice. cbn. rewrite drop_ge by lia. apply app_nil_r. Qed.
