(* ===== verification/MoldUdp64.v ===== *)
(** MoldUDP64 packets: [include/efe/moldudp64.hpp], [src/moldudp64.cpp] and [mold_packet] of
    [src/main.cpp].  The parser is shown to be exactly the inverse of the wire format
    [packet_bytes], the encoders to produce it. *)
From S2P Require Import Prelude ByteReader.
From Stdlib Require Import Strings.Byte.
Import ByteReader.

Module MoldUdp64.

(** [std::array<char, 10>] *)
Abbreviation Session := (list byte).

Record MoldMessage : Type := mkMessage { sequence : Z; payload : list byte }.
Record MoldDownstreamPacket : Type := mkPacket {
  session : Session;
  first_sequence : Z;
  message_count : Z;
  heartbeat : bool;
  end_of_session : bool;
  messages : list MoldMessage }.
Record MoldRequest : Type := mkRequest {
  req_session : Session;
  req_first_sequence : Z;
  req_message_count : Z }.

#[export] Instance message_eq_dec : EqDecision MoldMessage.
Proof. solve_decision. Defined.
#[export] Instance packet_eq_dec : EqDecision MoldDownstreamPacket.
Proof. solve_decision. Defined.

(** The loop [while (n && (session[n - 1] == ' ' || session[n - 1] == '\0')) --n]. *)
Fixpoint session_len (s : Session) (n : nat) : nat :=
  match n with
  | O => O
  | S n' =>
      if decide (s !! n' = Some Byte.x20 ∨ s !! n' = Some Byte.x00) then session_len s n' else n
  end.
Definition session_string (s : Session) : list byte := take (session_len s (length s)) s.

Definition session_from_string (value : list byte) : Session :=
  let n := Nat.min (length value) 10 in
  take n value ++ drop n (replicate 10 Byte.x20).

(** The message loop: [left] messages to go, the [i]-th at [offset]. *)
Fixpoint parse_messages (d : list byte) (first : Z) (left_ : nat) (i offset : Z)
    : outcome (list MoldMessage * Z) :=
  match left_ with
  | O => Ret ([], offset)
  | S left_ =>
      require_bytes d offset 2;;
      size ← read_u16_be d offset;
      let offset := offset + 2 in
      require_bytes d offset size;;
      payload ← copy_range d offset size;
      let message := mkMessage (u64 (first + i)) payload in
      '(ms, offset) ← parse_messages d first left_ (i + 1) (offset + size);
      Ret (message :: ms, offset)
  end.

Definition parse_downstream (d : list byte) : outcome MoldDownstreamPacket :=
  require_bytes d 0 20;;
  session ← copy_range d 0 10;
  first ← read_u64_be d 10;
  count ← read_u16_be d 18;
  if decide (count = 0) then
    if decide (len d ≠ 20) then Throw (DecodeError "MoldUDP64 heartbeat has trailing bytes")
    else Ret (mkPacket session first count true false [])
  else if decide (count = 65535) then
    if decide (len d ≠ 20) then Throw (DecodeError "MoldUDP64 end-of-session has trailing bytes")
    else Ret (mkPacket session first count false true [])
  else if u64_max - (count - 1) <? first then
    Throw (DecodeError "MoldUDP64 sequence range overflows")
  else
    '(ms, offset) ← parse_messages d first (Z.to_nat count) 0 20;
    if decide (offset ≠ len d)
    then Throw (DecodeError "MoldUDP64 packet has trailing bytes or bad message count")
    else Ret (mkPacket session first count false false ms).

Definition encode_request (r : MoldRequest) : outcome (list byte) :=
  if decide (req_message_count r = 0 ∨ req_message_count r = 65535)
  then Throw (DecodeError "invalid MoldUDP64 rerequest count")
  else
    let out := splice (replicate 20 Byte.x00) 0 (req_session r) in
    out ← write_u64_be out 10 (req_first_sequence r);
    write_u16_be out 18 (req_message_count r).

(** [memcpy] into a vector. *)
Definition blit (d : list byte) (off : Z) (src : list byte) : outcome (list byte) :=
  if decide (off + len src ≤ len d) then Ret (splice d off src)
  else Undef "memcpy past the end of the vector".

Fixpoint put_messages (d : list byte) (off : Z) (ms : list (list byte)) : outcome (list byte) :=
  match ms with
  | [] => Ret d
  | m :: ms =>
      d ← Put.put_u16 d off (u16 (len m));
      d ← blit d (off + 2) m;
      put_messages d (off + 2 + len m) ms
  end.

(** [mold_packet] of [main.cpp]. *)
Definition mold_packet (session : list byte) (first : Z) (ms : list (list byte))
    : outcome (list byte) :=
  let size := foldl (λ size m, size + (2 + len m)) 20 ms in
  let d := replicate (Z.to_nat size) Byte.x00 in
  d ← Put.put_ascii d 0 10 session;
  d ← Put.put_u64 d 10 first;
  d ← Put.put_u16 d 18 (u16 (len ms));
  put_messages d 20 ms.
End MoldUdp64.

Import MoldUdp64.

(** * The wire format *)

Definition frame (p : list byte) : list byte := be_bytes 2 (len p) ++ p.
Definition frames (ps : list (list byte)) : list byte := concat (frame <$> ps).
Definition header_bytes (s : Session) (first count : Z) : list byte :=
  s ++ be_bytes 8 first ++ be_bytes 2 count.
Definition packet_bytes (p : MoldDownstreamPacket) : list byte :=
  header_bytes (session p) (first_sequence p) (message_count p) ++ frames (payload <$> messages p).

(** Consecutive sequence numbers. *)
Fixpoint numbered (first : Z) (ps : list (list byte)) : list MoldMessage :=
  match ps with
  | [] => []
  | p :: ps => mkMessage first p :: numbered (first + 1) ps
  end.

(** The packets the format can carry. *)
Record packet_ok (p : MoldDownstreamPacket) : Prop := {
  packet_session : length (session p) = 10%nat;
  packet_first : 0 ≤ first_sequence p ≤ u64_max;
  packet_kind :
    (message_count p = 0 ∧ heartbeat p = true ∧ end_of_session p = false ∧ messages p = []) ∨
    (message_count p = 65535 ∧ heartbeat p = false ∧ end_of_session p = true ∧ messages p = []) ∨
    (0 < message_count p < 65535 ∧ heartbeat p = false ∧ end_of_session p = false ∧
     first_sequence p + (message_count p - 1) ≤ u64_max ∧
     messages p = numbered (first_sequence p) (payload <$> messages p) ∧
     len (messages p) = message_count p ∧
     Forall (λ m, len (payload m) ≤ 65535) (messages p))
}.

Lemma length_numbered first ps : length (numbered first ps) = length ps.
Proof. revert first. induction ps; intros; cbn; auto. Qed.
Lemma numbered_payloads first ps : payload <$> numbered first ps = ps.
Proof. revert first. induction ps as [|p ps IH]; intros first; cbn; [done|]. f_equal. apply IH. Qed.
Lemma length_header s first count : length s = 10%nat → len (header_bytes s first count) = 20.
Proof. intros Hs. unfold header_bytes. autorewrite with lens. lia. Qed.
Lemma frames_cons p ps : frames (p :: ps) = be_bytes 2 (len p) ++ p ++ frames ps.
Proof. unfold frames, frame. rewrite fmap_cons. cbn [concat]. by rewrite <-app_assoc. Qed.
Lemma len_frames_cons p ps : len (frames (p :: ps)) = 2 + len p + len (frames ps).
Proof. rewrite frames_cons. autorewrite with lens. lia. Qed.

(** ** The message loop *)

Lemma parse_messages_sound d first n i offset ms off' :
  0 ≤ offset ≤ len d → 0 ≤ first → 0 ≤ i → first + i + Z.of_nat n ≤ u64_max + 1 →
  parse_messages d first n i offset = Ret (ms, off') →
  ∃ ps, length ps = n ∧ ms = numbered (first + i) ps ∧ Forall (λ p, len p ≤ 65535) ps ∧
    drop (Z.to_nat offset) d = frames ps ++ drop (Z.to_nat off') d ∧
    off' = offset + len (frames ps) ∧ off' ≤ len d.
Proof.
  revert i offset ms off'. induction n as [|n IH]; intros i offset ms off' Ho Hf Hi Hb.
  { cbn. intros [= <- <-]. exists []. split_and!; try done; cbn; lia. }
  cbn [parse_messages]. rewrite require_bytes_spec by lia. case_decide as H2; [|done]. cbn [mbind outcome_bind].
  rewrite read_u16_be_spec by lia. destruct (reads d offset 2) as [size|?|?|] eqn:Hr; try done.
  apply (reads_Ret d offset 2) in Hr as (_ & Hsize & Hs2); [|lia]. cbn [mbind outcome_bind].
  rewrite require_bytes_spec by lia. case_decide as Hl; [|done].
  cbn [mbind outcome_bind]. rewrite copy_range_in by lia. cbn [mbind outcome_bind].
  destruct (parse_messages d first n (i + 1) _) as [[ms1 off1]|?|?|] eqn:Hrest; try done.
  cbn [mbind outcome_bind]. intros [= <- <-].
  apply IH in Hrest as (ps & <- & -> & Hps & Hd & -> & Hle); [|lia..].
  set (p := slice d (offset + 2) size) in *.
  assert (Hlp : len p = size) by (apply length_slice; lia).
  exists (p :: ps). split_and!; cbn [length]; try done.
  - cbn. rewrite u64_small by lia. f_equal. f_equal. lia.
  - constructor; [|done]. change (256 ^ Z.of_nat 2) with 65536 in Hsize. lia.
  - rewrite (drop_slice d offset 2), (drop_slice d (offset + 2) size) by lia.
    fold p. rewrite Hd. change 2 with (Z.of_nat 2). rewrite Hs2, frames_cons, Hlp. by rewrite <-!app_assoc.
  - rewrite len_frames_cons. lia.
Qed.

Lemma parse_messages_complete d first ps i offset rest :
  0 ≤ offset ≤ len d → 0 ≤ first → 0 ≤ i → first + i + len ps ≤ u64_max + 1 →
  Forall (λ p, len p ≤ 65535) ps → drop (Z.to_nat offset) d = frames ps ++ rest →
  parse_messages d first (length ps) i offset = Ret (numbered (first + i) ps, offset + len (frames ps)).
Proof.
  revert i offset. induction ps as [|p ps IH]; intros i offset Ho Hf Hi Hb Hps Hd.
  { cbn. by rewrite Z.add_0_r. }
  apply Forall_cons in Hps as [Hp Hps]. rewrite frames_cons, <-!app_assoc in Hd.
  pose proof (len_drop _ _ _ _ Ho Hd) as Hl. rewrite length_be_bytes, !length_app in Hl.
  cbn [length] in Hb. cbn [parse_messages length]. rewrite require_bytes_spec, decide_True by lia. cbn [mbind outcome_bind].
  rewrite read_u16_be_spec by lia.
  assert (reads d offset 2 = Ret (len p)) as ->.
  { apply (reads_be d offset 2 (len p) (p ++ frames ps ++ rest)); [done|done|].
    change (256 ^ Z.of_nat 2) with 65536. lia. }
  cbn [mbind outcome_bind].
  rewrite require_bytes_spec, decide_True by lia. cbn [mbind outcome_bind].
  rewrite copy_range_in by lia. cbn [mbind outcome_bind].
  assert (Hd2 : drop (Z.to_nat (offset + 2)) d = p ++ frames ps ++ rest).
  { rewrite Z2Nat.inj_add, <-drop_drop, Hd by lia. done. }
  assert (Hd3 : drop (Z.to_nat (offset + 2 + len p)) d = frames ps ++ rest).
  { rewrite Z2Nat.inj_add, <-drop_drop, Hd2, Nat2Z.id by lia. apply drop_app_length. }
  rewrite IH by (done || lia). cbn [mbind outcome_bind].
  rewrite (slice_drop _ _ _ _ Hd2), u64_small by lia. rewrite len_frames_cons. cbn [numbered].
  f_equal. f_equal; [|lia]. f_equal. f_equal. lia.
Qed.

Lemma parse_messages_decodes d first n i offset :
  0 ≤ offset → decodes (parse_messages d first n i offset).
Proof.
  revert i offset. induction n as [|n IH]; intros i offset Ho; [done|].
  cbn [parse_messages]. apply decodes_bind; [apply decodes_require|]. intros [] _.
  rewrite read_u16_be_spec by lia. apply decodes_bind; [apply decodes_reads|]. intros size Hr.
  apply (reads_Ret d offset 2) in Hr as (_ & ? & _); [|lia].
  rewrite require_bytes_spec by lia. case_decide as Hl; [|done]. cbn [mbind outcome_bind].
  rewrite copy_range_in by lia. cbn [mbind outcome_bind].
  apply decodes_bind; [apply IH; lia|]. by intros [] _.
Qed.

(** ** Whole packets *)

(** The header of a datagram of at least 20 bytes. *)
Lemma header_reads d :
  20 ≤ len d →
  ∃ first count, reads d 10 8 = Ret first ∧ reads d 18 2 = Ret count ∧
    0 ≤ first ≤ u64_max ∧ 0 ≤ count ≤ 65535 ∧ length (slice d 0 10) = 10%nat ∧
    d = header_bytes (slice d 0 10) first count ++ drop 20 d.
Proof.
  intros Hl. destruct (reads d 10 8) as [first|?|?|] eqn:H8; try by (unfold reads in H8; case_decide; [|lia]).
  destruct (reads d 18 2) as [count|?|?|] eqn:H2; try by (unfold reads in H2; case_decide; [|lia]).
  exists first, count. split; [done|]. split; [done|].
  apply (reads_Ret d 10 8) in H8 as (_ & ? & Hs8); [|lia].
  apply (reads_Ret d 18 2) in H2 as (_ & ? & Hs2); [|lia].
  change (256 ^ Z.of_nat 8) with (u64_max + 1) in *. change (256 ^ Z.of_nat 2) with 65536 in *.
  pose proof (length_slice d 0 10 ltac:(lia) ltac:(lia) ltac:(lia)).
  split_and!; try lia. unfold header_bytes. rewrite <-Hs8, <-Hs2, <-!app_assoc.
  pose proof (drop_slice d 0 10 ltac:(lia) ltac:(lia)) as Hsplit.
  rewrite (drop_slice d (0 + 10) 8), (drop_slice d (0 + 10 + 8) 2) in Hsplit by lia. exact Hsplit.
Qed.

Lemma parse_sound d p : parse_downstream d = Ret p → packet_ok p ∧ d = packet_bytes p.
Proof.
  unfold parse_downstream. rewrite require_bytes_spec by lia. destruct (decide (0 + 20 ≤ len d)) as [Hl|]; [|done].
  cbn [mbind outcome_bind]. rewrite copy_range_in by lia. cbn [mbind outcome_bind]. rewrite read_u64_be_spec, read_u16_be_spec by lia.
  destruct (header_reads d ltac:(lia)) as (first & count & -> & -> & Hf & Hc & Hs & Hd).
  cbn [mbind outcome_bind].
  assert (Hshort : len d = 20 → drop 20 d = []) by (intros; apply drop_ge; lia).
  case_decide as H0; [|case_decide as H65535].
  - case_decide as H20; [done|]. intros [= <-]. split.
    + split; cbn; [done|done|]. by left.
    + unfold packet_bytes. cbn. rewrite Hd at 1. f_equal. apply Hshort. lia.
  - case_decide as H20; [done|]. intros [= <-]. split.
    + split; cbn; [done|done|]. right. by left.
    + unfold packet_bytes. cbn. rewrite Hd at 1. f_equal. apply Hshort. lia.
  - destruct (Z.ltb_spec (u64_max - (count - 1)) first); [done|].
    destruct (parse_messages d first (Z.to_nat count) 0 20) as [[ms off]|?|?|] eqn:Hp; try done.
    cbn [mbind outcome_bind]. case_decide as Hoff; [done|]. intros [= <-].
    apply parse_messages_sound in Hp as (ps & Hlen & -> & Hps & Hdrop & -> & Hle); [|lia..].
    rewrite (drop_ge d (Z.to_nat (20 + _))), app_nil_r in Hdrop by lia.
    rewrite Z.add_0_r. split.
    + split; cbn [session first_sequence message_count heartbeat end_of_session messages]; [done|done|].
      right. right. rewrite numbered_payloads, length_numbered. split_and!; try done; try lia.
      change (Forall ((λ p, len p ≤ 65535) ∘ payload) (numbered first ps)).
      rewrite <-Forall_fmap. by rewrite numbered_payloads.
    + unfold packet_bytes. cbn [session first_sequence message_count messages].
      rewrite numbered_payloads. rewrite Hd at 1. by f_equal.
Qed.

Lemma parse_complete p : packet_ok p → parse_downstream (packet_bytes p) = Ret p.
Proof.
  intros [Hs Hf Hkind]. set (d := packet_bytes p).
  assert (Hlen : len d = 20 + len (frames (payload <$> messages p))).
  { unfold d, packet_bytes. rewrite length_app, Nat2Z.inj_add, length_header; done. }
  assert (Hcount : 0 ≤ message_count p < 65536) by lia.
  assert (Hd0 : drop (Z.to_nat 0) d = session p ++ be_bytes 8 (first_sequence p) ++
    be_bytes 2 (message_count p) ++ frames (payload <$> messages p)).
  { unfold d, packet_bytes, header_bytes. cbn [drop Z.to_nat]. by rewrite <-!app_assoc. }
  assert (Hd10 : drop (Z.to_nat 10) d = be_bytes 8 (first_sequence p) ++
    be_bytes 2 (message_count p) ++ frames (payload <$> messages p)).
  { rewrite drop_0 in Hd0. rewrite Hd0. by apply drop_app_length'. }
  assert (Hd18 : drop (Z.to_nat 18) d = be_bytes 2 (message_count p) ++ frames (payload <$> messages p)).
  { change (Z.to_nat 18) with (Z.to_nat 10 + 8)%nat. rewrite <-drop_drop, Hd10. by apply drop_app_length'. }
  assert (Hd20 : drop (Z.to_nat 20) d = frames (payload <$> messages p)).
  { change (Z.to_nat 20) with (Z.to_nat 18 + 2)%nat. rewrite <-drop_drop, Hd18. by apply drop_app_length'. }
  unfold parse_downstream. rewrite require_bytes_spec, decide_True by lia. cbn [mbind outcome_bind].
  rewrite copy_range_in by lia. cbn [mbind outcome_bind]. rewrite read_u64_be_spec, read_u16_be_spec by lia.
  assert (reads d 10 8 = Ret (first_sequence p)) as ->.
  { eapply (reads_be d 10 8); [lia|done|]. change (256 ^ Z.of_nat 8) with (u64_max + 1). lia. }
  cbn [mbind outcome_bind].
  assert (reads d 18 2 = Ret (message_count p)) as -> by (eapply (reads_be d 18 2); [lia|done|done]).
  cbn [mbind outcome_bind].
  assert (slice d 0 10 = session p) as ->.
  { pose proof (slice_drop _ _ _ _ Hd0) as Hsl. by rewrite Hs in Hsl. }
  destruct p as [s first count hb eos ms].
  cbn [session first_sequence message_count heartbeat end_of_session messages] in *. clearbody d.
  destruct Hkind as [(-> & -> & -> & ->)|[(-> & -> & -> & ->)|(Hc & -> & -> & Hseq & Hnum & Hcnt & Hms)]].
  - cbn in Hlen. rewrite (decide_True (P:=0 = 0)), (decide_False (P:=len d ≠ 20)) by lia. done.
  - cbn in Hlen.
    rewrite (decide_False (P:=65535 = 0)), (decide_True (P:=65535 = 65535)),
      (decide_False (P:=len d ≠ 20)) by lia. done.
  - rewrite !decide_False by lia. rewrite (proj2 (Z.ltb_ge _ _)) by lia.
    assert (Z.to_nat count = length (payload <$> ms)) as -> by (rewrite length_fmap; lia).
    rewrite (parse_messages_complete d first (payload <$> ms) 0 20 []); cbn [mbind outcome_bind].
    + rewrite decide_False by lia. by rewrite Z.add_0_r, <-Hnum.
    + lia.
    + lia.
    + lia.
    + rewrite length_fmap. lia.
    + by apply Forall_fmap.
    + by rewrite app_nil_r.
Qed.

(** C6: the packet parser accepts exactly the wire encodings and returns what was encoded:
    [parse_downstream d = p] precisely when [p] is a well-formed packet (heartbeat, end of
    session, or 1 to 65534 consecutive messages whose sequence numbers fit 64 bits) and [d] is
    its encoding, to the last byte. *)
Theorem parse_is_inverse_of_encoding d p :
  parse_downstream d = Ret p ↔ packet_ok p ∧ d = packet_bytes p.
Proof. split; [apply parse_sound|]. intros [Hp ->]. by apply parse_complete. Qed.

Lemma parse_decodes d : decodes (parse_downstream d).
Proof.
  unfold parse_downstream. rewrite require_bytes_spec by lia. destruct (decide (0 + 20 ≤ len d)) as [Hl|]; [|done].
  cbn [mbind outcome_bind]. rewrite copy_range_in by lia. cbn [mbind outcome_bind].
  rewrite read_u64_be_spec, read_u16_be_spec by lia. apply decodes_bind; [apply decodes_reads|].
  intros first _. apply decodes_bind; [apply decodes_reads|]. intros count _.
  repeat case_decide; try done. destruct (_ <? _); [done|].
  apply decodes_bind; [by apply parse_messages_decodes|]. intros [ms off] _. by case_decide.
Qed.

(** C28: whatever the datagram, the parser returns a packet or throws [DecodeError]: no byte
    outside the datagram is read, the message loop ends, and sequence numbers never wrap. *)
Theorem parse_is_safe d :
  match parse_downstream d with
  | Ret p => Forall (λ m, first_sequence p ≤ sequence m ≤ u64_max) (messages p)
  | Throw (DecodeError _) => True
  | _ => False
  end.
Proof.
  pose proof (parse_decodes d) as Hdec.
  destruct (parse_downstream d) as [p|[]|?|] eqn:Hp; try done.
  apply parse_sound in Hp as [[_ Hf Hkind] _].
  destruct Hkind as [(_ & _ & _ & ->)|[(_ & _ & _ & ->)|(_ & _ & _ & Hseq & Hnum & Hcnt & _)]]; [done|done|].
  assert (Hgen : ∀ ps i, 0 ≤ i → first_sequence p + i + (len ps - 1) ≤ u64_max →
    Forall (λ m, first_sequence p ≤ sequence m ≤ u64_max) (numbered (first_sequence p + i) ps)).
  { induction ps as [|x ps IH]; intros i Hi Hps; cbn [numbered]; [done|]. cbn [length] in Hps.
    constructor; [cbn; lia|]. rewrite <-Z.add_assoc. apply IH; lia. }
  rewrite Hnum. pose proof (Hgen (payload <$> messages p) 0) as Hall. rewrite Z.add_0_r in Hall.
  apply Hall; [done|]. rewrite length_fmap. lia.
Qed.

(** ** Encoders *)

Lemma put_messages_spec d off ms :
  0 ≤ off → off + len (frames ms) ≤ len d → Forall (λ m, len m ≤ 65535) ms →
  put_messages d off ms = Ret (splice d off (frames ms)).
Proof.
  revert d off. induction ms as [|m ms IH]; intros d off Ho Hl Hms.
  { cbn [put_messages]. unfold frames. cbn. by rewrite splice_nil by (unfold frames in Hl; cbn in Hl; lia). }
  apply Forall_cons in Hms as [Hm Hms]. rewrite len_frames_cons in Hl. cbn [put_messages].
  unfold u16. rewrite wrap_small by lia. rewrite put_u16_spec by lia. cbn [mbind outcome_bind].
  unfold blit. rewrite decide_True by (rewrite length_splice; rewrite ?length_be_bytes; lia).
  cbn [mbind outcome_bind]. rewrite IH; [|lia| |done].
  2: { rewrite !length_splice; rewrite ?length_splice, ?length_be_bytes; rewrite ?length_be_bytes; lia. }
  f_equal. rewrite frames_cons.
  assert (H2 : len (be_bytes 2 (len m)) = 2) by (by rewrite length_be_bytes).
  rewrite <-(splice_app d off (be_bytes 2 (len m))), H2 by (rewrite ?H2, ?length_app; lia).
  rewrite <-(splice_app _ (off + 2) m); [done|lia|]. rewrite length_splice; lia.
Qed.

Lemma mold_packet_spec s first ms :
  Forall (λ m, len m ≤ 65535) ms →
  mold_packet s first ms = Ret (header_bytes (padded 10 s) first (u16 (len ms)) ++ frames ms).
Proof.
  intros Hms. unfold mold_packet.
  assert (Hsize : ∀ n, foldl (λ size m, size + (2 + len m)) n ms = n + len (frames ms)).
  { clear Hms. induction ms as [|m ms IH]; intros n; [by cbn; rewrite Z.add_0_r|].
    cbn [foldl]. rewrite IH, len_frames_cons. lia. }
  rewrite Hsize. set (d := replicate _ _).
  assert (Hd : len d = 20 + len (frames ms)) by (unfold d; rewrite length_replicate; lia).
  assert (H10 : len (padded 10 s) = 10) by (by rewrite length_padded).
  assert (H8 : len (be_bytes 8 first) = 8) by (by rewrite length_be_bytes).
  assert (H2 : len (be_bytes 2 (u16 (len ms))) = 2) by (by rewrite length_be_bytes).
  rewrite put_ascii_spec by lia. cbn [mbind outcome_bind].
  rewrite put_u64_spec by (rewrite ?length_splice; lia). cbn [mbind outcome_bind].
  pose proof (splice_app d 0 (padded 10 s) (be_bytes 8 first) ltac:(lia) ltac:(lia)) as Ha.
  rewrite H10 in Ha. change (0 + 10) with 10 in Ha. rewrite Ha.
  assert (H18 : len (padded 10 s ++ be_bytes 8 first) = 18) by (rewrite length_app; lia).
  rewrite put_u16_spec by (rewrite ?length_splice; lia). cbn [mbind outcome_bind].
  pose proof (splice_app d 0 (padded 10 s ++ be_bytes 8 first) (be_bytes 2 (u16 (len ms)))
    ltac:(lia) ltac:(lia)) as Hb.
  rewrite H18 in Hb. change (0 + 18) with 18 in Hb. rewrite Hb.
  rewrite put_messages_spec; [|lia| |done].
  2: { rewrite length_splice; rewrite ?length_app; lia. }
  pose proof (splice_app d 0 ((padded 10 s ++ be_bytes 8 first) ++ be_bytes 2 (u16 (len ms)))
    (frames ms) ltac:(lia) ltac:(rewrite length_app; lia)) as Hc.
  rewrite (length_app _ (be_bytes 2 _)), Nat2Z.inj_add, H18, H2 in Hc. change (0 + (18 + 2)) with 20 in Hc.
  rewrite Hc. rewrite splice_all; [|rewrite !length_app; rewrite length_app in H18; lia].
  unfold header_bytes. by rewrite <-!app_assoc.
Qed.

(** A packet built by [mold_packet] from 1 to 65534 payloads of at most 65535 bytes is
    built without any access out of range, and the parser returns the session (cut or space
    padded to ten characters) and the payloads, numbered consecutively from [first]. *)
Theorem mold_packet_parses_back s first ms :
  0 ≤ first → 0 < len ms < 65535 → first + (len ms - 1) ≤ u64_max →
  Forall (λ m, len m ≤ 65535) ms →
  ∃ d, mold_packet s first ms = Ret d ∧
    parse_downstream d = Ret (mkPacket (padded 10 s) first (len ms) false false (numbered first ms)).
Proof.
  intros Hf Hc Hlast Hms. eexists. split; [by apply mold_packet_spec|].
  unfold u16. rewrite wrap_small by lia.
  set (p := mkPacket _ _ _ _ _ _).
  assert (Hp : packet_ok p).
  { split; cbn [p session first_sequence message_count heartbeat end_of_session messages].
    - apply length_padded.
    - lia.
    - right. right. rewrite numbered_payloads, length_numbered. split_and!; try done; try lia.
      change (Forall ((λ m, len m ≤ 65535) ∘ payload) (numbered first ms)).
      rewrite <-Forall_fmap. by rewrite numbered_payloads. }
  rewrite <-(parse_complete p Hp). f_equal. unfold packet_bytes. cbn. by rewrite numbered_payloads.
Qed.

Lemma mold_packet_parses_back_witness :
  ∃ d, mold_packet [Byte.x44; Byte.x45] 3 [[Byte.x01; Byte.x02]; []] = Ret d ∧
    parse_downstream d =
      Ret (mkPacket (padded 10 [Byte.x44; Byte.x45]) 3 2 false false
             [mkMessage 3 [Byte.x01; Byte.x02]; mkMessage 4 []]).
Proof.
  apply (mold_packet_parses_back [Byte.x44; Byte.x45] 3 [[Byte.x01; Byte.x02]; []]).
  - lia.
  - cbn. lia.
  - word_lia.
  - repeat constructor; cbn; lia.
Defined.

Lemma encode_request_spec r :
  length (req_session r) = 10%nat →
  encode_request r =
    if decide (req_message_count r = 0 ∨ req_message_count r = 65535)
    then Throw (DecodeError "invalid MoldUDP64 rerequest count")
    else Ret (header_bytes (req_session r) (req_first_sequence r) (req_message_count r)).
Proof.
  intros Hs. unfold encode_request. case_decide; [done|].
  set (z := replicate 20 _). assert (Hz : len z = 20) by done. clearbody z.
  set (b8 := be_bytes 8 (req_first_sequence r)). set (b2 := be_bytes 2 (req_message_count r)).
  assert (H8 : len b8 = 8) by (unfold b8; by rewrite length_be_bytes).
  assert (H2 : len b2 = 2) by (unfold b2; by rewrite length_be_bytes).
  rewrite write_u64_be_spec by lia. fold b8. unfold writes. rewrite decide_True by (rewrite length_splice; lia).
  cbn [mbind outcome_bind]. rewrite write_u16_be_spec by lia. fold b2. unfold writes.
  rewrite decide_True by (rewrite !length_splice; rewrite ?length_splice; lia).
  pose proof (splice_app z 0 (req_session r) b8 ltac:(lia) ltac:(lia)) as Ha.
  rewrite Hs in Ha. change (0 + Z.of_nat 10) with 10 in Ha. rewrite Ha.
  pose proof (splice_app z 0 (req_session r ++ b8) b2 ltac:(lia) ltac:(rewrite length_app; lia)) as Hb.
  rewrite length_app, Nat2Z.inj_add, Hs, H8 in Hb. change (0 + (Z.of_nat 10 + 8)) with 18 in Hb. rewrite Hb.
  rewrite splice_all by (rewrite !length_app; lia). unfold header_bytes. by rewrite <-app_assoc.
Qed.

(** A re-request is the 20 byte header of its session, first sequence number and count; the
    counts 0 and 65535, which would read as a heartbeat or an end of session, are refused. *)
Theorem request_is_encoded r :
  length (req_session r) = 10%nat →
  encode_request r =
    if decide (req_message_count r = 0 ∨ req_message_count r = 65535)
    then Throw (DecodeError "invalid MoldUDP64 rerequest count")
    else Ret (header_bytes (req_session r) (req_first_sequence r) (req_message_count r)).
Proof. apply encode_request_spec. Qed.

Lemma request_is_encoded_witness :
  encode_request (mkRequest (session_from_string [Byte.x44]) 258 3) =
    Ret (session_from_string [Byte.x44] ++
      [Byte.x00; Byte.x00; Byte.x00; Byte.x00; Byte.x00; Byte.x00; Byte.x01; Byte.x02;
       Byte.x00; Byte.x03]).
Proof.
  rewrite (request_is_encoded (mkRequest (session_from_string [Byte.x44]) 258 3) eq_refl).
  reflexivity.
Defined.
