(* ===== verification/RecoveryEngine.v ===== *)
(** Sequencing and gap recovery: [include/efe/recovery_engine.hpp] and [src/recovery_engine.cpp].
    The engine is a state; a call that throws leaves its changes behind, and its [Result] is lost,
    so operations are in [M] and pass the [Result] along.  The specification [recovered] says what
    the engine holds after a set of sequence numbers has arrived, in whatever order. *)
From S2P Require Import Prelude ByteReader MoldUdp64.
From Stdlib Require Import Strings.Byte.
Import MoldUdp64.

Module RecoveryEngine.

Record GapRequest : Type := mkGap { gap_first : Z; gap_count : Z }.
Record Result : Type := mkResult {
  ready : list MoldMessage;
  request : option GapRequest;
  duplicate_or_stale : bool;
  result_end_of_session : bool }.
Definition default_result : Result := mkResult [] None false false.

Record t : Type := mk {
  expected_ : Z;
  pending_ : gmap Z (list byte);
  session_ : option (list byte);
  last_requested_first_ : Z;
  last_requested_last_ : Z }.

Definition new (first_expected : Z) : t := mk first_expected ∅ None 0 0.
Definition expected (e : t) : Z := expected_ e.
Definition buffered_messages (e : t) : Z := Z.of_nat (size (pending_ e)).

(** Assignments to members. *)
Definition set_expected (n : Z) (e : t) : t :=
  mk n (pending_ e) (session_ e) (last_requested_first_ e) (last_requested_last_ e).
Definition set_pending (f : gmap Z (list byte) → gmap Z (list byte)) (e : t) : t :=
  mk (expected_ e) (f (pending_ e)) (session_ e) (last_requested_first_ e) (last_requested_last_ e).
Definition set_session (s : list byte) (e : t) : t :=
  mk (expected_ e) (pending_ e) (Some s) (last_requested_first_ e) (last_requested_last_ e).
Definition set_requested (first last : Z) (e : t) : t :=
  mk (expected_ e) (pending_ e) (session_ e) first last.
Definition push_ready (m : MoldMessage) (r : Result) : Result :=
  mkResult (ready r ++ [m]) (request r) (duplicate_or_stale r) (result_end_of_session r).
Definition set_request (g : GapRequest) (r : Result) : Result :=
  mkResult (ready r) (Some g) (duplicate_or_stale r) (result_end_of_session r).
Definition set_stale (r : Result) : Result :=
  mkResult (ready r) (request r) true (result_end_of_session r).
Definition set_end_of_session (b : bool) (r : Result) : Result :=
  mkResult (ready r) (request r) (duplicate_or_stale r) b.

Definition maybe_request (r : Result) (observed_next : Z) : M t Result :=
  e ← get;
  if observed_next <=? expected_ e then mret r
  else
    let last_missing := u64 (observed_next - 1) in
    if decide (last_requested_first_ e = expected_ e ∧ last_missing ≤ last_requested_last_ e)
    then mret r
    else
      let gap := u64 (last_missing - expected_ e + 1) in
      let count := u16 (Z.min gap 65534) in
      modify (set_requested (expected_ e) (u64 (expected_ e + count - 1)));;
      mret (set_request (mkGap (expected_ e) count) r).

(** [while (true)]: each turn takes one message out of [pending_].  At the last sequence number
    the code erases the same iterator twice before it throws. *)
Fixpoint drain_loop (fuel : nat) (r : Result) : M t Result :=
  match fuel with
  | O => λ e, (OutOfFuel, e)
  | S fuel =>
      e ← get;
      match pending_ e !! expected_ e with
      | None => mret r
      | Some payload =>
          let r := push_ready (mkMessage (expected_ e) payload) r in
          modify (set_pending (delete (expected_ e)));;
          if decide (expected_ e = u64_max)
          then undef "pending_.erase(it): the iterator was erased already"
          else modify (set_expected (u64 (expected_ e + 1)));; drain_loop fuel r
      end
  end.

Definition drain (r : Result) : M t Result :=
  e ← get;
  r ← drain_loop (S (size (pending_ e))) r;
  e ← get;
  (if decide (last_requested_last_ e < expected_ e) then modify (set_requested 0 0) else mret tt);;
  mret r.

Fixpoint ingest_messages (ms : list MoldMessage) (r : Result) : M t Result :=
  match ms with
  | [] => mret r
  | message :: ms =>
      e ← get;
      if decide (sequence message < expected_ e) then ingest_messages ms (set_stale r)
      else if decide (sequence message = expected_ e) then
        let r := push_ready message r in
        if decide (expected_ e = u64_max)
        then throw (DecodeError "MoldUDP64 sequence number exhausted")
        else
          modify (set_expected (u64 (expected_ e + 1)));;
          r ← drain r;
          ingest_messages ms r
      else
        (* [try_emplace] keeps the message that is already there *)
        modify (set_pending (λ m,
          match m !! sequence message with
          | Some _ => m
          | None => <[sequence message := payload message]> m
          end));;
        ingest_messages ms r
  end.

Definition ingest (packet : MoldDownstreamPacket) : M t Result :=
  e ← get;
  (if decide (session_ e = None) then modify (set_session (session packet)) else mret tt);;
  e ← get;
  if decide (session_ e ≠ Some (session packet))
  then throw (DecodeError "MoldUDP64 session changed unexpectedly")
  else if heartbeat packet || end_of_session packet then
    r ← maybe_request default_result (first_sequence packet);
    mret (set_end_of_session (end_of_session packet) r)
  else
    r ← ingest_messages (messages packet) default_result;
    e ← get;
    match first_key Z.le (pending_ e) with
    | Some first => maybe_request r first
    | None => mret r
    end.

(** A sequence of packets: the messages released, in order. *)
Fixpoint ingest_all (packets : list MoldDownstreamPacket) : M t (list Result) :=
  match packets with
  | [] => mret []
  | p :: packets => r ← ingest p; rs ← ingest_all packets; mret (r :: rs)
  end.
Definition released (rs : list Result) : list MoldMessage := concat (ready <$> rs).
End RecoveryEngine.

Import RecoveryEngine.

(** * Specification *)

(** The sequence numbers a packet delivers. *)
Definition carried (p : MoldDownstreamPacket) : gset Z :=
  if heartbeat p || end_of_session p then ∅ else list_to_set (sequence <$> messages p).
Definition carried_all (ps : list MoldDownstreamPacket) : gset Z := ⋃ (carried <$> ps).

(** [content] from [first] on, [n] messages. *)
Definition stream (content : Z → list byte) (first : Z) (n : nat) : list MoldMessage :=
  numbered first (content <$> seqZ first (Z.of_nat n)).

Section spec.
(** The stream being recovered: its session, and the payload under each sequence number. *)
Context (s : list byte) (content : Z → list byte).

(** The packet belongs to the stream, and does not carry the last 64-bit number. *)
Record from_stream (p : MoldDownstreamPacket) : Prop := {
  from_session : session p = s;
  from_first : 0 ≤ first_sequence p ≤ u64_max;
  from_messages :
    Forall (λ m, 0 ≤ sequence m < u64_max ∧ payload m = content (sequence m)) (messages p)
}.

(** The engine, started at [first], after the numbers [arrived] came in: [out] has been released,
    everything from [expected_] on is buffered. *)
Record progress (first : Z) (arrived : gset Z) (e : RecoveryEngine.t) (out : list MoldMessage) : Prop := {
  progress_first : 0 ≤ first ≤ expected_ e;
  progress_bound : expected_ e ≤ u64_max;
  progress_prefix n : first ≤ n < expected_ e → n ∈ arrived;
  progress_pending n :
    pending_ e !! n = if decide (expected_ e ≤ n ∧ n ∈ arrived) then Some (content n) else None;
  progress_out : out = stream content first (Z.to_nat (expected_ e - first));
  progress_session : session_ e = None ∨ session_ e = Some s;
  progress_arrived n : n ∈ arrived → 0 ≤ n < u64_max
}.

(** ... and what is expected next has not arrived. *)
Definition recovered (first : Z) (arrived : gset Z) (e : RecoveryEngine.t) (out : list MoldMessage) : Prop :=
  progress first arrived e out ∧ expected_ e ∉ arrived.

(** ** Lemmas *)

Lemma numbered_snoc first ps p :
  numbered first (ps ++ [p]) = numbered first ps ++ [mkMessage (first + len ps) p].
Proof.
  revert first. induction ps as [|x ps IH]; intros first; cbn [app numbered length].
  - do 2 f_equal. lia.
  - rewrite IH. cbn [app]. do 4 f_equal. lia.
Qed.
Lemma stream_snoc first n :
  stream content first (S n) =
    stream content first n ++ [mkMessage (first + Z.of_nat n) (content (first + Z.of_nat n))].
Proof.
  unfold stream. rewrite seqZ_S, fmap_app. cbn.
  rewrite numbered_snoc, length_fmap, length_seqZ. do 3 f_equal. lia.
Qed.

(** Releasing the expected message. *)
Lemma progress_release first arrived e out payload :
  progress first arrived e out → expected_ e ∈ arrived → payload = content (expected_ e) →
  progress first arrived
    (set_expected (u64 (expected_ e + 1)) (set_pending (delete (expected_ e)) e))
    (out ++ [mkMessage (expected_ e) payload]).
Proof.
  intros [Hf Hb Hpre Hpend Hout Hs Harr] Hin ->. pose proof (Harr _ Hin).
  assert (u64 (expected_ e + 1) = expected_ e + 1) as Hu by (apply u64_small; lia).
  split; cbn; rewrite ?Hu; try done; try lia.
  - intros n Hn. destruct (decide (n = expected_ e)) as [->|]; [done|]. apply Hpre. lia.
  - intros n. rewrite lookup_delete, Hpend. destruct (decide (expected_ e = n)).
    + rewrite decide_False by lia. done.
    + apply decide_ext. intuition lia.
  - rewrite Hout. replace (Z.to_nat (expected_ e + 1 - first)) with (S (Z.to_nat (expected_ e - first))) by lia.
    rewrite stream_snoc. do 3 f_equal; [|f_equal]; lia.
Qed.

(** The fields a run over the messages leaves alone. *)
Definition extends (r r' : Result) (new : list MoldMessage) : Prop :=
  ready r' = ready r ++ new ∧ request r' = request r ∧
  result_end_of_session r' = result_end_of_session r.

Lemma extends_refl r : extends r r [].
Proof. unfold extends. by rewrite app_nil_r. Qed.
Lemma extends_trans r1 r2 r3 n1 n2 : extends r1 r2 n1 → extends r2 r3 n2 → extends r1 r3 (n1 ++ n2).
Proof. intros (H1 & ? & ?) (H2 & ? & ?). split_and!; try congruence. by rewrite H2, H1, app_assoc. Qed.

Lemma wp_drain_loop fuel r e first arrived out (Q : Result → RecoveryEngine.t → Prop) :
  progress first arrived e out → (size (pending_ e) < fuel)%nat →
  (∀ r' e' new, extends r r' new → recovered first arrived e' (out ++ new) →
     session_ e' = session_ e → last_requested_first_ e' = last_requested_first_ e →
     last_requested_last_ e' = last_requested_last_ e → Q r' e') →
  wp (drain_loop fuel r) Q e.
Proof.
  revert r e out. induction fuel as [|fuel IH]; intros r e out Hp Hfuel HQ; [lia|].
  cbn [drain_loop]. apply wp_bind, wp_get.
  pose proof (progress_pending _ _ _ _ Hp (expected_ e)) as Hpend. case_decide as Hin.
  - rewrite Hpend. destruct Hin as [_ Hin]. pose proof (progress_arrived _ _ _ _ Hp _ Hin).
    apply wp_bind, wp_modify. rewrite decide_False by lia. apply wp_bind, wp_modify.
    eapply IH; [by eapply progress_release| |].
    + cbn. rewrite map_size_delete_Some by eauto.
      assert (size (pending_ e) ≠ 0%nat) by (intros Hs%map_size_empty_iff; rewrite Hs, lookup_empty in Hpend; done).
      lia.
    + intros r' e' new Hext Hrec ? ? ?. rewrite <-app_assoc in Hrec. eapply HQ; [|exact Hrec|done..].
      eapply (extends_trans r (push_ready _ r)); [|exact Hext]. done.
  - rewrite Hpend. apply wp_ret. eapply HQ; [apply extends_refl| |done..].
    rewrite app_nil_r. split; [done|]. intros ?. by apply Hin.
Qed.

(** The request marks survive, or are cleared. *)
Definition marks_kept (e e' : RecoveryEngine.t) : Prop :=
  (last_requested_first_ e' = last_requested_first_ e ∧ last_requested_last_ e' = last_requested_last_ e) ∨
  (last_requested_first_ e' = 0 ∧ last_requested_last_ e' = 0).
Lemma marks_kept_trans e1 e2 e3 : marks_kept e1 e2 → marks_kept e2 e3 → marks_kept e1 e3.
Proof. unfold marks_kept. intuition congruence. Qed.

Lemma wp_drain r e first arrived out (Q : Result → RecoveryEngine.t → Prop) :
  progress first arrived e out →
  (∀ r' e' new, extends r r' new → recovered first arrived e' (out ++ new) →
     session_ e' = session_ e → marks_kept e e' → Q r' e') →
  wp (drain r) Q e.
Proof.
  intros Hp HQ. unfold drain. apply wp_bind, wp_get, wp_bind.
  eapply wp_drain_loop; [done|lia|]. intros r' e' new Hext [[] Hhole] Hs Hm1 Hm2.
  apply wp_bind, wp_get, wp_bind. case_decide.
  - apply wp_modify, wp_ret. eapply HQ; [done| |done|by right]. by split.
  - apply wp_ret, wp_ret. eapply HQ; [done| |done|by left]. by split.
Qed.

(** The expected number arrives: what is buffered does not change. *)
Lemma pending_shift (arrived arrived' : gset Z) (n0 n : Z) {A} (x y : A) :
  n0 ∉ arrived → arrived' = arrived ∪ {[n0]} →
  (if decide (n0 ≤ n ∧ n ∈ arrived) then x else y) =
  (if decide (n0 + 1 ≤ n ∧ n ∈ arrived') then x else y).
Proof.
  intros Hn0 ->. apply decide_ext. rewrite elem_of_union, elem_of_singleton. split.
  - intros [? Hn]. split; [|by left]. assert (n ≠ n0) by (intros ->; done). lia.
  - intros [? [?|?]]; [split; [lia|done]|lia].
Qed.
(** A later number arrives, for the first time or again. *)
Lemma pending_insert (pend : gmap Z (list byte)) (arrived : gset Z) (n0 : Z) m n :
  (∀ n, pend !! n = if decide (n0 ≤ n ∧ n ∈ arrived) then Some (content n) else None) →
  n0 < sequence m → payload m = content (sequence m) →
  match pend !! sequence m with Some _ => pend | None => <[sequence m:=payload m]> pend end !! n =
    if decide (n0 ≤ n ∧ n ∈ arrived ∪ {[sequence m]}) then Some (content n) else None.
Proof.
  intros Hpend Hn0 Hm. destruct (pend !! sequence m) as [x|] eqn:Hx.
  - rewrite Hpend in Hx. case_decide as Hin; [|done]. rewrite Hpend. apply decide_ext. set_solver.
  - rewrite lookup_insert. case_decide as Hn.
    + subst n. rewrite decide_True by (split; [lia|set_solver]). by rewrite Hm.
    + rewrite Hpend. apply decide_ext. set_solver.
Qed.

(** The three ways a message can arrive: behind, at, and ahead of the expected number. *)
Lemma recovered_behind m e first arrived out :
  recovered first arrived e out → 0 ≤ sequence m < expected_ e →
  recovered first (arrived ∪ {[sequence m]}) e out.
Proof.
  intros [[Hf Hb Hpre Hpend Hout Hs Harr] Hhole] Hm. split; [split; try done|].
  - intros n Hn. apply elem_of_union_l. by apply Hpre.
  - intros n. rewrite Hpend. apply decide_ext. set_solver by lia.
  - intros n [?|?%elem_of_singleton]%elem_of_union; [by apply Harr|]. unfold u64_max in *. lia.
  - rewrite not_elem_of_union, not_elem_of_singleton. split; [done|lia].
Qed.
Lemma progress_at m e first arrived out :
  recovered first arrived e out → sequence m = expected_ e → sequence m < u64_max → payload m = content (sequence m) →
  progress first (arrived ∪ {[sequence m]}) (set_expected (u64 (expected_ e + 1)) e) (out ++ [m]).
Proof.
  intros [[Hf Hb Hpre Hpend Hout Hs Harr] Hhole] Heq Hm Hpay.
  assert (u64 (expected_ e + 1) = expected_ e + 1) as Hu by (apply u64_small; lia).
  split; cbn; rewrite ?Hu; try done; try lia.
  - intros n Hn. destruct (decide (n = expected_ e)) as [->|]; [set_solver|].
    apply elem_of_union_l. apply Hpre. lia.
  - intros n. rewrite Hpend. apply pending_shift; [done|]. rewrite Heq. set_solver.
  - rewrite Hout. replace (Z.to_nat (expected_ e + 1 - first)) with (S (Z.to_nat (expected_ e - first))) by lia.
    rewrite stream_snoc. destruct m as [q pl]. cbn in *. subst q pl.
    replace (first + Z.of_nat (Z.to_nat (expected_ e - first))) with (expected_ e) by lia. done.
  - intros n [?|?%elem_of_singleton]%elem_of_union; [by apply Harr|lia].
Qed.
Lemma recovered_ahead m e first arrived out :
  recovered first arrived e out → expected_ e < sequence m < u64_max → payload m = content (sequence m) →
  recovered first (arrived ∪ {[sequence m]}) (set_pending (λ pend,
    match pend !! sequence m with Some _ => pend | None => <[sequence m:=payload m]> pend end) e) out.
Proof.
  intros [[Hf Hb Hpre Hpend Hout Hs Harr] Hhole] Hm Hpay. split; [split; cbn; try done|].
  - intros n Hn. apply elem_of_union_l. by apply Hpre.
  - intros n. apply pending_insert; [done|lia|done].
  - intros n [?|?%elem_of_singleton]%elem_of_union; [by apply Harr|lia].
  - cbn. rewrite not_elem_of_union, not_elem_of_singleton. split; [done|lia].
Qed.

Lemma wp_ingest_messages ms r e first arrived out (Q : Result → RecoveryEngine.t → Prop) :
  recovered first arrived e out →
  Forall (λ m, 0 ≤ sequence m < u64_max ∧ payload m = content (sequence m)) ms →
  (∀ r' e' new, extends r r' new →
     recovered first (arrived ∪ list_to_set (sequence <$> ms)) e' (out ++ new) →
     session_ e' = session_ e → marks_kept e e' → Q r' e') →
  wp (ingest_messages ms r) Q e.
Proof.
  revert r e arrived out. induction ms as [|m ms IH]; intros r e arrived out Hrec Hms HQ.
  { apply wp_ret. eapply HQ; [apply extends_refl| |done|by left]. cbn. by rewrite union_empty_r_L, app_nil_r. }
  apply Forall_cons in Hms as [[Hm Hpay] Hms]. cbn [ingest_messages]. apply wp_bind, wp_get.
  assert (Hnext : ∀ r1 r2 e1 e2 n1 n2, extends r r1 n1 → session_ e1 = session_ e → marks_kept e e1 →
    extends r1 r2 n2 →
    recovered first ((arrived ∪ {[sequence m]}) ∪ list_to_set (sequence <$> ms)) e2 ((out ++ n1) ++ n2) →
    session_ e2 = session_ e1 → marks_kept e1 e2 → Q r2 e2).
  { intros r1 r2 e1 e2 n1 n2 Hx1 Hs1 Hm1 Hx2 Hr2 Hs2 Hm2. eapply (HQ r2 e2 (n1 ++ n2)).
    - by eapply extends_trans.
    - rewrite <-app_assoc in Hr2. cbn. by rewrite union_assoc_L.
    - congruence.
    - by eapply marks_kept_trans. }
  rewrite <-(app_nil_r out) in Hrec. case_decide as Hlt; [|case_decide as Heq].
  - (* below [expected_] *)
    eapply (IH _ _ _ _ (recovered_behind m _ _ _ _ Hrec ltac:(lia)) Hms). intros r' e' new Hx Hr2 Hs2 Hm2.
    by eapply (Hnext (set_stale r) r' e e' [] new); [by split_and!; rewrite ?app_nil_r|done|by left|..].
  - (* the expected message *)
    pose proof (progress_at m _ _ _ _ Hrec ltac:(lia) ltac:(lia) Hpay) as Hp. rewrite app_nil_r in Hp.
    rewrite decide_False by lia. apply wp_bind, wp_modify. cbn.
    apply wp_bind. eapply wp_drain; [exact Hp|]. intros r1 e1 new1 Hx1 Hr1 Hs1 Hm1.
    eapply (IH _ _ _ _ Hr1 Hms). intros r2 e2 new2 Hx2 Hr2 Hs2 Hm2. rewrite <-(app_assoc out) in Hr2.
    eapply (Hnext r1 r2 e1 e2 ([m] ++ new1) new2); try done.
    by eapply (extends_trans r (push_ready m r)).
  - (* beyond: buffered *)
    apply wp_bind, wp_modify. eapply (IH _ _ _ _ (recovered_ahead m _ _ _ _ Hrec ltac:(lia) Hpay) Hms).
    intros r2 e2 new2 Hx2 Hr2 Hs2 Hm2.
    by eapply (Hnext r r2 _ e2 [] new2); [apply extends_refl|..|by left| | | |]; try done; left.
Qed.

(** ** One packet *)

(** [maybe_request] asks for the run from [expected_] to before [next], at most 65534 numbers
    of it, unless the marks say it was asked for. *)
Lemma wp_maybe_request r e next (Q : Result → RecoveryEngine.t → Prop) :
  0 ≤ expected_ e ≤ u64_max → 0 ≤ next ≤ u64_max → last_requested_last_ e ≤ u64_max →
  (next ≤ expected_ e ∨ (last_requested_first_ e = expected_ e ∧ next - 1 ≤ last_requested_last_ e) →
     Q r e) →
  (expected_ e < next → ¬ (last_requested_first_ e = expected_ e ∧ next - 1 ≤ last_requested_last_ e) →
     ∀ c, c = Z.min (next - expected_ e) 65534 → 0 < c ≤ 65534 → expected_ e + c ≤ next →
     Q (set_request (mkGap (expected_ e) c) r) (set_requested (expected_ e) (expected_ e + c - 1) e)) →
  wp (maybe_request r next) Q e.
Proof.
  intros He Hnext Hl Hsame Hreq. unfold maybe_request. apply wp_bind, wp_get.
  destruct (Z.leb_spec next (expected_ e)); [apply wp_ret, Hsame; by left|].
  rewrite (u64_small (next - 1)) by lia. case_decide as Hasked; [apply wp_ret, Hsame; by right|].
  rewrite u64_small by lia. replace (next - 1 - expected_ e + 1) with (next - expected_ e) by lia.
  unfold u16. rewrite wrap_small by lia. rewrite u64_small by lia.
  apply wp_bind, wp_modify, wp_ret. apply Hreq; lia.
Qed.

(** The marks name a range that was asked for. *)
Definition marks_ok (asked : GapRequest → Prop) (e : RecoveryEngine.t) : Prop :=
  (last_requested_first_ e = 0 ∧ last_requested_last_ e = 0) ∨
  (last_requested_first_ e ≤ last_requested_last_ e ≤ u64_max ∧
   asked (mkGap (last_requested_first_ e) (last_requested_last_ e - last_requested_first_ e + 1))).
Lemma marks_ok_kept asked e e' : marks_ok asked e → marks_kept e e' → marks_ok asked e'.
Proof. unfold marks_ok. intros Hm [[-> ->]|[-> ->]]; [done|by left]. Qed.

(** The first hole is covered by the marks while anything is buffered. *)
Definition hole_marked (e : RecoveryEngine.t) : Prop :=
  pending_ e ≠ ∅ → last_requested_first_ e = expected_ e ∧ expected_ e ≤ last_requested_last_ e.

(** What a caller learns from one packet. *)
Record ingested (first : Z) (asked : GapRequest → Prop) (arrived : gset Z)
    (out : list MoldMessage) (p : MoldDownstreamPacket) (r : Result) (e' : RecoveryEngine.t) : Prop := {
  ingested_recovered : recovered first (arrived ∪ carried p) e' (out ++ ready r);
  ingested_session : session_ e' = Some s;
  ingested_marks : marks_ok (λ g, asked g ∨ request r = Some g) e';
  ingested_hole : hole_marked e';
  ingested_end : result_end_of_session r = end_of_session p;
  ingested_request g : request r = Some g →
    gap_first g = expected_ e' ∧ 0 < gap_count g ≤ 65534 ∧
    (heartbeat p || end_of_session p = false →
     ∀ n, gap_first g ≤ n < gap_first g + gap_count g → n ∉ arrived ∪ carried p)
}.

Lemma recovered_pending_key first arrived e out n :
  recovered first arrived e out → is_Some (pending_ e !! n) ↔ expected_ e < n ∧ n ∈ arrived.
Proof.
  intros [Hp Hhole]. rewrite (progress_pending _ _ _ _ Hp). case_decide as Hn.
  - split; [|eauto]. intros _. split; [|apply Hn]. assert (n ≠ expected_ e) by (intros ->; tauto). lia.
  - split; [by intros [? ?]|]. intros [? ?]. destruct Hn. split; [lia|done].
Qed.

Lemma recovered_requested first arrived e out f l :
  recovered first arrived e out → recovered first arrived (set_requested f l e) out.
Proof. by intros [[] ?]. Qed.

Lemma marks_weaken (asked more : GapRequest → Prop) e : marks_ok asked e → marks_ok (λ g, asked g ∨ more g) e.
Proof. intros [?|[? ?]]; [by left|right; by auto]. Qed.
Lemma marks_last asked e : marks_ok asked e → last_requested_last_ e ≤ u64_max.
Proof. intros [[_ ->]|[[_ H] _]]; [done|exact H]. Qed.

(** A heartbeat or the end of the session. *)
Lemma wp_control p e first asked arrived out (Q : Result → RecoveryEngine.t → Prop) :
  recovered first arrived e out → from_stream p → session_ e = Some s → marks_ok asked e → hole_marked e →
  heartbeat p || end_of_session p = true → (∀ r e', ingested first asked arrived out p r e' → Q r e') →
  wp (r ← maybe_request default_result (first_sequence p); mret (set_end_of_session (end_of_session p) r)) Q e.
Proof.
  intros Hrec [Hs Hfs Hms] Hsess Hmarks Hhole Hkind HQ. pose proof Hrec as [[Hf Hb _ _ _ _ Harr] _].
  pose proof (marks_last _ _ Hmarks) as Hlast.
  assert (Hc : arrived ∪ carried p = arrived) by (unfold carried; rewrite Hkind; apply union_empty_r_L).
  apply wp_bind, wp_maybe_request; [lia|lia|done| |].
  + intros _. apply wp_ret, HQ. split; rewrite ?Hc; cbn; try done; [by rewrite app_nil_r|].
    by apply marks_weaken.
  + intros Hlt Hn c _ Hc1 Hle. apply wp_ret, HQ. split; rewrite ?Hc; cbn; try done.
    * rewrite app_nil_r. by apply recovered_requested.
    * right. cbn. split; [lia|]. right. do 2 f_equal. lia.
    * intros _. cbn. lia.
    * intros g' [= <-]. split; [done|]. split; [done|]. intros Hfalse. by rewrite Hkind in Hfalse.
Qed.

(** A packet with messages. *)
Lemma wp_data p e first asked arrived out (Q : Result → RecoveryEngine.t → Prop) :
  recovered first arrived e out → from_stream p → session_ e = Some s → marks_ok asked e → hole_marked e →
  heartbeat p || end_of_session p = false → (∀ r e', ingested first asked arrived out p r e' → Q r e') →
  wp (r ← ingest_messages (messages p) default_result;
      e ← get;
      match first_key Z.le (pending_ e) with
      | Some first => maybe_request r first
      | None => mret r
      end) Q e.
Proof.
  intros Hrec [Hs Hfs Hms] Hsess Hmarks Hhole Hkind HQ.
  assert (Hend0 : end_of_session p = false) by by destruct (heartbeat p), (end_of_session p).
  assert (Hc : arrived ∪ list_to_set (sequence <$> messages p) = arrived ∪ carried p).
  { unfold carried. by rewrite Hkind. }
  apply wp_bind. eapply wp_ingest_messages; [done|done|].
  intros r e' new (Hready & Hreq & Hend) Hrec' Hsess' Hkept. rewrite Hc in Hrec'. cbn in Hready, Hreq, Hend.
  pose proof (marks_ok_kept _ _ _ Hmarks Hkept) as Hmarks'.
  pose proof (marks_last _ _ Hmarks') as Hlast'.
  pose proof Hrec' as [[Hf' Hb' _ _ _ _ Harr'] _]. rewrite <-Hready in Hrec'.
  apply wp_bind, wp_get. destruct (first_key Z.le (pending_ e')) as [k|] eqn:Hk.
  + apply first_key_Some in Hk as [Hk Hmin]; [|apply _..].
    apply (recovered_pending_key _ _ _ _ _ Hrec') in Hk as [Hk Hkin]. pose proof (Harr' _ Hkin).
    apply wp_maybe_request; [lia|lia|done| |].
    * intros [?|[Hm1 Hm2]]; [lia|]. apply HQ. split.
      -- done.
      -- congruence.
      -- by apply marks_weaken.
      -- intros _. split; [done|lia].
      -- by rewrite Hend.
      -- intros g. rewrite Hreq. done.
    * intros Hlt Hn c _ Hc1 Hle. apply HQ. split; cbn.
      -- by apply recovered_requested.
      -- congruence.
      -- right. cbn. split; [lia|]. right. do 2 f_equal. lia.
      -- intros _. cbn. lia.
      -- by rewrite Hend.
      -- intros g' [= <-]. split; [done|]. split; [done|]. intros _ n Hn' Hin. cbn in Hn'.
         destruct (decide (n = expected_ e')) as [->|]; [by apply Hrec'|].
         assert (is_Some (pending_ e' !! n)) as Hpn.
         { apply (recovered_pending_key _ _ _ _ _ Hrec'). split; [lia|done]. }
         pose proof (Hmin n Hpn ltac:(lia)). lia.
  + apply first_key_None in Hk. apply wp_ret, HQ. split.
    * done.
    * congruence.
    * by apply marks_weaken.
    * intros Hne. by rewrite Hk in Hne.
    * by rewrite Hend.
    * intros g. rewrite Hreq. done.
Qed.

Lemma wp_ingest p e first asked arrived out (Q : Result → RecoveryEngine.t → Prop) :
  recovered first arrived e out → from_stream p → 0 < first →
  marks_ok asked e → hole_marked e →
  (∀ r e', ingested first asked arrived out p r e' → Q r e') →
  wp (ingest p) Q e.
Proof.
  intros Hrec Hp Hfirst Hmarks Hhole HQ. pose proof (from_session _ Hp) as Hs. unfold ingest. apply wp_bind, wp_get, wp_bind.
  assert (Hgo : ∀ e0, recovered first arrived e0 out → session_ e0 = Some s → marks_ok asked e0 →
    hole_marked e0 →
    wp (e ← get; if decide (session_ e ≠ Some (session p))
        then throw (DecodeError "MoldUDP64 session changed unexpectedly")
        else if heartbeat p || end_of_session p then
          r ← maybe_request default_result (first_sequence p);
          mret (set_end_of_session (end_of_session p) r)
        else
          r ← ingest_messages (messages p) default_result;
          e ← get;
          match first_key Z.le (pending_ e) with
          | Some first => maybe_request r first
          | None => mret r
          end) Q e0).
  2: { case_decide as Hsess.
    - apply wp_modify. apply Hgo; [|by cbn; f_equal|done|done]. destruct Hrec as [[] ?].
      split; [split; try done|done]. right. cbn. by f_equal.
    - apply wp_ret, Hgo; try done. by destruct Hrec as [[? ? ? ? ? [?|?] ?] ?]. }
  clear e Hrec Hmarks Hhole. intros e Hrec Hsess Hmarks Hhole.
  apply wp_bind, wp_get. rewrite decide_False by (rewrite Hs, Hsess; tauto).
  destruct (heartbeat p || end_of_session p) eqn:Hkind; [by eapply wp_control|by eapply wp_data].
Qed.

(** ** A sequence of packets *)

Lemma carried_all_cons p ps : carried_all (p :: ps) = carried p ∪ carried_all ps.
Proof. done. Qed.
Lemma carried_all_single p : carried_all [p] = carried p.
Proof. rewrite carried_all_cons. unfold carried_all. cbn. by rewrite union_empty_r_L. Qed.
Lemma carried_all_app ps qs : carried_all (ps ++ qs) = carried_all ps ∪ carried_all qs.
Proof.
  induction ps as [|p ps IH]; [unfold carried_all; cbn; by rewrite union_empty_l_L|].
  cbn [app]. by rewrite !carried_all_cons, IH, union_assoc_L.
Qed.

Lemma marks_ok_mono (asked asked' : GapRequest → Prop) e :
  (∀ g, asked g → asked' g) → marks_ok asked e → marks_ok asked' e.
Proof. intros Hsub [?|[? ?]]; [by left|right; by auto]. Qed.

Lemma wp_ingest_all ps e first asked arrived out :
  recovered first arrived e out → Forall from_stream ps → 0 < first →
  marks_ok asked e → hole_marked e →
  wp (ingest_all ps) (λ rs e',
    recovered first (arrived ∪ carried_all ps) e' (out ++ released rs) ∧
    marks_ok (λ g, asked g ∨ ∃ r, r ∈ rs ∧ request r = Some g) e' ∧ hole_marked e') e.
Proof.
  intros Hrec Hps Hfirst. revert e asked arrived out Hrec.
  induction Hps as [|p ps Hp Hps IH]; intros e asked arrived out Hrec Hmarks Hhole.
  - apply wp_ret. change (carried_all []) with (∅ : gset Z). rewrite union_empty_r_L.
    change (released []) with (@nil MoldMessage). rewrite app_nil_r. split_and!; [done| |done].
    eapply marks_ok_mono; [|done]. by auto.
  - cbn [ingest_all]. apply wp_bind. eapply wp_ingest; [done..|]. intros r e1 [Hr1 _ Hm1 Hh1 _ _].
    apply wp_bind. eapply wp_mono; [by eapply IH|]. intros rs e2 (Hr2 & Hm2 & Hh2). apply wp_ret.
    split_and!; [| |done].
    + rewrite carried_all_cons, union_assoc_L.
      change (released (r :: rs)) with (ready r ++ released rs). by rewrite app_assoc.
    + eapply marks_ok_mono; [|exact Hm2]. intros g [[?|?]|(r' & ? & ?)]; [by left| |].
      * right. exists r. split; [by left|done].
      * right. exists r'. split; [by right|done].
Qed.

Lemma recovered_new first : 0 ≤ first ≤ u64_max → recovered first ∅ (new first) [].
Proof.
  intros Hf. split; [split; cbn; try done; try lia; try by left|set_solver].
  - intros n. by rewrite lookup_empty, decide_False by set_solver.
  - by rewrite Z.sub_diag.
Qed.

Lemma ingest_all_new first ps :
  0 < first ≤ u64_max → Forall from_stream ps →
  ∃ rs e, ingest_all ps (new first) = (Ret rs, e) ∧
    recovered first (carried_all ps) e (released rs) ∧
    marks_ok (λ g, ∃ r, r ∈ rs ∧ request r = Some g) e ∧ hole_marked e.
Proof.
  intros Hf Hps.
  pose proof (wp_ingest_all ps (new first) first (λ _, False) ∅ []) as Hwp.
  destruct (proj1 (wp_exact _ _ _) (Hwp (recovered_new first ltac:(lia)) Hps (proj1 Hf) ltac:(by left) ltac:(done)))
    as (rs & e & Heq & Hrec & Hm & Hh).
  exists rs, e. rewrite union_empty_l_L in Hrec. split_and!; try done.
  eapply marks_ok_mono; [|done]. by intros g [[]|?].
Qed.

(** [expected_] is determined by what has arrived. *)
Lemma recovered_expected first arrived e1 e2 out1 out2 :
  recovered first arrived e1 out1 → recovered first arrived e2 out2 → expected_ e1 = expected_ e2.
Proof.
  intros [[Hf1 _ Hpre1 _ _ _ _] Hh1] [[Hf2 _ Hpre2 _ _ _ _] Hh2].
  destruct (Z.lt_trichotomy (expected_ e1) (expected_ e2)) as [?|[?|?]]; [|done|].
  - destruct Hh1. apply Hpre2. lia.
  - destruct Hh2. apply Hpre1. lia.
Qed.
Lemma recovered_determined first arrived e1 e2 out1 out2 :
  recovered first arrived e1 out1 → recovered first arrived e2 out2 →
  out1 = out2 ∧ expected_ e1 = expected_ e2 ∧ pending_ e1 = pending_ e2.
Proof.
  intros H1 H2. pose proof (recovered_expected _ _ _ _ _ _ H1 H2) as He.
  destruct H1 as [H1 _], H2 as [H2 _]. split_and!; [|done|].
  - by rewrite (progress_out _ _ _ _ H1), (progress_out _ _ _ _ H2), He.
  - apply map_eq. intros n. by rewrite (progress_pending _ _ _ _ H1), (progress_pending _ _ _ _ H2), He.
Qed.

(** C4: no gap and no duplicate reaches downstream.  Whatever packets of the stream arrive, in
    whatever order and however often, every call returns, and together they release exactly the
    messages from [first] to before the first missing number, once each and in order; exactly
    the later arrivals are buffered. *)
Theorem releases_are_contiguous first ps :
  0 < first ≤ u64_max → Forall from_stream ps →
  ∃ rs e, ingest_all ps (new first) = (Ret rs, e) ∧
    released rs = stream content first (Z.to_nat (expected_ e - first)) ∧
    first ≤ expected_ e ∧ (∀ n, first ≤ n < expected_ e → n ∈ carried_all ps) ∧
    (expected_ e ∉ carried_all ps) ∧
    (∀ n, pending_ e !! n =
       if decide (expected_ e < n ∧ n ∈ carried_all ps) then Some (content n) else None).
Proof.
  intros Hf Hps. destruct (ingest_all_new first ps Hf Hps) as (rs & e & Heq & Hrec & _).
  exists rs, e. pose proof Hrec as [[Hfe _ Hpre Hpend Hout _ _] Hhole]. split_and!; try done; [lia|].
  intros n. rewrite Hpend. apply decide_ext. split; [|intros [? ?]; split; [lia|done]].
  intros [? ?]. assert (n ≠ expected_ e) by (intros ->; done). split; [lia|done].
Qed.

(** Arrival order does not matter: two histories that deliver the same numbers release the
    same messages and leave the same messages buffered. *)
Theorem arrival_order_does_not_matter first ps1 ps2 :
  0 < first ≤ u64_max → Forall from_stream ps1 → Forall from_stream ps2 →
  carried_all ps1 = carried_all ps2 →
  ∃ rs1 e1 rs2 e2, ingest_all ps1 (new first) = (Ret rs1, e1) ∧
    ingest_all ps2 (new first) = (Ret rs2, e2) ∧ released rs1 = released rs2 ∧
    expected_ e1 = expected_ e2 ∧ pending_ e1 = pending_ e2.
Proof.
  intros Hf Hps1 Hps2 Hc. destruct (ingest_all_new first ps1 Hf Hps1) as (rs1 & e1 & H1 & Hr1 & _).
  destruct (ingest_all_new first ps2 Hf Hps2) as (rs2 & e2 & H2 & Hr2 & _). rewrite Hc in Hr1.
  exists rs1, e1, rs2, e2. split_and!; try done; by eapply recovered_determined.
Qed.

(** C31: while anything is buffered, the first missing number has been asked for: some call
    returned a request that starts there. *)
Theorem first_hole_is_requested first ps rs e :
  0 < first ≤ u64_max → Forall from_stream ps → ingest_all ps (new first) = (Ret rs, e) →
  0 < buffered_messages e →
  ∃ r g, r ∈ rs ∧ request r = Some g ∧ gap_first g = expected e ∧ 0 < gap_count g.
Proof.
  intros Hf Hps Heq Hbuf. destruct (ingest_all_new first ps Hf Hps) as (rs' & e' & Heq' & Hrec & Hm & Hh).
  rewrite Heq in Heq'. injection Heq' as <- <-. destruct Hh as [Hh1 Hh2].
  { intros He. unfold buffered_messages in Hbuf. rewrite He, map_size_empty in Hbuf. lia. }
  pose proof (progress_first _ _ _ _ (proj1 Hrec)).
  destruct Hm as [[? _]|[_ (r & Hr & Hg)]]; [lia|]. eexists r, _. split_and!; [done|done|done|]. cbn. lia.
Qed.

(** C32: a request asks for numbers that are really missing.  In any state reached by packets of
    the stream, the request a further data packet returns starts at the first hole, counts 1 to
    65534 numbers (so it can be encoded), and none of them has arrived. *)
Theorem request_asks_for_missing first ps p rs e r e' g :
  0 < first ≤ u64_max → Forall from_stream ps → from_stream p →
  heartbeat p || end_of_session p = false →
  ingest_all ps (new first) = (Ret rs, e) → ingest p e = (Ret r, e') → request r = Some g →
  gap_first g = expected e' ∧ 0 < gap_count g ≤ 65534 ∧
  ∀ n, gap_first g ≤ n < gap_first g + gap_count g → n ∉ carried_all (ps ++ [p]).
Proof.
  intros Hf Hps Hp Hkind Heq Hp' Hg.
  destruct (ingest_all_new first ps Hf Hps) as (rs' & e0 & Heq' & Hrec & Hm & Hh).
  rewrite Heq in Heq'. injection Heq' as <- <-.
  pose proof (wp_ingest p e first _ _ _ (ingested first _ _ _ p) Hrec Hp (proj1 Hf) Hm Hh
    ltac:(by auto)) as (r1 & e1 & Hi & [_ _ _ _ _ Hreq])%wp_exact.
  rewrite Hp' in Hi. injection Hi as <- <-. destruct (Hreq g Hg) as (? & ? & Hn).
  split; [done|]. split; [done|]. intros n Hn'. unfold carried_all. rewrite fmap_app, union_list_app_L. cbn.
  rewrite union_empty_r_L. by apply Hn.
Qed.
End spec.

(** The first packet fixes the session; a packet of any other session is refused with
    [DecodeError] and changes nothing. *)
Theorem other_session_is_refused e p s :
  session_ e = Some s → session p ≠ s →
  ingest p e = (Throw (DecodeError "MoldUDP64 session changed unexpectedly"), e).
Proof.
  intros Hs Hp. unfold ingest, mbind, M_bind, get. rewrite Hs, decide_False by done. cbn.
  rewrite Hs. rewrite (decide_True (P:=Some s ≠ Some (session p))); [done|]. intros [= ->]. done.
Qed.

(** Draining up to the last sequence number is undefined.  With 2^64-1 buffered, the
    arrival of 2^64-2 makes [drain] release 2^64-1 and erase its iterator a second time, where
    [docs/recovery.md] promises that exhaustion is rejected. *)
Theorem drain_erases_twice x y :
  let packet n p := mkPacket (session_from_string []) n 1 false false [mkMessage n p] in
  (ingest_all [packet u64_max x; packet (u64_max - 1) y] (new (u64_max - 1))).1 =
    Undef "pending_.erase(it): the iterator was erased already".
Proof. vm_compute. reflexivity. Qed.

(** * Examples *)

Module RecoveryExamples.
Definition s : list byte := session_from_string [Byte.x44].
Definition content (n : Z) : list byte := [byte_of_Z n].
Definition data (first : Z) (n : nat) : MoldDownstreamPacket :=
  mkPacket s first (Z.of_nat n) false false (stream content first n).
(** 102 and 103 are late, 104 and 105 wait, 105 comes twice ([docs/recovery.md]). *)
Definition packets : list MoldDownstreamPacket :=
  [data 104 2; data 102 1; data 105 1; data 103 1].
Definition in_order : list MoldDownstreamPacket := [data 102 4].

Lemma packets_ok : Forall (from_stream s content) packets.
Proof. repeat constructor; word_lia. Qed.
Lemma in_order_ok : Forall (from_stream s content) in_order.
Proof. repeat constructor; word_lia. Qed.
End RecoveryExamples.
Import RecoveryExamples.

Lemma releases_are_contiguous_witness :
  ∃ rs e, ingest_all packets (new 102) = (Ret rs, e) ∧ released rs = stream content 102 4.
Proof.
  destruct (releases_are_contiguous s content 102 packets ltac:(word_lia) packets_ok)
    as (rs & e & Heq & Hrel & _).
  exists rs, e. split; [exact Heq|]. vm_compute in Heq. injection Heq as <- <-. exact Hrel.
Defined.

Lemma arrival_order_does_not_matter_witness :
  ∃ rs1 e1 rs2 e2, ingest_all packets (new 102) = (Ret rs1, e1) ∧
    ingest_all in_order (new 102) = (Ret rs2, e2) ∧ released rs1 = released rs2 ∧
    expected_ e1 = expected_ e2 ∧ pending_ e1 = pending_ e2.
Proof.
  apply (arrival_order_does_not_matter s content 102 packets in_order).
  - word_lia.
  - exact packets_ok.
  - exact in_order_ok.
  - vm_compute. reflexivity.
Defined.

Lemma first_hole_is_requested_witness :
  ∃ rs e r g, ingest_all [data 104 2] (new 102) = (Ret rs, e) ∧ r ∈ rs ∧ request r = Some g ∧
    gap_first g = 102.
Proof.
  pose (run := ingest_all [data 104 2] (new 102)).
  pose (rs := match run.1 with Ret rs => rs | _ => [] end).
  destruct (first_hole_is_requested s content 102 [data 104 2] rs run.2) as (r & g & Hr & Hg & Hf & _).
  - word_lia.
  - repeat constructor; word_lia.
  - vm_compute. reflexivity.
  - vm_compute. reflexivity.
  - exists rs, run.2, r, g. split; [vm_compute; reflexivity|].
    split; [exact Hr|]. split; [exact Hg|]. rewrite Hf. vm_compute. reflexivity.
Defined.

Lemma request_asks_for_missing_witness :
  ∃ r e', ingest (data 104 2) (new 102) = (Ret r, e') ∧ request r = Some (mkGap 102 2) ∧
    ∀ n, 102 ≤ n < 104 → n ∉ carried_all [data 104 2].
Proof.
  pose (run := ingest (data 104 2) (new 102)).
  pose (r := match run.1 with Ret r => r | _ => default_result end).
  exists r, run.2. split; [vm_compute; reflexivity|]. split; [vm_compute; reflexivity|].
  apply (request_asks_for_missing s content 102 [] (data 104 2) [] (new 102) r run.2 (mkGap 102 2)).
  - word_lia.
  - constructor.
  - repeat constructor; word_lia.
  - reflexivity.
  - reflexivity.
  - vm_compute. reflexivity.
  - vm_compute. reflexivity.
Defined.

Lemma other_session_is_refused_witness :
  ingest (mkPacket [Byte.x45] 1 0 true false []) (set_session s (new 1)) =
    (Throw (DecodeError "MoldUDP64 session changed unexpectedly"), set_session s (new 1)).
Proof.
  apply (other_session_is_refused (set_session s (new 1)) _ s); [reflexivity|].
  intros H. apply (f_equal length) in H. vm_compute in H. discriminate H.
Defined.
