(* ===== verification/ProtocolCompiler.v ===== *)
(** The protocol compiler [tools/protocolc/main.cpp]: lexer and parser.  Text is [list byte]; the
    lexer keeps the rest of its input where the code keeps a position.  The theorems are in
    [ProtocolProofs]. *)
From S2P Require Import Prelude ByteReader.
From stdpp Require Import pretty.
From Stdlib Require Import Strings.Byte.
#[local] Open Scope list_scope.
#[local] Open Scope Z_scope.

(** Literals. *)
Definition bs (s : string) : list byte := String.list_byte_of_string s.
Definition string_of (l : list byte) : string := String.string_of_list_byte l.
(** [std::to_string] *)
Definition to_string (n : Z) : string := pretty n.

Module Protocolc.

(** * Lexer *)

Variant Kind : Type :=
| KIdent | KString | KNumber | KLBrace | KRBrace | KLBracket | KRBracket | KColon | KSemicolon | KEnd.
#[export] Instance kind_eq_dec : EqDecision Kind.
Proof. solve_decision. Defined.

Record Token : Type := mkToken { kind : Kind; text : list byte; line : Z }.
Record Lexer : Type := mkLexer { rest_ : list byte; line_ : Z }.

(** [std::isspace] and the like, in the C locale. *)
Definition in_range (lo hi : Z) (c : byte) : bool := (lo <=? Z_of_byte c) && (Z_of_byte c <=? hi).
Definition isspace (c : byte) : bool := (Z_of_byte c =? 32) || in_range 9 13 c.
Definition isdigit : byte → bool := in_range 48 57.
Definition isalpha (c : byte) : bool := in_range 65 90 c || in_range 97 122 c.
Definition isalnum (c : byte) : bool := isalpha c || isdigit c.
Definition newline : byte := Byte.x0a.
Definition slash : byte := Byte.x2f.
Definition quote : byte := Byte.x22.
Definition underscore : byte := Byte.x5f.

(** [in_comment] stands for the inner loop, which runs up to the newline. *)
Fixpoint skip_ws_comments (in_comment : bool) (input : list byte) (line : Z) : list byte * Z :=
  match input with
  | [] => ([], line)
  | c :: rest =>
      if decide (c = newline) then skip_ws_comments false rest (line + 1)
      else if in_comment then skip_ws_comments true rest line
      else if isspace c then skip_ws_comments false rest line
      else if decide (c = slash ∧ head rest = Some slash) then skip_ws_comments true rest line
      else (input, line)
  end.

(** The longest prefix of characters in [p], and the rest. *)
Fixpoint span (p : byte → bool) (input : list byte) : list byte * list byte :=
  match input with
  | c :: rest => if p c then let '(a, b) := span p rest in (c :: a, b) else ([], input)
  | [] => ([], [])
  end.

Fixpoint string_chars (input : list byte) : outcome (list byte * list byte) :=
  match input with
  | [] => Throw (RuntimeError "lexer: unterminated string")
  | c :: rest =>
      if decide (c = quote) then Ret ([], rest)
      else if decide (c = newline) then Throw (RuntimeError "lexer: newline in string literal")
      else '(out, rest) ← string_chars rest; Ret (c :: out, rest)
  end.

Definition single (c : byte) : option Kind :=
  if decide (c = Byte.x7b) then Some KLBrace
  else if decide (c = Byte.x7d) then Some KRBrace
  else if decide (c = Byte.x5b) then Some KLBracket
  else if decide (c = Byte.x5d) then Some KRBracket
  else if decide (c = Byte.x3a) then Some KColon
  else if decide (c = Byte.x3b) then Some KSemicolon
  else None.

Definition next (lx : Lexer) : outcome (Token * Lexer) :=
  let '(input, line) := skip_ws_comments false (rest_ lx) (line_ lx) in
  match input with
  | [] => Ret (mkToken KEnd [] line, mkLexer [] line)
  | c :: rest =>
      match single c with
      | Some k => Ret (mkToken k [c] line, mkLexer rest line)
      | None =>
          if decide (c = quote) then
            '(out, rest) ← string_chars rest;
            Ret (mkToken KString out line, mkLexer rest line)
          else if isdigit c then
            let '(a, b) := span isdigit rest in
            Ret (mkToken KNumber (c :: a) line, mkLexer b line)
          else if isalpha c || bool_decide (c = underscore) then
            let '(a, b) := span (λ c, isalnum c || bool_decide (c = underscore)) rest in
            Ret (mkToken KIdent (c :: a) line, mkLexer b line)
          else Throw (RuntimeError ("lexer: unexpected character at line " +:+ to_string line))
      end
  end.

(** * Syntax trees *)

Record Field : Type := mkField { field_name : list byte; field_type : list byte; width : Z; offset : Z }.
Record Message : Type := mkMessage {
  message_name : list byte;
  message_type : byte;
  fields : list Field;
  size : Z }.
Record Protocol : Type := mkProtocol { protocol_name : list byte; protocol_messages : list Message }.
#[export] Instance field_eq_dec : EqDecision Field.
Proof. solve_decision. Defined.
#[export] Instance message_eq_dec : EqDecision Message.
Proof. solve_decision. Defined.
#[export] Instance protocol_eq_dec : EqDecision Protocol.
Proof. solve_decision. Defined.

(** * Parser *)

Record Parser : Type := mkParser { lexer_ : Lexer; current_ : Token }.

Definition new (input : list byte) : outcome Parser :=
  '(tok, lx) ← next (mkLexer input 1); Ret (mkParser lx tok).

Definition fail {A} (msg : string) : M Parser A := λ p,
  (Throw (RuntimeError ("parser line " +:+ to_string (line (current_ p)) +:+ ": " +:+ msg)), p).

Definition expect (k : Kind) : M Parser Token :=
  p ← get;
  if decide (kind (current_ p) ≠ k) then fail ("unexpected token '" +:+ string_of (text (current_ p)) +:+ "'")
  else
    '(tok, lx) ← lift (next (lexer_ p));
    put (mkParser lx tok);;
    mret (current_ p).

Definition expect_ident (s : string) : M Parser unit :=
  tok ← expect KIdent;
  if decide (text tok ≠ bs s) then fail ("expected '" +:+ s +:+ "'") else mret tt.

Definition type_width (type : list byte) : outcome Z :=
  if decide (type = bs "u8" ∨ type = bs "char") then Ret 1
  else if decide (type = bs "u16_be") then Ret 2
  else if decide (type = bs "u32_be" ∨ type = bs "price4") then Ret 4
  else if decide (type = bs "u48_be") then Ret 6
  else if decide (type = bs "u64_be" ∨ type = bs "price8") then Ret 8
  else Throw (RuntimeError ("parser: unsupported type " +:+ string_of type)).

(** [std::stoul] on a non-empty string of digits. *)
Definition stoul (digits : list byte) : outcome Z :=
  let v := foldl (λ v c, v * 10 + (Z_of_byte c - 48)) 0 digits in
  if u64_max <? v then Throw (OutOfRange "stoul") else Ret v.

(** One field declaration; [size] is the size of the message so far. *)
Definition parse_field (field_names : list (list byte)) (size : Z) : M Parser Field :=
  name ← expect KIdent;
  if decide (text name ∈ field_names) then fail ("duplicate field: " +:+ string_of (text name))
  else
    expect KColon;;
    type ← expect KIdent;
    w ← (if decide (text type = bs "ascii") then
           expect KLBracket;;
           number ← expect KNumber;
           w ← lift (stoul (text number));
           expect KRBracket;;
           if decide (w = 0) then fail "ascii width must be > 0" else mret w
         else lift (type_width (text type)));
    expect KSemicolon;;
    mret (mkField (text name) (text type) w size).

(** [while (current_.kind != RBrace)] *)
Fixpoint parse_fields (fuel : nat) (fields : list Field) (size : Z) : M Parser (list Field * Z) :=
  match fuel with
  | O => λ p, (OutOfFuel, p)
  | S fuel =>
      p ← get;
      if decide (kind (current_ p) = KRBrace) then mret (fields, size)
      else
        f ← parse_field (field_name <$> fields) size;
        parse_fields fuel (fields ++ [f]) (u64 (size + width f))
  end.

Definition parse_message (fuel : nat) (types : list byte) (names : list (list byte)) : M Parser Message :=
  expect_ident "message";;
  name ← expect KIdent;
  type ← expect KString;
  match text type with
  | [c] =>
      if decide (c ∈ types) then fail "duplicate message type"
      else if decide (text name ∈ names) then fail "duplicate message name"
      else
        expect KLBrace;;
        '(fields, size) ← parse_fields fuel [] 1;
        expect KRBrace;;
        mret (mkMessage (text name) c fields size)
  | _ => fail "message type must be exactly one byte"
  end.

(** [while (current_.kind != End)] *)
Fixpoint parse_messages (fuel : nat) (ms : list Message) : M Parser (list Message) :=
  match fuel with
  | O => λ p, (OutOfFuel, p)
  | S fuel' =>
      p ← get;
      if decide (kind (current_ p) = KEnd) then mret ms
      else
        m ← parse_message fuel (message_type <$> ms) (message_name <$> ms);
        parse_messages fuel' (ms ++ [m])
  end.

Definition parse (fuel : nat) : M Parser Protocol :=
  expect_ident "protocol";;
  name ← expect KIdent;
  expect KSemicolon;;
  ms ← parse_messages fuel [];
  mret (mkProtocol (text name) ms).

(** [Parser(source).parse()].  Every turn of a loop takes a token, and a token at least one
    character. *)
Definition parse_protocol (source : list byte) : outcome Protocol :=
  p ← new source; (parse (S (length source)) p).1.
End Protocolc.
