(* ===== verification/Emitter.v ===== *)
(** The C++ emitter of [tools/protocolc/main.cpp], which writes the text of the generated header,
    and the compiler's [main].  What the file system answers is an argument. *)
From S2P Require Import Prelude ByteReader ProtocolCompiler.
From stdpp Require Import pretty.
From Stdlib Require Import Strings.Byte.
#[local] Open Scope list_scope.
#[local] Open Scope Z_scope.
Import Protocolc.

Module Emitter.

(** [std::tolower] in the C locale. *)
Definition tolower (c : byte) : byte := if in_range 65 90 c then byte_of_Z (Z_of_byte c + 32) else c.
Definition snake_namespace (name : list byte) : list byte := tolower <$> name.

(** The names of the field types. *)
Definition is_type (f : Field) (s : string) : bool := bool_decide (field_type f = bs s).

Definition accessor_type (f : Field) : outcome string :=
  if is_type f "u8" then Ret "std::uint8_t"
  else if is_type f "u16_be" then Ret "std::uint16_t"
  else if is_type f "u32_be" || is_type f "price4" then Ret "std::uint32_t"
  else if is_type f "u48_be" || is_type f "u64_be" || is_type f "price8" then Ret "std::uint64_t"
  else if is_type f "char" then Ret "char"
  else if is_type f "ascii" then Ret "std::string_view"
  else Throw (RuntimeError ("codegen: unsupported type " +:+ string_of (field_type f))).

Definition accessor_expr (f : Field) : outcome string :=
  let off := to_string (offset f) in
  if is_type f "u8" then Ret ("efe::read_u8(bytes_, " +:+ off +:+ ")")
  else if is_type f "u16_be" then Ret ("efe::read_u16_be(bytes_, " +:+ off +:+ ")")
  else if is_type f "u32_be" || is_type f "price4" then Ret ("efe::read_u32_be(bytes_, " +:+ off +:+ ")")
  else if is_type f "u48_be" then Ret ("efe::read_u48_be(bytes_, " +:+ off +:+ ")")
  else if is_type f "u64_be" || is_type f "price8" then Ret ("efe::read_u64_be(bytes_, " +:+ off +:+ ")")
  else if is_type f "char" then Ret ("efe::read_char(bytes_, " +:+ off +:+ ")")
  else if is_type f "ascii" then
    Ret ("efe::read_ascii_view(bytes_, " +:+ off +:+ ", " +:+ to_string (width f) +:+ ")")
  else Throw (RuntimeError ("codegen: unsupported type " +:+ string_of (field_type f))).

(** The line feed and the quotation mark of C++ string literals. *)
Definition nl : string := string_of [newline].
Definition dq : string := string_of [quote].
Definition char_string (c : byte) : string := string_of [c].

Definition emit_field (f : Field) : outcome string :=
  type ← accessor_type f;
  expr ← accessor_expr f;
  Ret ("    [[nodiscard]] " +:+ type +:+ " " +:+ string_of (field_name f) +:+ "() const { return " +:+ expr
       +:+ "; }" +:+ nl).

Fixpoint concat_strings (l : list string) : string :=
  match l with [] => "" | s :: l => s +:+ concat_strings l end.

(** [(m.type == '\'' ? '\\' : m.type)] *)
Definition type_char (m : Message) : string :=
  if decide (message_type m = Byte.x27) then char_string Byte.x5c else char_string (message_type m).

Definition emit_message (m : Message) : outcome string :=
  let name := string_of (message_name m) in
  accessors ← mapM emit_field (fields m);
  Ret ("class " +:+ name +:+ "View {" +:+ nl +:+ "public:" +:+ nl
    +:+ "    static constexpr char message_type = '" +:+ type_char m +:+ "';" +:+ nl
    +:+ "    static constexpr std::size_t encoded_size = " +:+ to_string (size m) +:+ ";" +:+ nl
    +:+ "    explicit " +:+ name +:+ "View(std::span<const std::uint8_t> bytes) : bytes_(bytes) {" +:+ nl
    +:+ "        if (bytes_.size() != encoded_size || bytes_[0] != static_cast<std::uint8_t>(message_type)) throw efe::DecodeError("
    +:+ dq +:+ "invalid " +:+ name +:+ " message" +:+ dq +:+ ");" +:+ nl
    +:+ "    }" +:+ nl
    +:+ concat_strings accessors
    +:+ "private:" +:+ nl +:+ "    std::span<const std::uint8_t> bytes_;" +:+ nl +:+ "};" +:+ nl +:+ nl).

Definition emit_size_case (m : Message) : string :=
  "        case '" +:+ char_string (message_type m) +:+ "': return " +:+ string_of (message_name m)
  +:+ "View::encoded_size;" +:+ nl.
Definition emit_name_case (m : Message) : string :=
  "        case '" +:+ char_string (message_type m) +:+ "': return " +:+ dq
  +:+ string_of (message_name m) +:+ dq +:+ ";" +:+ nl.

(** What [emit] writes to the stream. *)
Definition header_text (p : Protocol) : outcome string :=
  let ns := string_of (snake_namespace (protocol_name p)) in
  views ← mapM emit_message (protocol_messages p);
  Ret ("// AUTO-GENERATED by efe_protocolc. Do not edit by hand." +:+ nl
    +:+ "#pragma once" +:+ nl +:+ nl
    +:+ "#include " +:+ dq +:+ "efe/byte_reader.hpp" +:+ dq +:+ nl
    +:+ "#include <cstddef>" +:+ nl +:+ "#include <cstdint>" +:+ nl +:+ "#include <optional>" +:+ nl
    +:+ "#include <span>" +:+ nl +:+ "#include <string_view>" +:+ nl +:+ nl
    +:+ "namespace efe::generated::" +:+ ns +:+ " {" +:+ nl +:+ nl
    +:+ concat_strings views
    +:+ "inline std::optional<std::size_t> message_size(char type) noexcept {" +:+ nl
    +:+ "    switch (type) {" +:+ nl
    +:+ concat_strings (emit_size_case <$> protocol_messages p)
    +:+ "        default: return std::nullopt;" +:+ nl +:+ "    }" +:+ nl +:+ "}" +:+ nl +:+ nl
    +:+ "inline std::string_view message_name(char type) noexcept {" +:+ nl
    +:+ "    switch (type) {" +:+ nl
    +:+ concat_strings (emit_name_case <$> protocol_messages p)
    +:+ "        default: return " +:+ dq +:+ "Unknown" +:+ dq +:+ ";" +:+ nl +:+ "    }" +:+ nl +:+ "}" +:+ nl +:+ nl
    +:+ "}  // namespace efe::generated::" +:+ ns +:+ nl).

(** * Files and [main] *)

(** The contents of the schema file, [None] if it cannot be opened; what [create_directories] did;
    whether the output could be opened. *)
Record Files : Type := mkFiles {
  input : option (list byte);
  create_directories : outcome unit;
  output_opened : bool }.

Definition emit (fs : Files) (p : Protocol) (output : list byte) : outcome string :=
  create_directories fs;;
  if negb (output_opened fs) then Throw (RuntimeError ("cannot open output: " +:+ string_of output))
  else header_text p.

Definition slurp (fs : Files) (path : list byte) : outcome (list byte) :=
  match input fs with
  | None => Throw (RuntimeError ("cannot open input: " +:+ string_of path))
  | Some text => Ret text
  end.

Variant Exit : Type :=
| Usage
| Generated (views : Z) (header : string)
| Failed (e : exn).

Definition compile (fs : Files) (schema output : list byte) : outcome (Z * Exit) :=
  source ← slurp fs schema;
  protocol ← parse_protocol source;
  header ← emit fs protocol output;
  Ret (0, Generated (len (protocol_messages protocol)) header).

(** The exit code, and what was done. *)
Definition main (fs : Files) (argv : list (list byte)) : outcome (Z * Exit) :=
  match argv with
  | [_; schema; output] =>
      match compile fs schema output with
      | Throw e => Ret (1, Failed e)
      | o => o
      end
  | _ => Ret (2, Usage)
  end.
End Emitter.
