(* ===== verification/Text.v ===== *)
(** Numbers as text: the formatted output of [std::ostream] and the conversions [std::stoi],
    [std::stoull] and [std::stod], in the "C" locale.  Floating-point numbers are printed and read
    as printf and strtod do, from the exact value of the number.  A stream is the text written to
    it together with its format flags. *)
From S2P Require Import Prelude Types Floats ByteReader ProtocolCompiler Emitter.
From Stdlib Require Import Strings.Byte.
#[local] Open Scope list_scope.
#[local] Open Scope Z_scope.
Import Protocolc Floats.

Module Text.

(** * Integers *)

Definition zero : byte := Byte.x30.
Definition dot : byte := Byte.x2e.
Definition minus : byte := Byte.x2d.
Definition plus : byte := Byte.x2b.

Definition digit (d : Z) : byte := byte_of_Z (if d <? 10 then 48 + d else 87 + d).
Fixpoint digits_loop (fuel : nat) (base n : Z) (acc : list byte) : list byte :=
  match fuel with
  | O => acc
  | S fuel =>
      let acc := digit (n mod base) :: acc in
      if n <? base then acc else digits_loop fuel base (n / base) acc
  end.
(** A natural number; it has no more digits than bits. *)
Definition digits (base n : Z) : list byte := digits_loop (S (Z.to_nat (Z.log2 n))) base n [].

(** * Floating-point numbers *)

(** The integer nearest to [n / d], the even one of two. *)
Definition round_half_even (n d : Z) : Z :=
  let q := n / d in
  let r := n mod d in
  if 2 * r <? d then q else if d <? 2 * r then q + 1 else if Z.even q then q else q + 1.

Definition sign (negative : bool) : list byte := if negative then [minus] else [].
Definition pad (k : nat) (n : Z) : list byte :=
  let ds := digits 10 n in replicate (k - length ds) zero ++ ds.
(** [n / 10^p] with [p] digits after the point. *)
Definition show_fixed (p n : Z) : list byte :=
  digits 10 (n / 10 ^ p) ++ (if p =? 0 then [] else dot :: pad (Z.to_nat p) (n mod 10 ^ p)).

(** The conversion %.*f *)
Definition format_fixed (p : Z) (x : spec_float) : list byte :=
  match x with
  | S754_zero s => sign s ++ show_fixed p 0
  | S754_finite s m e => let '(n, d) := ratio m e in sign s ++ show_fixed p (round_half_even (n * 10 ^ p) d)
  | S754_infinity s => sign s ++ bs "inf"
  | S754_nan => bs "nan"
  end.

(** The decimal exponent: [10^x <= n / d < 10^(x + 1)]. *)
Definition decimal_exponent (n d : Z) : Z :=
  if d <=? n then len (digits 10 (n / d)) - 1 else - len (digits 10 ((d - 1) / n)).
(** [n / d * 10^k], rounded. *)
Definition scale10 (n d k : Z) : Z := round_half_even (n * 10 ^ Z.max k 0) (d * 10 ^ Z.max (- k) 0).
(** %g drops the zeros at the end of the fraction, and the point if nothing is left. *)
Fixpoint drop_zeros (ds : list byte) : list byte :=
  match ds with
  | [] => []
  | c :: rest => if decide (c = zero) then drop_zeros rest else ds
  end.
Definition strip_fraction (s : list byte) : list byte :=
  if decide (dot ∈ s) then
    let r := drop_zeros (rev s) in
    rev (if decide (head r = Some dot) then tail r else r)
  else s.

(** The conversion %.*g *)
Definition format_general (p : Z) (x : spec_float) : list byte :=
  let p := if p =? 0 then 1 else p in
  match x with
  | S754_zero s => sign s ++ [zero]
  | S754_finite s m e =>
      let '(n, d) := ratio m e in
      let x := decimal_exponent n d in
      let c := scale10 n d (p - 1 - x) in
      let '(c, x) := if c =? 10 ^ p then (c / 10, x + 1) else (c, x) in
      sign s ++
      (if (-4 <=? x) && (x <? p) then strip_fraction (show_fixed (p - 1 - x) c)
       else strip_fraction (show_fixed (p - 1) c) ++
            (Byte.x65 :: (if x <? 0 then minus else plus) :: pad 2 (Z.abs x)))
  | S754_infinity s => sign s ++ bs "inf"
  | S754_nan => bs "nan"
  end.

(** * Streams *)

(** [std::hex], [std::fixed] and [std::setprecision] stay in force until they are undone. *)
Record ostream : Type := mkOstream { text : list byte; hexadecimal : bool; fixed : bool; precision : Z }.
Definition empty : ostream := mkOstream [] false false 6.
Definition put_text (s : list byte) (o : ostream) : ostream :=
  mkOstream (text o ++ s) (hexadecimal o) (fixed o) (precision o).
(** [operator<<] of an unsigned integer and of a [double]. *)
Definition put_unsigned (n : Z) (o : ostream) : ostream :=
  put_text (digits (if hexadecimal o then 16 else 10) n) o.
Definition put_double (x : spec_float) (o : ostream) : ostream :=
  put_text (if fixed o then format_fixed (precision o) x else format_general (precision o) x) o.
Definition set_hex (h : bool) (o : ostream) : ostream := mkOstream (text o) h (fixed o) (precision o).
Definition set_fixed (o : ostream) : ostream := mkOstream (text o) (hexadecimal o) true (precision o).
Definition set_precision (p : Z) (o : ostream) : ostream := mkOstream (text o) (hexadecimal o) (fixed o) p.

(** * Reading integers *)

Fixpoint skip_spaces (s : list byte) : list byte :=
  match s with
  | c :: rest => if isspace c then skip_spaces rest else s
  | [] => []
  end.
(** White space and a sign; [true] for a minus. *)
Definition read_sign (s : list byte) : bool * list byte :=
  let s := skip_spaces s in
  let negative := bool_decide (head s = Some minus) in
  (negative, if negative || bool_decide (head s = Some plus) then tail s else s).
Definition digit_value (c : byte) : Z :=
  if isdigit c then Z_of_byte c - 48 else Z_of_byte (Emitter.tolower c) - 87.
Definition value (base : Z) (ds : list byte) : Z := foldl (λ v c, v * base + digit_value c) 0 ds.

(** [std::stoi]: white space, a sign, and as many digits as there are. *)
Definition stoi (s : list byte) : outcome Z :=
  let '(negative, s) := read_sign s in
  let '(ds, _) := span isdigit s in
  let z := if negative then - value 10 ds else value 10 ds in
  if decide (ds = []) then Throw (InvalidArgument "stoi")
  else if decide (- 2 ^ 31 ≤ z < 2 ^ 31) then Ret z
  else Throw (OutOfRange "stoi").
(** [std::stoull]: a minus negates modulo 2^64. *)
Definition stoull (s : list byte) : outcome Z :=
  let '(negative, s) := read_sign s in
  let '(ds, _) := span isdigit s in
  let v := value 10 ds in
  if decide (ds = []) then Throw (InvalidArgument "stoull")
  else if decide (v ≤ u64_max) then Ret (if negative then u64 (- v) else v)
  else Throw (OutOfRange "stoull").

(** * Reading floating-point numbers *)

Definition isxdigit (c : byte) : bool := isdigit c || in_range 65 70 c || in_range 97 102 c.
(** The digits before and after the point, and the rest. *)
Definition mantissa (isd : byte → bool) (s : list byte) : list byte * list byte * list byte :=
  let '(whole, rest) := span isd s in
  match rest with
  | c :: rest' =>
      if decide (c = dot) then let '(fraction, rest'') := span isd rest' in (whole, fraction, rest'')
      else (whole, [], rest)
  | [] => (whole, [], [])
  end.
(** An exponent after [marker]; without digits there is none. *)
Definition exponent (marker : byte) (s : list byte) : Z :=
  match s with
  | c :: s =>
      if decide (Emitter.tolower c = marker) then
        let negative := bool_decide (head s = Some minus) in
        let s := if negative || bool_decide (head s = Some plus) then tail s else s in
        let v := value 10 (span isdigit s).1 in
        if negative then - v else v
      else 0
  | [] => 0
  end.

(** The number of format [f] nearest to [num / den * 2^e]. *)
Definition nearest (f : format) (num den : positive) (e : Z) : spec_float :=
  div f (S754_finite false num e) (S754_finite false den 0).
(** The number is [num / den * 2^e] exactly. *)
Definition is_exact (x : spec_float) (num den : positive) (e : Z) : bool :=
  match x with
  | S754_finite _ m e' =>
      let s := Z.min e e' in Z.pos m * 2 ^ (e' - s) * Z.pos den =? Z.pos num * 2 ^ (e - s)
  | _ => false
  end.
(** 53 digits and any exponent: what tells whether a number is too small for a [double]. *)
Definition wide : format := mkFormat 53 65536.
Definition is_tiny (num den : positive) (e : Z) : bool :=
  match nearest wide num den e with
  | S754_finite _ m e' => Zdigits2 (Z.pos m) + e' <=? -1022
  | _ => false
  end.
Definition set_sign (negative : bool) (x : spec_float) : spec_float := if negative then SFopp x else x.
(** [strtod] sets ERANGE when it overflows, and when it underflows to an inexact result. *)
Definition in_double_range (negative : bool) (num den : positive) (e : Z) : outcome spec_float :=
  let x := nearest double num den e in
  match x with
  | S754_infinity _ => Throw (OutOfRange "stod")
  | _ =>
      if is_tiny num den e && negb (is_exact x num den e) then Throw (OutOfRange "stod")
      else Ret (set_sign negative x)
  end.

(** [ds] * 10^[e].  Beyond four hundred decimal places a number is out of range anyway. *)
Definition decimal_number (negative : bool) (ds : list byte) (e : Z) : outcome spec_float :=
  match value 10 ds with
  | Z.pos v =>
      if 400 <? Z.abs (len (digits 10 (Z.pos v)) + e) then Throw (OutOfRange "stod")
      else in_double_range negative (v * Z.to_pos (10 ^ Z.max e 0)) (Z.to_pos (10 ^ Z.max (- e) 0)) 0
  | _ => Ret (S754_zero negative)
  end.
(** [ds] in base 16, times 2^[e]. *)
Definition hex_number (negative : bool) (ds : list byte) (e : Z) : outcome spec_float :=
  match value 16 ds with
  | Z.pos v =>
      if 2000 <? Z.abs (Zdigits2 (Z.pos v) + e) then Throw (OutOfRange "stod")
      else in_double_range negative v 1 e
  | _ => Ret (S754_zero negative)
  end.

Definition starts_with (word s : list byte) : bool :=
  bool_decide (Emitter.tolower <$> take (length word) s = word).

(** [std::stod]: what [strtod] reads, the rest being ignored. *)
Definition stod (s : list byte) : outcome spec_float :=
  let '(negative, s) := read_sign s in
  if starts_with (bs "inf") s then Ret (S754_infinity negative)
  else if starts_with (bs "nan") s then Ret S754_nan
  else
    let '(hw, hf, hrest) := mantissa isxdigit (drop 2 s) in
    if starts_with (bs "0x") s && negb (bool_decide (hw ++ hf = [])) then
      hex_number negative (hw ++ hf) (exponent Byte.x70 hrest - 4 * len hf)
    else
      let '(w, f, rest) := mantissa isdigit s in
      if decide (w ++ f = []) then Throw (InvalidArgument "stod")
      else decimal_number negative (w ++ f) (exponent Byte.x65 rest - len f).

(** * Chains of [<<] *)

Module Items.
(** What stands between two [<<]: text, a number, or a manipulator. *)
Variant Item : Type :=
| Str (s : string)
| Chars (s : list byte)
| Unsigned (n : Z)
| Double (x : spec_float)
| Newline
| Hex
| Dec
| Fixed
| Precision (p : Z).
Definition put_item (o : ostream) (i : Item) : ostream :=
  match i with
  | Str s => put_text (bs s) o
  | Chars s => put_text s o
  | Unsigned n => put_unsigned n o
  | Double x => put_double x o
  | Newline => put_text [Byte.x0a] o
  | Hex => set_hex true o
  | Dec => set_hex false o
  | Fixed => set_fixed o
  | Precision p => set_precision p o
  end.
End Items.
End Text.
