(* ===== verification/TextProofs.v ===== *)
(** Numbers survive being printed and read: digits are read back, a price is printed exactly although
    it is divided in floating point, and a decimal number is read to within the precision of a
    [double]. *)
From S2P Require Import Prelude Types Floats ByteReader ProtocolCompiler Emitter Text.
From Stdlib Require Import Strings.Byte.
#[local] Open Scope list_scope.
#[local] Open Scope Z_scope.
Import Protocolc Floats Text.

(** * Digits *)

Lemma digit_of d : 0 ≤ d < 16 → digit_value (digit d) = d ∧ isxdigit (digit d) = true ∧ isdigit (digit d) = (d <? 10).
Proof.
  intros Hd. assert (Hall : Forall (λ d, digit_value (digit d) = d ∧ isxdigit (digit d) = true ∧
    isdigit (digit d) = (d <? 10)) (seqZ 0 16)) by decided.
  rewrite Forall_forall in Hall. apply Hall, elem_of_seqZ. lia.
Qed.

(** [ds] are digits of base [base]. *)
Definition is_digit_of (base : Z) (c : byte) : Prop :=
  isxdigit c = true ∧ 0 ≤ digit_value c < base ∧ isdigit c = (digit_value c <? 10).

Lemma value_snoc base ds c : value base (ds ++ [c]) = value base ds * base + digit_value c.
Proof. unfold value. by rewrite foldl_app. Qed.
Lemma value_nonneg base ds : 0 ≤ base → Forall (is_digit_of base) ds → 0 ≤ value base ds.
Proof.
  intros Hb Hds. induction ds as [|c ds IH] using rev_ind; [done|]. apply Forall_app in Hds as [? Hc].
  apply Forall_singleton in Hc as (_ & ? & _). rewrite value_snoc. specialize (IH ltac:(done)). nia.
Qed.

Lemma digits_loop_spec base fuel n acc :
  2 ≤ base ≤ 16 → 0 ≤ n < 2 ^ Z.of_nat fuel → (0 < fuel)%nat →
  ∃ ds, digits_loop fuel base n acc = ds ++ acc ∧ value base ds = n ∧ Forall (is_digit_of base) ds ∧ ds ≠ [].
Proof.
  intros Hb. revert n acc. induction fuel as [|fuel IH]; intros n acc Hn Hf; [lia|]. cbn [digits_loop].
  pose proof (Z.mod_pos_bound n base ltac:(lia)) as Hmod.
  destruct (digit_of (n mod base) ltac:(lia)) as (Hv & Hx & Hd).
  assert (Hdig : is_digit_of base (digit (n mod base))) by (split; [done|]; by rewrite Hv).
  destruct (Z.ltb_spec n base).
  - exists [digit (n mod base)]. split_and!; [done| |by constructor|done].
    unfold value. cbn [foldl]. rewrite Hv, Z.mod_small by lia. lia.
  - assert (Hdiv : 0 ≤ n / base < 2 ^ Z.of_nat fuel ∧ n / base ≠ 0).
    { rewrite Nat2Z.inj_succ, Z.pow_succ_r in Hn by lia. pose proof (Z.div_mod n base ltac:(lia)).
      split; [split; [apply Z.div_pos; lia|]|].
      - apply Z.div_lt_upper_bound; [lia|]. nia.
      - intros E. rewrite E in *. lia. }
    destruct (IH (n / base) (digit (n mod base) :: acc) ltac:(lia)) as (ds & -> & Hval & Hall & Hne).
    { destruct fuel; [cbn in Hdiv; lia|lia]. }
    exists (ds ++ [digit (n mod base)]). split_and!.
    + by rewrite <-app_assoc.
    + rewrite value_snoc, Hval, Hv. pose proof (Z.div_mod n base ltac:(lia)). lia.
    + apply Forall_app. split; [done|by constructor].
    + by destruct ds.
Qed.
Lemma digits_spec base n :
  2 ≤ base ≤ 16 → 0 ≤ n →
  value base (digits base n) = n ∧ Forall (is_digit_of base) (digits base n) ∧ digits base n ≠ [].
Proof.
  intros Hb Hn. unfold digits.
  destruct (digits_loop_spec base (S (Z.to_nat (Z.log2 n))) n [] Hb) as (ds & -> & ? & ? & ?); [|lia|by rewrite app_nil_r].
  split; [done|]. rewrite Nat2Z.inj_succ, Z2Nat.id by apply Z.log2_nonneg.
  destruct (decide (n = 0)) as [->|]; [done|]. apply Z.log2_spec. lia.
Qed.
Lemma value_digits base n : 2 ≤ base ≤ 16 → 0 ≤ n → value base (digits base n) = n.
Proof. intros. by apply digits_spec. Qed.

Lemma isdigit_of_10 c : is_digit_of 10 c → isdigit c = true.
Proof. intros (_ & ? & ->). apply Z.ltb_lt. lia. Qed.
Lemma digits_isdigit n : 0 ≤ n → Forall isdigit (digits 10 n).
Proof.
  intros Hn. destruct (digits_spec 10 n ltac:(lia) Hn) as (_ & Hall & _).
  eapply Forall_impl; [exact Hall|]. intros c Hc. by rewrite isdigit_of_10.
Qed.

(** Zeros in front do not count. *)
Lemma value_replicate base k ds : value base (replicate k zero ++ ds) = value base ds.
Proof. induction k as [|k IH]; [done|]. rewrite <-IH. reflexivity. Qed.
Lemma value_app base ds ds' :
  value base (ds ++ ds') = value base ds * base ^ Z.of_nat (length ds') + value base ds'.
Proof.
  induction ds' as [|c ds' IH] using rev_ind; [rewrite app_nil_r; cbn; lia|].
  rewrite app_assoc, !value_snoc, IH, length_app, Nat2Z.inj_add. cbn [length].
  rewrite Z.pow_add_r by lia. lia.
Qed.
(** A number below 10^k has at most k digits. *)
Lemma value_lower ds : Forall (is_digit_of 10) ds → ∀ c, is_digit_of 10 c → digit_value c ≠ 0 →
  10 ^ Z.of_nat (length ds) ≤ value 10 (c :: ds).
Proof.
  intros Hds c Hc Hne. change (c :: ds) with ([c] ++ ds). rewrite value_app.
  pose proof (value_nonneg 10 ds ltac:(lia) Hds). destruct Hc as (_ & Hc & _).
  unfold value at 1. cbn [foldl]. assert (0 < 10 ^ Z.of_nat (length ds)) by (apply Z.pow_pos_nonneg; lia). nia.
Qed.

(** * Rounding to integers *)

Lemma round_half_even_near n d r : 0 < d → 2 * Z.abs (n - r * d) < d → round_half_even n d = r.
Proof.
  intros Hd Hr. unfold round_half_even.
  destruct (decide (r * d ≤ n)).
  - assert (n / d = r) as Hq by (symmetry; apply (Z.div_unique_pos _ _ _ (n - r * d)); lia).
    assert (n mod d = n - r * d) as Hm by (symmetry; apply (Z.mod_unique_pos _ _ r); lia).
    rewrite Hq, Hm. by rewrite (proj2 (Z.ltb_lt _ _)) by lia.
  - assert (n / d = r - 1) as Hq by (symmetry; apply (Z.div_unique_pos _ _ _ (n - (r - 1) * d)); lia).
    assert (n mod d = n - (r - 1) * d) as Hm by (symmetry; apply (Z.mod_unique_pos _ _ (r - 1)); lia).
    rewrite Hq, Hm. rewrite (proj2 (Z.ltb_ge _ _)) by lia. rewrite (proj2 (Z.ltb_lt _ _)) by lia. lia.
Qed.

(** A fraction in the scale 2^[s]. *)
Lemma ratio_scaled m e s n d :
  s ≤ e → s ≤ 0 → ratio m e = (n, d) → n * 2 ^ (- s) = Z.pos m * 2 ^ (e - s) * d ∧ 0 < d.
Proof.
  intros He Hs [= <- <-]. split; [|apply Z.pow_pos_nonneg; lia].
  rewrite <-!Z.mul_assoc, <-!Z.pow_add_r by lia. do 2 f_equal. lia.
Qed.

(** A float that is [r / 10^p] up to a factor of 1 ± 2^-51 is printed as that, if [r] is small. *)
Lemma format_fixed_near p m e s r :
  s ≤ e → s ≤ 0 → 0 ≤ r < 2 ^ 49 →
  r * 2 ^ (- s) * (2 ^ 51 - 1) ≤ Z.pos m * 2 ^ (e - s) * 10 ^ p * 2 ^ 51 ≤ r * 2 ^ (- s) * (2 ^ 51 + 1) →
  format_fixed p (S754_finite false m e) = show_fixed p r.
Proof.
  intros He Hs Hr Hb. unfold format_fixed. destruct (ratio m e) as [n d] eqn:Hnd.
  destruct (ratio_scaled m e s n d He Hs Hnd) as [Hn Hd]. cbn [sign app]. f_equal.
  apply round_half_even_near; [done|].
  set (y := Z.pos m * 2 ^ (e - s)) in *. set (t := 10 ^ p) in *.
  assert (Ht : 0 < 2 ^ (- s)) by (apply Z.pow_pos_nonneg; lia). set (z := 2 ^ (- s)) in *. clearbody y t z.
  (* | n t - r d | z = | y t - r z | d *)
  assert (Heq : (n * t - r * d) * z = (y * t - r * z) * d).
  { transitivity (n * z * t - r * d * z); [ring|]. rewrite Hn. ring. }
  assert (Hyt : 4 * Z.abs (y * t - r * z) ≤ z).
  { assert (Z.abs (y * t - r * z) * 2 ^ 51 ≤ r * z) by lia. nia. }
  assert (Hzd : Z.abs (n * t - r * d) * z = Z.abs (y * t - r * z) * d).
  { rewrite <-(Z.abs_eq z) at 1 by lia. rewrite <-Z.abs_mul, Heq, Z.abs_mul. by rewrite (Z.abs_eq d) by lia. }
  nia.
Qed.

(** * Prices *)

(** C38: A price is printed exactly.  [to_decimal_price] divides in floating point, and no fraction
    of 10000 but multiples of 1/16 is a [double]; still, with four digits after the point every
    32-bit price comes out as its integer part, a point, and its four decimals. *)
Theorem printed_price_is_exact raw :
  0 ≤ raw ≤ u32_max →
  format_fixed 4 (to_decimal_price raw) = digits 10 (raw / 10000) ++ [dot] ++ pad 4 (raw mod 10000).
Proof.
  intros Hraw. transitivity (show_fixed 4 raw); [|done].
  destruct (decide (raw = 0)) as [->|Hne]; [by vm_compute|].
  unfold to_decimal_price. destruct (of_Z_double raw ltac:(word_lia)) as (Ha & m1 & -> & Hm1 & Hb1).
  set (a := align raw) in *.
  assert (H2 : of_Z double 10000 = S754_finite false 5497558138880000 (-39)) by reflexivity. rewrite H2.
  unfold div. cbn [double Floats.precision max_exponent].
  pose proof (div_error 53 1024 ltac:(lia) ltac:(lia) m1 (- a) 5497558138880000 (-39)) as Hdiv.
  assert (Hs : quotient_scale 53 m1 (- a) 5497558138880000 (-39) = -14 - a).
  { unfold quotient_scale. cbn [Zdigits2]. rewrite (digits2_unique m1 53) by lia.
    change (Z.pos (digits2_pos 5497558138880000)) with 53. lia. }
  rewrite Hs in Hdiv. cbn [Zdigits2] in Hdiv. rewrite (digits2_unique m1 53) in Hdiv by lia.
  change (Z.pos (digits2_pos 5497558138880000)) with 53 in Hdiv.
  destruct Hdiv as (m & e & -> & He & Hb & _); [lia..|].
  apply (format_fixed_near 4 m e (-14 - a)); [lia..|word_lia|].
  replace (- a - -39 - (-14 - a)) with 53 in Hb by lia. rewrite Hm1 in Hb.
  replace (- (-14 - a)) with (14 + a) by lia. rewrite Z.pow_add_r by lia.
  set (y := Z.pos m * 2 ^ (e - (-14 - a))) in *. set (t := 2 ^ a) in *. clearbody y t. lia.
Qed.
Lemma printed_price_is_exact_witness :
  0 ≤ 4294967295 ≤ u32_max ∧ format_fixed 4 (to_decimal_price 4294967295) = bs "429496.7295".
Proof.
  split; [word_lia|]. rewrite (printed_price_is_exact 4294967295); [reflexivity|word_lia].
Defined.

(** * Reading what was printed *)

Lemma span_all (p : byte → bool) ds rest :
  Forall p ds → (∀ c, head rest = Some c → p c = false) → span p (ds ++ rest) = (ds, rest).
Proof.
  intros Hds Hrest. induction Hds as [|c ds Hc _ IH]; cbn [app span].
  - destruct rest as [|c rest]; [done|]. cbn [span]. by rewrite Hrest.
  - rewrite IH. by destruct (p c).
Qed.

(** Text that starts with a digit has no white space, sign or name in front. *)
Lemma read_sign_digit c s : isdigit c = true → read_sign (c :: s) = (false, c :: s).
Proof.
  intros Hc. unfold read_sign. cbn [skip_spaces head].
  assert (Hplain : isspace c = false ∧ c ≠ minus ∧ c ≠ plus).
  { unfold isdigit, in_range in Hc. unfold isspace, in_range. split; [lia|].
    split; intros ->; vm_compute in Hc; discriminate. }
  destruct Hplain as (-> & Hm & Hp). cbn [head].
  rewrite !bool_decide_eq_false_2 by congruence. done.
Qed.
Lemma tolower_digit c : isdigit c = true → Emitter.tolower c = c.
Proof. unfold Emitter.tolower, isdigit, in_range. intros Hc. case_match; [lia|done]. Qed.
Lemma starts_with_digit word w c s :
  isdigit c = true → head word = Some w → isdigit w = false → starts_with word (c :: s) = false.
Proof.
  intros Hc Hword Hw. destruct word as [|w' ws]; [done|]. injection Hword as ->. unfold starts_with. apply bool_decide_eq_false_2. cbn [length take fmap list_fmap].
  intros [= Heq _]. rewrite tolower_digit in Heq by done. congruence.
Qed.

(** Whole numbers. *)
Lemma read_digits n s :
  0 ≤ n → (∀ c, head s = Some c → isdigit c = false) →
  read_sign (digits 10 n ++ s) = (false, digits 10 n ++ s) ∧
  span isdigit (digits 10 n ++ s) = (digits 10 n, s).
Proof.
  intros Hn Hs. pose proof (digits_isdigit n Hn) as Hall.
  destruct (digits_spec 10 n ltac:(lia) Hn) as (_ & _ & Hne).
  split; [|by apply span_all]. destruct (digits 10 n) as [|c ds]; [done|].
  apply Forall_cons in Hall as [Hc _]. cbn [app]. apply read_sign_digit. by destruct (isdigit c).
Qed.
Lemma stoi_digits n : 0 ≤ n < 2 ^ 31 → stoi (digits 10 n) = Ret n.
Proof.
  intros Hn. destruct (read_digits n [] ltac:(lia) ltac:(done)) as [Hr Hs]. rewrite app_nil_r in *.
  destruct (digits_spec 10 n ltac:(lia) ltac:(lia)) as (Hv & _ & Hne).
  unfold stoi. by rewrite Hr, Hs, Hv, decide_False, decide_True by (done || lia).
Qed.
Lemma stoull_digits n : 0 ≤ n ≤ u64_max → stoull (digits 10 n) = Ret n.
Proof.
  intros Hn. destruct (read_digits n [] ltac:(lia) ltac:(done)) as [Hr Hs]. rewrite app_nil_r in *.
  destruct (digits_spec 10 n ltac:(lia) ltac:(lia)) as (Hv & _ & Hne).
  unfold stoull. by rewrite Hr, Hs, Hv, decide_False, decide_True by (done || lia).
Qed.

(** ** Digits behind the point *)

Lemma length_digits_loop base fuel n acc k :
  2 ≤ base → (0 < k)%nat → 0 ≤ n < base ^ Z.of_nat k →
  (length (digits_loop fuel base n acc) ≤ k + length acc)%nat.
Proof.
  intros Hb. revert n acc k. induction fuel as [|fuel IH]; intros n acc k Hk Hn; cbn [digits_loop]; [lia|].
  destruct (Z.ltb_spec n base); [cbn; lia|]. destruct k as [|k]; [lia|].
  rewrite Nat2Z.inj_succ, Z.pow_succ_r in Hn by lia. destruct k as [|k]; [cbn in Hn; lia|].
  etrans; [apply (IH _ _ (S k)); [lia|]|cbn; lia].
  split; [apply Z.div_pos; lia|]. apply Z.div_lt_upper_bound; lia.
Qed.
Lemma length_digits base n k :
  2 ≤ base → (0 < k)%nat → 0 ≤ n < base ^ Z.of_nat k → (length (digits base n) ≤ k)%nat.
Proof. intros ???. unfold digits. etrans; [by apply length_digits_loop|]. cbn. lia. Qed.

Lemma length_pad k n : (0 < k)%nat → 0 ≤ n < 10 ^ Z.of_nat k → length (pad k n) = k.
Proof.
  intros Hk Hn. unfold pad. pose proof (length_digits 10 n k ltac:(lia) Hk Hn).
  rewrite length_app, length_replicate. lia.
Qed.
Lemma pad_isdigit k n : 0 ≤ n → Forall isdigit (pad k n).
Proof. intros Hn. apply Forall_app. split; [by apply Forall_replicate|by apply digits_isdigit]. Qed.

(** The fraction of [show_fixed], without the point. *)
Definition fraction (p n : Z) : list byte := if p =? 0 then [] else pad (Z.to_nat p) (n mod 10 ^ p).
Lemma fraction_spec p n :
  0 ≤ p → 0 ≤ n →
  length (fraction p n) = Z.to_nat p ∧ Forall isdigit (fraction p n) ∧
  value 10 (digits 10 (n / 10 ^ p) ++ fraction p n) = n.
Proof.
  intros Hp Hn. assert (Ht : 0 < 10 ^ p) by (apply Z.pow_pos_nonneg; lia).
  pose proof (Z.mod_pos_bound n (10 ^ p) Ht) as Hmod. pose proof (Z.div_mod n (10 ^ p) ltac:(lia)) as Hdm.
  assert (Hq : 0 ≤ n / 10 ^ p) by (apply Z.div_pos; lia).
  unfold fraction. destruct (Z.eqb_spec p 0) as [->|Hne].
  - split_and!; [done|constructor|]. rewrite app_nil_r, value_digits by lia. rewrite Z.div_1_r. done.
  - assert (Hl : length (pad (Z.to_nat p) (n mod 10 ^ p)) = Z.to_nat p) by (apply length_pad; rewrite ?Z2Nat.id; lia).
    split_and!; [done|apply pad_isdigit; lia|].
    rewrite value_app, Hl, Z2Nat.id by lia. unfold pad. rewrite value_replicate, !value_digits by lia. lia.
Qed.

Lemma mantissa_fixed p n :
  0 ≤ p → 0 ≤ n → mantissa isdigit (show_fixed p n) = (digits 10 (n / 10 ^ p), fraction p n, []).
Proof.
  intros Hp Hn. assert (Hq : 0 ≤ n / 10 ^ p) by (apply Z.div_pos; [lia|apply Z.pow_pos_nonneg; lia]).
  destruct (fraction_spec p n Hp Hn) as (_ & Hf & _).
  unfold mantissa, show_fixed, fraction in *. destruct (p =? 0).
  - destruct (read_digits (n / 10 ^ p) [] Hq ltac:(done)) as [_ ->]. done.
  - destruct (read_digits (n / 10 ^ p) (dot :: pad (Z.to_nat p) (n mod 10 ^ p)) Hq) as [_ ->].
    { by intros c [= <-]. }
    rewrite decide_True by done. pose proof (span_all isdigit _ [] Hf ltac:(done)) as Hs.
    rewrite app_nil_r in Hs. by rewrite Hs.
Qed.

(** A decimal number is read as a number. *)
Lemma stod_fixed p n :
  0 ≤ p → 0 ≤ n →
  stod (show_fixed p n) = decimal_number false (digits 10 (n / 10 ^ p) ++ fraction p n) (- p).
Proof.
  intros Hp Hn. assert (Hq : 0 ≤ n / 10 ^ p) by (apply Z.div_pos; [lia|apply Z.pow_pos_nonneg; lia]).
  destruct (fraction_spec p n Hp Hn) as (Hl & Hf & _).
  destruct (read_digits (n / 10 ^ p) (if p =? 0 then [] else dot :: fraction p n) Hq) as [Hsign _].
  { destruct (p =? 0); [done|]. by intros c [= <-]. }
  assert (Heq : show_fixed p n = digits 10 (n / 10 ^ p) ++ (if p =? 0 then [] else dot :: fraction p n)).
  { unfold show_fixed, fraction. by destruct (p =? 0). }
  pose proof (mantissa_fixed p n Hp Hn) as Hm. rewrite Heq in *. unfold stod. rewrite Hsign.
  pose proof (digits_isdigit _ Hq) as Hdig. destruct (digits_spec 10 _ ltac:(lia) Hq) as (_ & _ & Hne).
  destruct (digits 10 (n / 10 ^ p)) as [|c ds] eqn:Hds; [done|]. apply Forall_cons in Hdig as [Hc Hdig].
  assert (isdigit c = true) as Hc' by by destruct (isdigit c). cbn [app] in Hm |- *.
  rewrite (starts_with_digit (bs "inf") Byte.x69), (starts_with_digit (bs "nan") Byte.x6e) by done.
  assert (Hx : starts_with (bs "0x") (c :: ds ++ (if p =? 0 then [] else dot :: fraction p n)) = false).
  { unfold starts_with. apply bool_decide_eq_false_2. destruct ds as [|c' ds]; cbn [app].
    - destruct (p =? 0); [done|]. cbn. intros [=].
    - apply Forall_cons in Hdig as [Hc2 _]. intros [= _ Heq'].
      rewrite tolower_digit in Heq' by by destruct (isdigit c'). subst c'. by vm_compute in Hc2. }
  rewrite Hx. destruct (mantissa isxdigit _) as [[hw hf] hrest]. cbn [andb]. rewrite Hm.
  rewrite decide_False by done. cbn [exponent]. f_equal. rewrite Hl. lia.
Qed.

(** ** Precision *)

(** The nearest float is a good one, whatever the range of exponents. *)
Lemma nearest_spec emax num den :
  1024 ≤ emax → Z.pos num < 2 ^ 333 → Z.pos den < 2 ^ 333 →
  ∃ m e s, nearest (mkFormat 53 emax) num den 0 = S754_finite false m e ∧ s ≤ e ∧ s ≤ 0 ∧
    Z.pos num * 2 ^ (- s) * (2 ^ 51 - 1) ≤ Z.pos m * 2 ^ (e - s) * Z.pos den * 2 ^ 51
      ≤ Z.pos num * 2 ^ (- s) * (2 ^ 51 + 1).
Proof.
  intros He Hn Hd. pose proof (digits2_upper num 333 ltac:(lia) Hn). pose proof (digits2_upper den 333 ltac:(lia) Hd).
  pose proof (div_error 53 emax ltac:(lia) He num 0 den 0) as Hdiv. unfold quotient_scale in Hdiv. cbn [Zdigits2] in Hdiv.
  destruct Hdiv as (m & e & Heq & Hse & Hb & _); [lia..|].
  eexists m, e, _. split; [exact Heq|]. split; [exact Hse|]. split; [lia|].
  rewrite Z.sub_0_r, Z.sub_0_l in Hb. exact Hb.
Qed.
Lemma not_tiny num den : Z.pos num < 2 ^ 333 → Z.pos den < 2 ^ 333 → is_tiny num den 0 = false.
Proof.
  intros Hn Hd. unfold is_tiny. destruct (nearest_spec 65536 num den ltac:(lia) Hn Hd) as (m & e & s & Heq & Hse & Hs & Hlo & _).
  change wide with (mkFormat 53 65536). rewrite Heq. apply Z.leb_gt. cbn [Zdigits2].
  pose proof (digits2_bounds m) as [_ Hm]. set (d := Z.pos (digits2_pos m)) in *.
  destruct (decide (-1022 < d + e)); [done|]. exfalso.
  assert (Hy : Z.pos m * 2 ^ (e - s) ≤ 2 ^ d * 2 ^ (e - s)) by (apply Z.mul_le_mono_nonneg_r; [apply Z.pow_nonneg|]; lia).
  rewrite <-Z.pow_add_r in Hy by lia.
  assert (Hz : 2 ^ (d + (e - s)) * 2 ^ 334 ≤ 2 ^ (- s)).
  { rewrite <-Z.pow_add_r by lia. apply Z.pow_le_mono_r; lia. }
  assert (0 < 2 ^ (- s)) by (apply Z.pow_pos_nonneg; lia).
  assert (0 < 2 ^ (e - s)) by (apply Z.pow_pos_nonneg; lia).
  set (y := Z.pos m * 2 ^ (e - s)) in *. set (z := 2 ^ (- s)) in *. set (u := 2 ^ (d + (e - s))) in *.
  assert (0 < y) by (unfold y; nia). clearbody y z u.
  assert (y * Z.pos den * 2 ≤ z) by nia. nia.
Qed.

(** A decimal number [n / 10^p] written with [p] digits after the point is read as a positive
    double that differs from it by a factor of at most 1 ± 2^-51. *)
Lemma decimal_is_read p n :
  0 ≤ p ≤ 100 → 0 < n < 10 ^ 100 →
  ∃ m e a b, stod (show_fixed p n) = Ret (S754_finite false m e) ∧ ratio m e = (a, b) ∧
    Z.abs (a * 10 ^ p - n * b) * 2 ^ 51 ≤ n * b.
Proof.
  intros Hp Hn. rewrite stod_fixed by lia. destruct (fraction_spec p n) as (Hl & _ & Hv); [lia..|].
  unfold decimal_number. rewrite Hv. destruct n as [|v|v]; [lia| |lia].
  pose proof (length_digits 10 (Z.pos v) 100 ltac:(lia) ltac:(lia) ltac:(split; [lia|exact (proj2 Hn)])) as Hlen.
  rewrite (proj2 (Z.ltb_ge _ _)) by lia.
  replace (Z.max (- p) 0) with 0 by lia. replace (Z.max (- - p) 0) with p by lia.
  cbn [Z.pow Z.to_pos]. rewrite Pos.mul_1_r.
  assert (Ht : 0 < 10 ^ p) by (apply Z.pow_pos_nonneg; lia).
  assert (Hsmall : 10 ^ 100 < 2 ^ 333) by reflexivity.
  assert (Hden : Z.pos (Z.to_pos (10 ^ p)) = 10 ^ p) by (by apply Z2Pos.id).
  assert (Hdlt : Z.pos (Z.to_pos (10 ^ p)) < 2 ^ 333).
  { rewrite Hden. eapply Z.le_lt_trans; [apply (Z.pow_le_mono_r 10 p 100); lia|done]. }
  destruct (nearest_spec 1024 v (Z.to_pos (10 ^ p)) ltac:(lia) ltac:(lia) Hdlt)
    as (m & e & s & Heq & Hse & Hs & Hb).
  unfold in_double_range. change double with (mkFormat 53 1024). rewrite Heq, (not_tiny v _ ltac:(lia) Hdlt).
  cbn [andb set_sign]. destruct (ratio m e) as [a b] eqn:Hr. exists m, e, a, b. split; [done|]. split; [done|].
  destruct (ratio_scaled m e s a b Hse Hs Hr) as [Hab Hbpos]. rewrite Hden in Hb.
  assert (Hz : 0 < 2 ^ (- s)) by (apply Z.pow_pos_nonneg; lia).
  set (y := Z.pos m * 2 ^ (e - s)) in *. set (z := 2 ^ (- s)) in *. set (t := 10 ^ p) in *. clearbody y z t.
  assert (Heq2 : Z.abs (a * t - Z.pos v * b) * z = Z.abs (y * t - Z.pos v * z) * b).
  { rewrite <-(Z.abs_eq z) at 1 by lia. rewrite <-(Z.abs_eq b) at 2 by lia. rewrite <-!Z.abs_mul. f_equal.
    transitivity (a * z * t - Z.pos v * b * z); [ring|]. rewrite Hab. ring. }
  assert (Habs : Z.abs (y * t - Z.pos v * z) * 2 ^ 51 ≤ Z.pos v * z) by lia.
  apply (Z.mul_le_mono_pos_r _ _ z Hz).
  replace (Z.abs (a * t - Z.pos v * b) * 2 ^ 51 * z) with (Z.abs (a * t - Z.pos v * b) * z * 2 ^ 51) by ring.
  rewrite Heq2. replace (Z.pos v * b * z) with (Z.pos v * z * b) by ring.
  replace (Z.abs (y * t - Z.pos v * z) * b * 2 ^ 51) with (Z.abs (y * t - Z.pos v * z) * 2 ^ 51 * b) by ring.
  apply Z.mul_le_mono_nonneg_r; [lia|exact Habs].
Qed.
(** A hash is printed in hexadecimal digits that read back as the hash. *)
Lemma value_hex h : 0 ≤ h ≤ u64_max → value 16 (digits 16 h) = h ∧ (length (digits 16 h) ≤ 16)%nat.
Proof. intros Hh. split; [apply value_digits; lia|]. apply length_digits; [lia|lia|]. word_lia. Qed.
