(* ===== verification/ProtocolProofs.v ===== *)
(** The protocol compiler terminates on every input, and what it accepts has the layout that
    [docs/protocol-compiler.md] promises. *)
From S2P Require Import Prelude ByteReader ProtocolCompiler Emitter Itch50Schema.
From Stdlib Require Import Strings.Byte.
#[local] Open Scope list_scope.
#[local] Open Scope Z_scope.
Import Protocolc.

(** * Running the parser *)

(** [m] returns with [Q], or throws one of the exceptions [main] reports. *)
Definition reported {A} (o : outcome A) : Prop :=
  match o with Ret _ | Throw (RuntimeError _) | Throw (OutOfRange _) => True | _ => False end.
Definition safe {A} (m : M Parser A) (Q : A → Parser → Prop) (p : Parser) : Prop :=
  match m p with
  | (Ret a, p') => Q a p'
  | (o, _) => reported o
  end.

Lemma safe_ret {A} (a : A) (Q : A → Parser → Prop) p : Q a p → safe (mret a) Q p.
Proof. done. Qed.
Lemma safe_bind {A B} (m : M Parser A) (k : A → M Parser B) Q p :
  safe m (λ a p', safe (k a) Q p') p → safe (m ≫= k) Q p.
Proof. unfold safe, mbind, M_bind. by destruct (m p) as [[] ?]. Qed.
Lemma safe_mono {A} (m : M Parser A) (P Q : A → Parser → Prop) p :
  safe m P p → (∀ a p', P a p' → Q a p') → safe m Q p.
Proof. unfold safe. destruct (m p) as [[] ?]; eauto. Qed.
Lemma safe_get (Q : Parser → Parser → Prop) p : Q p p → safe get Q p.
Proof. done. Qed.
Lemma safe_fail {A} msg (Q : A → Parser → Prop) p : safe (fail msg) Q p.
Proof. done. Qed.
Lemma safe_lift {A} (o : outcome A) (Q : A → Parser → Prop) p :
  reported o → (∀ a, o = Ret a → Q a p) → safe (lift o) Q p.
Proof. unfold safe, lift. destruct o; cbn; eauto. Qed.

(** * Tokens consume characters *)

Definition weight (t : Token) : nat := if decide (kind t = KEnd) then 0 else 1.
(** What is left to parse: the token at hand and the characters after it. *)
Definition remaining (p : Parser) : nat := weight (current_ p) + length (rest_ (lexer_ p)).

Lemma skip_length c input l input' l' :
  skip_ws_comments c input l = (input', l') → (length input' ≤ length input)%nat.
Proof.
  revert c l. induction input as [|x input IH]; intros c l; cbn [skip_ws_comments]; [by intros [= <- _]|].
  repeat (case_decide || case_match); intros Heq;
    try (apply IH in Heq; cbn; lia); by injection Heq as <- _.
Qed.
Lemma span_length p input a b : span p input = (a, b) → (length b ≤ length input)%nat.
Proof.
  revert a b. induction input as [|c input IH]; intros a b; cbn; [by intros [= _ <-]|].
  destruct (p c); [|by intros [= _ <-]]. destruct (span p input) as [a' b'] eqn:E.
  intros [= _ <-]. specialize (IH _ _ eq_refl). lia.
Qed.
Lemma string_chars_spec input :
  match string_chars input with
  | Ret (_, rest) => (length rest < length input)%nat
  | o => reported o
  end.
Proof.
  induction input as [|c input IH]; cbn [string_chars]; [done|].
  repeat case_decide; [cbn; lia|done|]. destruct (string_chars input) as [[out rest]|[]|?|]; cbn in *; try done. lia.
Qed.

Lemma span_prefix p input a b : span p input = (a, b) → Forall p a.
Proof.
  revert a b. induction input as [|c input IH]; intros a b; cbn; [by intros [= <- _]|].
  destruct (p c) eqn:Hc; [|by intros [= <- _]]. destruct (span p input) as [a' b'] eqn:E.
  intros [= <- _]. constructor; [by rewrite Hc|by eapply IH].
Qed.
(** The text of a number is digits. *)
Definition token_ok (t : Token) : Prop := kind t = KNumber → Forall isdigit (text t).

Lemma weight_le t : (weight t ≤ 1)%nat.
Proof. unfold weight. case_decide; lia. Qed.

Lemma next_spec lx :
  match next lx with
  | Ret (tok, lx') => (weight tok + length (rest_ lx') ≤ length (rest_ lx))%nat ∧ token_ok tok
  | o => reported o
  end.
Proof.
  unfold next. destruct (skip_ws_comments false _ _) as [input l] eqn:Hskip.
  apply skip_length in Hskip. destruct input as [|c input]; [split; [unfold weight; rewrite decide_True by done; cbn; lia|done]|]. cbn [length] in Hskip.
  assert (Htok : ∀ tok rest l', (length rest ≤ length input)%nat → token_ok tok →
    (weight tok + length (rest_ (mkLexer rest l')) ≤ length (rest_ lx))%nat ∧ token_ok tok).
  { intros tok rest l' Hr. cbn [rest_]. pose proof (weight_le tok). split; [lia|done]. }
  destruct (single c) as [k|] eqn:Hsingle.
  { apply Htok; [done|]. intros Hk. cbn in Hk. subst. revert Hsingle. unfold single.
    repeat case_decide; done. }
  case_decide.
  { pose proof (string_chars_spec input) as Hstr.
    destruct (string_chars input) as [[out rest]|[]|?|]; try done. apply Htok; [lia|done]. }
  destruct (isdigit c) eqn:Hdigit.
  { destruct (span _ input) as [a b] eqn:E. pose proof (span_prefix _ _ _ _ E). apply span_length in E.
    apply Htok; [done|]. intros _. constructor; [by rewrite Hdigit|done]. }
  destruct (_ || _); [|done].
  destruct (span _ input) as [a b] eqn:E. apply span_length in E. by apply Htok.
Qed.

Lemma safe_expect k p (Q : Token → Parser → Prop) :
  k ≠ KEnd →
  (∀ p', (remaining p' < remaining p)%nat → token_ok (current_ p') → kind (current_ p) = k → Q (current_ p) p') →
  safe (expect k) Q p.
Proof.
  intros Hk HQ. unfold expect. apply safe_bind, safe_get. case_decide as Hkind; [apply safe_fail|].
  apply safe_bind. pose proof (next_spec (lexer_ p)) as Hnext.
  apply safe_lift; [by destruct (next (lexer_ p))|]. intros [tok lx] Heq. rewrite Heq in Hnext.
  destruct Hnext as [Hnext Hok].
  unfold safe. cbn. apply HQ; [|done|done]. unfold remaining. cbn. unfold weight at 2.
  rewrite decide_False; [lia|]. congruence.
Qed.
Lemma safe_expect_ident s p (Q : unit → Parser → Prop) :
  (∀ p', (remaining p' < remaining p)%nat → Q tt p') → safe (expect_ident s) Q p.
Proof.
  intros HQ. unfold expect_ident. apply safe_bind, safe_expect; [done|]. intros p' Hp' _ _.
  case_decide; [apply safe_fail|]. by apply safe_ret, HQ.
Qed.

(** * Layouts *)

Definition supported (f : Field) : Prop :=
  field_type f = bs "ascii" ∨ type_width (field_type f) = Ret (width f).
Definition total_width (fs : list Field) : Z := foldr (λ f s, width f + s) 0 fs.

(** What [parse_fields] computes: [m.size] runs over the widths in [size_t] arithmetic, so that the
    offsets and the size are the sums modulo 2^64. *)
Record layout_computed (fs : list Field) (size : Z) : Prop := {
  fields_names : NoDup (field_name <$> fs);
  fields_supported : Forall (λ f, supported f ∧ 0 < width f ≤ u64_max) fs;
  fields_offset i f : fs !! i = Some f → offset f = u64 (1 + total_width (take i fs));
  fields_size : size = u64 (1 + total_width fs)
}.
(** A valid layout, in exact arithmetic: the fields follow the type byte one after the other, and
    the message has a length that [size_t] can hold. *)
Record layout_valid (fs : list Field) (size : Z) : Prop := {
  layout_names : NoDup (field_name <$> fs);
  layout_supported : Forall (λ f, supported f ∧ 0 < width f) fs;
  layout_offset i f : fs !! i = Some f → offset f = 1 + total_width (take i fs);
  layout_size : size = 1 + total_width fs;
  layout_fits : size ≤ u64_max
}.
Record protocol_ok (p : Protocol) : Prop := {
  protocol_types : NoDup (message_type <$> protocol_messages p);
  protocol_names : NoDup (message_name <$> protocol_messages p);
  protocol_fields : Forall (λ m, layout_computed (fields m) (size m)) (protocol_messages p)
}.

Lemma total_width_app fs gs : total_width (fs ++ gs) = total_width fs + total_width gs.
Proof. induction fs as [|f fs IH]; cbn; [done|]. fold (total_width (fs ++ gs)). fold (total_width fs). lia. Qed.

Lemma u64_add a b : u64 (u64 a + b) = u64 (a + b).
Proof. unfold u64, wrap. by rewrite Zplus_mod_idemp_l. Qed.

Lemma layout_computed_snoc fs size f :
  layout_computed fs size → field_name f ∉ field_name <$> fs → supported f → 0 < width f ≤ u64_max →
  offset f = size → layout_computed (fs ++ [f]) (u64 (size + width f)).
Proof.
  intros [Hn Hs Ho Hsize] Hname Hsup Hw Hoff. split.
  - rewrite fmap_app. apply NoDup_app. split_and!; [done|set_solver|apply NoDup_singleton].
  - apply Forall_app. split; [done|]. by constructor.
  - intros i g Hi. destruct (decide (i < length fs)%nat).
    + rewrite lookup_app_l in Hi by done. rewrite take_app_le by lia. by apply Ho.
    + rewrite lookup_app_r in Hi by lia. apply list_lookup_singleton_Some in Hi as [Hi <-].
      rewrite take_app_le, take_ge by lia. congruence.
  - rewrite Hsize, u64_add, total_width_app. cbn. f_equal. lia.
Qed.

Lemma type_width_spec type :
  match type_width type with Ret w => 0 < w ≤ u64_max | o => reported o end.
Proof. unfold type_width, u64_max. repeat case_decide; try done; lia. Qed.
Lemma stoul_spec digits : reported (stoul digits) ∧ ∀ w, stoul digits = Ret w → w ≤ u64_max.
Proof.
  unfold stoul. destruct (Z.ltb_spec u64_max (foldl (λ v c, v * 10 + (Z_of_byte c - 48)) 0 digits)).
  - split; [done|]. intros w ?. discriminate.
  - split; [done|]. intros w [= <-]. done.
Qed.

Lemma in_range_spec lo hi c : in_range lo hi c = true ↔ lo ≤ Z_of_byte c ≤ hi.
Proof. unfold in_range. rewrite andb_true_iff, !Z.leb_le. lia. Qed.
Lemma digits_nonneg digits v :
  Forall isdigit digits → 0 ≤ v → 0 ≤ foldl (λ v c, v * 10 + (Z_of_byte c - 48)) v digits.
Proof.
  intros Hd. revert v. induction Hd as [|c digits Hc _ IH]; intros v Hv; cbn; [done|]. apply IH.
  unfold isdigit in Hc. apply Is_true_true, in_range_spec in Hc. lia.
Qed.
Lemma stoul_nonneg digits w : Forall isdigit digits → stoul digits = Ret w → 0 ≤ w.
Proof.
  intros Hd. unfold stoul. pose proof (digits_nonneg digits 0 Hd ltac:(done)) as H0.
  destruct (Z.ltb u64_max _); [discriminate|]. by intros [= <-].
Qed.


(** * The parser, bottom up *)

Ltac expect_token := apply safe_bind, safe_expect; [done|]; intros.

Lemma safe_parse_field names size p (Q : Field → Parser → Prop) :
  (∀ f p', (remaining p' < remaining p)%nat → field_name f ∉ names → supported f →
     0 < width f ≤ u64_max → offset f = size → Q f p') →
  safe (parse_field names size) Q p.
Proof.
  intros HQ. unfold parse_field. expect_token. set (name := text _). case_decide as Hname; [apply safe_fail|].
  expect_token. expect_token. set (type := text _).
  apply safe_bind, (safe_mono _ (λ w p', (remaining p' < remaining p)%nat ∧ 0 < w ≤ u64_max ∧
    (type = bs "ascii" ∨ type_width type = Ret w))).
  - case_decide as Htype.
    + expect_token. expect_token. set (digits := text _). destruct (stoul_spec digits) as [Hrep Hle].
      apply safe_bind, safe_lift; [done|]. intros w Hw. expect_token. case_decide; [apply safe_fail|].
      apply safe_ret. split; [lia|]. split; [|by left]. pose proof (Hle w Hw).
      assert (0 ≤ w) by (eapply stoul_nonneg; [|done]; auto). lia.
    + pose proof (type_width_spec type) as Hw. apply safe_lift; [by destruct (type_width type)|].
      intros w Heq. rewrite Heq in Hw. split; [lia|]. split; [done|by right].
  - intros w p9 (Hp9 & Hw & Hsup). expect_token. apply safe_ret, HQ; try done. lia.
Qed.

Lemma safe_parse_fields fuel fs size p (Q : list Field * Z → Parser → Prop) :
  (remaining p < fuel)%nat → layout_computed fs size →
  (∀ fs' size' p', (remaining p' ≤ remaining p)%nat → layout_computed fs' size' → Q (fs', size') p') →
  safe (parse_fields fuel fs size) Q p.
Proof.
  revert fs size p. induction fuel as [|fuel IH]; intros fs size p Hfuel Hok HQ; [lia|].
  cbn [parse_fields]. apply safe_bind, safe_get. case_decide; [by apply safe_ret, HQ|].
  apply safe_bind, safe_parse_field. intros f p' Hp' Hname Hsup Hw Hoff. apply IH; [lia| |].
  - by apply layout_computed_snoc.
  - intros fs' size' p'' Hp''. apply HQ. lia.
Qed.

Lemma safe_parse_message fuel types names p (Q : Message → Parser → Prop) :
  (remaining p < fuel)%nat →
  (∀ m p', (remaining p' < remaining p)%nat → message_type m ∉ types → message_name m ∉ names →
     layout_computed (fields m) (size m) → Q m p') →
  safe (parse_message fuel types names) Q p.
Proof.
  intros Hfuel HQ. unfold parse_message. apply safe_bind, safe_expect_ident. intros.
  expect_token. set (name := text _). clearbody name. expect_token. destruct (text _) as [|c [|]]; [apply safe_fail| |apply safe_fail].
  case_decide; [apply safe_fail|]. case_decide; [apply safe_fail|]. expect_token.
  apply safe_bind, safe_parse_fields; [lia| |].
  { split; [constructor|done|done|done]. }
  intros fs size p9 Hp9 Hok. expect_token. apply safe_ret, HQ; try done. lia.
Qed.

Lemma safe_parse_messages fuel ms p (Q : list Message → Parser → Prop) :
  (remaining p < fuel)%nat →
  (∀ n, protocol_ok (mkProtocol n ms)) →
  (∀ ms' p', (∀ n, protocol_ok (mkProtocol n ms')) → Q ms' p') →
  safe (parse_messages fuel ms) Q p.
Proof.
  revert ms p. induction fuel as [|fuel IH]; intros ms p Hfuel Hok HQ; [lia|].
  cbn [parse_messages]. apply safe_bind, safe_get. case_decide; [by apply safe_ret, HQ|].
  apply safe_bind, safe_parse_message; [done|]. intros m p' Hp' Htype Hname Hfields.
  apply IH; [lia| |done]. intros n. destruct (Hok n) as [Ht Hn Hf]. cbn in *. split; cbn.
  - rewrite fmap_app. apply NoDup_app. split_and!; [done|set_solver|apply NoDup_singleton].
  - rewrite fmap_app. apply NoDup_app. split_and!; [done|set_solver|apply NoDup_singleton].
  - apply Forall_app. split; [done|]. by constructor.
Qed.

Lemma safe_parse fuel p : (remaining p < fuel)%nat → safe (parse fuel) (λ pr _, protocol_ok pr) p.
Proof.
  intros Hfuel. unfold parse. apply safe_bind, safe_expect_ident. intros. expect_token. expect_token.
  apply safe_bind, safe_parse_messages; [lia| |].
  - intros n. split; [constructor|constructor|done].
  - intros ms p9 Hok. by apply safe_ret.
Qed.

Lemma parse_protocol_spec source :
  match parse_protocol source with
  | Ret p => protocol_ok p
  | o => reported o
  end.
Proof.
  unfold parse_protocol, new. pose proof (next_spec (mkLexer source 1)) as Hnext.
  destruct (next (mkLexer source 1)) as [[tok lx]|e|?|]; cbn [mbind outcome_bind]; try done.
  set (p := mkParser lx tok).
  assert (Hp : (remaining p < S (length source))%nat).
  { destruct Hnext as [Hnext _]. unfold remaining. cbn [p current_ lexer_]. cbn [rest_] in Hnext. lia. }
  pose proof (safe_parse _ p Hp) as Hsafe. unfold safe in Hsafe.
  by destruct (parse _ p) as [[pr|?|?|] p'].
Qed.

(** * What the compiler guarantees *)

Ltac type_cases := repeat (case_bool_decide; cbn [orb]; [eexists; reflexivity|]).
Lemma supported_emits f : supported f → ∃ text, Emitter.emit_field f = Ret text.
Proof.
  intros Hf. assert (∃ type, Emitter.accessor_type f = Ret type) as [type Htype].
  { unfold Emitter.accessor_type, Emitter.is_type. type_cases.
    exfalso. destruct Hf as [?|Hw]; [congruence|]. revert Hw. unfold type_width.
    repeat case_decide; destruct_or?; congruence. }
  assert (∃ expr, Emitter.accessor_expr f = Ret expr) as [expr Hexpr].
  { unfold Emitter.accessor_expr, Emitter.is_type. type_cases.
    exfalso. destruct Hf as [?|Hw]; [congruence|]. revert Hw. unfold type_width.
    repeat case_decide; destruct_or?; congruence. }
  unfold Emitter.emit_field. rewrite Htype, Hexpr. cbn [mbind outcome_bind]. eexists. reflexivity.
Qed.
Lemma mapM_Ret {A B} (g : A → outcome B) l :
  (∀ x, x ∈ l → ∃ y, g x = Ret y) → ∃ k, mapM g l = Ret k.
Proof.
  induction l as [|x l IH]; intros Hl; [by eexists|]. destruct (Hl x ltac:(by left)) as [y Hy].
  destruct IH as [k Hk]; [intros z Hz; apply Hl; by right|]. exists (y :: k). cbn. by rewrite Hy, Hk.
Qed.
Lemma protocol_emits p : protocol_ok p → ∃ text, Emitter.header_text p = Ret text.
Proof.
  intros [_ _ Hf]. rewrite Forall_forall in Hf. unfold Emitter.header_text.
  destruct (mapM_Ret Emitter.emit_message (protocol_messages p)) as [views ->]; [|by eexists].
  intros m Hm. destruct (Hf m Hm) as [_ Hs _ _]. rewrite Forall_forall in Hs. unfold Emitter.emit_message.
  destruct (mapM_Ret Emitter.emit_field (fields m)) as [l ->]; [|by eexists].
  intros f Hf'. by apply supported_emits, Hs.
Qed.

(** C33: The command ends on every input with exit code 0, 1 or 2.  It succeeds exactly when the
    arguments are two, the file system lets it read and write, and the parser accepts the schema;
    it then writes the header of the parsed protocol, and every failure is reported. *)
Theorem compiler_command_is_total fs program schema output :
  (∀ why, Emitter.create_directories fs ≠ Undef why) → Emitter.create_directories fs ≠ OutOfFuel →
  match Emitter.main fs [program; schema; output] with
  | Ret (code, Emitter.Generated views header) =>
      code = 0 ∧ Emitter.create_directories fs = Ret tt ∧ Emitter.output_opened fs = true ∧
      ∃ source p, Emitter.input fs = Some source ∧ parse_protocol source = Ret p ∧
        views = len (protocol_messages p) ∧ Emitter.header_text p = Ret header
  | Ret (code, Emitter.Failed _) =>
      code = 1 ∧ (Emitter.create_directories fs ≠ Ret tt ∨ Emitter.output_opened fs = false ∨
        ∀ source p, Emitter.input fs = Some source → parse_protocol source ≠ Ret p)
  | _ => False
  end.
Proof.
  intros Hundef Hfuel. unfold Emitter.main, Emitter.compile, Emitter.slurp.
  destruct (Emitter.input fs) as [source|]; cbn [mbind outcome_bind].
  2: { split; [done|]. right. right. by intros. }
  pose proof (parse_protocol_spec source) as Hspec. destruct (parse_protocol source) as [p|e| |] eqn:Hp; [|..|done].
  - cbn [mbind outcome_bind]. unfold Emitter.emit. destruct (protocol_emits p Hspec) as [text Htext].
    destruct (Emitter.create_directories fs) as [[]|e|why|] eqn:Hdir; cbn [mbind outcome_bind];
      [|by split; [|left]|by destruct (Hundef why)|done].
    destruct (Emitter.output_opened fs); cbn [negb mbind outcome_bind]; [|split; [done|by right; left]].
    rewrite Htext. cbn. split_and!; try done. by exists source, p.
  - cbn. split; [done|]. right. right. intros s p [= <-]. congruence.
  - done.
Qed.
Lemma compiler_command_is_total_witness :
  let fs := Emitter.mkFiles (Some itch50_text) (Ret tt) true in
  match Emitter.main fs [[]; bs "itch50.efe"; bs "itch50.hpp"] with
  | Ret (code, Emitter.Generated views header) =>
      code = 0 ∧ Emitter.create_directories fs = Ret tt ∧ Emitter.output_opened fs = true ∧
      ∃ source p, Emitter.input fs = Some source ∧ parse_protocol source = Ret p ∧
        views = len (protocol_messages p) ∧ Emitter.header_text p = Ret header
  | Ret (code, Emitter.Failed _) =>
      code = 1 ∧ (Emitter.create_directories fs ≠ Ret tt ∨ Emitter.output_opened fs = false ∨
        ∀ source p, Emitter.input fs = Some source → parse_protocol source ≠ Ret p)
  | _ => False
  end.
Proof.
  apply (compiler_command_is_total (Emitter.mkFiles (Some itch50_text) (Ret tt) true)).
  - discriminate.
  - discriminate.
Defined.

(** The field that holds byte [k] of the message. *)
Definition holds_byte (k : Z) (f : Field) : Prop := offset f ≤ k < offset f + width f.

Lemma total_width_nonneg fs : Forall (λ f, 0 < width f) fs → 0 ≤ total_width fs.
Proof. induction 1 as [|f fs]; cbn; [done|]. fold (total_width fs). lia. Qed.
Lemma total_width_take fs i f :
  fs !! i = Some f → total_width (take (S i) fs) = total_width (take i fs) + width f.
Proof. intros Hi. rewrite (take_S_r _ _ _ Hi), total_width_app. cbn. lia. Qed.
Lemma total_width_mono fs i j :
  Forall (λ f, 0 < width f) fs → (i ≤ j)%nat → total_width (take i fs) ≤ total_width (take j fs).
Proof.
  intros Hpos Hij. rewrite <-(take_drop i (take j fs)), take_take, total_width_app, Nat.min_l by done.
  pose proof (total_width_nonneg (drop i (take j fs)) (Forall_drop _ _ _ (Forall_take _ _ _ Hpos))). lia.
Qed.

Section tiling.
Context (fs : list Field) (total : Z).
Hypothesis Hok : layout_computed fs total.
Hypothesis Hfits : 1 + total_width fs ≤ u64_max.

Lemma widths_positive : Forall (λ f, 0 < width f) fs.
Proof. eapply Forall_impl; [exact (fields_supported _ _ Hok)|]. cbn. lia. Qed.
Lemma prefix_fits i : u64 (1 + total_width (take i fs)) = 1 + total_width (take i fs).
Proof.
  apply u64_small. split.
  - pose proof (total_width_nonneg (take i fs) (Forall_take _ _ _ widths_positive)). lia.
  - pose proof (total_width_mono fs i (i `max` length fs)%nat widths_positive ltac:(lia)) as H.
    rewrite (take_ge fs (_ `max` _)%nat) in H by lia. lia.
Qed.
Lemma field_offset i f : fs !! i = Some f → offset f = 1 + total_width (take i fs).
Proof. intros Hi. by rewrite (fields_offset _ _ Hok _ _ Hi), prefix_fits. Qed.
Lemma total_fits : total = 1 + total_width fs.
Proof. rewrite (fields_size _ _ Hok), <-(take_ge fs (length fs)) by done. apply prefix_fits. Qed.

Lemma field_at n k :
  (n ≤ length fs)%nat → 1 ≤ k < 1 + total_width (take n fs) → ∃ i f, fs !! i = Some f ∧ holds_byte k f.
Proof.
  induction n as [|n IH]; intros Hn Hk; [rewrite take_0 in Hk; unfold total_width in Hk; cbn [foldr] in Hk; lia|].
  destruct (lookup_lt_is_Some_2 fs n) as [f Hf]; [lia|]. rewrite (total_width_take _ _ _ Hf) in Hk.
  destruct (decide (k < 1 + total_width (take n fs))); [apply IH; lia|].
  exists n, f. split; [done|]. unfold holds_byte. rewrite (field_offset n f Hf). lia.
Qed.
Lemma fields_apart i j f g k :
  fs !! i = Some f → fs !! j = Some g → holds_byte k f → holds_byte k g → (j ≤ i)%nat.
Proof.
  intros Hi Hj. unfold holds_byte. rewrite (field_offset i f Hi), (field_offset j g Hj). intros Hf Hg.
  destruct (decide (i < j)%nat); [|lia].
  pose proof (total_width_mono fs (S i) j widths_positive ltac:(lia)).
  rewrite (total_width_take _ _ _ Hi) in *. lia.
Qed.
End tiling.

(** As long as the sum of the widths can be held, the computed layout is the valid one. *)
Lemma layout_computed_valid fs total :
  layout_computed fs total → 1 + total_width fs ≤ u64_max → layout_valid fs total.
Proof.
  intros Hok Hfits. pose proof (fields_supported _ _ Hok) as Hs. split.
  - by apply (fields_names _ _ Hok).
  - eapply Forall_impl; [exact Hs|]. cbn. tauto.
  - intros i f Hi. by apply (field_offset fs total).
  - by apply total_fits.
  - by rewrite (total_fits fs total).
Qed.
Lemma layout_valid_computed fs total : layout_valid fs total → layout_computed fs total.
Proof.
  intros [Hn Hs Ho Ht Hfits].
  assert (Hpos : Forall (λ f, 0 < width f) fs) by (eapply Forall_impl; [exact Hs|]; cbn; tauto).
  assert (Hle : ∀ i, 0 ≤ total_width (take i fs) ≤ total_width fs).
  { intros i. split; [by apply total_width_nonneg, Forall_take|].
    pose proof (total_width_mono fs i (i `max` length fs)%nat Hpos ltac:(lia)) as H. by rewrite (take_ge fs (_ `max` _)%nat) in H by lia. }
  split; [done| | |].
  - apply Forall_lookup. intros i f Hi. rewrite Forall_lookup in Hs. destruct (Hs i f Hi) as [? ?]. split_and!; [done..|].
    pose proof (total_width_take _ _ _ Hi). pose proof (Hle i). pose proof (Hle (S i)). lia.
  - intros i f Hi. rewrite (Ho i f Hi), u64_small; [done|]. pose proof (Hle i). lia.
  - rewrite u64_small; [done|]. pose proof (Hle 0%nat). lia.
Qed.

(** C16: [Parser::parse] terminates on every input.  It returns a protocol, or it throws
    [std::runtime_error], or [std::out_of_range] from [std::stoul].  In a protocol it returns the
    message types, the message names and the field names of a message are unique, the types
    supported, the widths positive, each field starts where the previous one ends (in [size_t]
    arithmetic), and emission succeeds: the emitter's own unsupported-type error is never
    reached.  The layout of every message whose widths can be added without overflow is valid: its
    fields follow the type byte one after the other. *)
Theorem parser_is_total source :
  match parse_protocol source with
  | Ret p => protocol_ok p ∧ (∃ text, Emitter.header_text p = Ret text) ∧
      ∀ m, m ∈ protocol_messages p → 1 + total_width (fields m) ≤ u64_max → layout_valid (fields m) (size m)
  | Throw (RuntimeError _) | Throw (OutOfRange _) => True
  | _ => False
  end.
Proof.
  pose proof (parse_protocol_spec source) as H. destruct (parse_protocol source) as [p| | |]; [|done..].
  split_and!; [done|by apply protocol_emits|]. intros m Hm. apply layout_computed_valid.
  destruct H as [_ _ Hf]. rewrite Forall_forall in Hf. by apply Hf.
Qed.

(** C17: In a message of an accepted schema whose widths do not overflow [size_t], the type byte
    and the fields tile the message: no field covers byte 0, every later byte belongs to exactly
    one field, and no field reaches past the end. *)
Theorem fields_tile_the_message source p m :
  parse_protocol source = Ret p → m ∈ protocol_messages p → 1 + total_width (fields m) ≤ u64_max →
  (∀ k, 1 ≤ k < size m → ∃ i f, fields m !! i = Some f ∧ holds_byte k f ∧
     ∀ j g, fields m !! j = Some g → holds_byte k g → j = i) ∧
  ∀ f k, f ∈ fields m → holds_byte k f → 1 ≤ k < size m.
Proof.
  intros Hp Hm Hfits. pose proof (parse_protocol_spec source) as H. rewrite Hp in H.
  pose proof (proj1 (Forall_forall _ _) (protocol_fields _ H) m Hm) as Hok.
  rewrite (total_fits _ _ Hok Hfits). split.
  - intros k Hk. destruct (field_at _ _ Hok Hfits (length (fields m)) k) as (i & f & Hi & Hf); [done|by rewrite take_ge|].
    exists i, f. split_and!; [done..|]. intros j g Hj Hg.
    pose proof (fields_apart _ _ Hok Hfits i j f g k Hi Hj Hf Hg).
    pose proof (fields_apart _ _ Hok Hfits j i g f k Hj Hi Hg Hf). lia.
  - intros f k [i Hi]%list_elem_of_lookup Hf. unfold holds_byte in Hf.
    rewrite (field_offset _ _ Hok Hfits i f Hi) in Hf.
    pose proof (total_width_nonneg (take i (fields m)) (Forall_take _ _ _ (widths_positive _ _ Hok))).
    pose proof (total_width_mono (fields m) (S i) (S i `max` length (fields m))%nat (widths_positive _ _ Hok) ltac:(lia)) as Hle.
    rewrite (total_width_take _ _ _ Hi), (take_ge _ (_ `max` _)%nat) in Hle by lia. lia.
Qed.
Definition add_order : Message :=
  default (mkMessage [] Byte.x00 [] 0) (find (λ m, bool_decide (message_type m = Byte.x41)) (protocol_messages itch50)).
Lemma fields_tile_the_message_witness :
  size add_order = 36 ∧
  (∀ k, 1 ≤ k < size add_order → ∃ i f, fields add_order !! i = Some f ∧ holds_byte k f ∧
     ∀ j g, fields add_order !! j = Some g → holds_byte k g → j = i) ∧
  ∀ f k, f ∈ fields add_order → holds_byte k f → 1 ≤ k < size add_order.
Proof.
  split; [vm_compute; reflexivity|]. apply (fields_tile_the_message itch50_text itch50 add_order).
  - exact parse_itch50.
  - decided.
  - apply Z.leb_le. vm_compute. reflexivity.
Defined.

(** The checked-in schema is accepted, and its 23 messages have the types and lengths that
    [tests/test_itch.cpp] lists. *)
Theorem itch50_has_the_tested_layouts :
  parse_protocol itch50_text = Ret itch50 ∧
  Permutation ((λ m, (message_type m, size m)) <$> protocol_messages itch50)
    [(Byte.x53, 12); (Byte.x52, 39); (Byte.x48, 25); (Byte.x59, 20); (Byte.x4c, 26); (Byte.x56, 35);
     (Byte.x57, 12); (Byte.x4b, 28); (Byte.x4a, 35); (Byte.x68, 21); (Byte.x41, 36); (Byte.x46, 40);
     (Byte.x45, 31); (Byte.x43, 36); (Byte.x58, 23); (Byte.x44, 19); (Byte.x55, 35); (Byte.x50, 44);
     (Byte.x51, 40); (Byte.x42, 19); (Byte.x49, 50); (Byte.x4e, 20); (Byte.x4f, 48)].
Proof. split; [exact parse_itch50|]. decided. Qed.

(** * Where the compiler falls short *)

Definition wrapping_schema : list byte :=
  unquote (bs "protocol P; message M 'X' { a: ascii[18446744073709551615]; b: u8; }").

(** [m.size += f.width] wraps around: a schema whose widths overflow [size_t] is accepted, and
    the field behind the wide one is laid out at offset 0, over the type byte, in a message of
    length 1. *)
Theorem overflowing_layout_is_accepted :
  ∃ p m f, parse_protocol wrapping_schema = Ret p ∧ protocol_messages p = [m] ∧
    fields m !! 1%nat = Some f ∧ offset f = 0 ∧ width f = 1 ∧ size m = 1.
Proof. eexists _, _, _. split_and!; vm_compute; reflexivity. Qed.

Definition quote_schema : list byte := bs "protocol P; message M " ++ [quote; Byte.x27; quote] ++ bs " { a: u8; }".

(** The message type ['] is accepted, but its character literals are emitted unescaped: the
    view declares its type as ['\'], and both switches have the label [''']. *)
Theorem quote_type_is_emitted_unescaped :
  ∃ p m, parse_protocol quote_schema = Ret p ∧ protocol_messages p = [m] ∧
    Emitter.type_char m = string_of [Byte.x5c] ∧
    Emitter.emit_size_case m =
      "        case '" +:+ string_of [Byte.x27] +:+ "': return MView::encoded_size;" +:+ Emitter.nl.
Proof. eexists _, _. split_and!; vm_compute; reflexivity. Qed.
