(* ===== verification/SchemaPrinter.v ===== *)
(** Completeness of the schema language: a printer of schemas, which the repository does not have,
    and the proof that the compiler's parser reads back every protocol it prints.  Which protocols
    are valid, and that those are compiled, is in [SchemaLanguage]. *)
From S2P Require Import Prelude ByteReader ProtocolCompiler Itch50Schema ProtocolProofs.
From Stdlib Require Import Strings.Byte.
#[local] Open Scope list_scope.
#[local] Open Scope Z_scope.
Import Protocolc.

(** * Tokens and their text *)

Definition word_char (c : byte) : bool := isalnum c || bool_decide (c = underscore).
Definition identifier (name : list byte) : Prop :=
  ∃ c rest, name = c :: rest ∧ isalpha c || bool_decide (c = underscore) ∧ Forall word_char rest.

Definition blank : byte := Byte.x20.
Definition render (t : Token) : list byte :=
  blank :: (if decide (kind t = KString) then quote :: text t ++ [quote] else text t).
Definition render_all (ts : list Token) : list byte := concat (render <$> ts).

(** A token that the lexer can read; all stand on line 1. *)
Definition token_wf (t : Token) : Prop :=
  line t = 1 ∧
  match kind t with
  | KIdent => identifier (text t)
  | KNumber => text t ≠ [] ∧ Forall isdigit (text t)
  | KString => Forall (λ c, c ≠ quote ∧ c ≠ newline) (text t)
  | KEnd => False
  | k => ∃ c, text t = [c] ∧ single c = Some k
  end.

(** What follows a token is the end of the text or a blank. *)
Definition delimited (rest : list byte) : Prop := rest = [] ∨ ∃ rest', rest = blank :: rest'.
Lemma render_all_delimited ts : delimited (render_all ts).
Proof. destruct ts as [|t ts]; [by left|]. right. eexists. reflexivity. Qed.

Lemma span_delimited (p : byte → bool) a rest :
  Forall p a → p blank = false → delimited rest → span p (a ++ rest) = (a, rest).
Proof.
  intros Ha Hp Hrest. induction Ha as [|c a Hc _ IH]; cbn [app span].
  - destruct Hrest as [->|[rest' ->]]; [done|]. cbn. by rewrite Hp.
  - destruct (p c); [|done]. by rewrite IH.
Qed.
Lemma string_chars_quoted a rest :
  Forall (λ c, c ≠ quote ∧ c ≠ newline) a → string_chars (a ++ quote :: rest) = Ret (a, rest).
Proof.
  induction 1 as [|c a [Hq Hn] _ IH]; cbn [app string_chars]; [done|].
  rewrite !decide_False by done. by rewrite IH.
Qed.

(** Facts about single characters, by inspection of all 256. *)
Lemma skip_blank c rest l :
  single c ≠ None ∨ c = quote ∨ isdigit c ∨ isalpha c || bool_decide (c = underscore) →
  skip_ws_comments false (blank :: c :: rest) l = (c :: rest, l).
Proof.
  intros Hc. change (skip_ws_comments false (c :: rest) l = (c :: rest, l)).
  assert (Hchar : isspace c = false ∧ c ≠ newline ∧ c ≠ slash).
  { destruct c; try (split_and!; [reflexivity|discriminate|discriminate]);
      exfalso; destruct Hc as [Hc|[Hc|[Hc|Hc]]]; (done || by vm_compute in Hc). }
  destruct Hchar as (Hs & Hn & Hsl). cbn [skip_ws_comments]. rewrite decide_False by done. rewrite Hs.
  rewrite decide_False; [done|]. by intros [? _].
Qed.
Lemma digit_class c : isdigit c → single c = None ∧ c ≠ quote.
Proof. intros Hc. destruct c; try done; by vm_compute in Hc. Qed.
Lemma letter_class c :
  isalpha c || bool_decide (c = underscore) → single c = None ∧ c ≠ quote ∧ isdigit c = false.
Proof. intros Hc. destruct c; try done; by vm_compute in Hc. Qed.

Ltac punctuation Ht :=
  let Hc := fresh in destruct Ht as (? & -> & Hc); unfold render; rewrite decide_False by done; cbn [app text];
  rewrite skip_blank by (left; congruence); by rewrite Hc.

(** The lexer reads back one rendered token. *)
Lemma next_token t rest :
  token_wf t → delimited rest → next (mkLexer (render t ++ rest) 1) = Ret (t, mkLexer rest 1).
Proof.
  intros [Hl Ht] Hrest. destruct t as [k txt l]. cbn in Hl, Ht. subst l. unfold next. cbn [rest_ line_].
  destruct k.
  - destruct Ht as (c & a & -> & Hc & Ha). unfold render. rewrite decide_False by done. cbn [app text].
    destruct (letter_class c Hc) as (Hs & Hq & Hd). rewrite skip_blank by tauto.
    rewrite Hs, decide_False, Hd by done. rewrite (Is_true_true_1 _ Hc).
    by rewrite (span_delimited (λ c, isalnum c || bool_decide (c = underscore)) a rest).
  - unfold render. rewrite decide_True by done. cbn [app text]. rewrite <-app_assoc. cbn [app].
    rewrite skip_blank by tauto. change (single quote) with (@None Kind). rewrite decide_True by done.
    by rewrite string_chars_quoted.
  - destruct Ht as [Hne Ha]. destruct txt as [|c a]; [done|]. apply Forall_cons in Ha as [Hc Ha].
    unfold render. rewrite decide_False by done. cbn [app text].
    destruct (digit_class c Hc) as (Hs & Hq). rewrite skip_blank by tauto.
    rewrite Hs, decide_False, (Is_true_true_1 _ Hc) by done.
    by rewrite (span_delimited isdigit a rest).
  - punctuation Ht.
  - punctuation Ht.
  - punctuation Ht.
  - punctuation Ht.
  - punctuation Ht.
  - punctuation Ht.
  - done.
Qed.

Definition end_token : Token := mkToken KEnd [] 1.
(** The parser in front of the tokens [ts]. *)
Definition parser_at (ts : list Token) : Parser :=
  match ts with
  | [] => mkParser (mkLexer [] 1) end_token
  | t :: ts => mkParser (mkLexer (render_all ts) 1) t
  end.
Lemma next_render ts :
  Forall token_wf ts →
  next (mkLexer (render_all ts) 1) = Ret (current_ (parser_at ts), lexer_ (parser_at ts)).
Proof.
  destruct 1 as [|t ts Ht _]; [done|]. change (render_all (t :: ts)) with (render t ++ render_all ts).
  by rewrite next_token by (done || apply render_all_delimited).
Qed.
Lemma expect_at k t ts :
  kind t = k → Forall token_wf ts → expect k (parser_at (t :: ts)) = (Ret t, parser_at ts).
Proof.
  intros Hk Hts. unfold expect, mbind, M_bind, get. cbn [parser_at current_ lexer_].
  rewrite decide_False by (by intros ?). unfold lift. rewrite next_render by done. unfold put, mret, M_ret.
  by destruct (parser_at ts).
Qed.

(** * Numbers *)

Definition digit_char (d : Z) : byte := byte_of_Z (48 + d).
Fixpoint decimal (fuel : nat) (n : Z) : list byte :=
  match fuel with
  | O => []
  | S fuel => if n <? 10 then [digit_char n] else decimal fuel (n `div` 10) ++ [digit_char (n `mod` 10)]
  end.
(** Twenty digits hold any [size_t]. *)
Definition print_number (n : Z) : list byte := decimal 20 n.

Lemma digit_value d : 0 ≤ d < 10 → isdigit (digit_char d) ∧ Z_of_byte (digit_char d) - 48 = d.
Proof.
  intros Hd. assert (Hv : Z_of_byte (digit_char d) = 48 + d).
  { unfold digit_char. rewrite Z_of_byte_of_Z. apply wrap_small. lia. }
  rewrite Hv. split; [|lia]. unfold isdigit. apply Is_true_true_2, in_range_spec. lia.
Qed.
Lemma decimal_spec fuel n :
  0 ≤ n < 10 ^ Z.of_nat fuel →
  (fuel ≠ O → decimal fuel n ≠ []) ∧ Forall isdigit (decimal fuel n) ∧
  foldl (λ v c, v * 10 + (Z_of_byte c - 48)) 0 (decimal fuel n) = n.
Proof.
  revert n. induction fuel as [|fuel IH]; intros n Hn; [cbn in *; split_and!; [done|done|lia]|].
  cbn [decimal]. destruct (Z.ltb_spec n 10).
  - destruct (digit_value n) as [Hd Hv]; [lia|]. cbn. rewrite Hv. split_and!; [done|by repeat constructor|lia].
  - rewrite Nat2Z.inj_succ, Z.pow_succ_r in Hn by lia.
    destruct (IH (n `div` 10)) as (_ & Hall & Hv); [split; [apply Z.div_pos; lia|apply Z.div_lt_upper_bound; lia]|].
    destruct (digit_value (n `mod` 10)) as [Hd Hdv]; [apply Z.mod_pos_bound; lia|].
    split_and!; [by destruct (decimal fuel _)| |].
    + apply Forall_app. split; [done|]. by repeat constructor.
    + rewrite foldl_app, Hv. cbn. rewrite Hdv. pose proof (Z.div_mod n 10). lia.
Qed.
Lemma stoul_print n : 0 ≤ n ≤ u64_max → stoul (print_number n) = Ret n.
Proof.
  intros Hn. destruct (decimal_spec 20 n) as (_ & _ & Hv); [unfold u64_max in Hn; cbn; lia|].
  unfold stoul, print_number. rewrite Hv. by rewrite (proj2 (Z.ltb_ge _ _)) by lia.
Qed.

(** * The printer *)

Definition word (name : list byte) : Token := mkToken KIdent name 1.
Definition punct (k : Kind) (c : byte) : Token := mkToken k [c] 1.
Definition lbrace := punct KLBrace Byte.x7b.
Definition rbrace := punct KRBrace Byte.x7d.
Definition semicolon := punct KSemicolon Byte.x3b.

Definition field_tokens (f : Field) : list Token :=
  [word (field_name f); punct KColon Byte.x3a; word (field_type f)] ++
  (if decide (field_type f = bs "ascii")
   then [punct KLBracket Byte.x5b; mkToken KNumber (print_number (width f)) 1; punct KRBracket Byte.x5d] else []) ++
  [semicolon].
Definition message_tokens (m : Message) : list Token :=
  [word (bs "message"); word (message_name m); mkToken KString [message_type m] 1; lbrace] ++
  concat (field_tokens <$> fields m) ++ [rbrace].
Definition protocol_tokens (p : Protocol) : list Token :=
  [word (bs "protocol"); word (protocol_name p); semicolon] ++ concat (message_tokens <$> protocol_messages p).
Definition print_protocol (p : Protocol) : list byte := render_all (protocol_tokens p).

(** What the syntax can express: identifiers, which the parser does not tell from keywords, for names,
    and a type byte that a string can hold, in a layout that the parser computes. *)
Record expressible (p : Protocol) : Prop := {
  expressible_ok : protocol_ok p;
  expressible_name : identifier (protocol_name p);
  expressible_messages : Forall (λ m, identifier (message_name m) ∧ message_type m ≠ quote ∧
    message_type m ≠ newline ∧ Forall (λ f, identifier (field_name f)) (fields m)) (protocol_messages p)
}.

(** ** The tokens are well formed *)

Lemma word_wf name : identifier name → token_wf (word name).
Proof. by split. Qed.
Definition is_identifier (name : list byte) : bool :=
  match name with
  | c :: rest => (isalpha c || bool_decide (c = underscore)) && forallb word_char rest
  | [] => false
  end.
Lemma is_identifier_spec name : is_identifier name = true → identifier name.
Proof.
  unfold identifier. destruct name as [|c rest]; [done|]. cbn. intros [Hc Hrest]%andb_true_iff.
  exists c, rest. split_and!; [done|by rewrite Hc|]. apply Forall_forall. intros x Hx.
  apply list_elem_of_In, (proj1 (forallb_forall _ _) Hrest) in Hx. by rewrite Hx.
Qed.
Ltac literal := apply is_identifier_spec; vm_compute; reflexivity.
Lemma supported_identifier f : supported f → identifier (field_type f).
Proof.
  intros [->|Hw]; [literal|]. revert Hw. unfold type_width.
  repeat (let Hty := fresh "Hty" in case_decide as Hty; [intros _; destruct_or? Hty; rewrite Hty; literal|]).
  discriminate.
Qed.
Lemma field_tokens_wf f :
  identifier (field_name f) → supported f → 0 < width f ≤ u64_max → Forall token_wf (field_tokens f).
Proof.
  intros Hn Hs Hw. unfold field_tokens. repeat (apply Forall_cons; split).
  - by apply word_wf.
  - split; [done|]. by exists Byte.x3a.
  - by apply word_wf, supported_identifier.
  - apply Forall_app. split; [|by repeat constructor; exists Byte.x3b]. case_decide; [|done].
    repeat (apply Forall_cons; split); [| | |done].
    + split; [done|]. by exists Byte.x5b.
    + split; [done|]. destruct (decimal_spec 20 (width f)) as (Hne & Hall & _); [unfold u64_max in Hw; cbn; lia|].
      split; [by apply Hne|done].
    + split; [done|]. by exists Byte.x5d.
Qed.

(** ** The parser reads them back *)

(** One [expect] on a token that is there. *)
Ltac expected Hwf :=
  unfold mbind at 1, M_bind at 1; rewrite expect_at by first [reflexivity | exact Hwf]; cbn [text kind].

Lemma expect_ident_at s ts :
  Forall token_wf ts → expect_ident s (parser_at (word (bs s) :: ts)) = (Ret tt, parser_at ts).
Proof.
  intros Hts. unfold expect_ident, mbind, M_bind. rewrite expect_at by done. cbn [text word].
  by rewrite decide_False by (intros ?; done).
Qed.

Lemma parse_field_at names f ts :
  identifier (field_name f) → supported f → 0 < width f ≤ u64_max → field_name f ∉ names → Forall token_wf ts →
  parse_field names (offset f) (parser_at (field_tokens f ++ ts)) = (Ret f, parser_at ts).
Proof.
  intros Hn Hs Hw Hnames Hts. pose proof (field_tokens_wf f Hn Hs Hw) as Hwf.
  assert (Hall : Forall token_wf (field_tokens f ++ ts)) by by apply Forall_app.
  revert Hall. unfold field_tokens. cbn [app]. intros Hall.
  apply Forall_cons in Hall as [_ H1]. pose proof H1 as H2. apply Forall_cons in H2 as [_ H2].
  pose proof H2 as H3. apply Forall_cons in H3 as [_ H3].
  unfold parse_field, mbind, M_bind. rewrite expect_at by done. cbn [text word].
  rewrite decide_False by done. rewrite expect_at by done. rewrite expect_at by done. cbn [text word].
  destruct (decide (field_type f = bs "ascii")) as [Hty|Hty].
  - cbn [app] in H3 |- *. pose proof H3 as H4. apply Forall_cons in H4 as [_ H4].
    pose proof H4 as H5. apply Forall_cons in H5 as [_ H5]. pose proof H5 as H6. apply Forall_cons in H6 as [_ H6].
    rewrite !expect_at by done. cbn [text]. unfold lift. rewrite stoul_print by lia. rewrite expect_at by done.
    rewrite decide_False by lia. unfold mret, M_ret. rewrite expect_at by done. by destruct f.
  - cbn [app] in H3 |- *. destruct Hs as [?|Hs]; [done|]. unfold lift. rewrite Hs. rewrite expect_at by done.
    unfold mret, M_ret. by destruct f.
Qed.

Lemma concat_wf {A} (tokens : A → list Token) (P : A → Prop) l :
  Forall P l → (∀ x, P x → Forall token_wf (tokens x)) → Forall token_wf (concat (tokens <$> l)).
Proof. intros Hl HP. induction Hl as [|x l Hx _ IH]; [constructor|]. apply Forall_app. split; [by apply HP|done]. Qed.
Definition field_wf (f : Field) : Prop := identifier (field_name f) ∧ supported f ∧ 0 < width f ≤ u64_max.
Lemma fields_wf fs total :
  layout_computed fs total → Forall (λ f, identifier (field_name f)) fs → Forall field_wf fs.
Proof.
  intros Hok Hn. eapply Forall_impl; [apply Forall_and; split; [exact Hn|exact (fields_supported _ _ Hok)]|].
  unfold field_wf. cbn. tauto.
Qed.
Lemma rbrace_wf : token_wf rbrace.
Proof. split; [done|]. by exists Byte.x7d. Qed.

Lemma parse_fields_at fuel fs gs total ts :
  layout_computed (fs ++ gs) total → Forall field_wf gs → Forall token_wf ts → (length gs < fuel)%nat →
  parse_fields fuel fs (u64 (1 + total_width fs)) (parser_at (concat (field_tokens <$> gs) ++ rbrace :: ts)) =
  (Ret (fs ++ gs, total), parser_at (rbrace :: ts)).
Proof.
  intros Hok Hgs Hts. revert fuel fs Hok. induction Hgs as [|g gs (Hn & Hs & Hw) Hgs IH];
    intros fuel fs Hok Hfuel; (destruct fuel as [|fuel]; [lia|]); cbn [parse_fields]; unfold mbind at 1, M_bind at 1, get.
  - cbn [fmap list_fmap concat app]. rewrite decide_True by done. rewrite app_nil_r in Hok |- *.
    by rewrite (fields_size _ _ Hok).
  - change (concat (field_tokens <$> g :: gs)) with (field_tokens g ++ concat (field_tokens <$> gs)).
    rewrite <-app_assoc. rewrite decide_False by (unfold field_tokens; done).
    assert (Hoff : offset g = u64 (1 + total_width fs)).
    { rewrite (fields_offset _ _ Hok (length fs) g) by (by rewrite lookup_app_r, Nat.sub_diag by done).
      by rewrite take_app_length. }
    rewrite <-Hoff. unfold mbind, M_bind. rewrite parse_field_at; [|done..| |].
    + rewrite Hoff, u64_add. replace (1 + total_width fs + width g) with (1 + total_width (fs ++ [g]))
        by (rewrite total_width_app; cbn; lia).
      rewrite IH; [by rewrite <-app_assoc|by rewrite <-app_assoc|cbn in Hfuel; lia].
    + pose proof (fields_names _ _ Hok) as Hnd. rewrite fmap_app in Hnd. apply NoDup_app in Hnd as (_ & Hd & _).
      intros Hin. apply (Hd _ Hin). by left.
    + apply Forall_app. split; [|constructor; [apply rbrace_wf|done]].
      apply (concat_wf _ field_wf); [done|]. intros f (? & ? & ?). by apply field_tokens_wf.
Qed.

Definition message_wf (m : Message) : Prop :=
  identifier (message_name m) ∧ message_type m ≠ quote ∧ message_type m ≠ newline ∧
  layout_computed (fields m) (size m) ∧ Forall field_wf (fields m).

Lemma message_tokens_wf m : message_wf m → Forall token_wf (message_tokens m).
Proof.
  intros (Hn & Hq & Hnl & Hok & Hf). unfold message_tokens. repeat (apply Forall_cons; split).
  - apply word_wf. literal.
  - by apply word_wf.
  - split; [done|]. by constructor.
  - split; [done|]. by exists Byte.x7b.
  - apply Forall_app. split; [|constructor; [apply rbrace_wf|done]].
    apply (concat_wf _ field_wf); [done|]. intros f (? & ? & ?). by apply field_tokens_wf.
Qed.

Lemma parse_message_at fuel types names m ts :
  message_wf m → message_type m ∉ types → message_name m ∉ names → Forall token_wf ts →
  (length (fields m) < fuel)%nat →
  parse_message fuel types names (parser_at (message_tokens m ++ ts)) = (Ret m, parser_at ts).
Proof.
  intros Hm Ht Hnm Hts Hfuel. pose proof (message_tokens_wf m Hm) as Hwf.
  destruct Hm as (Hn & Hq & Hnl & Hok & Hf).
  assert (Hall : Forall token_wf (message_tokens m ++ ts)) by by apply Forall_app.
  unfold message_tokens in *. cbn [app] in *.
  apply Forall_cons in Hall as [_ H1]. pose proof H1 as H2. apply Forall_cons in H2 as [_ H2].
  pose proof H2 as H3. apply Forall_cons in H3 as [_ H3]. pose proof H3 as H4. apply Forall_cons in H4 as [_ H4].
  unfold parse_message. unfold mbind at 1, M_bind at 1. rewrite expect_ident_at by done.
  unfold mbind, M_bind. rewrite !expect_at by done. cbn [text word].
  rewrite !decide_False by done. rewrite expect_at by done.
  rewrite <-app_assoc. cbn [app]. change 1 with (u64 (1 + total_width [])).
  rewrite (parse_fields_at fuel [] (fields m) (size m) ts) by done. cbn [app].
  rewrite expect_at by done. unfold mret, M_ret. by destruct m.
Qed.

(** Fuel for the messages [ms]. *)
Definition fuel_for (ms : list Message) : nat := foldr (λ m n, S (length (fields m)) + n)%nat 0%nat ms.

Lemma parse_messages_at fuel done_ ms :
  Forall message_wf ms → NoDup (message_type <$> done_ ++ ms) → NoDup (message_name <$> done_ ++ ms) →
  (fuel_for ms < fuel)%nat →
  parse_messages fuel done_ (parser_at (concat (message_tokens <$> ms))) = (Ret (done_ ++ ms), parser_at []).
Proof.
  intros Hms. revert fuel done_. induction Hms as [|m ms Hm Hms IH]; intros fuel done_ Ht Hn Hfuel;
    (destruct fuel as [|fuel]; [lia|]); cbn [parse_messages]; unfold mbind at 1, M_bind at 1, get.
  - cbn [fmap list_fmap concat]. rewrite decide_True by done. by rewrite app_nil_r.
  - change (concat (message_tokens <$> m :: ms)) with (message_tokens m ++ concat (message_tokens <$> ms)).
    rewrite decide_False by (unfold message_tokens; done). unfold mbind, M_bind. cbn [fuel_for foldr] in Hfuel.
    rewrite parse_message_at; [|done| | | |lia].
    + rewrite IH; [by rewrite <-app_assoc|by rewrite <-app_assoc|by rewrite <-app_assoc|unfold fuel_for; lia].
    + rewrite fmap_app in Ht. apply NoDup_app in Ht as (_ & Hd & _). intros Hin. apply (Hd _ Hin). by left.
    + rewrite fmap_app in Hn. apply NoDup_app in Hn as (_ & Hd & _). intros Hin. apply (Hd _ Hin). by left.
    + apply (concat_wf _ message_wf); [done|apply message_tokens_wf].
Qed.

Lemma length_render_all ts : Forall token_wf ts → (length ts ≤ length (render_all ts))%nat.
Proof.
  induction 1 as [|t ts _ _ IH]; [done|]. change (render_all (t :: ts)) with (render t ++ render_all ts).
  rewrite length_app. unfold render. cbn [length]. lia.
Qed.
Lemma fuel_enough ms : (fuel_for ms ≤ length (concat (message_tokens <$> ms)))%nat.
Proof.
  induction ms as [|m ms IH]; [done|].
  change (concat (message_tokens <$> m :: ms)) with (message_tokens m ++ concat (message_tokens <$> ms)).
  rewrite length_app. unfold message_tokens at 1. cbn [fuel_for foldr]. rewrite !length_app. cbn [length].
  assert (Hf : ∀ fs, (length fs ≤ length (concat (field_tokens <$> fs)))%nat).
  { clear. induction fs as [|f fs IH]; [done|].
    change (concat (field_tokens <$> f :: fs)) with (field_tokens f ++ concat (field_tokens <$> fs)).
    rewrite length_app. unfold field_tokens at 1. cbn [app length]. lia. }
  pose proof (Hf (fields m)). unfold fuel_for in IH. lia.
Qed.

(** The parser reads back whatever the syntax can express. *)
Lemma print_then_parse p : expressible p → parse_protocol (print_protocol p) = Ret p.
Proof.
  intros [[Ht Hn Hf] Hname Hms]. unfold parse_protocol, new, print_protocol.
  assert (Hwfs : Forall message_wf (protocol_messages p)).
  { rewrite Forall_forall in Hf, Hms |- *. intros m Hm. destruct (Hms m Hm) as (? & ? & ? & ?).
    split_and!; try done; [by apply Hf|]. eapply fields_wf; [by apply Hf|done]. }
  assert (Hmt : Forall token_wf (concat (message_tokens <$> protocol_messages p))).
  { apply (concat_wf _ message_wf); [done|apply message_tokens_wf]. }
  assert (Hwf : Forall token_wf (protocol_tokens p)).
  { unfold protocol_tokens. repeat (apply Forall_cons; split); [apply word_wf; literal|by apply word_wf| |done].
    split; [done|]. by exists Byte.x3b. }
  rewrite next_render by done. cbn [mbind outcome_bind].
  replace (mkParser _ _) with (parser_at (protocol_tokens p)) by done.
  pose proof (length_render_all _ Hwf) as Hlen. pose proof (fuel_enough (protocol_messages p)) as Hfuel.
  set (fuel := S (length (render_all (protocol_tokens p)))).
  assert (Hfuel' : (fuel_for (protocol_messages p) < fuel)%nat).
  { unfold fuel, protocol_tokens in *. rewrite length_app in Hlen. lia. }
  clearbody fuel. unfold protocol_tokens in *. cbn [app] in *.
  apply Forall_cons in Hwf as [_ H1]. pose proof H1 as H2. apply Forall_cons in H2 as [_ H2].
  unfold parse. unfold mbind at 1, M_bind at 1. rewrite expect_ident_at by done.
  unfold mbind, M_bind. rewrite !expect_at by done. cbn [text word].
  rewrite parse_messages_at by done. unfold mret, M_ret. by destruct p.
Qed.
