(* ===== verification/GeneratedHeader.v ===== *)
(** The header [efe/generated/itch50.hpp] that the build generates from the schema.  The
    repository does not hold it, so it is a parameter: [Header] is what its clients use of it,
    [GeneratedFrom] what [docs/protocol-compiler.md] promises of the header generated from a
    protocol.  [Interpret] reads a protocol the way the emitted views do, and shows the promise
    can be kept for every protocol the compiler accepts; [EmittedHeader] shows that the emitted
    text itself keeps it. *)
From S2P Require Import Prelude ByteReader ProtocolCompiler Emitter Itch50Schema ProtocolProofs.
From Stdlib Require Import Strings.Byte.
#[local] Open Scope list_scope.
#[local] Open Scope Z_scope.
Import ByteReader Protocolc.

(** Views and their accessors go by the names of the messages and fields; the C++ compiler
    resolves them, so a name that the header lacks does not occur. *)
Class Header : Type := {
  View : Type;
  message_size : byte → option Z;
  type_name : byte → list byte;
  make_view : list byte → list byte → outcome View;
  get_uint : View → list byte → outcome Z;
  get_char : View → list byte → outcome byte;
  get_ascii : View → list byte → outcome (list byte)
}.

Definition find_message (p : Protocol) (c : byte) : option Message :=
  List.find (λ m, bool_decide (message_type m = c)) (protocol_messages p).
Definition find_class (p : Protocol) (name : list byte) : option Message :=
  List.find (λ m, bool_decide (message_name m = name)) (protocol_messages p).
Definition find_field (m : Message) (name : list byte) : option Field :=
  List.find (λ f, bool_decide (field_name f = name)) (fields m).

(** The reader behind an unsigned field type. *)
Definition uint_reader (type : list byte) : option (list byte → Z → outcome Z) :=
  if decide (type = bs "u8") then Some read_u8
  else if decide (type = bs "u16_be") then Some read_u16_be
  else if decide (type = bs "u32_be" ∨ type = bs "price4") then Some read_u32_be
  else if decide (type = bs "u48_be") then Some read_u48_be
  else if decide (type = bs "u64_be" ∨ type = bs "price8") then Some read_u64_be
  else None.

Definition invalid (name : list byte) : exn := DecodeError ("invalid " +:+ string_of name +:+ " message").

(** Construction rejects a span with the wrong type or size; accessors are backed by the
    bounds-checked byte reader at the offset the compiler calculated. *)
Class GeneratedFrom (p : Protocol) (H : Header) : Prop := {
  message_size_law c : message_size c = size <$> find_message p c;
  type_name_law c : type_name c = from_option message_name (bs "Unknown") (find_message p c);
  make_view_rejects m bytes :
    find_class p (message_name m) = Some m →
    len bytes ≠ size m ∨ (∃ c, head bytes = Some c ∧ c ≠ message_type m) →
    make_view (message_name m) bytes = Throw (invalid (message_name m));
  make_view_accepts m bytes :
    find_class p (message_name m) = Some m →
    len bytes = size m → head bytes = Some (message_type m) →
    ∃ v, make_view (message_name m) bytes = Ret v ∧
      ∀ name f, find_field m name = Some f →
        (∀ read, uint_reader (field_type f) = Some read → get_uint v name = read bytes (offset f)) ∧
        (field_type f = bs "char" → get_char v name = read_char bytes (offset f)) ∧
        (field_type f = bs "ascii" → get_ascii v name = read_ascii_view bytes (offset f) (width f))
}.

(** * A header for every protocol *)

Module Interpret.
Section interpret.
Context (p : Protocol).

Definition View : Type := Message * list byte.

Definition make_view (name bytes : list byte) : outcome View :=
  match find_class p name with
  | None => Undef "no such class"
  | Some m =>
      if decide (len bytes ≠ size m) then Throw (invalid name)
      else
        match head bytes with
        | None => Undef "bytes_[0]: empty span"
        | Some c => if decide (c ≠ message_type m) then Throw (invalid name) else Ret (m, bytes)
        end
  end.

Definition with_field {A} (v : View) (name : list byte) (k : Field → outcome A) : outcome A :=
  match find_field v.1 name with None => Undef "no such accessor" | Some f => k f end.
Definition get_uint (v : View) (name : list byte) : outcome Z :=
  with_field v name (λ f,
    match uint_reader (field_type f) with None => Undef "not unsigned" | Some read => read v.2 (offset f) end).
Definition get_char (v : View) (name : list byte) : outcome byte :=
  with_field v name (λ f, read_char v.2 (offset f)).
Definition get_ascii (v : View) (name : list byte) : outcome (list byte) :=
  with_field v name (λ f, read_ascii_view v.2 (offset f) (width f)).

Definition header : Header := {|
  GeneratedHeader.View := View;
  message_size c := size <$> find_message p c;
  type_name c := from_option message_name (bs "Unknown") (find_message p c);
  GeneratedHeader.make_view := make_view;
  GeneratedHeader.get_uint := get_uint;
  GeneratedHeader.get_char := get_char;
  GeneratedHeader.get_ascii := get_ascii |}.

#[export] Instance header_generated : GeneratedFrom p header.
Proof.
  split; [done|done| |]; intros m bytes Hm; cbn; unfold make_view; rewrite Hm.
  - intros [Hl|(c & Hc & Hne)]; [by rewrite decide_True|].
    case_decide; [done|]. by rewrite Hc, decide_True.
  - intros Hl Hc. rewrite decide_False by (intros ?; congruence). rewrite Hc, decide_False by (intros ?; congruence).
    eexists. split; [done|]. intros name f Hf. unfold get_uint, get_char, get_ascii, with_field.
    cbn [fst snd]. rewrite Hf. split_and!; [|done|done]. by intros read ->.
Qed.
End interpret.
End Interpret.
