(* ===== verification/Cpp.v ===== *)
(** The fragment of C++ that the protocol compiler emits: a reader from text to syntax trees, the
    rules a program must satisfy to compile that the emitter could break, and what the declared
    classes and functions do.  [EmittedHeader] reads the text of [Emitter] with it.  The reader
    is a conservative one: text outside the fragment is refused. *)
From S2P Require Import Prelude ByteReader ProtocolCompiler SchemaPrinter.
From Stdlib Require Import Strings.Byte.
#[local] Open Scope list_scope.
#[local] Open Scope Z_scope.
Import ByteReader Protocolc.

Module Cpp.

(** * Names *)

Definition keywords : list (list byte) := bs <$>
  ["alignas"; "alignof"; "and"; "and_eq"; "asm"; "auto"; "bitand"; "bitor"; "bool"; "break"; "case";
   "catch"; "char"; "char8_t"; "char16_t"; "char32_t"; "class"; "co_await"; "co_return"; "co_yield";
   "compl"; "concept"; "const"; "consteval"; "constexpr"; "constinit"; "const_cast"; "continue";
   "decltype"; "default"; "delete"; "do"; "double"; "dynamic_cast"; "else"; "enum"; "explicit";
   "export"; "extern"; "false"; "float"; "for"; "friend"; "goto"; "if"; "inline"; "int"; "long";
   "mutable"; "namespace"; "new"; "noexcept"; "not"; "not_eq"; "nullptr"; "operator"; "or"; "or_eq";
   "private"; "protected"; "public"; "register"; "reinterpret_cast"; "requires"; "return"; "short";
   "signed"; "sizeof"; "static"; "static_assert"; "static_cast"; "struct"; "switch"; "template";
   "this"; "thread_local"; "throw"; "true"; "try"; "typedef"; "typeid"; "typename"; "union";
   "unsigned"; "using"; "virtual"; "void"; "volatile"; "wchar_t"; "while"; "xor"; "xor_eq"]%string.
Definition keyword (w : list byte) : bool := bool_decide (w ∈ keywords).
(** A name that a program can declare. *)
Definition name_ok (w : list byte) : bool := is_identifier w && negb (keyword w).

Definition digits_value (ds : list byte) : Z := foldl (λ v c, v * 10 + (Z_of_byte c - 48)) 0 ds.
(** A decimal literal: a leading zero would make it octal, and [long long] is the largest type. *)
Definition is_number (w : list byte) : bool :=
  match w with
  | [] => false
  | [c] => isdigit c
  | c :: _ => forallb isdigit w && negb (bool_decide (c = Byte.x30)) && (digits_value w <? 2 ^ 63)
  end.

(** * Tokens *)

(** [Reserved]: a keyword, or what is not a word of C++; [Directive]: a line that starts with [#]. *)
Inductive Tok : Type :=
| Ident (w : list byte)
| Reserved (w : list byte)
| Num (v : Z)
| CharLit (c : byte)
| StringLit (s : list byte)
| Punct (p : list byte)
| Directive (line : list byte).
#[export] Instance tok_eq_dec : EqDecision Tok.
Proof. solve_decision. Defined.

Definition word_token (w : list byte) : Tok :=
  if is_number w then Num (digits_value w) else if name_ok w then Ident w else Reserved w.

(** What has been read of a token; [Pending] holds a character that may start a longer one. *)
Inductive Mode : Type :=
| Start
| InWord (w : list byte)
| InString (s : list byte)
| CharOpen
| CharFull (c : byte)
| Pending (c : byte)
| InComment
| InDirective (line : list byte)
| Bad.

Definition apostrophe : byte := Byte.x27.
Definition backslash : byte := Byte.x5c.
Definition printable_char (c : byte) : bool := in_range 32 126 c && negb (bool_decide (c = backslash)).
(** The first characters of [::], [!=], [||], [//]. *)
Definition starts_pair (c : byte) : bool :=
  bool_decide (c = Byte.x3a) || bool_decide (c = Byte.x21) || bool_decide (c = Byte.x7c) || bool_decide (c = slash).
Definition pair (c d : byte) : bool :=
  bool_decide ([c; d] = bs "::") || bool_decide ([c; d] = bs "!=") || bool_decide ([c; d] = bs "||").

Definition start (c : byte) : Mode * list Tok :=
  if isspace c then (Start, [])
  else if word_char c then (InWord [c], [])
  else if decide (c = quote) then (InString [], [])
  else if decide (c = apostrophe) then (CharOpen, [])
  else if decide (c = Byte.x23) then (InDirective [c], [])
  else if starts_pair c then (Pending c, [])
  else if printable_char c then (Start, [Punct [c]])
  else (Bad, []).

Definition step (m : Mode) (c : byte) : Mode * list Tok :=
  match m with
  | Start => start c
  | InWord w =>
      if word_char c then (InWord (w ++ [c]), [])
      else if decide (c = quote) then (Bad, [])
      else if decide (c = apostrophe) then (Bad, [])
      else let '(m, ts) := start c in (m, word_token w :: ts)
  | InString s =>
      if decide (c = quote) then (Start, [StringLit s])
      else if printable_char c then (InString (s ++ [c]), []) else (Bad, [])
  | CharOpen =>
      if printable_char c && negb (bool_decide (c = apostrophe)) then (CharFull c, []) else (Bad, [])
  | CharFull d => if decide (c = apostrophe) then (Start, [CharLit d]) else (Bad, [])
  | Pending d =>
      if pair d c then (Start, [Punct [d; c]])
      else if decide (d = slash) then (if decide (c = slash) then InComment else Bad, [])
      else let '(m, ts) := start c in (m, Punct [d] :: ts)
  | InComment =>
      if decide (c = newline) then (Start, [])
      else if printable_char c then (InComment, []) else (Bad, [])
  | InDirective line =>
      if decide (c = newline) then (Start, [Directive line])
      else if printable_char c then (InDirective (line ++ [c]), []) else (Bad, [])
  | Bad => (Bad, [])
  end.

Fixpoint run (m : Mode) (text : list byte) : Mode * list Tok :=
  match text with
  | [] => (m, [])
  | c :: text => let '(m, ts) := step m c in let '(m, ts') := run m text in (m, ts ++ ts')
  end.

(** The text of a file ends with a line end. *)
Definition tokens (text : list byte) : option (list Tok) :=
  match run Start text with (Start, ts) => Some ts | _ => None end.

(** * Syntax trees *)

Inductive CType : Type :=
| UInt8 | UInt16 | UInt32 | UInt64 | SizeT | Char | StringView | SpanOfConstBytes | OptionalSize.
#[export] Instance ctype_eq_dec : EqDecision CType.
Proof. solve_decision. Defined.

#[warnings="-register-all"]
Inductive Expr : Type :=
| Number (v : Z)
| CharConst (c : byte)
| StringConst (s : list byte)
| Name (path : list (list byte))
| Call (f : Expr) (args : list Expr)
| Member (e : Expr) (name : list byte)
| Index (e i : Expr)
| StaticCast (t : CType) (e : Expr)
| NotEqual (e1 e2 : Expr)
| Or (e1 e2 : Expr).

(** The arms of a [switch] are [return] statements. *)
Inductive Stmt : Type :=
| Return (e : Expr)
| ThrowStmt (e : Expr)
| If (c : Expr) (s : Stmt)
| Switch (e : Expr) (cases : list (byte * Expr)) (other : Expr).

Inductive MemberDecl : Type :=
| StaticConst (t : CType) (name : list byte) (value : Expr)
| Constructor (name : list byte) (t : CType) (param : list byte) (member : list byte) (init : Expr) (body : list Stmt)
| Method (t : CType) (name : list byte) (body : list Stmt)
| DataMember (t : CType) (name : list byte).

Record Class_ : Type := mkClass {
  class_name : list byte; public_ : list MemberDecl; private_ : list MemberDecl }.
Record Function_ : Type := mkFunction {
  result_type : CType; function_name : list byte; param_type : CType; param_name : list byte; body : list Stmt }.
Record Unit : Type := mkUnit {
  directives : list (list byte); namespace : list (list byte); classes : list Class_; functions : list Function_ }.

(** * Parser *)

Definition P (A : Type) : Type := list Tok → option (A * list Tok).
#[export] Instance P_ret : MRet P := λ A a ts, Some (a, ts).
#[export] Instance P_bind : MBind P := λ A B k m ts,
  match m ts with Some (a, ts) => k a ts | None => None end.

Definition take_token {A} (f : Tok → option A) : P A := λ ts,
  match ts with t :: ts => (λ a, (a, ts)) <$> f t | [] => None end.
Definition expect_tok (t : Tok) : P unit := take_token (λ u, if decide (u = t) then Some tt else None).
Definition punct (p : string) : P unit := expect_tok (Punct (bs p)).
Definition word_ (w : string) : P unit := expect_tok (word_token (bs w)).
(** [A::B] *)
Definition qualified (w v : string) : P unit := word_ w;; punct "::";; word_ v.
Definition identifier_ : P (list byte) :=
  take_token (λ t, match t with Ident w => Some w | _ => None end).
Definition char_ : P byte := take_token (λ t, match t with CharLit c => Some c | _ => None end).

(** Whether the next token is [t], which is then taken. *)
Definition accept (t : Tok) : P bool := λ ts,
  match ts with
  | u :: rest => if decide (u = t) then Some (true, rest) else Some (false, ts)
  | [] => Some (false, [])
  end.
Definition accept_punct (p : string) : P bool := accept (Punct (bs p)).
Definition accept_word (w : string) : P bool := accept (word_token (bs w)).

Definition std_type (w : list byte) : option CType :=
  if decide (w = bs "uint8_t") then Some UInt8
  else if decide (w = bs "uint16_t") then Some UInt16
  else if decide (w = bs "uint32_t") then Some UInt32
  else if decide (w = bs "uint64_t") then Some UInt64
  else if decide (w = bs "size_t") then Some SizeT
  else if decide (w = bs "string_view") then Some StringView
  else None.

Definition type_ : P CType :=
  char ← accept_word "char";
  if (char : bool) then mret Char
  else
    word_ "std";; punct "::";;
    w ← identifier_;
    if decide (w = bs "span") then
      punct "<";; word_ "const";; qualified "std" "uint8_t";; punct ">";; mret SpanOfConstBytes
    else if decide (w = bs "optional") then
      punct "<";; qualified "std" "size_t";; punct ">";; mret OptionalSize
    else match std_type w with Some t => mret t | None => λ _, None end.

(** The rest of a qualified name. *)
Fixpoint path (fuel : nat) : P (list (list byte)) :=
  match fuel with
  | O => λ _, None
  | S fuel =>
      w ← identifier_;
      more ← accept_punct "::";
      if (more : bool) then ws ← path fuel; mret (w :: ws) else mret [w]
  end.

(** Expressions, by precedence. *)
Fixpoint or_expr (fuel : nat) : P Expr :=
  match fuel with
  | O => λ _, None
  | S fuel =>
      e ← not_equal_expr fuel;
      more ← accept_punct "||";
      if (more : bool) then e' ← or_expr fuel; mret (Or e e') else mret e
  end
with not_equal_expr (fuel : nat) : P Expr :=
  match fuel with
  | O => λ _, None
  | S fuel =>
      e ← postfix_expr fuel;
      more ← accept_punct "!=";
      if (more : bool) then e' ← postfix_expr fuel; mret (NotEqual e e') else mret e
  end
with postfix_expr (fuel : nat) : P Expr :=
  match fuel with
  | O => λ _, None
  | S fuel => e ← primary_expr fuel; suffixes fuel e
  end
with suffixes (fuel : nat) (e : Expr) : P Expr :=
  match fuel with
  | O => λ _, None
  | S fuel =>
      call ← accept_punct "(";
      if (call : bool) then args ← arguments fuel; suffixes fuel (Call e args)
      else
        dot ← accept_punct ".";
        if (dot : bool) then name ← identifier_; suffixes fuel (Member e name)
        else
          index ← accept_punct "[";
          if (index : bool) then i ← or_expr fuel; punct "]";; suffixes fuel (Index e i) else mret e
  end
with arguments (fuel : nat) : P (list Expr) :=
  match fuel with
  | O => λ _, None
  | S fuel =>
      none ← accept_punct ")";
      if (none : bool) then mret []
      else
        e ← or_expr fuel;
        more ← accept_punct ",";
        if (more : bool) then es ← arguments fuel; mret (e :: es) else punct ")";; mret [e]
  end
with primary_expr (fuel : nat) : P Expr :=
  match fuel with
  | O => λ _, None
  | S fuel => λ ts,
      match ts with
      | CharLit c :: ts => Some (CharConst c, ts)
      | StringLit s :: ts => Some (StringConst s, ts)
      | Num v :: ts => Some (Number v, ts)
      | Ident _ :: _ => (ws ← path fuel; mret (Name ws)) ts
      | Reserved _ :: _ =>
          (word_ "static_cast";; punct "<";; t ← type_; punct ">";; punct "(";; e ← or_expr fuel; punct ")";;
           mret (StaticCast t e)) ts
      | _ => None
      end
  end.

(** No expression nests deeper than eight levels per token. *)
Definition expr : P Expr := λ ts, or_expr (length ts * 8) ts.

Fixpoint cases (fuel : nat) : P (list (byte * Expr) * Expr) :=
  match fuel with
  | O => λ _, None
  | S fuel =>
      case ← accept_word "case";
      if (case : bool) then
        c ← char_; punct ":";; word_ "return";; e ← expr; punct ";";;
        '(cs, other) ← cases fuel; mret ((c, e) :: cs, other)
      else word_ "default";; punct ":";; word_ "return";; e ← expr; punct ";";; mret ([], e)
  end.

(** A simple statement, or an [if] or [switch] around simple ones. *)
Definition simple : P Stmt :=
  return_ ← accept_word "return";
  if (return_ : bool) then e ← expr; punct ";";; mret (Return e)
  else word_ "throw";; e ← expr; punct ";";; mret (ThrowStmt e).
Definition stmt : P Stmt :=
  if_ ← accept_word "if";
  if (if_ : bool) then punct "(";; c ← expr; punct ")";; s ← simple; mret (If c s)
  else
    switch ← accept_word "switch";
    if (switch : bool) then
      punct "(";; e ← expr; punct ")";; punct "{";;
      '(cs, other) ← (λ ts, cases (length ts) ts); punct "}";; mret (Switch e cs other)
    else simple.

(** [p] until the token [stop], which is taken. *)
Fixpoint until {A} (stop : Tok) (p : P A) (fuel : nat) : P (list A) :=
  match fuel with
  | O => λ _, None
  | S fuel =>
      done_ ← accept stop;
      if (done_ : bool) then mret [] else x ← p; xs ← until stop p fuel; mret (x :: xs)
  end.
Definition many_until {A} (stop : Tok) (p : P A) : P (list A) := λ ts, until stop p (length ts) ts.

Definition block : P (list Stmt) := punct "{";; many_until (Punct (bs "}")) stmt.

Definition member_decl : P MemberDecl :=
  static ← accept_word "static";
  if (static : bool) then
    word_ "constexpr";; t ← type_; name ← identifier_; punct "=";; e ← expr; punct ";";;
    mret (StaticConst t name e)
  else
    explicit ← accept_word "explicit";
    if (explicit : bool) then
      name ← identifier_; punct "(";; t ← type_; param ← identifier_; punct ")";; punct ":";;
      member ← identifier_; punct "(";; init ← expr; punct ")";; body ← block;
      mret (Constructor name t param member init body)
    else
      attribute ← accept_punct "[";
      if (attribute : bool) then
        punct "[";; word_ "nodiscard";; punct "]";; punct "]";;
        t ← type_; name ← identifier_; punct "(";; punct ")";; word_ "const";; body ← block;
        mret (Method t name body)
      else t ← type_; name ← identifier_; punct ";";; mret (DataMember t name).

Definition class_decl : P Class_ :=
  word_ "class";; name ← identifier_; punct "{";; word_ "public";; punct ":";;
  public ← many_until (word_token (bs "private")) member_decl; punct ":";;
  private ← many_until (Punct (bs "}")) member_decl; punct ";";;
  mret (mkClass name public private).

Definition function_decl : P Function_ :=
  t ← type_; name ← identifier_; punct "(";; t' ← type_; param ← identifier_; punct ")";;
  word_ "noexcept";; b ← block;
  mret (mkFunction t name t' param b).

(** The namespace holds classes, then functions. *)
Fixpoint class_decls (fuel : nat) : P (list Class_) :=
  match fuel with
  | O => λ _, None
  | S fuel => λ ts,
      if decide (head ts = Some (word_token (bs "class"))) then (c ← class_decl; cs ← class_decls fuel; mret (c :: cs)) ts
      else Some ([], ts)
  end.

Fixpoint directive_lines (ts : list Tok) : list (list byte) * list Tok :=
  match ts with
  | Directive line :: ts => let '(lines, ts) := directive_lines ts in (line :: lines, ts)
  | _ => ([], ts)
  end.

Definition unit_ : P Unit := λ ts,
  let '(lines, ts) := directive_lines ts in
  (word_ "namespace";; ns ← (λ ts, path (length ts) ts); punct "{";;
   cs ← (λ ts, class_decls (length ts) ts);
   fs ← many_until (Punct (bs "}")) (word_ "inline";; function_decl);
   mret (mkUnit lines ns cs fs)) ts.

(** * Rules that a program must satisfy to compile *)

Definition declared (d : MemberDecl) : list (list byte) :=
  match d with
  | StaticConst _ name _ | Method _ name _ | DataMember _ name => [name]
  | Constructor _ _ _ _ _ _ => []
  end.
Definition constructors (d : MemberDecl) : list (list byte) :=
  match d with Constructor name _ _ _ _ _ => [name] | _ => [] end.
Definition members (c : Class_) : list MemberDecl := public_ c ++ private_ c.

(** No member is declared twice or has the name of the class, which its one constructor has. *)
Definition class_ok (c : Class_) : Prop :=
  NoDup (class_name c :: (members c ≫= declared)) ∧ (members c ≫= constructors) = [class_name c].
(** No label occurs twice. *)
Definition stmt_ok (s : Stmt) : Prop :=
  match s with Switch _ cs _ => NoDup cs.*1 | _ => True end.
(** The headers that declare what the fragment uses. *)
Definition includes : list (list byte) :=
  [bs "#include " ++ [quote] ++ bs "efe/byte_reader.hpp" ++ [quote]; bs "#include <cstddef>";
   bs "#include <cstdint>"; bs "#include <optional>"; bs "#include <span>"; bs "#include <string_view>"].

#[export] Instance class_ok_dec c : Decision (class_ok c).
Proof. apply _. Defined.
#[export] Instance stmt_ok_dec s : Decision (stmt_ok s).
Proof. destruct s; apply _. Defined.

(** In a namespace called [efe] or [std], the names [efe::] and [std::] would be looked up there. *)
Definition unit_ok (u : Unit) : Prop :=
  ¬ (bs "efe" ∈ tail (namespace u)) ∧ ¬ (bs "std" ∈ namespace u) ∧
  NoDup ((class_name <$> classes u) ++ (function_name <$> functions u)) ∧
  Forall class_ok (classes u) ∧
  Forall (λ f, Forall stmt_ok (body f)) (functions u) ∧
  Forall (λ line, line ∈ directives u) includes.
#[export] Instance unit_ok_dec u : Decision (unit_ok u).
Proof. apply _. Defined.

(** The declarations of a header, [None] if it does not compile. *)
Definition read (text : list byte) : option Unit :=
  match tokens text with
  | None => None
  | Some ts =>
      match unit_ ts with
      | Some (u, []) => if decide (unit_ok u) then Some u else None
      | _ => None
      end
  end.

(** * What a program does *)

Inductive Value : Type :=
| VInt (v : Z)
| VBool (b : bool)
| VChar (c : byte)
| VText (s : list byte)
| VSpan (bytes : list byte)
| VOptional (v : option Z).

(** The bits of an unsigned type. *)
Definition bits (t : CType) : option Z :=
  match t with
  | UInt8 => Some 8 | UInt16 => Some 16 | UInt32 => Some 32 | UInt64 | SizeT => Some 64
  | _ => None
  end.
(** The conversion of a value to a type. *)
Definition convert (t : CType) (v : Value) : outcome Value :=
  match bits t, t, v with
  | Some w, _, VInt n => Ret (VInt (wrap w n))
  | Some w, _, VChar c => Ret (VInt (wrap w (Z_of_byte c)))
  | _, Char, VChar c => Ret v
  | _, StringView, VText s => Ret v
  | _, SpanOfConstBytes, VSpan b => Ret v
  | _, OptionalSize, VInt n => Ret (VOptional (Some (u64 n)))
  | _, OptionalSize, VOptional o => Ret v
  | _, _, _ => Undef "ill-typed conversion"
  end.

Definition Vars : Type := list (list byte * Value).
Definition lookup_var (vars : Vars) (name : list byte) : option Value :=
  snd <$> List.find (λ b, bool_decide (b.1 = name)) vars.

Definition find_class_ (u : Unit) (name : list byte) : option Class_ :=
  List.find (λ c, bool_decide (class_name c = name)) (classes u).
Definition find_function (u : Unit) (name : list byte) : option Function_ :=
  List.find (λ f, bool_decide (function_name f = name)) (functions u).

Definition constant (t : CType) (e : Expr) : outcome Value :=
  match e with
  | Number n => convert t (VInt n)
  | CharConst c => convert t (VChar c)
  | _ => Undef "not a literal"
  end.
Fixpoint static_member (ds : list MemberDecl) (name : list byte) : outcome Value :=
  match ds with
  | StaticConst t x e :: ds => if decide (x = name) then constant t e else static_member ds name
  | _ :: ds => static_member ds name
  | [] => Undef "no such name"
  end.

(** The functions of [byte_reader.hpp]. *)
Definition call_reader (f : list byte) (args : list Value) : outcome Value :=
  match args with
  | [VSpan b; VInt off] =>
      if decide (f = bs "read_u8") then VInt <$> read_u8 b off
      else if decide (f = bs "read_u16_be") then VInt <$> read_u16_be b off
      else if decide (f = bs "read_u32_be") then VInt <$> read_u32_be b off
      else if decide (f = bs "read_u48_be") then VInt <$> read_u48_be b off
      else if decide (f = bs "read_u64_be") then VInt <$> read_u64_be b off
      else if decide (f = bs "read_char") then VChar <$> read_char b off
      else Undef "no such function"
  | [VSpan b; VInt off; VInt w] =>
      if decide (f = bs "read_ascii_view") then VText <$> read_ascii_view b off w else Undef "no such function"
  | _ => Undef "ill-typed arguments"
  end.

Section semantics.
Context (u : Unit).

(** [scope] is the class whose members are in scope. *)
Section eval.
Context (scope : option Class_) (vars : Vars).

Definition eval_name (path : list (list byte)) : outcome Value :=
  match path with
  | [x] =>
      match lookup_var vars x, scope with
      | Some v, _ => Ret v
      | None, Some c => static_member (members c) x
      | None, None => Undef "no such name"
      end
  | [c; x] =>
      if decide (c = bs "std" ∧ x = bs "nullopt") then Ret (VOptional None)
      else match find_class_ u c with Some c => static_member (public_ c) x | None => Undef "no such class" end
  | _ => Undef "no such name"
  end.

Fixpoint eval (e : Expr) : outcome Value :=
  match e with
  | Number n => Ret (VInt n)
  | CharConst c => Ret (VChar c)
  | StringConst s => Ret (VText s)
  | Name path => eval_name path
  | Call (Member e name) [] =>
      v ← eval e;
      match v with
      | VSpan b => if decide (name = bs "size") then Ret (VInt (len b)) else Undef "no such member"
      | _ => Undef "no such member"
      end
  | Call (Name [ns; f]) args =>
      if decide (ns = bs "efe") then
        vs ← (fix evals es := match es with [] => Ret [] | e :: es => v ← eval e; vs ← evals es; Ret (v :: vs) end) args;
        call_reader f vs
      else Undef "no such function"
  | Call _ _ => Undef "no such function"
  | Member _ _ => Undef "no such member"
  | Index e i =>
      v ← eval e; j ← eval i;
      match v, j with
      | VSpan b, VInt j => VInt <$> byte_at b j
      | _, _ => Undef "ill-typed index"
      end
  | StaticCast t e => v ← eval e; convert t v
  | NotEqual e1 e2 =>
      v1 ← eval e1; v2 ← eval e2;
      match v1, v2 with
      | VInt a, VInt b => Ret (VBool (negb (a =? b)))
      | _, _ => Undef "ill-typed comparison"
      end
  | Or e1 e2 =>
      v1 ← eval e1;
      match v1 with
      | VBool true => Ret (VBool true)
      | VBool false =>
          v2 ← eval e2;
          match v2 with VBool b => Ret (VBool b) | _ => Undef "not a condition" end
      | _ => Undef "not a condition"
      end
  end.

(** The value returned, [None] when the end is reached. *)
Fixpoint exec (s : Stmt) : outcome (option Value) :=
  match s with
  | Return e => v ← eval e; Ret (Some v)
  | ThrowStmt (Call (Name [ns; exception]) [e]) =>
      v ← eval e;
      match v with
      | VText s =>
          if decide (ns = bs "efe" ∧ exception = bs "DecodeError") then Throw (DecodeError (string_of s))
          else Undef "no such exception"
      | _ => Undef "ill-typed argument"
      end
  | ThrowStmt _ => Undef "no such exception"
  | If c s =>
      v ← eval c;
      match v with VBool true => exec s | VBool false => Ret None | _ => Undef "not a condition" end
  | Switch e cs other =>
      v ← eval e;
      match v with
      | VChar c =>
          v ← eval (from_option snd other (List.find (λ arm, bool_decide (arm.1 = c)) cs)); Ret (Some v)
      | _ => Undef "not a character"
      end
  end.
Fixpoint exec_all (ss : list Stmt) : outcome (option Value) :=
  match ss with
  | [] => Ret None
  | s :: ss => r ← exec s; match r with Some v => Ret (Some v) | None => exec_all ss end
  end.
(** The body of a function with a result. *)
Definition result (t : CType) (ss : list Stmt) : outcome Value :=
  r ← exec_all ss;
  match r with Some v => convert t v | None => Undef "no value returned" end.
End eval.

Definition call_function (name : list byte) (arg : Value) : outcome Value :=
  match find_function u name with
  | None => Undef "no such function"
  | Some f => v ← convert (param_type f) arg; result None [(param_name f, v)] (result_type f) (body f)
  end.

(** An object of a class, with its data member. *)
Record Object : Type := mkObject { class_ : Class_; data : Vars }.

Fixpoint find_constructor (ds : list MemberDecl) : option MemberDecl :=
  match ds with
  | Constructor _ _ _ _ _ _ as d :: _ => Some d
  | _ :: ds => find_constructor ds
  | [] => None
  end.
Fixpoint find_method (ds : list MemberDecl) (name : list byte) : option (CType * list Stmt) :=
  match ds with
  | Method t x b :: ds => if decide (x = name) then Some (t, b) else find_method ds name
  | _ :: ds => find_method ds name
  | [] => None
  end.
Fixpoint data_member (ds : list MemberDecl) (name : list byte) : option CType :=
  match ds with
  | DataMember t x :: ds => if decide (x = name) then Some t else data_member ds name
  | _ :: ds => data_member ds name
  | [] => None
  end.

(** [name(arg)]: the data member is initialised, then the body runs. *)
Definition construct (name : list byte) (arg : Value) : outcome Object :=
  match find_class_ u name with
  | None => Undef "no such class"
  | Some c =>
      match find_constructor (public_ c) with
      | Some (Constructor _ t param x init b) =>
          match data_member (members c) x with
          | None => Undef "no such member"
          | Some t' =>
              v ← convert t arg;
              i ← eval (Some c) [(param, v)] init;
              i ← convert t' i;
              exec_all (Some c) [(param, v); (x, i)] b;;
              Ret (mkObject c [(x, i)])
          end
      | _ => Undef "no such constructor"
      end
  end.

(** [o.name()] *)
Definition call_method (o : Object) (name : list byte) : outcome Value :=
  match find_method (public_ (class_ o)) name with
  | None => Undef "no such method"
  | Some (t, b) => result (Some (class_ o)) (data o) t b
  end.
End semantics.

End Cpp.
