(* ===== verification/EmittedHeader.v ===== *)
(** The generated header as the compiler emits it: the text of [Emitter.header_text], read as C++,
    declares what [docs/protocol-compiler.md] promises, [GeneratedFrom]. *)
From S2P Require Import Prelude Types ByteReader ProtocolCompiler Emitter Itch50Schema ProtocolProofs SchemaPrinter GeneratedHeader Cpp.
From stdpp Require Import pretty.
From Stdlib Require Import Strings.Byte.
#[local] Open Scope list_scope.
#[local] Open Scope Z_scope.
Import ByteReader Protocolc Cpp.

(** * Text *)

Lemma bs_cons a s : bs (String a s) = Ascii.byte_of_ascii a :: bs s.
Proof. done. Qed.
Lemma bs_app s t : bs (s +:+ t) = bs s ++ bs t.
Proof.
  induction s as [|a s IH]; [done|]. change (String a s +:+ t) with (String a (s +:+ t)).
  rewrite !bs_cons, IH. done.
Qed.
Lemma bs_str l : bs (string_of l) = l.
Proof. apply String.list_byte_of_string_of_list_byte. Qed.
Create Rewrite HintDb text.
#[export] Hint Rewrite bs_app bs_str : text.

(** ** Numerals *)

Definition numeral (n : Z) : list byte := bs (to_string n).

Lemma digits_value_snoc ds c : digits_value (ds ++ [c]) = digits_value ds * 10 + (Z_of_byte c - 48).
Proof. unfold digits_value. by rewrite foldl_app. Qed.

Lemma pretty_char d : (d < 10)%N → Ascii.byte_of_ascii (pretty_N_char d) = digit_char (Z.of_N d).
Proof.
  intros Hd. assert (∃ k, (k < 10)%nat ∧ d = N.of_nat k) as (k & Hk & ->).
  { exists (N.to_nat d). lia. }
  do 10 (destruct k as [|k]; [vm_compute; reflexivity|]). lia.
Qed.

(** [ds] are the digits of [n], without leading zeros. *)
Record digits_of (n : Z) (ds : list byte) : Prop := {
  digits_all : Forall isdigit ds;
  digits_are : digits_value ds = n;
  digits_first : head ds ≠ Some Byte.x30
}.

Lemma digits_snoc n ds d :
  digits_of n ds → 0 ≤ d < 10 → 0 < n * 10 + d → digits_of (n * 10 + d) (ds ++ [digit_char d]).
Proof.
  intros [Hall Hv Hf] Hd Hpos. destruct (digit_value d Hd) as [Hdig Hval]. split.
  - apply Forall_app. split; [done|]. by constructor.
  - rewrite digits_value_snoc. lia.
  - destruct ds as [|c ds]; [|done]. cbn in Hv |- *. subst n. intros [= Hc]. rewrite Hc in Hval. cbn in Hval. lia.
Qed.
Lemma pretty_digits n s : ∃ ds, bs (pretty_N_go n s) = ds ++ bs s ∧ digits_of (Z.of_N n) ds.
Proof.
  revert s. induction (N.lt_wf_0 n) as [n _ IH]. intros s. destruct (decide (n = 0%N)) as [->|].
  { exists []. split; [done|]. split; [constructor|done..]. }
  rewrite pretty_N_go_step by lia. pose proof (N.mod_lt n 10 ltac:(done)). pose proof (N.div_mod n 10 ltac:(done)).
  destruct (IH (n `div` 10)%N ltac:(apply N.div_lt; lia) (String (pretty_N_char (n `mod` 10)) s)) as (ds & -> & Hds).
  exists (ds ++ [digit_char (Z.of_N (n `mod` 10))]). rewrite bs_cons, pretty_char, <-app_assoc by done. split; [done|].
  revert Hds. generalize dependent (n `mod` 10)%N. generalize (n `div` 10)%N. intros q r Hr Hn Hds.
  replace (Z.of_N n) with (Z.of_N q * 10 + Z.of_N r) by lia. apply digits_snoc; [done|lia|lia].
Qed.

(** [std::to_string] prints a decimal literal of its argument. *)
Lemma numeral_spec n :
  0 ≤ n < 2 ^ 63 → numeral n ≠ [] ∧ Forall isdigit (numeral n) ∧ is_number (numeral n) = true ∧ digits_value (numeral n) = n.
Proof.
  intros Hn. destruct (decide (n = 0)) as [->|]; [split_and!; [done|by constructor|done..]|].
  assert (∃ ds, numeral n = ds ∧ digits_of n ds) as (ds & -> & [Hall Hv Hf]).
  { destruct n as [|p|p]; [done| |lia]. destruct (pretty_digits (N.pos p) "") as (ds & Hds & Hd).
    rewrite app_nil_r in Hds. by exists ds. }
  destruct ds as [|c ds]; [cbn in Hv; lia|]. split_and!; [done..| |done].
  unfold is_number. assert (forallb isdigit (c :: ds) = true) as Hd.
  { apply forallb_forall. intros x Hx%list_elem_of_In. rewrite Forall_forall in Hall. by apply Is_true_true, Hall. }
  rewrite Hd. destruct ds; [by apply andb_true_iff in Hd as [-> _]|].
  rewrite bool_decide_false by (intros ->; done). apply Z.ltb_lt. lia.
Qed.

(** * Reading text piece by piece *)

Lemma run_lexer_app m a b m1 ts1 m2 ts2 :
  run m a = (m1, ts1) → run m1 b = (m2, ts2) → run m (a ++ b) = (m2, ts1 ++ ts2).
Proof.
  revert m ts1. induction a as [|c a IH]; intros m ts1; cbn [run app].
  { intros [= <- <-] ->. done. }
  destruct (step m c) as [m' ts]. destruct (run m' a) as [m'' ts'] eqn:Ha. intros [= -> <-] Hb.
  by rewrite (IH _ _ Ha Hb), app_assoc.
Qed.

Lemma span_split p input a b : span p input = (a, b) → input = a ++ b.
Proof.
  revert a b. induction input as [|c input IH]; intros a b; cbn [span]; [by intros [= <- <-]|].
  destruct (p c); [|by intros [= <- <-]]. destruct (span p input) as [a' b'] eqn:H. intros [= <- <-].
  by rewrite (IH _ _ eq_refl).
Qed.
Lemma run_word_chars w v : Forall word_char v → run (InWord w) v = (InWord (w ++ v), []).
Proof.
  intros Hv. revert w. induction Hv as [|c v Hc _ IH]; intros w; cbn [run]; [by rewrite app_nil_r|].
  cbn [step]. rewrite (Is_true_true_1 _ Hc), IH, <-app_assoc. done.
Qed.
(** A word starts at the first of its characters and ends before the next character. *)
Lemma run_word w : w ≠ [] → Forall word_char w → run Start w = (InWord w, []).
Proof.
  destruct w as [|c w]; [done|]. intros _ Hw. inversion Hw as [|? ? Hc Hw']; subst. cbn [run step]. unfold start.
  assert (isspace c = false) as ->.
  { apply Is_true_true in Hc. clear -Hc. by destruct c. }
  rewrite (Is_true_true_1 _ Hc), run_word_chars by done. done.
Qed.
Definition ends_word (c : byte) : bool :=
  negb (word_char c) && negb (bool_decide (c = quote)) && negb (bool_decide (c = apostrophe)).
Lemma run_end_word w text v c t m ts u :
  span word_char text = (v, c :: t) → ends_word c = true → run Start (c :: t) = (m, ts) →
  word_token (w ++ v) = u → run (InWord w) text = (m, u :: ts).
Proof.
  intros Hs Hc Hr <-. pose proof (span_prefix _ _ _ _ Hs) as Hv. apply span_split in Hs as ->.
  change (word_token (w ++ v) :: ts) with ([] ++ word_token (w ++ v) :: ts).
  eapply run_lexer_app; [by apply run_word_chars|]. unfold ends_word in Hc. apply andb_true_iff in Hc as [Hc Ha].
  apply andb_true_iff in Hc as [Hw Hq]. cbn [run step] in *. apply negb_true_iff in Hw. rewrite Hw.
  rewrite (decide_False (P := c = quote)), (decide_False (P := c = apostrophe)) by (intros ->; done).
  destruct (start c) as [m1 ts1]. destruct (run m1 t) as [m2 ts2]. by injection Hr as -> <-.
Qed.

Definition string_char (c : byte) : bool := printable_char c && negb (bool_decide (c = quote)).
Lemma run_string_chars s v : Forall string_char v → run (InString s) v = (InString (s ++ v), []).
Proof.
  intros Hv. revert s. induction Hv as [|c v Hc _ IH]; intros s; cbn [run]; [by rewrite app_nil_r|].
  apply Is_true_true in Hc. unfold string_char in Hc. apply andb_true_iff in Hc as [Hp Hq].
  cbn [step]. rewrite decide_False by (intros ->; done). rewrite Hp, IH, <-app_assoc. done.
Qed.
Lemma run_end_string s v t m ts :
  Forall string_char v → run Start t = (m, ts) →
  run (InString s) (v ++ quote :: t) = (m, StringLit (s ++ v) :: ts).
Proof.
  intros Hv Hr. change (StringLit (s ++ v) :: ts) with ([] ++ StringLit (s ++ v) :: ts).
  eapply run_lexer_app; [by apply run_string_chars|]. cbn [run step]. rewrite decide_True by done. by rewrite Hr.
Qed.
Definition char_ok (c : byte) : bool := printable_char c && negb (bool_decide (c = apostrophe)).
Lemma run_char c : char_ok c = true → run CharOpen [c] = (CharFull c, []).
Proof. intros Hc. cbn [run step]. unfold char_ok in Hc. by rewrite Hc. Qed.

(** * The declarations that are emitted *)

Definition bytes_member : list byte := bs "bytes_".
Definition reader_call (reader : string) (args : list Expr) : Expr :=
  Call (Name [bs "efe"; bs reader]) (Name [bytes_member] :: args).
Definition accessor (f : Field) : CType * Expr :=
  let off := Number (offset f) in
  let t := field_type f in
  if decide (t = bs "u8") then (UInt8, reader_call "read_u8" [off])
  else if decide (t = bs "u16_be") then (UInt16, reader_call "read_u16_be" [off])
  else if decide (t = bs "u32_be" ∨ t = bs "price4") then (UInt32, reader_call "read_u32_be" [off])
  else if decide (t = bs "u48_be") then (UInt64, reader_call "read_u48_be" [off])
  else if decide (t = bs "u64_be" ∨ t = bs "price8") then (UInt64, reader_call "read_u64_be" [off])
  else if decide (t = bs "char") then (Char, reader_call "read_char" [off])
  else (StringView, reader_call "read_ascii_view" [off; Number (width f)]).
Definition method_of (f : Field) : MemberDecl :=
  Method (accessor f).1 (field_name f) [Return (accessor f).2].

Definition view_name (m : Message) : list byte := message_name m ++ bs "View".
Definition type_const (m : Message) : MemberDecl :=
  StaticConst Char (bs "message_type") (CharConst (message_type m)).
Definition size_const (m : Message) : MemberDecl := StaticConst SizeT (bs "encoded_size") (Number (size m)).
(** [bytes_.size() != encoded_size || bytes_[0] != static_cast<std::uint8_t>(message_type)] *)
Definition rejected : Expr :=
  Or (NotEqual (Call (Member (Name [bytes_member]) (bs "size")) []) (Name [bs "encoded_size"]))
     (NotEqual (Index (Name [bytes_member]) (Number 0)) (StaticCast UInt8 (Name [bs "message_type"]))).
Definition constructor_of (m : Message) : MemberDecl :=
  Constructor (view_name m) SpanOfConstBytes (bs "bytes") bytes_member (Name [bs "bytes"])
    [If rejected (ThrowStmt (Call (Name [bs "efe"; bs "DecodeError"])
      [StringConst ((bs "invalid " ++ message_name m) ++ bs " message")]))].
Definition class_of (m : Message) : Class_ :=
  mkClass (view_name m) ([type_const m; size_const m; constructor_of m] ++ (method_of <$> fields m))
    [DataMember SpanOfConstBytes bytes_member].

Definition size_arm (m : Message) : byte * Expr := (message_type m, Name [view_name m; bs "encoded_size"]).
Definition name_arm (m : Message) : byte * Expr := (message_type m, StringConst (message_name m)).
Definition switch_of (arms : list (byte * Expr)) (other : Expr) : list Stmt := [Switch (Name [bs "type"]) arms other].
Definition size_function (ms : list Message) : Function_ :=
  mkFunction OptionalSize (bs "message_size") Char (bs "type")
    (switch_of (size_arm <$> ms) (Name [bs "std"; bs "nullopt"])).
Definition name_function (ms : list Message) : Function_ :=
  mkFunction StringView (bs "message_name") Char (bs "type")
    (switch_of (name_arm <$> ms) (StringConst (bs "Unknown"))).
Definition unit_of (p : Protocol) : Unit :=
  mkUnit (bs "#pragma once" :: includes) [bs "efe"; bs "generated"; Emitter.snake_namespace (protocol_name p)]
    (class_of <$> protocol_messages p) [size_function (protocol_messages p); name_function (protocol_messages p)].

(** What the emitter relies on without checking it: names that C++ can declare here, message types
    that can stand between apostrophes, and numbers that are literals. *)
Definition literal_ok (n : Z) : bool := (0 <=? n) && (n <? 2 ^ 63).
Definition field_ok (f : Field) : bool :=
  name_ok (field_name f) && literal_ok (offset f) && literal_ok (width f).
(** The names that are taken in the class of a message. *)
Definition taken (m : Message) : list (list byte) :=
  [view_name m; bs "message_type"; bs "encoded_size"; bytes_member].
Definition message_ok (m : Message) : bool :=
  name_ok (view_name m) && char_ok (message_type m) && literal_ok (size m) &&
  forallb field_ok (fields m) && bool_decide (Forall (λ f, ¬ (field_name f ∈ taken m)) (fields m)).
Definition emittable (p : Protocol) : bool :=
  let ns := Emitter.snake_namespace (protocol_name p) in
  name_ok ns && bool_decide (¬ (ns ∈ [bs "efe"; bs "std"])) && forallb message_ok (protocol_messages p).

Definition types : list (list byte) := bs <$>
  ["u8"; "u16_be"; "u32_be"; "price4"; "u48_be"; "u64_be"; "price8"; "char"; "ascii"]%string.
Lemma supported_type f : supported f → field_type f ∈ types.
Proof.
  intros [->|Hw]; [by apply (bool_decide_unpack _)|]. revert Hw. unfold type_width.
  repeat (case_decide; [destruct_or?; match goal with H : field_type f = _ |- _ => rewrite H end; intros _; by apply (bool_decide_unpack _)|]).
  done.
Qed.

(** A piece of text that is read as one word. *)
Record reads_word (w : list byte) (t : Tok) : Prop := {
  word_nonempty : w ≠ [];
  word_chars : Forall word_char w;
  word_is : word_token w = t
}.
Lemma name_reads name : name_ok name = true → reads_word name (Ident name).
Proof.
  intros Hn. pose proof Hn as [Hi _]%andb_true_iff. apply is_identifier_spec in Hi as (c & rest & -> & Hc & Hrest).
  split; [done|..].
  - constructor; [|done]. unfold word_char, isalnum. apply Is_true_true in Hc.
    apply Is_true_true. destruct (isalpha c), (bool_decide (c = underscore)); rewrite ?orb_true_r; done.
  - unfold word_token. rewrite Hn.
    assert (isdigit c = false) as Hd by (clear -Hc; by destruct c).
    unfold is_number. cbn [forallb]. rewrite Hd. by destruct rest.
Qed.
Lemma numeral_reads n : literal_ok n = true → reads_word (numeral n) (Num n).
Proof.
  unfold literal_ok. intros [?%Z.leb_le ?%Z.ltb_lt]%andb_true_iff.
  destruct (numeral_spec n) as (? & Hd & Hn & Hv); [lia|]. split; [done|..].
  - eapply Forall_impl; [exact Hd|]. intros c Hc. unfold word_char, isalnum. apply Is_true_true in Hc.
    rewrite Hc, orb_true_r. done.
  - unfold word_token. by rewrite Hn, Hv.
Qed.

Lemma run_reads_word w t : reads_word w t → run Start w = (InWord w, []).
Proof. intros [? ? _]. by apply run_word. Qed.
Lemma run_after_word w u text c t m ts :
  reads_word w u → text = c :: t → ends_word c = true → run Start (c :: t) = (m, ts) →
  run (InWord w) text = (m, u :: ts).
Proof.
  intros [_ _ Hu] -> Hc Hr. eapply (run_end_word _ _ []); [|done|done|by rewrite app_nil_r].
  unfold ends_word in Hc. cbn [span]. by destruct (word_char c).
Qed.

Lemma run_comment w t : reads_word w t → run InComment w = (InComment, []).
Proof.
  intros [_ Hw _]. induction Hw as [|c w Hc _ IH]; cbn [run step]; [done|].
  rewrite decide_False by (intros ->; done). assert (printable_char c = true) as -> by (clear -Hc; by destruct c).
  by rewrite IH.
Qed.

(** One piece of text after the other. *)
Ltac piece :=
  lazymatch goal with
  | H : run ?m ?x = _ |- run ?m ?x = _ => exact H
  | H : char_ok ?c = true |- run CharOpen [?c] = _ => exact (run_char c H)
  | H : Forall _ ?v |- run (InString _) ?v = _ => exact (run_string_chars _ _ H)
  | |- run (InString _) (bs Emitter.dq) = _ => vm_compute; reflexivity
  | |- run (InString _) _ = _ => apply run_string_chars; apply (bool_decide_unpack _); vm_compute; exact I
  | H : reads_word ?w _ |- run Start ?w = _ => apply (run_reads_word _ _ H)
  | H : reads_word ?w _ |- run InComment ?w = _ => exact (run_comment _ _ H)
  | H : reads_word ?w _ |- run (InWord ?w) _ = _ => eapply (run_after_word _ _ _ _ _ _ _ H); [vm_compute; reflexivity..]
  | |- run _ (bs _) = _ => vm_compute; reflexivity
  end.
Ltac pieces := repeat (eapply run_lexer_app; [piece|]); piece.

(** Tokens that [p] reads as [a], the first of which is none of [stops]; a text of such tokens. *)
Definition parses {A} (stops : list Tok) (p : P A) (ts : list Tok) (a : A) : Prop :=
  ∃ t ts', ts = t :: ts' ∧ Forall (t ≠.) stops ∧ ∀ rest, p (t :: ts' ++ rest) = Some (a, rest).
Definition reads_as {A} (stops : list Tok) (p : P A) (text : list byte) (a : A) : Prop :=
  ∃ ts, run Start text = (Start, ts) ∧ parses stops p ts a.
Definition class_stops : list Tok := [word_token (bs "private"); Punct (bs "}")].

Ltac read_pieces :=
  match goal with
  | |- reads_as _ _ ?x _ =>
      let all := fresh "all" in let Hrun := fresh "Hrun" in
      evar (all : list Tok); assert (run Start x = (Start, all)) as Hrun; [unfold all; pieces|];
      eexists; split; [exact Hrun|]; unfold all; clear; eexists _, _; split; [reflexivity|]
  end;
  split; [apply (bool_decide_unpack _); vm_compute; exact I|intros ?; vm_compute; reflexivity].

Lemma emit_field_reads f text :
  supported f → field_ok f = true → Emitter.emit_field f = Ret text →
  reads_as class_stops member_decl (bs text) (method_of f).
Proof.
  destruct f as [name type w off]. intros Ht%supported_type Hok. cbn [field_type] in Ht.
  repeat (apply elem_of_cons in Ht as [->|Ht]); [..|by apply elem_of_nil in Ht].
  all: lazymatch goal with
       | |- ?lhs = _ → _ =>
           let rhs := eval lazy -[string_of to_string String.append Emitter.nl] in lhs in change lhs with rhs
       end; intros [= <-]; autorewrite with text; fold (numeral off) (numeral w).
  all: rewrite <-?app_assoc.
  all: destruct (andb_prop _ _ Hok) as [[Hname%name_reads Hoff%numeral_reads]%andb_prop Hw%numeral_reads];
       cbn [field_name offset width] in *.
  all: read_pieces.
Qed.

(** ** Sequences *)

Lemma P_bind_Some {A B} (m : P A) (k : A → P B) ts a ts' : m ts = Some (a, ts') → (m ≫= k) ts = k a ts'.
Proof. unfold mbind, P_bind. by intros ->. Qed.

(** A parser whose result is found by evaluation. *)
Ltac bind_known := erewrite P_bind_Some by reflexivity; cbv beta iota.

Lemma accept_other t u ts : u ≠ t → accept t (u :: ts) = Some (false, u :: ts).
Proof. intros. cbn. by rewrite decide_False. Qed.
Lemma accept_same t ts : accept t (t :: ts) = Some (true, ts).
Proof. cbn. by rewrite decide_True. Qed.

Section sequences.
Context {A : Type} (stops : list Tok) (p : P A).

Lemma reads_all texts xs :
  Forall2 (reads_as stops p) texts xs →
  ∃ tss, run Start (concat texts) = (Start, concat tss) ∧
    Forall2 (parses stops p) tss xs.
Proof.
  induction 1 as [|text x texts xs (ts & Hrun & Hp) _ (tss & Hruns & Hps)]; [by exists []|].
  exists (ts :: tss). split; [by apply (run_lexer_app _ _ _ _ _ _ _ Hrun)|]. by constructor.
Qed.
Lemma until_reads stop tss xs fuel rest :
  stop ∈ stops → (length xs < fuel)%nat →
  Forall2 (parses stops p) tss xs →
  until stop p fuel (concat tss ++ stop :: rest) = Some (xs, rest).
Proof.
  intros Hstop Hf Hall. revert fuel Hf.
  induction Hall as [|ts x tss xs (t & ts' & -> & Ht & Hp) _ IH]; intros [|fuel] Hf; cbn [length] in Hf; [lia| |lia|].
  - cbn [until concat app]. erewrite P_bind_Some by apply accept_same. done.
  - cbn [until concat app]. rewrite Forall_forall in Ht. erewrite P_bind_Some by (apply accept_other; auto).
    rewrite <-app_assoc. erewrite P_bind_Some by apply Hp. erewrite P_bind_Some by (apply IH; lia). done.
Qed.
End sequences.

Lemma many_reads {A} stops (p : P A) stop tss xs rest :
  stop ∈ stops →
  Forall2 (parses stops p) tss xs →
  many_until stop p (concat tss ++ stop :: rest) = Some (xs, rest).
Proof.
  intros Hstop Hall. unfold many_until. eapply until_reads; [done| |done].
  rewrite length_app. cbn [length]. enough (length xs ≤ length (concat tss))%nat by lia.
  clear Hstop. induction Hall as [|ts x tss xs (t & ts' & -> & _) _ IH]; cbn; [done|].
  rewrite length_app. lia.
Qed.

(** ** Classes *)

Lemma is_message_ok m :
  message_ok m = true →
  reads_word (view_name m) (Ident (view_name m)) ∧ char_ok (message_type m) = true ∧
  reads_word (numeral (size m)) (Num (size m)) ∧ Forall string_char (message_name m) ∧
  Forall (λ f, field_ok f = true) (fields m).
Proof.
  unfold message_ok. intros [[[[Hname%name_reads Hc]%andb_prop Hs%numeral_reads]%andb_prop Hf]%andb_prop _]%andb_prop.
  split_and!; try done.
  - destruct Hname as [_ [Hw _]%Forall_app _]. eapply Forall_impl; [exact Hw|]. intros c. by destruct c.
  - apply Forall_forall. intros f Hin. by apply (proj1 (forallb_forall _ _) Hf), list_elem_of_In.
Qed.

Lemma type_char_ok m : char_ok (message_type m) = true → bs (Emitter.type_char m) = [message_type m].
Proof.
  intros Hc. unfold Emitter.type_char. rewrite decide_False; [apply bs_str|]. intros Hm. by rewrite Hm in Hc.
Qed.

Definition type_const_text (m : Message) : list byte :=
  bs "    static constexpr char message_type = '" ++ [message_type m] ++ bs "';" ++ bs Emitter.nl.
Definition size_const_text (m : Message) : list byte :=
  bs "    static constexpr std::size_t encoded_size = " ++ numeral (size m) ++ bs ";" ++ bs Emitter.nl.
Definition constructor_text (m : Message) : list byte :=
  bs "    explicit " ++ view_name m ++ bs "(std::span<const std::uint8_t> bytes) : bytes_(bytes) {" ++ bs Emitter.nl
  ++ bs "        if (bytes_.size() != encoded_size || bytes_[0] != static_cast<std::uint8_t>(message_type)) throw efe::DecodeError("
  ++ bs Emitter.dq ++ bs "invalid " ++ message_name m ++ bs " message" ++ bs Emitter.dq ++ bs ");" ++ bs Emitter.nl
  ++ bs "    }" ++ bs Emitter.nl.

Lemma type_const_reads m :
  char_ok (message_type m) = true → reads_as class_stops member_decl (type_const_text m) (type_const m).
Proof.
  intros Hc. unfold type_const, type_const_text. destruct m as [? c ? ?]. cbn [message_type] in *. read_pieces.
Qed.
Lemma size_const_reads m :
  reads_word (numeral (size m)) (Num (size m)) → reads_as class_stops member_decl (size_const_text m) (size_const m).
Proof.
  intros Hs. unfold size_const, size_const_text. destruct m as [? ? ? n]. cbn [size] in *. read_pieces.
Qed.
Lemma constructor_reads m :
  reads_word (view_name m) (Ident (view_name m)) → Forall string_char (message_name m) →
  reads_as class_stops member_decl (constructor_text m) (constructor_of m).
Proof.
  unfold constructor_of, constructor_text. generalize (view_name m) (message_name m). clear m. intros v n Hv Hn.
  read_pieces.
Qed.

Lemma mapM_inv {A B} (g : A → outcome B) l k : mapM g l = Ret k → Forall2 (λ y x, g x = Ret y) k l.
Proof.
  revert k. induction l as [|x l IH]; intros k; cbn; [by intros [= <-]|].
  destruct (g x) as [y| | |] eqn:Hg; try done. cbn. destruct (mapM g l) as [ys| | |]; try done. intros [= <-].
  by constructor; [|apply IH].
Qed.
Lemma bs_concat l : bs (Emitter.concat_strings l) = concat (bs <$> l).
Proof. induction l as [|s l IH]; cbn [Emitter.concat_strings]; [done|]. by rewrite bs_app, IH. Qed.

Lemma accessors_read fs texts :
  Forall supported fs → Forall (λ f, field_ok f = true) fs → mapM Emitter.emit_field fs = Ret texts →
  Forall2 (reads_as class_stops member_decl) (bs <$> texts) (method_of <$> fs).
Proof.
  intros Hs Hok Hm%mapM_inv. apply Forall2_fmap. revert Hs Hok.
  induction Hm as [|text f texts fs Hf _ IH]; intros Hs Hok; [by constructor|].
  apply Forall_cons in Hs as [? ?], Hok as [? ?]. constructor; [by apply emit_field_reads|by apply IH].
Qed.

Definition member_texts (m : Message) (accessors : list string) : list (list byte) :=
  [type_const_text m; size_const_text m; constructor_text m] ++ (bs <$> accessors).
Lemma emit_message_text m text :
  char_ok (message_type m) = true → Emitter.emit_message m = Ret text →
  ∃ accessors, mapM Emitter.emit_field (fields m) = Ret accessors ∧
    bs text = bs "class " ++ view_name m ++ bs " {" ++ bs Emitter.nl ++ bs "public:" ++ bs Emitter.nl
      ++ concat (member_texts m accessors)
      ++ bs "private:" ++ bs Emitter.nl ++ bs "    std::span<const std::uint8_t> bytes_;" ++ bs Emitter.nl
      ++ bs "};" ++ bs Emitter.nl ++ bs Emitter.nl.
Proof.
  intros Hc. unfold Emitter.emit_message.
  destruct (mapM Emitter.emit_field (fields m)) as [accessors| | |]; try done. cbn [mbind outcome_bind]. intros [= <-].
  exists accessors. split; [done|]. autorewrite with text. rewrite type_char_ok, bs_concat by done.
  unfold member_texts, type_const_text, size_const_text, constructor_text, view_name, numeral.
  rewrite concat_app. cbn [concat]. rewrite <-!app_assoc, app_nil_l.
  change (bs "View {") with (bs "View" ++ bs " {").
  change (bs "View(std::span<const std::uint8_t> bytes) : bytes_(bytes) {")
    with (bs "View" ++ bs "(std::span<const std::uint8_t> bytes) : bytes_(bytes) {").
  rewrite <-!app_assoc. reflexivity.
Qed.

Lemma emit_message_reads m text :
  Forall supported (fields m) → message_ok m = true → Emitter.emit_message m = Ret text →
  ∃ ts, run Start (bs text) = (Start, word_token (bs "class") :: ts) ∧
    ∀ rest, class_decl (word_token (bs "class") :: ts ++ rest) = Some (class_of m, rest).
Proof.
  intros Hs (Hv & Hc & Hn & Hstr & Hf)%is_message_ok Htext.
  apply emit_message_text in Htext as (accessors & Hm & ->); [|done].
  assert (Forall2 (reads_as class_stops member_decl) (member_texts m accessors)
    ([type_const m; size_const m; constructor_of m] ++ (method_of <$> fields m))) as (tss & Hrun & Hp)%reads_all.
  { apply Forall2_app; [|by apply accessors_read]. repeat constructor;
      [by apply type_const_reads|by apply size_const_reads|by apply constructor_reads]. }
  evar (all : list Tok). match goal with |- context [run Start ?text] => assert (run Start text = (Start, all)) as Htext end.
  { unfold all. pieces. }
  eexists. split; [rewrite Htext; unfold all; reflexivity|]. intros rest. clear Htext all.
  unfold class_of. set (ds := _ ++ (method_of <$> _)) in *. clearbody ds.
  rewrite <-!app_assoc. cbn [app]. unfold class_decl. do 5 bind_known.
  erewrite P_bind_Some by (eapply many_reads; [|exact Hp]; apply (bool_decide_unpack _); vm_compute; exact I).
  clear. vm_compute. reflexivity.
Qed.

(** ** The switches *)

Definition case_tokens (c : byte) (ets : list Tok) : list Tok :=
  [word_token (bs "case"); CharLit c; Punct (bs ":"); word_token (bs "return")] ++ ets ++ [Punct (bs ";")].
Definition default_tokens (ets : list Tok) : list Tok :=
  [word_token (bs "default"); Punct (bs ":"); word_token (bs "return")] ++ ets ++ [Punct (bs ";")].
(** Tokens of an expression that a semicolon follows. *)
Definition expr_tokens (ets : list Tok) (e : Expr) : Prop :=
  ∀ rest, expr (ets ++ Punct (bs ";") :: rest) = Some (e, Punct (bs ";") :: rest).

Lemma cases_read arms tss other ots fuel rest :
  Forall2 (λ ts arm, ∃ ets, ts = case_tokens arm.1 ets ∧ expr_tokens ets arm.2) tss arms →
  expr_tokens ots other → (length arms < fuel)%nat →
  cases fuel (concat tss ++ default_tokens ots ++ rest) = Some ((arms, other), rest).
Proof.
  intros Harms Hother. revert fuel.
  induction Harms as [|ts [c e] tss arms (ets & -> & He) _ IH]; intros [|fuel] Hf; cbn [length] in Hf; [lia| |lia|].
  - cbn [concat app cases]. unfold default_tokens. rewrite <-!app_assoc. cbn [app].
    do 4 bind_known. rewrite (P_bind_Some _ _ _ _ _ (Hother _)).
    bind_known. done.
  - cbn [concat cases]. unfold case_tokens at 1. cbn [fst snd] in *. rewrite <-!app_assoc. cbn [app].
    do 4 bind_known. rewrite (P_bind_Some _ _ _ _ _ (He _)).
    bind_known. erewrite P_bind_Some by (apply IH; lia). done.
Qed.

Definition switch_tokens (cs : list Tok) : list Tok :=
  [word_token (bs "switch"); Punct (bs "("); Ident (bs "type"); Punct (bs ")"); Punct (bs "{")] ++ cs ++ [Punct (bs "}")].
Lemma type_expr rest :
  expr (Ident (bs "type") :: Punct (bs ")") :: rest) = Some (Name [bs "type"], Punct (bs ")") :: rest).
Proof. vm_compute. reflexivity. Qed.

(** The arms and the default of a [switch]. *)
Definition parses_cases (cs : list Tok) (arms : list (byte * Expr)) (other : Expr) : Prop :=
  ∃ tss ots, cs = concat tss ++ default_tokens ots ∧ expr_tokens ots other ∧
    Forall2 (λ ts arm, ∃ ets, ts = case_tokens arm.1 ets ∧ expr_tokens ets arm.2) tss arms.

Lemma switch_read cs arms other :
  parses_cases cs arms other →
  parses [Punct (bs "}")] stmt (switch_tokens cs) (Switch (Name [bs "type"]) arms other).
Proof.
  intros (tss & ots & -> & Hother & Harms). eexists _, _. split; [reflexivity|]. split; [decided|]. intros rest.
  set (tail := concat tss ++ default_tokens ots ++ Punct (bs "}") :: rest).
  trans (stmt (word_token (bs "switch") :: Punct (bs "(") :: Ident (bs "type") :: Punct (bs ")") :: Punct (bs "{") :: tail)).
  { unfold tail. f_equal. cbn [app]. by rewrite <-!app_assoc. }
  unfold stmt. do 3 bind_known. rewrite (P_bind_Some _ _ _ _ _ (type_expr _)). do 2 bind_known.
  rewrite (P_bind_Some _ _ _ (arms, other) (Punct (bs "}") :: rest)); [by bind_known|]. unfold tail.
  eapply cases_read; [done|done|]. rewrite !length_app. cbn [length].
  enough (length arms ≤ length (concat tss))%nat by lia.
  clear Hother tail. induction Harms as [|ts x tss xs (ets & -> & _) _ IH]; [done|].
  cbn [concat length]. rewrite length_app. unfold case_tokens. cbn [app length]. lia.
Qed.

(** The tokens of a function that consists of a [switch]. *)
Definition function_tokens (tts : list Tok) (name : list byte) (cs : list Tok) : list Tok :=
  word_token (bs "inline") :: tts ++
  [Ident name; Punct (bs "("); word_token (bs "char"); Ident (bs "type"); Punct (bs ")"); word_token (bs "noexcept");
   Punct (bs "{")] ++ switch_tokens cs ++ [Punct (bs "}")].
Lemma function_read tts t name cs arms other :
  (∀ rest, type_ (tts ++ rest) = Some (t, rest)) → parses_cases cs arms other →
  parses [Punct (bs "}")] (word_ "inline";; function_decl) (function_tokens tts name cs)
    (mkFunction t name Char (bs "type") (switch_of arms other)).
Proof.
  intros Ht Hcs. eexists _, _. split; [reflexivity|]. split; [decided|]. intros rest.
  set (tail := concat [switch_tokens cs] ++ Punct (bs "}") :: rest).
  trans ((word_ "inline";; function_decl) (word_token (bs "inline") :: tts ++
    Ident name :: Punct (bs "(") :: word_token (bs "char") :: Ident (bs "type") :: Punct (bs ")") ::
    word_token (bs "noexcept") :: Punct (bs "{") :: tail)).
  { unfold tail. f_equal. f_equal. cbn [concat]. rewrite app_nil_r, <-!app_assoc. done. }
  bind_known. unfold function_decl. rewrite (P_bind_Some _ _ _ _ _ (Ht _)). do 6 bind_known.
  rewrite (P_bind_Some _ _ _ (switch_of arms other) rest); [done|]. unfold block. bind_known. unfold tail.
  eapply many_reads; [|by constructor; [apply switch_read|]]. set_solver.
Qed.

Lemma size_case_read m :
  message_ok m = true →
  run Start (bs (Emitter.emit_size_case m)) =
    (Start, case_tokens (message_type m) [Ident (view_name m); Punct (bs "::"); Ident (bs "encoded_size")]).
Proof.
  intros (Hv & Hc & _)%is_message_ok. unfold Emitter.emit_size_case, Emitter.char_string. autorewrite with text.
  change (bs "View::encoded_size;") with (bs "View" ++ bs "::encoded_size;"). rewrite <-?app_assoc.
  rewrite (app_assoc (message_name m) (bs "View")). fold (view_name m). etrans; [pieces|reflexivity].
Qed.
Lemma name_case_read m :
  message_ok m = true →
  run Start (bs (Emitter.emit_name_case m)) = (Start, case_tokens (message_type m) [StringLit (message_name m)]).
Proof.
  intros (Hv & Hc & _ & Hn & _)%is_message_ok. unfold Emitter.emit_name_case, Emitter.char_string.
  autorewrite with text. rewrite <-?app_assoc. etrans; [pieces|reflexivity].
Qed.

Lemma arms_read (emit : Message → string) (arm : Message → byte * Expr) (ets : Message → list Tok) ms :
  (∀ m, message_ok m = true → run Start (bs (emit m)) = (Start, case_tokens (arm m).1 (ets m))) →
  (∀ m, expr_tokens (ets m) (arm m).2) → Forall (λ m, message_ok m = true) ms →
  ∃ tss, run Start (bs (Emitter.concat_strings (emit <$> ms))) = (Start, concat tss) ∧
    Forall2 (λ ts arm, ∃ ets, ts = case_tokens arm.1 ets ∧ expr_tokens ets arm.2) tss (arm <$> ms).
Proof.
  intros Hrun Hexpr. rewrite bs_concat. induction 1 as [|m ms Hm _ (tss & Hruns & Harms)]; [by exists []|].
  exists (case_tokens (arm m).1 (ets m) :: tss). cbn [fmap list_fmap concat]. split.
  - by eapply run_lexer_app; [apply Hrun|].
  - constructor; [|done]. by eauto.
Qed.

Definition function_text (declarator cases_ default_ : list byte) : list byte :=
  declarator ++ bs Emitter.nl ++ bs "    switch (type) {" ++ bs Emitter.nl ++ cases_ ++ default_ ++ bs Emitter.nl
  ++ bs "    }" ++ bs Emitter.nl ++ bs "}" ++ bs Emitter.nl ++ bs Emitter.nl.
Definition function_stops : list Tok := [Punct (bs "}")].

Ltac same_tokens :=
  f_equal; unfold function_tokens, switch_tokens, default_tokens; rewrite <-?app_assoc; cbn [app];
  rewrite <-?app_assoc; reflexivity.

Definition size_function_text (ms : list Message) : list byte :=
  function_text (bs "inline std::optional<std::size_t> message_size(char type) noexcept {")
    (bs (Emitter.concat_strings (Emitter.emit_size_case <$> ms))) (bs "        default: return std::nullopt;").
Definition name_function_text (ms : list Message) : list byte :=
  function_text (bs "inline std::string_view message_name(char type) noexcept {")
    (bs (Emitter.concat_strings (Emitter.emit_name_case <$> ms)))
    (bs "        default: return " ++ bs Emitter.dq ++ bs "Unknown" ++ bs Emitter.dq ++ bs ";").

Lemma size_function_reads ms :
  Forall (λ m, message_ok m = true) ms →
  reads_as function_stops (word_ "inline";; function_decl) (size_function_text ms) (size_function ms).
Proof.
  intros Hms.
  destruct (arms_read Emitter.emit_size_case size_arm
    (λ m, [Ident (view_name m); Punct (bs "::"); Ident (bs "encoded_size")]) ms) as (tss & Hrun & Harms);
    [apply size_case_read|intros m rest; vm_compute; reflexivity|done|].
  set (ots := [Ident (bs "std"); Punct (bs "::"); Ident (bs "nullopt")]).
  set (tts := [Ident (bs "std"); Punct (bs "::"); Ident (bs "optional"); Punct (bs "<"); Ident (bs "std"); Punct (bs "::");
               Ident (bs "size_t"); Punct (bs ">")]).
  exists (function_tokens tts (bs "message_size") (concat tss ++ default_tokens ots)). split.
  - unfold size_function_text, function_text. etrans; [pieces|]. same_tokens.
  - apply function_read; [by intros; vm_compute|]. exists tss, ots. split_and!; [done|by intros; vm_compute|done].
Qed.
Lemma name_function_reads ms :
  Forall (λ m, message_ok m = true) ms →
  reads_as function_stops (word_ "inline";; function_decl) (name_function_text ms) (name_function ms).
Proof.
  intros Hms.
  destruct (arms_read Emitter.emit_name_case name_arm (λ m, [StringLit (message_name m)]) ms) as (tss & Hrun & Harms);
    [apply name_case_read|intros m rest; vm_compute; reflexivity|done|].
  set (ots := [StringLit (bs "Unknown")]). set (tts := [Ident (bs "std"); Punct (bs "::"); Ident (bs "string_view")]).
  exists (function_tokens tts (bs "message_name") (concat tss ++ default_tokens ots)). split.
  - unfold name_function_text, function_text. rewrite <-?app_assoc. etrans; [pieces|]. same_tokens.
  - apply function_read; [by intros; vm_compute|]. exists tss, ots. split_and!; [done|by intros; vm_compute|done].
Qed.

(** ** The header *)

Definition parses_class (ts : list Tok) (c : Class_) : Prop :=
  ∃ ts', ts = word_token (bs "class") :: ts' ∧
    ∀ rest, class_decl (word_token (bs "class") :: ts' ++ rest) = Some (c, rest).
Lemma class_decls_read tss cs t rest fuel :
  Forall2 parses_class tss cs → (length cs < fuel)%nat → t ≠ word_token (bs "class") →
  class_decls fuel (concat tss ++ t :: rest) = Some (cs, t :: rest).
Proof.
  intros Hall Hf Ht. revert fuel Hf.
  induction Hall as [|ts c tss cs (ts' & -> & Hc) _ IH]; intros [|fuel] Hf; cbn [length] in Hf; [lia| |lia|].
  - cbn [class_decls concat app head]. by rewrite decide_False by congruence.
  - cbn [class_decls concat app head]. rewrite decide_True by done. rewrite <-app_assoc, (P_bind_Some _ _ _ _ _ (Hc _)).
    rewrite (P_bind_Some _ _ _ _ _ (IH fuel ltac:(lia))). done.
Qed.

Lemma messages_read ms texts :
  Forall (λ m, Forall supported (fields m)) ms → Forall (λ m, message_ok m = true) ms →
  mapM Emitter.emit_message ms = Ret texts →
  ∃ tss, run Start (bs (Emitter.concat_strings texts)) = (Start, concat tss) ∧
    Forall2 parses_class tss (class_of <$> ms).
Proof.
  intros Hs Hok Hm%mapM_inv. rewrite bs_concat. revert Hs Hok.
  induction Hm as [|text m texts ms Hm _ IH]; intros Hs Hok; [by exists []|].
  apply Forall_cons in Hs as [Hs Hss], Hok as [Ho Hos].
  destruct (IH Hss Hos) as (tss & Hrun & Hc). destruct (emit_message_reads m text Hs Ho Hm) as (ts & Hrun' & Hc').
  exists ((word_token (bs "class") :: ts) :: tss). split; [by eapply run_lexer_app|]. constructor; [|done]. by eexists.
Qed.

Lemma emittable_ok p :
  emittable p = true →
  reads_word (Emitter.snake_namespace (protocol_name p)) (Ident (Emitter.snake_namespace (protocol_name p))) ∧
  Forall (λ m, message_ok m = true) (protocol_messages p).
Proof.
  unfold emittable. intros [[Hn%name_reads _]%andb_prop Hm]%andb_prop. split; [done|].
  apply Forall_forall. intros m Hin. by apply (proj1 (forallb_forall _ _) Hm), list_elem_of_In.
Qed.

Definition include_directives : list (list byte) := bs "#pragma once" :: includes.
Definition namespace_tokens (ns : list byte) (cs fs : list Tok) : list Tok :=
  (Directive <$> include_directives) ++
  [word_token (bs "namespace"); Ident (bs "efe"); Punct (bs "::"); Ident (bs "generated"); Punct (bs "::"); Ident ns;
   Punct (bs "{")] ++ cs ++ fs ++ [Punct (bs "}")].

Definition preamble : list byte :=
  bs "// AUTO-GENERATED by efe_protocolc. Do not edit by hand." ++ bs Emitter.nl ++ bs "#pragma once" ++ bs Emitter.nl
  ++ bs Emitter.nl ++ bs "#include " ++ bs Emitter.dq ++ bs "efe/byte_reader.hpp" ++ bs Emitter.dq ++ bs Emitter.nl
  ++ bs "#include <cstddef>" ++ bs Emitter.nl ++ bs "#include <cstdint>" ++ bs Emitter.nl ++ bs "#include <optional>"
  ++ bs Emitter.nl ++ bs "#include <span>" ++ bs Emitter.nl ++ bs "#include <string_view>" ++ bs Emitter.nl ++ bs Emitter.nl.
Lemma header_text_spec p text :
  Emitter.header_text p = Ret text →
  ∃ views, mapM Emitter.emit_message (protocol_messages p) = Ret views ∧
    bs text = preamble ++ bs "namespace efe::generated::" ++ Emitter.snake_namespace (protocol_name p) ++ bs " {"
      ++ bs Emitter.nl ++ bs Emitter.nl ++ bs (Emitter.concat_strings views)
      ++ concat [size_function_text (protocol_messages p); name_function_text (protocol_messages p)]
      ++ bs "}  // namespace efe::generated::" ++ Emitter.snake_namespace (protocol_name p) ++ bs Emitter.nl.
Proof.
  unfold Emitter.header_text. destruct (mapM Emitter.emit_message (protocol_messages p)) as [views| | |]; try done.
  cbn [mbind outcome_bind]. intros [= <-]. exists views. split; [done|]. autorewrite with text. cbn [concat].
  unfold preamble, size_function_text, name_function_text, function_text. rewrite <-?app_assoc. done.
Qed.

Lemma header_tokens p text :
  protocol_ok p → emittable p = true → Emitter.header_text p = Ret text →
  ∃ css fss, tokens (bs text) = Some (namespace_tokens (Emitter.snake_namespace (protocol_name p)) (concat css) (concat fss)) ∧
    Forall2 parses_class css (class_of <$> protocol_messages p) ∧
    Forall2 (parses function_stops (word_ "inline";; function_decl)) fss
      [size_function (protocol_messages p); name_function (protocol_messages p)].
Proof.
  intros Hp (Hns & Hms)%emittable_ok (views & Hviews & ->)%header_text_spec.
  destruct (messages_read (protocol_messages p) views) as (css & Hcrun & Hcs); [|done|done|].
  { eapply Forall_impl; [apply Hp|]. intros m [_ Hs _ _]. eapply Forall_impl; [exact Hs|]. by intros f []. }
  assert (Forall2 (reads_as function_stops (word_ "inline";; function_decl))
    [size_function_text (protocol_messages p); name_function_text (protocol_messages p)]
    [size_function (protocol_messages p); name_function (protocol_messages p)]) as (fss & Hfrun & Hfs)%reads_all.
  { repeat constructor; [by apply size_function_reads|by apply name_function_reads]. }
  exists css, fss. split; [|done]. revert Hns Hfrun.
  generalize (Emitter.snake_namespace (protocol_name p)). intros ns Hns.
  match goal with |- context [concat ?l] => generalize (concat l) end. intros ftext Hfrun.
  assert (run Start preamble = (Start, Directive <$> include_directives)) as Hpre by (vm_compute; reflexivity).
  match goal with |- tokens ?text = _ => enough (run Start text =
    (Start, namespace_tokens ns (concat css) (concat fss))) as Hrun by (unfold tokens; by rewrite Hrun) end.
  etrans; [pieces|reflexivity].
Qed.

Lemma directive_lines_spec l t ts :
  (∀ line, t ≠ Directive line) → directive_lines ((Directive <$> l) ++ t :: ts) = (l, t :: ts).
Proof.
  intros Ht. induction l as [|line l IH]; cbn [fmap list_fmap app directive_lines]; [|by rewrite IH].
  destruct t; try done. by edestruct Ht.
Qed.
(** A function starts with [inline], so that the classes end there. *)
Lemma function_first ts f :
  parses function_stops (word_ "inline";; function_decl) ts f → ∃ ts', ts = word_token (bs "inline") :: ts'.
Proof.
  intros (t & ts' & -> & _ & Hp). specialize (Hp []). unfold mbind at 1, P_bind, word_, expect_tok, take_token in Hp.
  destruct (decide (t = word_token (bs "inline"))) as [->|]; [by eexists|done].
Qed.

Lemma namespace_path ns rest fuel :
  (3 ≤ fuel)%nat →
  path fuel (Ident (bs "efe") :: Punct (bs "::") :: Ident (bs "generated") :: Punct (bs "::") :: Ident ns :: Punct (bs "{") :: rest)
  = Some ([bs "efe"; bs "generated"; ns], Punct (bs "{") :: rest).
Proof. intros. do 3 (destruct fuel as [|fuel]; [lia|]). vm_compute. reflexivity. Qed.

Lemma unit_read ns css cs fss fs :
  Forall2 parses_class css cs → Forall2 (parses function_stops (word_ "inline";; function_decl)) fss fs → fs ≠ [] →
  unit_ (namespace_tokens ns (concat css) (concat fss)) =
    Some (mkUnit include_directives [bs "efe"; bs "generated"; ns] cs fs, []).
Proof.
  intros Hcs Hfs Hne. unfold unit_, namespace_tokens. set (tail := concat css ++ concat fss ++ [Punct (bs "}")]).
  cbn [app]. rewrite directive_lines_spec by done. bind_known.
  rewrite (P_bind_Some _ _ _ [bs "efe"; bs "generated"; ns] (Punct (bs "{") :: tail)).
  2: { apply namespace_path. cbn [length]. lia. }
  bind_known.
  assert (∃ rest, concat fss ++ [Punct (bs "}")] = word_token (bs "inline") :: rest) as [rest Hrest].
  { destruct Hfs as [|ts f fss fs Hf _]; [done|]. apply function_first in Hf as [ts' ->]. by eexists. }
  rewrite (P_bind_Some _ _ _ cs (concat fss ++ [Punct (bs "}")])).
  - rewrite (P_bind_Some _ _ _ fs []); [done|]. by apply (many_reads function_stops); [left|].
  - unfold tail. rewrite Hrest. apply class_decls_read; [done| |by vm_compute].
    rewrite length_app. cbn [length]. enough (length cs ≤ length (concat css))%nat by lia.
    clear -Hcs. induction Hcs as [|ts c css cs (ts' & -> & _) _ IH]; [done|]. cbn. rewrite length_app. lia.
Qed.

(** ** The header compiles *)

#[export] Instance view_inj : Inj (=) (=) (λ name : list byte, name ++ bs "View").
Proof. intros n1 n2. apply app_inj_2. done. Qed.
Lemma view_not name x : name ++ bs "View" = x → drop (length x - 4) x = bs "View".
Proof. intros <-. rewrite length_app. change (length (bs "View")) with 4%nat. by rewrite Nat.add_sub, drop_app_length. Qed.

Lemma methods_declared fs : (method_of <$> fs) ≫= declared = field_name <$> fs.
Proof. induction fs as [|f fs IH]; [done|]. by rewrite !fmap_cons, bind_cons, IH. Qed.
Lemma methods_construct fs : (method_of <$> fs) ≫= constructors = [].
Proof. induction fs as [|f fs IH]; [done|]. by rewrite fmap_cons, bind_cons, IH. Qed.

Lemma class_of_ok m : layout_computed (fields m) (size m) → message_ok m = true → class_ok (class_of m).
Proof.
  intros [Hnames _ _ _] [_ Htaken%bool_decide_eq_true]%andb_prop. unfold class_ok, members, class_of. cbn [public_ private_ class_name].
  rewrite !bind_app, methods_declared, methods_construct. split; [|done].
  assert (view_name m :: ([type_const m; size_const m; constructor_of m] ≫= declared) ++ (field_name <$> fields m) ++
    ([DataMember SpanOfConstBytes bytes_member] ≫= declared) ≡ₚ taken m ++ (field_name <$> fields m)) as Hperm.
  { cbn. do 3 f_equiv. by rewrite Permutation_app_comm. }
  rewrite <-app_assoc, Hperm. apply NoDup_app. split_and!; [|..|done].
  - apply NoDup_cons. split; [|decided]. intros Hx.
    repeat (apply elem_of_cons in Hx as [Hx|Hx]; [apply view_not in Hx; revert Hx; vm_compute; discriminate|]).
    by apply elem_of_nil in Hx.
  - intros x Hx (f & -> & Hf)%list_elem_of_fmap. rewrite Forall_forall in Htaken. by apply (Htaken f).
Qed.
Lemma unit_of_ok p : protocol_ok p → emittable p = true → unit_ok (unit_of p).
Proof.
  intros [Htypes Hnames Hfields] Hok. unfold unit_ok.
  pose proof (emittable_ok _ Hok) as [_ Hms]. apply andb_prop in Hok as [[_ Hns%bool_decide_eq_true]%andb_prop _].
  assert (∀ f : Message → byte * Expr, (∀ m, (f m).1 = message_type m) → NoDup (f <$> protocol_messages p).*1) as Harms.
  { intros f Hf. rewrite <-list_fmap_compose. erewrite list_fmap_ext; [exact Htypes|]. intros _ m _. apply Hf. }
  split_and!.
  - cbn [unit_of namespace tail]. rewrite !not_elem_of_cons in *. split_and!; [by vm_compute|naive_solver|apply not_elem_of_nil].
  - cbn [unit_of namespace]. rewrite !not_elem_of_cons in *.
    split_and!; [by vm_compute|by vm_compute|naive_solver|apply not_elem_of_nil].
  - cbn [unit_of classes functions]. rewrite <-list_fmap_compose. apply NoDup_app. split_and!; [|..|decided].
    + change (class_name ∘ class_of) with ((λ name, name ++ bs "View") ∘ message_name).
      rewrite list_fmap_compose. apply NoDup_fmap_2; [apply view_inj|done].
    + intros x (m & -> & _)%list_elem_of_fmap Hx. cbn [compose] in Hx. unfold class_of, view_name in Hx. cbn [class_name] in Hx.
      repeat (apply elem_of_cons in Hx as [Hx|Hx]; [apply view_not in Hx; revert Hx; vm_compute; discriminate|]).
      by apply elem_of_nil in Hx.
  - cbn [unit_of classes]. apply Forall_fmap. rewrite Forall_forall in *. intros m Hm. by apply class_of_ok; auto.
  - cbn. repeat constructor; by apply Harms.
  - decided.
Qed.

(** The text that is written for a protocol compiles, and its declarations are those of [unit_of]. *)
Lemma emitted_text_reads p text :
  protocol_ok p → emittable p = true → Emitter.header_text p = Ret text → read (bs text) = Some (unit_of p).
Proof.
  intros Hp Hok (css & fss & Htokens & Hcs & Hfs)%header_tokens; [|done..].
  unfold read. rewrite Htokens. erewrite unit_read by done. apply decide_True. by apply unit_of_ok.
Qed.

(** * What the declarations do *)

Definition to_uint (r : Value) : outcome Z := match r with VInt n => Ret n | _ => Undef "not an unsigned integer" end.
Definition to_char (r : Value) : outcome byte := match r with VChar c => Ret c | _ => Undef "not a character" end.
Definition to_text (r : Value) : outcome (list byte) := match r with VText s => Ret s | _ => Undef "not a text" end.

(** What the clients of a header get from one that has been read. *)
Definition header_of (u : Unit) : Header := {|
  View := Object;
  message_size c :=
    match call_function u (bs "message_size") (VChar c) with Ret (VOptional o) => o | _ => None end;
  type_name c := match call_function u (bs "message_name") (VChar c) with Ret (VText s) => s | _ => [] end;
  make_view name bytes := construct u (name ++ bs "View") (VSpan bytes);
  get_uint v name := call_method u v name ≫= to_uint;
  get_char v name := call_method u v name ≫= to_char;
  get_ascii v name := call_method u v name ≫= to_text |}.

Lemma find_arm (f : Message → byte * Expr) p c :
  (∀ m, (f m).1 = message_type m) →
  List.find (λ arm, bool_decide (arm.1 = c)) (f <$> protocol_messages p) = f <$> find_message p c.
Proof.
  intros Hf. unfold find_message. induction (protocol_messages p) as [|m ms IH]; [done|].
  cbn. rewrite Hf. by case_bool_decide.
Qed.

(** A [switch] over the argument [type]. *)
Definition argument (c : byte) : Vars := [(bs "type", VChar c)].
Lemma switch_result u t arms other c :
  result u None (argument c) t (switch_of arms other) =
    (v ← eval u None (argument c) (from_option snd other (List.find (λ arm, bool_decide (arm.1 = c)) arms)); convert t v).
Proof.
  unfold result, switch_of. cbn [exec_all exec].
  change (eval u None (argument c) (Name [bs "type"])) with (Ret (VChar c)). cbn [mbind outcome_bind].
  by destruct (eval _ _ _ _).
Qed.

Section meaning.
Context (p : Protocol) (Hp : protocol_ok p) (Hok : emittable p = true).

Lemma find_class_of m : m ∈ protocol_messages p → find_class_ (unit_of p) (view_name m) = Some (class_of m).
Proof.
  destruct Hp as [_ Hnames _]. unfold find_class_, unit_of. cbn [classes].
  induction (protocol_messages p) as [|m' ms IH]; intros Hm; [by apply elem_of_nil in Hm|].
  cbn. cbn in Hnames. apply NoDup_cons in Hnames as [Hm' Hnames]. apply elem_of_cons in Hm as [<-|Hm].
  - by rewrite bool_decide_true.
  - rewrite bool_decide_false; [by apply IH|]. intros Heq%(inj (λ name, name ++ bs "View")). destruct Hm'.
    rewrite Heq. by apply list_elem_of_fmap_2.
Qed.
Lemma find_message_in c m : find_message p c = Some m → m ∈ protocol_messages p ∧ message_ok m = true.
Proof.
  intros [Hm _]%find_some. apply list_elem_of_In in Hm. split; [done|].
  apply emittable_ok in Hok as [_ Hms]. rewrite Forall_forall in Hms. auto.
Qed.

Lemma message_size_emitted c :
  call_function (unit_of p) (bs "message_size") (VChar c) = Ret (VOptional (size <$> find_message p c)).
Proof.
  change (call_function (unit_of p) (bs "message_size") (VChar c)) with
    (result (unit_of p) None (argument c) OptionalSize
      (switch_of (size_arm <$> protocol_messages p) (Name [bs "std"; bs "nullopt"]))).
  rewrite switch_result, find_arm by done. destruct (find_message p c) as [m|] eqn:Hm; [|done].
  apply find_message_in in Hm as [Hm Hmok]. cbn [fmap option_fmap option_map from_option size_arm snd eval eval_name].
  rewrite decide_False by (by intros []). rewrite (find_class_of m Hm). cbn [class_of public_ app static_member type_const].
  rewrite decide_False by done. cbn [static_member size_const]. rewrite decide_True by done.
  apply andb_prop in Hmok as [[[[_ _]%andb_prop Hs]%andb_prop _]%andb_prop _].
  unfold literal_ok in Hs. apply andb_prop in Hs as [?%Z.leb_le ?%Z.ltb_lt]. cbn.
  unfold u64. rewrite (wrap_small 64 (size m)) by lia. rewrite wrap_small by lia. done.
Qed.
Lemma type_name_emitted c :
  call_function (unit_of p) (bs "message_name") (VChar c) =
    Ret (VText (from_option message_name (bs "Unknown") (find_message p c))).
Proof.
  change (call_function (unit_of p) (bs "message_name") (VChar c)) with
    (result (unit_of p) None (argument c) StringView
      (switch_of (name_arm <$> protocol_messages p) (StringConst (bs "Unknown")))).
  rewrite switch_result, find_arm by done. by destruct (find_message p c).
Qed.

(** The constructor. *)
Definition object_of (m : Message) (bytes : list byte) : Object :=
  mkObject (class_of m) [(bytes_member, VSpan bytes)].

Lemma in_protocol m : m ∈ protocol_messages p → literal_ok (size m) = true ∧ layout_computed (fields m) (size m).
Proof.
  intros Hm. destruct Hp as [_ _ Hfields]. pose proof (emittable_ok _ Hok) as [_ Hms].
  rewrite Forall_forall in *. split; [|by apply Hfields]. specialize (Hms m Hm).
  by apply andb_prop in Hms as [[[_ Hs]%andb_prop _]%andb_prop _].
Qed.

Lemma rejected_spec m bytes vars :
  m ∈ protocol_messages p → lookup_var vars bytes_member = Some (VSpan bytes) →
  lookup_var vars (bs "encoded_size") = None → lookup_var vars (bs "message_type") = None →
  eval (unit_of p) (Some (class_of m)) vars rejected =
    if decide (len bytes ≠ size m) then Ret (VBool true)
    else match head bytes with
         | None => Undef "bytes[i]: index out of range"
         | Some c => Ret (VBool (bool_decide (c ≠ message_type m)))
         end.
Proof.
  intros Hm Hb Hsize Htype. unfold rejected. cbn [eval eval_name]. rewrite Hb, Hsize, Htype.
  cbn [mbind outcome_bind]. rewrite decide_True by done.
  change (static_member (members (class_of m)) (bs "encoded_size")) with (constant SizeT (Number (size m))).
  change (static_member (members (class_of m)) (bs "message_type")) with (constant Char (CharConst (message_type m))).
  destruct (in_protocol m Hm) as [[?%Z.leb_le ?%Z.ltb_lt]%andb_prop _]. cbn.
  rewrite wrap_small by lia.
  case_decide as Hl; [by rewrite (proj2 (Z.eqb_neq _ _) Hl)|].
  rewrite (proj2 (Z.eqb_eq _ _) Hl). cbn [negb].
  destruct bytes as [|c bytes]; [done|]. change (byte_at (c :: bytes) 0) with (Ret (Z_of_byte c)). cbn.
  rewrite wrap_small by apply Z_of_byte_bound. case_bool_decide as Hc.
  - rewrite (proj2 (Z.eqb_neq _ _)); [done|]. by intros ?%(inj Z_of_byte).
  - by rewrite Hc, Z.eqb_refl.
Qed.

Lemma data_member_methods fs ds x : data_member ((method_of <$> fs) ++ ds) x = data_member ds x.
Proof. by induction fs. Qed.
Lemma invalid_text name : DecodeError (string_of ((bs "invalid " ++ name) ++ bs " message")) = invalid name.
Proof.
  unfold invalid. f_equal. rewrite <-(String.string_of_list_byte_of_string ("invalid " +:+ string_of name +:+ " message")).
  change (String.list_byte_of_string ?s) with (bs s). by rewrite !bs_app, bs_str, <-app_assoc.
Qed.

Lemma guard_spec u c vars e s b :
  eval u c vars e = Ret (VBool b) →
  exec_all u c vars [If e (ThrowStmt (Call (Name [bs "efe"; bs "DecodeError"]) [StringConst s]))] =
    if b then Throw (DecodeError (string_of s)) else Ret None.
Proof. intros He. cbn [exec_all exec]. rewrite He. by destruct b. Qed.

Lemma construct_emitted m bytes :
  m ∈ protocol_messages p →
  construct (unit_of p) (view_name m) (VSpan bytes) =
    if decide (len bytes ≠ size m) then Throw (invalid (message_name m))
    else match head bytes with
         | None => Undef "bytes[i]: index out of range"
         | Some c => if decide (c ≠ message_type m) then Throw (invalid (message_name m)) else Ret (object_of m bytes)
         end.
Proof.
  intros Hm. unfold construct. rewrite (find_class_of m Hm).
  change (find_constructor (public_ (class_of m))) with (Some (constructor_of m)). cbn [constructor_of].
  assert (data_member (members (class_of m)) bytes_member = Some SpanOfConstBytes) as ->.
  { unfold members, class_of. cbn [public_ private_]. rewrite <-app_assoc.
    change (data_member ([?a; ?b; ?c] ++ ?l) ?x) with (data_member l x). by rewrite data_member_methods. }
  change (convert SpanOfConstBytes (VSpan bytes)) with (Ret (VSpan bytes)). cbn [mbind outcome_bind].
  change (eval ?u ?c [(bs "bytes", ?v)] (Name [bs "bytes"])) with (Ret v). cbn [mbind outcome_bind].
  change (convert SpanOfConstBytes (VSpan bytes)) with (Ret (VSpan bytes)). cbn [mbind outcome_bind].
  match goal with |- context [exec_all _ _ ?vars _] => pose proof (rejected_spec m bytes vars Hm eq_refl eq_refl eq_refl) as He end.
  case_decide as Hl; [by rewrite (guard_spec _ _ _ _ _ _ He), invalid_text|]. destruct (head bytes) as [c|].
  - rewrite (guard_spec _ _ _ _ _ _ He), invalid_text. case_bool_decide; by case_decide.
  - cbn [exec_all exec]. by rewrite He.
Qed.

(** The accessors. *)
Lemma find_method_of fs name :
  find_method (method_of <$> fs) name =
    (λ f, ((accessor f).1, [Return (accessor f).2])) <$> List.find (λ f, bool_decide (field_name f = name)) fs.
Proof.
  induction fs as [|f fs IH]; [done|]. cbn. rewrite decide_bool_decide. by destruct (bool_decide (field_name f = name)).
Qed.
Lemma call_method_emitted m bytes name f :
  find_field m name = Some f →
  call_method (unit_of p) (object_of m bytes) name =
    (v ← eval (unit_of p) (Some (class_of m)) [(bytes_member, VSpan bytes)] (accessor f).2; convert (accessor f).1 v).
Proof.
  intros Hf. unfold call_method.
  change (find_method (public_ (class_ (object_of m bytes))) name) with (find_method (method_of <$> fields m) name).
  rewrite find_method_of. unfold find_field in Hf. rewrite Hf. cbn [fmap option_fmap option_map].
  unfold result. cbn [exec_all exec object_of class_ data]. by destruct (eval _ _ _ _).
Qed.
End meaning.

(** A number that is read fits the type of its accessor. *)
Lemma convert_reads t w bytes off n (o : outcome Z) :
  o = reads bytes off (Z.of_nat n) → bits t = Some w → 256 ^ Z.of_nat n ≤ 2 ^ w → 0 ≤ off →
  (v ← (VInt <$> o); convert t v) ≫= to_uint = o.
Proof.
  intros -> Ht Hw Hoff. destruct (reads bytes off (Z.of_nat n)) as [v| | |] eqn:Hr; try done.
  apply reads_Ret in Hr as (_ & Hv & _); [|done]. cbn. unfold convert. rewrite Ht, wrap_small by lia. by destruct t.
Qed.

Section accessors.
Context (p : Protocol) (m : Message) (bytes : list byte) (f : Field) (Hoff : 0 ≤ offset f).
Local Abbreviation run_accessor :=
  (v ← eval (unit_of p) (Some (class_of m)) [(bytes_member, VSpan bytes)] (accessor f).2; convert (accessor f).1 v).

Lemma uint_accessor read :
  uint_reader (field_type f) = Some read → run_accessor ≫= to_uint = read bytes (offset f).
Proof.
  destruct f as [name type w off]. cbn [field_type offset] in *. unfold uint_reader.
  repeat (case_decide; [destruct_or?; subst type; intros [= <-]|]); [..|done].
  - by apply (convert_reads UInt8 8 bytes off 1); [apply read_u8_spec|..].
  - by apply (convert_reads UInt16 16 bytes off 2); [apply read_u16_be_spec|..].
  - by apply (convert_reads UInt32 32 bytes off 4); [apply read_u32_be_spec|..].
  - by apply (convert_reads UInt32 32 bytes off 4); [apply read_u32_be_spec|..].
  - by apply (convert_reads UInt64 64 bytes off 6); [apply read_u48_be_spec|..].
  - by apply (convert_reads UInt64 64 bytes off 8); [apply read_u64_be_spec|..].
  - by apply (convert_reads UInt64 64 bytes off 8); [apply read_u64_be_spec|..].
Qed.
Lemma char_accessor :
  field_type f = bs "char" → run_accessor = VChar <$> read_char bytes (offset f).
Proof.
  destruct f as [name type w off]. cbn [field_type offset]. intros ->.
  change (accessor (mkField name (bs "char") w off)) with (Char, reader_call "read_char" [Number off]).
  change (eval _ _ _ _) with (VChar <$> read_char bytes off). by destruct (read_char bytes off).
Qed.
Lemma ascii_accessor :
  field_type f = bs "ascii" → run_accessor = VText <$> read_ascii_view bytes (offset f) (width f).
Proof.
  destruct f as [name type w off]. cbn [field_type offset width]. intros ->.
  change (accessor (mkField name (bs "ascii") w off)) with (StringView, reader_call "read_ascii_view" [Number off; Number w]).
  change (eval _ _ _ _) with (VText <$> read_ascii_view bytes off w). by destruct (read_ascii_view bytes off w).
Qed.
End accessors.

Lemma find_class_in p m : find_class p (message_name m) = Some m → m ∈ protocol_messages p.
Proof. intros [Hm _]%find_some. by apply list_elem_of_In. Qed.
Lemma find_field_offset p m name f :
  emittable p = true → m ∈ protocol_messages p → find_field m name = Some f → 0 ≤ offset f.
Proof.
  intros [_ Hms]%emittable_ok Hm [Hf _]%find_some. rewrite Forall_forall in Hms. specialize (Hms m Hm).
  apply is_message_ok in Hms as (_ & _ & _ & _ & Hfs). rewrite Forall_forall in Hfs.
  specialize (Hfs f (proj2 (list_elem_of_In _ _) Hf)).
  by apply andb_prop in Hfs as [[_ [?%Z.leb_le _]%andb_prop]%andb_prop _].
Qed.

(** The declarations of the header keep the promise. *)
Lemma unit_of_generated p : protocol_ok p → emittable p = true → GeneratedFrom p (header_of (unit_of p)).
Proof.
  intros Hp Hok. split.
  - intros c. cbn [message_size header_of]. by rewrite message_size_emitted.
  - intros c. cbn [type_name header_of]. by rewrite type_name_emitted.
  - intros m bytes Hm%find_class_in Hbad. cbn [make_view header_of]. fold (view_name m).
    rewrite construct_emitted by done. destruct Hbad as [Hl|(c & Hc & Hne)]; [by rewrite decide_True|].
    case_decide; [done|]. rewrite Hc. by rewrite decide_True.
  - intros m bytes Hm%find_class_in Hl Hc. cbn [make_view header_of]. fold (view_name m).
    exists (object_of m bytes). rewrite construct_emitted, Hc by done.
    rewrite decide_False, decide_False by (intros ?; congruence). split; [done|]. intros name f Hf.
    pose proof (find_field_offset p m name f Hok Hm Hf) as Hoff. cbn [get_uint get_char get_ascii header_of].
    rewrite (call_method_emitted p m bytes name f Hf). split_and!.
    + intros read Hr. by apply uint_accessor.
    + intros Ht. rewrite char_accessor by done. by destruct (read_char bytes (offset f)).
    + intros Ht. rewrite ascii_accessor by done. by destruct (read_ascii_view bytes (offset f) (width f)).
Qed.

(** C9: What the compiler emits is what is promised.  For every accepted schema whose names,
    message types and numbers C++ can take in these places, the text that is written compiles, and its
    classes and functions do what the documentation says of a generated header: construction
    rejects a wrong type or size, each accessor reads its field, and both lookups know exactly the
    messages of the schema. *)
Theorem emitted_header_keeps_the_promise source p :
  parse_protocol source = Ret p → emittable p = true →
  ∃ text u, Emitter.header_text p = Ret text ∧ read (bs text) = Some u ∧ GeneratedFrom p (header_of u) ∧
    ∀ c, call_function u (bs "message_size") (VChar c) = Ret (VOptional (size <$> find_message p c)) ∧
      call_function u (bs "message_name") (VChar c) =
        Ret (VText (from_option message_name (bs "Unknown") (find_message p c))).
Proof.
  intros Hp Hok. pose proof (parse_protocol_spec source) as Hpok. rewrite Hp in Hpok.
  destruct (protocol_emits p Hpok) as [text Htext]. exists text, (unit_of p). split_and!; [done| | |].
  - by apply emitted_text_reads.
  - by apply unit_of_generated.
  - intros c. split; [by apply message_size_emitted|by apply type_name_emitted].
Qed.
Lemma itch50_emittable : emittable itch50 = true.
Proof. vm_compute. reflexivity. Qed.
Lemma emitted_header_keeps_the_promise_witness :
  emittable itch50 = true ∧
  ∃ text u, Emitter.header_text itch50 = Ret text ∧ read (bs text) = Some u ∧ GeneratedFrom itch50 (header_of u) ∧
    ∀ c, call_function u (bs "message_size") (VChar c) = Ret (VOptional (size <$> find_message itch50 c)) ∧
      call_function u (bs "message_name") (VChar c) =
        Ret (VText (from_option message_name (bs "Unknown") (find_message itch50 c))).
Proof.
  split; [exact itch50_emittable|].
  exact (emitted_header_keeps_the_promise itch50_text itch50 parse_itch50 itch50_emittable).
Defined.

(** * Schemas that are accepted although their header does not compile *)

(** A field that is called like a keyword, like the data member, or like a constant of the class; a
    protocol whose namespace hides [std]; a message type that is an apostrophe. *)
Definition unusable_schemas : list (list byte) :=
  [unquote (bs "protocol P; message M 'X' { class: u8; }");
   unquote (bs "protocol P; message M 'X' { bytes_: u8; }");
   unquote (bs "protocol P; message M 'X' { message_type: u8; }");
   unquote (bs "protocol Std; message M 'X' { a: u8; }");
   quote_schema].
Theorem unusable_schemas_are_accepted :
  Forall (λ schema, ∃ p text,
    parse_protocol schema = Ret p ∧ Emitter.header_text p = Ret text ∧ read (bs text) = None) unusable_schemas.
Proof. repeat constructor; (eexists _, _; split_and!; [vm_compute; reflexivity..]). Qed.
