(* ===== verification/SchemaLanguage.v ===== *)
(** The schema language of [docs/protocol-compiler.md]: which protocols are valid, and that the
    compiler takes every one of them from its text to a header that compiles. *)
From S2P Require Import Prelude ByteReader ProtocolCompiler Emitter Itch50Schema ProtocolProofs SchemaPrinter GeneratedHeader Cpp EmittedHeader.
From Stdlib Require Import Strings.Byte.
#[local] Open Scope list_scope.
#[local] Open Scope Z_scope.
Import Protocolc Cpp.

(** * Valid protocols *)

Fixpoint double_underscore (w : list byte) : bool :=
  match w with
  | a :: (b :: _) as rest => bool_decide (a = underscore ∧ b = underscore) || double_underscore rest
  | _ => false
  end.
(** A name that a program may declare: an identifier that is neither a keyword nor, by its
    underscores, reserved for the implementation. *)
Definition usable_name (w : list byte) : bool :=
  name_ok w && bool_decide (head w ≠ Some underscore) && negb (double_underscore w).

Definition valid_message (m : Message) : Prop :=
  usable_name (message_name m) ∧ Forall (λ f, usable_name (field_name f)) (fields m) ∧
  message_type m ≠ quote ∧ layout_valid (fields m) (size m).
(** The types and names are unique, the names usable, the layouts valid, and no name is already
    taken in the place where the header declares it. *)
Record valid_protocol (p : Protocol) : Prop := {
  valid_types : NoDup (message_type <$> protocol_messages p);
  valid_names : NoDup (message_name <$> protocol_messages p);
  valid_name : usable_name (protocol_name p);
  valid_messages : Forall valid_message (protocol_messages p);
  valid_places : emittable p = true
}.

Lemma usable_identifier w : usable_name w → identifier w.
Proof.
  unfold usable_name, name_ok. intros Hw. apply is_identifier_spec.
  apply Is_true_true in Hw. apply andb_prop in Hw as [[[Hw _]%andb_prop _]%andb_prop _]. exact Hw.
Qed.
Lemma valid_protocol_ok p : valid_protocol p → protocol_ok p.
Proof.
  intros [Ht Hn _ Hms _]. split; [done..|]. eapply Forall_impl; [exact Hms|].
  intros m (_ & _ & _ & Hl). by apply layout_valid_computed.
Qed.
Lemma valid_expressible p : valid_protocol p → expressible p.
Proof.
  intros Hp. pose proof (emittable_ok _ (valid_places _ Hp)) as [_ Hplaces].
  split; [by apply valid_protocol_ok|apply usable_identifier, (valid_name _ Hp)|].
  pose proof (valid_messages _ Hp) as Hms. rewrite Forall_forall in Hms, Hplaces |- *. intros m Hm.
  destruct (Hms m Hm) as (Hname & Hfields & Hq & _). split_and!; [by apply usable_identifier|done| |].
  - intros Hnl. specialize (Hplaces m Hm). unfold message_ok in Hplaces. rewrite Hnl in Hplaces.
    rewrite andb_false_r in Hplaces. discriminate.
  - eapply Forall_impl; [exact Hfields|]. intros f. apply usable_identifier.
Qed.


(** The checked-in protocol is valid. *)
Definition checked (m : Message) : bool :=
  usable_name (message_name m) && forallb (λ f, usable_name (field_name f)) (fields m) &&
  bool_decide (message_type m ≠ quote) && (1 + total_width (fields m) <=? u64_max).
Lemma checked_valid m : layout_computed (fields m) (size m) → checked m = true → valid_message m.
Proof.
  unfold checked. intros Hl [[[Hn Hf]%andb_prop Hq%bool_decide_eq_true]%andb_prop Hw%Z.leb_le]%andb_prop.
  split_and!; [by rewrite Hn| |done|by apply layout_computed_valid].
  apply Forall_forall. intros f Hin%list_elem_of_In. by rewrite (proj1 (forallb_forall _ _) Hf f Hin).
Qed.
Lemma itch50_valid : valid_protocol itch50.
Proof.
  pose proof (parse_protocol_spec itch50_text) as Hok. rewrite parse_itch50 in Hok. destruct Hok as [Ht Hn Hf].
  split; [done|done|vm_compute; exact I| |exact itch50_emittable].
  assert (Hchecked : forallb checked (protocol_messages itch50) = true) by (vm_compute; reflexivity).
  rewrite Forall_forall in Hf |- *. intros m Hm. apply checked_valid; [by apply Hf|].
  by apply (proj1 (forallb_forall _ _) Hchecked), list_elem_of_In.
Qed.
