(* ===== verification/ItchDecoder.v ===== *)
(** The ITCH decoders of [src/itch_decoder.cpp]: [ItchDecoder], which reads messages through the
    generated views, and the handwritten [ReferenceItchDecoder]. *)
From S2P Require Import Prelude Types ByteReader ProtocolCompiler GeneratedHeader.
From Stdlib Require Import Strings.Byte.
#[local] Open Scope list_scope.
#[local] Open Scope Z_scope.
Import ByteReader.

(** [bytes[0]] *)
Definition type_of (bytes : list byte) : outcome byte :=
  match vget bytes 0 with Some c => Ret c | None => Undef "bytes[0]: empty span" end.

Definition meta (locate tracking ts : Z) : EventMeta := mkMeta locate tracking ts.

Definition side_from_char (c : byte) : outcome Side :=
  if decide (c = Byte.x42) then Ret Buy
  else if decide (c = Byte.x53) then Ret Sell
  else Throw (DecodeError "invalid ITCH side").

Definition symbol_from_view (s : list byte) : Symbol.t := Symbol.from_padded s.

Definition require_exact (bytes : list byte) (size : Z) (type : byte) : outcome unit :=
  if decide (len bytes ≠ size ∨ bytes = [] ∨ head bytes ≠ Some type)
  then Throw (DecodeError "invalid ITCH message size/type") else Ret tt.

Module ItchDecoder.
Section decoder.
Context `{Header}.

Definition validate (bytes : list byte) : outcome unit :=
  if decide (bytes = []) then Throw (DecodeError "empty ITCH message")
  else
    type ← type_of bytes;
    match message_size type with
    | None => Throw (DecodeError "unsupported ITCH message type")
    | Some expected =>
        if decide (len bytes ≠ expected) then Throw (DecodeError "ITCH message length mismatch") else Ret tt
    end.

Definition message_name (bytes : list byte) : outcome (list byte) :=
  if decide (bytes = []) then Ret (bs "Empty") else type ← type_of bytes; Ret (type_name type).

Definition view_meta (v : View) : outcome EventMeta :=
  locate ← get_uint v (bs "stock_locate");
  tracking ← get_uint v (bs "tracking_number");
  ts ← get_uint v (bs "timestamp");
  Ret (meta locate tracking ts).

(** [AddEvent{meta(...), Order{...}}], written out for both of the add messages. *)
Definition view_add (v : View) : outcome (option MarketEvent) :=
  m ← view_meta v;
  id ← get_uint v (bs "order_reference");
  stock ← get_ascii v (bs "stock");
  c ← get_char v (bs "side");
  side ← side_from_char c;
  shares ← get_uint v (bs "shares");
  price ← get_uint v (bs "price");
  Ret (Some (Add (mkAdd m (mkOrder id (symbol_from_view stock) side shares price)))).

Definition decode_book_event (bytes : list byte) : outcome (option MarketEvent) :=
  validate bytes;;
  type ← type_of bytes;
  if decide (type = Byte.x41) then (* A *)
    v ← make_view (bs "AddOrder") bytes; view_add v
  else if decide (type = Byte.x46) then (* F *)
    v ← make_view (bs "AddOrderWithMpid") bytes; view_add v
  else if decide (type = Byte.x45) then (* E *)
    v ← make_view (bs "OrderExecuted") bytes;
    m ← view_meta v;
    id ← get_uint v (bs "order_reference");
    shares ← get_uint v (bs "executed_shares");
    match_number ← get_uint v (bs "match_number");
    Ret (Some (Execute (mkExecute m id shares match_number false 0 true)))
  else if decide (type = Byte.x43) then (* C *)
    v ← make_view (bs "OrderExecutedWithPrice") bytes;
    m ← view_meta v;
    id ← get_uint v (bs "order_reference");
    shares ← get_uint v (bs "executed_shares");
    match_number ← get_uint v (bs "match_number");
    price ← get_uint v (bs "execution_price");
    printable ← get_char v (bs "printable");
    Ret (Some (Execute (mkExecute m id shares match_number true price (bool_decide (printable = Byte.x59)))))
  else if decide (type = Byte.x58) then (* X *)
    v ← make_view (bs "OrderCancel") bytes;
    m ← view_meta v;
    id ← get_uint v (bs "order_reference");
    shares ← get_uint v (bs "canceled_shares");
    Ret (Some (Cancel (mkCancel m id shares)))
  else if decide (type = Byte.x44) then (* D *)
    v ← make_view (bs "OrderDelete") bytes;
    m ← view_meta v;
    id ← get_uint v (bs "order_reference");
    Ret (Some (Delete (mkDelete m id)))
  else if decide (type = Byte.x55) then (* U *)
    v ← make_view (bs "OrderReplace") bytes;
    m ← view_meta v;
    old ← get_uint v (bs "original_order_reference");
    new ← get_uint v (bs "new_order_reference");
    shares ← get_uint v (bs "shares");
    price ← get_uint v (bs "price");
    Ret (Some (Replace (mkReplace m old new shares price)))
  else Ret None.
End decoder.
End ItchDecoder.

Module ReferenceItchDecoder.

(** The lambda [m]. *)
Definition m (b : list byte) : outcome EventMeta :=
  locate ← read_u16_be b 1;
  tracking ← read_u16_be b 3;
  ts ← read_u48_be b 5;
  Ret (mkMeta locate tracking ts).

(** [AddEvent{m(), Order{...}}] *)
Definition add (b : list byte) : outcome (option MarketEvent) :=
  meta ← m b;
  id ← read_u64_be b 11;
  stock ← read_ascii_view b 24 8;
  c ← read_char b 19;
  side ← side_from_char c;
  shares ← read_u32_be b 20;
  price ← read_u32_be b 32;
  Ret (Some (Add (mkAdd meta (mkOrder id (Symbol.from_padded stock) side shares price)))).

Definition decode_book_event (b : list byte) : outcome (option MarketEvent) :=
  if decide (b = []) then Throw (DecodeError "empty ITCH message")
  else
    t ← type_of b;
    if decide (t = Byte.x41) then require_exact b 36 Byte.x41;; add b
    else if decide (t = Byte.x46) then require_exact b 40 Byte.x46;; add b
    else if decide (t = Byte.x45) then
      require_exact b 31 Byte.x45;;
      meta ← m b;
      id ← read_u64_be b 11;
      shares ← read_u32_be b 19;
      match_number ← read_u64_be b 23;
      Ret (Some (Execute (mkExecute meta id shares match_number false 0 true)))
    else if decide (t = Byte.x43) then
      require_exact b 36 Byte.x43;;
      meta ← m b;
      id ← read_u64_be b 11;
      shares ← read_u32_be b 19;
      match_number ← read_u64_be b 23;
      price ← read_u32_be b 32;
      printable ← read_char b 31;
      Ret (Some (Execute (mkExecute meta id shares match_number true price (bool_decide (printable = Byte.x59)))))
    else if decide (t = Byte.x58) then
      require_exact b 23 Byte.x58;;
      meta ← m b;
      id ← read_u64_be b 11;
      shares ← read_u32_be b 19;
      Ret (Some (Cancel (mkCancel meta id shares)))
    else if decide (t = Byte.x44) then
      require_exact b 19 Byte.x44;;
      meta ← m b;
      id ← read_u64_be b 11;
      Ret (Some (Delete (mkDelete meta id)))
    else if decide (t = Byte.x55) then
      require_exact b 35 Byte.x55;;
      meta ← m b;
      old ← read_u64_be b 11;
      new ← read_u64_be b 19;
      shares ← read_u32_be b 27;
      price ← read_u32_be b 31;
      Ret (Some (Replace (mkReplace meta old new shares price)))
    else Ret None.
End ReferenceItchDecoder.

(** What a template over the class of the decoder uses of it. *)
Record BookDecoder : Type := mkDecoder { decode : list byte → outcome (option MarketEvent) }.
Definition generated_decoder `{Header} : BookDecoder := mkDecoder ItchDecoder.decode_book_event.
Definition reference_decoder : BookDecoder := mkDecoder ReferenceItchDecoder.decode_book_event.
