(* ===== verification/ItchProofs.v ===== *)
(** The decoders are correct: the production decoder agrees with the handwritten one, and both
    are the exact inverse of the wire format of the book messages. *)
From S2P Require Import Prelude Types ByteReader ProtocolCompiler Itch50Schema ProtocolProofs GeneratedHeader ItchDecoder.
From Stdlib Require Import Strings.Byte.
#[local] Open Scope list_scope.
#[local] Open Scope Z_scope.
Import ByteReader Protocolc.

(** * The generated views of the book messages *)

Definition message_of (c : byte) : Message := default (mkMessage [] c [] 0) (find_message itch50 c).

(** The lengths of the messages that change the book. *)
Definition book_size (c : byte) : option Z :=
  if decide (c = Byte.x41) then Some 36
  else if decide (c = Byte.x46) then Some 40
  else if decide (c = Byte.x45) then Some 31
  else if decide (c = Byte.x43) then Some 36
  else if decide (c = Byte.x58) then Some 23
  else if decide (c = Byte.x44) then Some 19
  else if decide (c = Byte.x55) then Some 35
  else None.

Section generated.
Context `{HG : !GeneratedFrom itch50 H}.

Lemma open_view c name bytes n :
  message_name (message_of c) = name → size (message_of c) = n → message_type (message_of c) = c →
  find_class itch50 name = Some (message_of c) →
  len bytes = n → head bytes = Some c →
  ∃ v, make_view name bytes = Ret v ∧
    ∀ name' f, find_field (message_of c) name' = Some f →
      (∀ read, uint_reader (field_type f) = Some read → get_uint v name' = read bytes (offset f)) ∧
      (field_type f = bs "char" → get_char v name' = read_char bytes (offset f)) ∧
      (field_type f = bs "ascii" → get_ascii v name' = read_ascii_view bytes (offset f) (width f)).
Proof.
  intros <- Hn Hc Hf Hl Hh. apply (make_view_accepts (message_of c) bytes); congruence.
Qed.
End generated.

Lemma reader_u16 : uint_reader (bs "u16_be") = Some read_u16_be.
Proof. reflexivity. Qed.
Lemma reader_u32 : uint_reader (bs "u32_be") = Some read_u32_be.
Proof. reflexivity. Qed.
Lemma reader_price4 : uint_reader (bs "price4") = Some read_u32_be.
Proof. reflexivity. Qed.
Lemma reader_u48 : uint_reader (bs "u48_be") = Some read_u48_be.
Proof. reflexivity. Qed.
Lemma reader_u64 : uint_reader (bs "u64_be") = Some read_u64_be.
Proof. reflexivity. Qed.

(** Open the view in the goal, and resolve its accessors to the reads behind them. *)
Ltac find_view c name Hl Hh v :=
  let Hv := fresh in let Hacc := fresh "Hacc" in
  destruct (open_view c (bs name) _ _ ltac:(vm_compute; reflexivity) ltac:(vm_compute; reflexivity)
    ltac:(vm_compute; reflexivity) ltac:(vm_compute; reflexivity) Hl Hh) as (v & Hv & Hacc);
  rewrite Hv; clear Hv; cbn [mbind outcome_bind].
Ltac field_of c name :=
  let o := eval vm_compute in (find_field (message_of c) name) in
  match o with Some ?f => f end.
Ltac accessor c Hacc name f := constr:(Hacc name f ltac:(vm_compute; reflexivity)).
Ltac resolve c Hacc :=
  repeat match goal with
  | |- context [get_uint _ ?name] =>
      let f := field_of c name in let a := accessor c Hacc name f in
      first [ rewrite (proj1 a _ reader_u16) | rewrite (proj1 a _ reader_u32) | rewrite (proj1 a _ reader_u48)
            | rewrite (proj1 a _ reader_u64) | rewrite (proj1 a _ reader_price4) ]
  | |- context [get_char _ ?name] =>
      let f := field_of c name in let a := accessor c Hacc name f in
      rewrite (proj1 (proj2 a) eq_refl)
  | |- context [get_ascii _ ?name] =>
      let f := field_of c name in let a := accessor c Hacc name f in
      rewrite (proj2 (proj2 a) eq_refl)
  end; cbn [offset width].

(** * The decoders agree *)

(** A call succeeds with the same value, or both throw a [DecodeError]. *)
Definition same_result {A} (o1 o2 : outcome A) : Prop :=
  o1 = o2 ∨ ∃ what1 what2, o1 = Throw (DecodeError what1) ∧ o2 = Throw (DecodeError what2).

Lemma type_of_cons c bytes : type_of (c :: bytes) = Ret c.
Proof. done. Qed.
Lemma require_exact_true bytes n c :
  len bytes = n → head bytes = Some c → require_exact bytes n c = Ret tt.
Proof. intros. unfold require_exact. rewrite decide_False; [done|]. destruct bytes; naive_solver. Qed.
Lemma require_exact_false bytes n c :
  len bytes ≠ n → require_exact bytes n c = Throw (DecodeError "invalid ITCH message size/type").
Proof. intros. unfold require_exact. by rewrite decide_True by (by left). Qed.

Ltac byte_cases :=
  repeat first [ rewrite decide_True by reflexivity | rewrite (decide_False (P := _ = _)) by discriminate ].

(** The seven types, one by one. *)
Lemma book_size_cases c n :
  book_size c = Some n →
  c = Byte.x41 ∧ n = 36 ∨ c = Byte.x46 ∧ n = 40 ∨ c = Byte.x45 ∧ n = 31 ∨ c = Byte.x43 ∧ n = 36 ∨
  c = Byte.x58 ∧ n = 23 ∨ c = Byte.x44 ∧ n = 19 ∨ c = Byte.x55 ∧ n = 35.
Proof. unfold book_size. repeat case_decide; intros [= <-]; naive_solver. Qed.

Section agree.
Context `{HG : !GeneratedFrom itch50 H}.

Lemma book_message_size c n : book_size c = Some n → message_size c = Some n.
Proof.
  rewrite message_size_law. intros Hc. apply book_size_cases in Hc.
  destruct_or! Hc; destruct Hc as [-> ->]; vm_compute; reflexivity.
Qed.

Lemma validate_ok c n bytes :
  message_size c = Some n → len bytes = n → head bytes = Some c → ItchDecoder.validate bytes = Ret tt.
Proof.
  intros Hc Hl Hh. destruct bytes as [|? bytes]; [done|]. injection Hh as ->.
  unfold ItchDecoder.validate. rewrite decide_False, type_of_cons by done. cbn [mbind outcome_bind].
  by rewrite Hc, decide_False by (intros ?; congruence).
Qed.

(** On a book message of the right length the decoders make the same reads. *)
Lemma decoders_make_the_same_reads c n bytes :
  book_size c = Some n → len bytes = n → head bytes = Some c →
  ItchDecoder.decode_book_event bytes = ReferenceItchDecoder.decode_book_event bytes.
Proof.
  intros Hc Hl Hh. unfold ItchDecoder.decode_book_event, ReferenceItchDecoder.decode_book_event.
  rewrite (validate_ok c n) by (eauto using book_message_size).
  rewrite decide_False by (intros ->; done).
  assert (type_of bytes = Ret c) as -> by (destruct bytes; [done|by injection Hh as ->]).
  cbn [mbind outcome_bind]. apply book_size_cases in Hc.
  destruct_or! Hc; destruct Hc as [-> Hn]; rewrite Hn in Hl; clear Hn n;
    byte_cases; rewrite (require_exact_true _ _ _ Hl Hh); cbn [mbind outcome_bind].
  - find_view Byte.x41 "AddOrder" Hl Hh v. unfold ItchDecoder.view_add, ItchDecoder.view_meta.
    by resolve Byte.x41 Hacc.
  - find_view Byte.x46 "AddOrderWithMpid" Hl Hh v. unfold ItchDecoder.view_add, ItchDecoder.view_meta.
    by resolve Byte.x46 Hacc.
  - find_view Byte.x45 "OrderExecuted" Hl Hh v. unfold ItchDecoder.view_meta. by resolve Byte.x45 Hacc.
  - find_view Byte.x43 "OrderExecutedWithPrice" Hl Hh v. unfold ItchDecoder.view_meta. by resolve Byte.x43 Hacc.
  - find_view Byte.x58 "OrderCancel" Hl Hh v. unfold ItchDecoder.view_meta. by resolve Byte.x58 Hacc.
  - find_view Byte.x44 "OrderDelete" Hl Hh v. unfold ItchDecoder.view_meta. by resolve Byte.x44 Hacc.
  - find_view Byte.x55 "OrderReplace" Hl Hh v. unfold ItchDecoder.view_meta. by resolve Byte.x55 Hacc.
Qed.

Lemma decode_wrong_length c n bytes :
  book_size c = Some n → len bytes ≠ n → head bytes = Some c →
  ItchDecoder.decode_book_event bytes = Throw (DecodeError "ITCH message length mismatch").
Proof.
  intros Hc Hl Hh. destruct bytes as [|? bytes]; [done|]. injection Hh as ->.
  unfold ItchDecoder.decode_book_event, ItchDecoder.validate.
  rewrite decide_False, type_of_cons by done. cbn [mbind outcome_bind].
  by rewrite (book_message_size c n Hc), (decide_True (P := len (c :: bytes) ≠ n)) by done.
Qed.
Lemma reference_wrong_length c n bytes :
  book_size c = Some n → len bytes ≠ n → head bytes = Some c →
  ReferenceItchDecoder.decode_book_event bytes = Throw (DecodeError "invalid ITCH message size/type").
Proof.
  intros Hc Hl Hh. destruct bytes as [|? bytes]; [done|]. injection Hh as ->.
  unfold ReferenceItchDecoder.decode_book_event.
  rewrite decide_False, type_of_cons by done. cbn [mbind outcome_bind].
  apply book_size_cases in Hc. destruct_or! Hc; destruct Hc as [-> Hn]; rewrite Hn in Hl; byte_cases;
    by rewrite require_exact_false.
Qed.

(** The other types do not touch the book. *)
Ltac not_book Hc :=
  unfold book_size in Hc; repeat (case_decide; [discriminate Hc|]);
  repeat rewrite (decide_False (P := _ = _)) by assumption.
Lemma decode_not_book c bytes :
  book_size c = None → head bytes = Some c →
  ItchDecoder.decode_book_event bytes = (ItchDecoder.validate bytes;; Ret None).
Proof.
  intros Hc Hh. destruct bytes as [|? bytes]; [done|]. injection Hh as ->.
  unfold ItchDecoder.decode_book_event. rewrite type_of_cons.
  destruct (ItchDecoder.validate _); try done. cbn [mbind outcome_bind]. by not_book Hc.
Qed.
Lemma reference_not_book c bytes :
  book_size c = None → head bytes = Some c → ReferenceItchDecoder.decode_book_event bytes = Ret None.
Proof.
  intros Hc Hh. destruct bytes as [|? bytes]; [done|]. injection Hh as ->.
  unfold ReferenceItchDecoder.decode_book_event. rewrite type_of_cons, decide_False by done.
  cbn [mbind outcome_bind]. by not_book Hc.
Qed.
End agree.

(** * The wire format *)

Definition meta_bytes (m : EventMeta) : list byte :=
  be_bytes 2 (stock_locate m) ++ be_bytes 2 (tracking_number m) ++ be_bytes 6 (timestamp_ns m).
Definition side_byte (s : Side) : byte := match s with Buy => Byte.x42 | Sell => Byte.x53 end.
Definition add_bytes (m : EventMeta) (o : Order) : list byte :=
  meta_bytes m ++ be_bytes 8 (id o) ++ [side_byte (side o)] ++ be_bytes 4 (quantity o) ++
  Symbol.bytes (symbol o) ++ be_bytes 4 (price o).

(** [wire e bs]: the bytes [bs] are a message for [e].  The event drops the four bytes of
    attribution of an [F] message, and all of the printable flag of a [C] message but whether it
    is a [Y]. *)
Inductive wire : MarketEvent → list byte → Prop :=
| wire_add m o : wire (Add (mkAdd m o)) (Byte.x41 :: add_bytes m o)
| wire_add_mpid m o attribution : length attribution = 4%nat →
    wire (Add (mkAdd m o)) (Byte.x46 :: add_bytes m o ++ attribution)
| wire_execute m i q n :
    wire (Execute (mkExecute m i q n false 0 true))
      (Byte.x45 :: meta_bytes m ++ be_bytes 8 i ++ be_bytes 4 q ++ be_bytes 8 n)
| wire_execute_price m i q n p printable :
    wire (Execute (mkExecute m i q n true p (bool_decide (printable = Byte.x59))))
      (Byte.x43 :: meta_bytes m ++ be_bytes 8 i ++ be_bytes 4 q ++ be_bytes 8 n ++ [printable] ++ be_bytes 4 p)
| wire_cancel m i q :
    wire (Cancel (mkCancel m i q)) (Byte.x58 :: meta_bytes m ++ be_bytes 8 i ++ be_bytes 4 q)
| wire_delete m i :
    wire (Delete (mkDelete m i)) (Byte.x44 :: meta_bytes m ++ be_bytes 8 i)
| wire_replace m old new q p :
    wire (Replace (mkReplace m old new q p))
      (Byte.x55 :: meta_bytes m ++ be_bytes 8 old ++ be_bytes 8 new ++ be_bytes 4 q ++ be_bytes 4 p).

(** The numbers of an event fit their fields. *)
Definition fits (n : nat) (v : Z) : Prop := 0 ≤ v < 256 ^ Z.of_nat n.
Definition meta_fits (m : EventMeta) : Prop :=
  fits 2 (stock_locate m) ∧ fits 2 (tracking_number m) ∧ fits 6 (timestamp_ns m).
Definition event_fits (e : MarketEvent) : Prop :=
  match e with
  | Add (mkAdd m o) =>
      meta_fits m ∧ fits 8 (id o) ∧ fits 4 (quantity o) ∧ fits 4 (price o) ∧
      length (Symbol.bytes (symbol o)) = 8%nat
  | Execute e =>
      meta_fits (exec_meta e) ∧ fits 8 (exec_order_id e) ∧ fits 4 (executed_shares e) ∧
      fits 8 (match_number e) ∧ fits 4 (execution_price e)
  | Cancel (mkCancel m i q) => meta_fits m ∧ fits 8 i ∧ fits 4 q
  | Delete (mkDelete m i) => meta_fits m ∧ fits 8 i
  | Replace (mkReplace m old new q p) => meta_fits m ∧ fits 8 old ∧ fits 8 new ∧ fits 4 q ∧ fits 4 p
  end.

(** ** Reads of a buffer that is long enough *)

Definition val (bytes : list byte) (o : Z) (n : nat) : Z := be_value (slice bytes o (Z.of_nat n)).
Definition char_at (bytes : list byte) (o : Z) : byte := default Byte.x00 (vget bytes o).

Lemma reads_val bytes o n :
  o + Z.of_nat n ≤ len bytes → reads bytes o (Z.of_nat n) = Ret (val bytes o n).
Proof. intros. unfold reads. by rewrite decide_True by lia. Qed.
Lemma read_u16_val bytes o : 0 ≤ o → o + 2 ≤ len bytes → read_u16_be bytes o = Ret (val bytes o 2).
Proof. intros. rewrite read_u16_be_spec by done. by apply (reads_val _ _ 2). Qed.
Lemma read_u32_val bytes o : 0 ≤ o → o + 4 ≤ len bytes → read_u32_be bytes o = Ret (val bytes o 4).
Proof. intros. rewrite read_u32_be_spec by done. by apply (reads_val _ _ 4). Qed.
Lemma read_u48_val bytes o : 0 ≤ o → o + 6 ≤ len bytes → read_u48_be bytes o = Ret (val bytes o 6).
Proof. intros. rewrite read_u48_be_spec by done. by apply (reads_val _ _ 6). Qed.
Lemma read_u64_val bytes o : 0 ≤ o → o + 8 ≤ len bytes → read_u64_be bytes o = Ret (val bytes o 8).
Proof. intros. rewrite read_u64_be_spec by done. by apply (reads_val _ _ 8). Qed.
Lemma read_char_val bytes o : 0 ≤ o → o + 1 ≤ len bytes → read_char bytes o = Ret (char_at bytes o).
Proof.
  intros. unfold read_char, read_u8, char_at. rewrite require_bytes_spec, decide_True by lia.
  destruct (vget_is_Some bytes o) as [b Hb]; [lia|]. cbn [mbind outcome_bind].
  rewrite (byte_at_Some _ _ _ Hb), Hb. cbn. by rewrite byte_of_Z_of_byte.
Qed.
Lemma read_ascii_val bytes o w :
  0 ≤ o → 0 ≤ w → o + w ≤ len bytes → read_ascii_view bytes o w = Ret (slice bytes o w).
Proof.
  intros. unfold read_ascii_view. rewrite require_bytes_spec, decide_True by lia. by apply copy_range_in.
Qed.

Lemma val_fits bytes o n : 0 ≤ o → o + Z.of_nat n ≤ len bytes → fits n (val bytes o n).
Proof.
  intros. unfold fits, val. pose proof (be_value_bound (slice bytes o (Z.of_nat n))) as Hb.
  by rewrite length_slice in Hb by lia.
Qed.
Lemma be_bytes_val bytes o n :
  0 ≤ o → o + Z.of_nat n ≤ len bytes → be_bytes n (val bytes o n) = slice bytes o (Z.of_nat n).
Proof.
  intros. rewrite <-(be_bytes_value (slice bytes o (Z.of_nat n))). unfold val. f_equal.
  pose proof (length_slice bytes o (Z.of_nat n)). lia.
Qed.
Lemma val_be bytes o n v : slice bytes o (Z.of_nat n) = be_bytes n v → fits n v → val bytes o n = v.
Proof. intros Hs Hv. unfold val. by rewrite Hs, be_value_bytes, Z.mod_small. Qed.
Lemma side_byte_inj s c : side_from_char c = Ret s → c = side_byte s.
Proof. unfold side_from_char. repeat case_decide; by intros [= <-]. Qed.

Lemma from_padded_8 s : length s = 8%nat → Symbol.from_padded s = Symbol.mk s.
Proof.
  intros Hs. unfold Symbol.from_padded, Symbol.width. rewrite Hs. cbn [Nat.min Nat.sub replicate].
  by rewrite app_nil_r, take_ge by lia.
Qed.
Lemma side_of_byte s : side_from_char (side_byte s) = Ret s.
Proof. by destruct s. Qed.

(** What is decoded from a buffer of the right length. *)
Definition meta_val (bytes : list byte) : EventMeta := mkMeta (val bytes 1 2) (val bytes 3 2) (val bytes 5 6).
Definition decoded (c : byte) (bytes : list byte) : outcome (option MarketEvent) :=
  let m := meta_val bytes in
  let i := val bytes 11 8 in
  if decide (c = Byte.x41 ∨ c = Byte.x46) then
    side ← side_from_char (char_at bytes 19);
    Ret (Some (Add (mkAdd m (mkOrder i (Symbol.mk (slice bytes 24 8)) side (val bytes 20 4) (val bytes 32 4)))))
  else if decide (c = Byte.x45) then
    Ret (Some (Execute (mkExecute m i (val bytes 19 4) (val bytes 23 8) false 0 true)))
  else if decide (c = Byte.x43) then
    Ret (Some (Execute (mkExecute m i (val bytes 19 4) (val bytes 23 8) true (val bytes 32 4)
                          (bool_decide (char_at bytes 31 = Byte.x59)))))
  else if decide (c = Byte.x58) then Ret (Some (Cancel (mkCancel m i (val bytes 19 4))))
  else if decide (c = Byte.x44) then Ret (Some (Delete (mkDelete m i)))
  else Ret (Some (Replace (mkReplace m i (val bytes 19 8) (val bytes 27 4) (val bytes 31 4)))).

Ltac read_all :=
  repeat first [ rewrite read_u16_val by lia | rewrite read_u32_val by lia | rewrite read_u48_val by lia
               | rewrite read_u64_val by lia | rewrite read_char_val by lia | rewrite read_ascii_val by lia
               | progress cbn [mbind outcome_bind] ].

Lemma reference_decodes c n bytes :
  book_size c = Some n → len bytes = n → head bytes = Some c →
  ReferenceItchDecoder.decode_book_event bytes = decoded c bytes.
Proof.
  intros Hc Hl Hh. unfold ReferenceItchDecoder.decode_book_event.
  rewrite decide_False by (intros ->; done).
  assert (type_of bytes = Ret c) as -> by (destruct bytes; [done|by injection Hh as ->]).
  cbn [mbind outcome_bind]. unfold decoded. apply book_size_cases in Hc.
  destruct_or! Hc; destruct Hc as [-> Hn]; rewrite Hn in Hl; clear Hn n;
    byte_cases; rewrite (require_exact_true _ _ _ Hl Hh); cbn [mbind outcome_bind];
    unfold ReferenceItchDecoder.add, ReferenceItchDecoder.m; read_all; try reflexivity.
  all: rewrite from_padded_8 by (pose proof (length_slice bytes 24 8); lia); reflexivity.
Qed.

(** ** Decoding inverts the wire format *)

Lemma wire_eq e bytes bytes' : wire e bytes → bytes = bytes' → wire e bytes'.
Proof. by intros ? <-. Qed.

Ltac not_add :=
  unfold decoded; rewrite (decide_False (P := _ ∨ _)) by (intros [?|?]; discriminate); byte_cases.

Lemma decoded_shape c bytes :
  match decoded c bytes with Ret (Some _) | Throw (DecodeError _) => True | _ => False end.
Proof. unfold decoded, side_from_char. by repeat case_decide. Qed.

Lemma decoded_fits c n bytes e :
  book_size c = Some n → len bytes = n → decoded c bytes = Ret (Some e) → event_fits e.
Proof.
  intros Hc Hl. apply book_size_cases in Hc. unfold decoded.
  assert (Hfit : ∀ o k, 0 ≤ o → o + Z.of_nat k ≤ len bytes → fits k (val bytes o k)) by apply val_fits.
  destruct_or! Hc; destruct Hc as [-> Hn]; rewrite Hn in Hl; byte_cases.
  1,2: rewrite decide_True by tauto; destruct (side_from_char _) as [sd| | |]; try discriminate.
  3-7: not_add.
  all: intros [= <-]; cbn; unfold meta_fits; split_and!; try (apply Hfit; lia); try done.
  all: pose proof (length_slice bytes 24 8); lia.
Qed.

Lemma add_bytes_val bytes sd :
  36 ≤ len bytes → side_from_char (char_at bytes 19) = Ret sd →
  add_bytes (meta_val bytes) (mkOrder (val bytes 11 8) (Symbol.mk (slice bytes 24 8)) sd (val bytes 20 4) (val bytes 32 4))
  = slice bytes 1 35.
Proof.
  intros Hl Hs. unfold add_bytes, meta_bytes, meta_val. cbn [stock_locate tracking_number timestamp_ns id side quantity symbol price Symbol.bytes].
  rewrite !be_bytes_val by lia. rewrite <-(side_byte_inj _ _ Hs). clear Hs.
  do 36 (destruct bytes as [|? bytes]; [exfalso; cbn [length] in Hl; lia|]). reflexivity.
Qed.
Lemma head_slice c bytes : len bytes = 36 → head bytes = Some c → c :: slice bytes 1 35 = bytes.
Proof. intros Hl Hh. destruct bytes as [|? bytes]; [done|]. injection Hh as ->. cbn. f_equal. apply take_ge. cbn in Hl. lia. Qed.
Lemma head_slices c bytes :
  len bytes = 40 → head bytes = Some c → c :: slice bytes 1 35 ++ slice bytes 36 4 = bytes.
Proof.
  intros Hl Hh. do 40 (destruct bytes as [|? bytes]; [exfalso; cbn [length] in Hl; lia|]).
  destruct bytes; [|exfalso; cbn [length] in Hl; lia]. injection Hh as ->. reflexivity.
Qed.

(** The fields cut out of a message of known length make up the message. *)
Tactic Notation "same_bytes" integer(n) ident(bytes) ident(Hl) ident(Hh) :=
  unfold meta_bytes, meta_val; cbn [stock_locate tracking_number timestamp_ns];
  rewrite !be_bytes_val by lia;
  do n (destruct bytes as [|? bytes]; [exfalso; cbn [length] in Hl; lia|]);
  destruct bytes; [injection Hh as ->; reflexivity|exfalso; cbn [length] in Hl; lia].

Lemma decoded_wire c n bytes e :
  book_size c = Some n → len bytes = n → head bytes = Some c → decoded c bytes = Ret (Some e) → wire e bytes.
Proof.
  intros Hc Hl Hh. apply book_size_cases in Hc. unfold decoded.
  destruct_or! Hc; destruct Hc as [-> Hn]; rewrite Hn in Hl; byte_cases.
  1,2: rewrite decide_True by tauto; destruct (side_from_char _) as [sd| | |] eqn:Hs; try discriminate.
  3-7: not_add.
  all: intros [= <-].
  - eapply wire_eq; [apply wire_add|]. rewrite add_bytes_val by (done || lia). by apply head_slice.
  - eapply wire_eq; [apply (wire_add_mpid _ _ (slice bytes 36 4)); pose proof (length_slice bytes 36 4); lia|].
    rewrite add_bytes_val by (done || lia). by apply head_slices.
  - eapply wire_eq; [apply wire_execute|]. same_bytes 31 bytes Hl Hh.
  - eapply wire_eq; [apply wire_execute_price|]. same_bytes 36 bytes Hl Hh.
  - eapply wire_eq; [apply wire_cancel|]. same_bytes 23 bytes Hl Hh.
  - eapply wire_eq; [apply wire_delete|]. same_bytes 19 bytes Hl Hh.
  - eapply wire_eq; [apply wire_replace|]. same_bytes 35 bytes Hl Hh.
Qed.

Ltac field_is o n v H := rewrite (val_be _ o n v) by first [exact H | exact eq_refl].

Lemma meta_val_wire c m rest : meta_fits m → meta_val (c :: meta_bytes m ++ rest) = m.
Proof.
  destruct m as [l t ts]. intros (Hl & Ht & Hts). unfold meta_val. cbn in Hl, Ht, Hts.
  field_is 1 2%nat l Hl. field_is 3 2%nat t Ht. by field_is 5 6%nat ts Hts.
Qed.

Lemma add_decoded c m o rest :
  c = Byte.x41 ∨ c = Byte.x46 → event_fits (Add (mkAdd m o)) →
  decoded c (c :: add_bytes m o ++ rest) = Ret (Some (Add (mkAdd m o))).
Proof.
  intros Hc (Hm & Hi & Hq & Hp & Hs). unfold decoded. rewrite decide_True by done.
  unfold add_bytes. rewrite <-app_assoc, (meta_val_wire c m) by done.
  destruct o as [i [sym] sd q p]. cbn [id symbol side quantity price Symbol.bytes] in *.
  do 8 (destruct sym as [|? sym]; [discriminate Hs|]). destruct sym; [|discriminate Hs].
  change (char_at _ 19) with (side_byte sd). rewrite side_of_byte. cbn [mbind outcome_bind].
  field_is 11 8%nat i Hi. field_is 20 4%nat q Hq. by field_is 32 4%nat p Hp.
Qed.

Lemma len_meta m : len (meta_bytes m) = 10.
Proof. done. Qed.
Lemma len_add_bytes m o : length (Symbol.bytes (symbol o)) = 8%nat → len (add_bytes m o) = 35.
Proof.
  intros Hs. unfold add_bytes. rewrite !length_app, !length_be_bytes, Hs. done.
Qed.

Lemma wire_decoded e bytes :
  wire e bytes → event_fits e →
  ∃ c n, book_size c = Some n ∧ len bytes = n ∧ head bytes = Some c ∧ decoded c bytes = Ret (Some e).
Proof.
  intros Hw Hf. destruct Hw as [m o|m o attr Hattr|m i q n|m i q n p fl|m i q|m i|m old new q p].
  - exists Byte.x41, 36. split_and!; [done| |done|].
    + destruct Hf as (_ & _ & _ & _ & Hs). pose proof (len_add_bytes m o Hs). cbn [length]. lia.
    + rewrite <-(app_nil_r (add_bytes m o)). apply add_decoded; [by left|done].
  - exists Byte.x46, 40. split_and!; [done| |done|].
    + destruct Hf as (_ & _ & _ & _ & Hs). pose proof (len_add_bytes m o Hs). cbn [length].
      rewrite length_app. lia.
    + apply add_decoded; [by right|done].
  - destruct Hf as (Hm & Hi & Hq & Hn & _). cbn in Hm, Hi, Hq, Hn. exists Byte.x45, 31. split_and!; [done..|].
    not_add.
    rewrite (meta_val_wire _ m) by done. field_is 11 8%nat i Hi. field_is 19 4%nat q Hq. by field_is 23 8%nat n Hn.
  - destruct Hf as (Hm & Hi & Hq & Hn & Hp). cbn in Hm, Hi, Hq, Hn, Hp. exists Byte.x43, 36. split_and!; [done..|].
    not_add.
    rewrite (meta_val_wire _ m) by done. field_is 11 8%nat i Hi. field_is 19 4%nat q Hq. field_is 23 8%nat n Hn.
    by field_is 32 4%nat p Hp.
  - destruct Hf as (Hm & Hi & Hq). exists Byte.x58, 23. split_and!; [done..|].
    not_add.
    rewrite (meta_val_wire _ m) by done.
    field_is 11 8%nat i Hi. by field_is 19 4%nat q Hq.
  - destruct Hf as (Hm & Hi). exists Byte.x44, 19. split_and!; [done..|].
    not_add.
    rewrite (meta_val_wire _ m) by done. by field_is 11 8%nat i Hi.
  - destruct Hf as (Hm & Hi & Hj & Hq & Hp). exists Byte.x55, 35. split_and!; [done..|].
    not_add.
    rewrite (meta_val_wire _ m) by done. field_is 11 8%nat old Hi. field_is 19 8%nat new Hj.
    field_is 27 4%nat q Hq. by field_is 31 4%nat p Hp.
Qed.

Lemma find_message_spec p c m :
  protocol_ok p → find_message p c = Some m ↔ m ∈ protocol_messages p ∧ message_type m = c.
Proof.
  intros [Hn _ _]. unfold find_message. induction (protocol_messages p) as [|m0 ms IH]; cbn.
  { split; [done|]. by intros [?%not_elem_of_nil _]. }
  apply NoDup_cons in Hn as [Hm0 Hn]. specialize (IH Hn). rewrite elem_of_cons. case_bool_decide as Hc.
  - split; [intros [= <-]; by eauto|]. intros [[->|Hm] Hm']; [done|]. destruct Hm0.
    apply list_elem_of_fmap. exists m. split; congruence.
  - rewrite IH. naive_solver.
Qed.
Lemma itch50_ok : protocol_ok itch50.
Proof. pose proof (parse_protocol_spec itch50_text) as H. by rewrite parse_itch50 in H. Qed.

Section correct.
Context `{HG : !GeneratedFrom itch50 H}.

Lemma decode_book c n bytes :
  book_size c = Some n → len bytes = n → head bytes = Some c →
  ItchDecoder.decode_book_event bytes = decoded c bytes.
Proof. intros. erewrite decoders_make_the_same_reads by done. by eapply reference_decodes. Qed.

(** A decoded event comes from a book message of the right length. *)
Lemma decode_Some_inv bytes e :
  ItchDecoder.decode_book_event bytes = Ret (Some e) →
  ∃ c n, book_size c = Some n ∧ len bytes = n ∧ head bytes = Some c ∧ decoded c bytes = Ret (Some e).
Proof.
  intros Hd. destruct bytes as [|c rest]; [done|]. destruct (book_size c) as [n|] eqn:Hc.
  - destruct (decide (len (c :: rest) = n)) as [Hl|Hl].
    + exists c, n. split_and!; [done..|]. by rewrite <-(decode_book c n).
    + by rewrite (decode_wrong_length c n) in Hd.
  - rewrite (decode_not_book c) in Hd by done. by destruct (ItchDecoder.validate _).
Qed.
Lemma decode_wire e bytes :
  event_fits e → wire e bytes → ItchDecoder.decode_book_event bytes = Ret (Some e).
Proof.
  intros Hf Hw. destruct (wire_decoded e bytes Hw Hf) as (c & n & Hc & Hl & Hh & Hd). by rewrite (decode_book c n).
Qed.
(** The decoder returns or throws [DecodeError]. *)
Lemma decode_decodes bytes : decodes (ItchDecoder.decode_book_event bytes).
Proof.
  destruct bytes as [|c rest] eqn:Hbytes; [done|]. rewrite <-Hbytes.
  assert (Hh : head bytes = Some c) by by rewrite Hbytes. destruct (book_size c) as [n|] eqn:Hc.
  - destruct (decide (len bytes = n)); [|by rewrite (decode_wrong_length c n)].
    rewrite (decode_book c n) by done. pose proof (decoded_shape c bytes) as Hshape.
    by destruct (decoded c bytes) as [[?|]|[]|?|].
  - rewrite (decode_not_book c) by done. rewrite Hbytes. unfold ItchDecoder.validate.
    rewrite decide_False, type_of_cons by done. cbn [mbind outcome_bind].
    destruct (message_size c); [|done]. by case_decide.
Qed.

(** A message that is not for the book: what the decoder makes of it is what [validate] makes of it. *)
Lemma decode_other c bytes :
  head bytes = Some c → book_size c = None →
  ItchDecoder.decode_book_event bytes = Ret None ∨
  ∃ what, ItchDecoder.decode_book_event bytes = Throw (DecodeError what).
Proof.
  intros Hh Hc. pose proof (decode_decodes bytes) as Hsafe. revert Hsafe. rewrite (decode_not_book c) by done.
  destruct (ItchDecoder.validate bytes) as [[]|[]|?|]; cbn; try done; [by left|by right; eexists].
Qed.
(** It returns no event exactly for the valid messages of the other types. *)
Lemma decode_None_iff bytes :
  ItchDecoder.decode_book_event bytes = Ret None ↔
  ∃ m, m ∈ protocol_messages itch50 ∧ head bytes = Some (message_type m) ∧
       len bytes = size m ∧ book_size (message_type m) = None.
Proof.
  destruct bytes as [|c rest] eqn:Hbytes; [split; [done|by intros (m & _ & [=] & _)]|]. rewrite <-Hbytes.
  assert (Hh : head bytes = Some c) by by rewrite Hbytes.
  destruct (book_size c) as [n|] eqn:Hc.
  { split; [|intros (m & _ & ? & _ & ?); simplify_eq; congruence]. intros Hd.
    destruct (decide (len bytes = n)) as [Hl|Hl]; [|by rewrite (decode_wrong_length c n) in Hd].
    rewrite (decode_book c n) in Hd by done. pose proof (decoded_shape c bytes) as Hshape. by rewrite Hd in Hshape. }
  rewrite (decode_not_book c) by done. unfold ItchDecoder.validate.
  rewrite decide_False, Hbytes, type_of_cons, <-Hbytes by congruence. cbn [mbind outcome_bind].
  rewrite message_size_law. split.
  - destruct (find_message itch50 c) as [m|] eqn:Hm; [|done]. cbn.
    apply (find_message_spec _ _ _ itch50_ok) in Hm as [Hm <-].
    case_decide as Hl; [done|]. intros _. exists m. split_and!; [done..|lia|done].
  - intros (m & Hm & Hc' & Hl & _). assert (find_message itch50 c = Some m) as ->.
    { apply (find_message_spec _ _ _ itch50_ok). split; [done|]. congruence. }
    cbn. by rewrite decide_False by lia.
Qed.
End correct.

Lemma event_fits_ok e : event_fits e → event_ok e.
Proof.
  unfold fits. destruct e as [[m o]|[]|[]|[]|[]]; unfold event_fits, event_ok, order_ok, meta_fits, fits, u64_max, u32_max;
    cbn; intros; destruct_and?; split_and?; lia.
Qed.

(** * Decoders that read the wire format *)

(** What code that is given either decoder may rely on. *)
Class DecodesWire (d : BookDecoder) : Prop :=
  decodes_wire e bytes : event_fits e → wire e bytes → decode d bytes = Ret (Some e).
#[export] Instance generated_decodes_wire `{HG : !GeneratedFrom itch50 H} : DecodesWire generated_decoder.
Proof. intros e bytes. apply decode_wire. Qed.
#[export] Instance reference_decodes_wire : DecodesWire reference_decoder.
Proof.
  intros e bytes Hf Hw. destruct (wire_decoded e bytes Hw Hf) as (c & n & Hc & Hl & Hh & Hd).
  cbn. by rewrite (reference_decodes c n).
Qed.

(** * Examples *)

(** The header of the checked-in schema. *)
Definition itch50_header : Header := Interpret.header itch50.
#[export] Instance itch50_header_generated : GeneratedFrom itch50 itch50_header.
Proof. exact (Interpret.header_generated itch50). Qed.

Definition sample_add : MarketEvent :=
  Add (mkAdd (mkMeta 1 1 1000000) (mkOrder 10 (Symbol.from_string (bs "AAPL")) Buy 100 2000000)).
Definition sample_bytes : list byte :=
  Byte.x41 :: add_bytes (mkMeta 1 1 1000000) (mkOrder 10 (Symbol.from_string (bs "AAPL")) Buy 100 2000000).
Lemma sample_fits : event_fits sample_add.
Proof. decided. Qed.

Lemma decode_Some_iff `{HG : !GeneratedFrom itch50 H} bytes e :
  ItchDecoder.decode_book_event bytes = Ret (Some e) ↔ event_fits e ∧ wire e bytes.
Proof.
  split.
  - intros (c & n & Hc & Hl & Hh & Hd)%decode_Some_inv. eauto using decoded_fits, decoded_wire.
  - intros [Hf Hw]. by apply decode_wire.
Qed.

(** C7: The decoder is the exact inverse of the wire format: a buffer decodes to an event if and
    only if it is a message for that event and the event's numbers fit their fields. *)
Theorem decoder_inverts_wire_format `{HG : !GeneratedFrom itch50 H} bytes e :
  ItchDecoder.decode_book_event bytes = Ret (Some e) ↔ event_fits e ∧ wire e bytes.
Proof. apply decode_Some_iff. Qed.
Lemma decoder_inverts_wire_format_witness :
  GeneratedFrom itch50 itch50_header ∧
  (@ItchDecoder.decode_book_event itch50_header sample_bytes = Ret (Some sample_add) ↔
   event_fits sample_add ∧ wire sample_add sample_bytes).
Proof.
  split; [exact itch50_header_generated|].
  exact (@decoder_inverts_wire_format itch50_header itch50_header_generated sample_bytes sample_add).
Defined.


(** [validate] accepts exactly the buffers whose first byte is the type of a message of the
    schema and whose length is that message's, for every protocol the compiler accepts. *)
Theorem validate_checks_the_schema p `{HG : !GeneratedFrom p H} bytes :
  protocol_ok p →
  ItchDecoder.validate bytes = Ret tt ↔
  ∃ m, m ∈ protocol_messages p ∧ head bytes = Some (message_type m) ∧ len bytes = size m.
Proof.
  intros Hp. unfold ItchDecoder.validate. destruct bytes as [|c rest] eqn:Hbytes.
  { rewrite decide_True by done. split; [done|]. intros (m & _ & ? & _). done. }
  rewrite <-Hbytes. rewrite decide_False, Hbytes, type_of_cons, <-Hbytes by congruence. cbn [mbind outcome_bind].
  assert (Hh : head bytes = Some c) by by rewrite Hbytes. rewrite Hh, message_size_law. split.
  - destruct (find_message p c) as [m|] eqn:Hm; [|done]. cbn. case_decide as Hl; [done|]. intros _.
    apply (find_message_spec _ _ _ Hp) in Hm as [Hm <-]. exists m. by split_and!.
  - intros (m & Hm & [= ->] & Hl). assert (find_message p (message_type m) = Some m) as ->.
    { by apply find_message_spec. }
    cbn. rewrite decide_False; [done|]. intros ?; congruence.
Qed.
Lemma validate_checks_the_schema_witness :
  @ItchDecoder.validate itch50_header sample_bytes = Ret tt ∧
  (@ItchDecoder.validate itch50_header sample_bytes = Ret tt ↔
   ∃ m, m ∈ protocol_messages itch50 ∧ head sample_bytes = Some (message_type m) ∧ len sample_bytes = size m).
Proof.
  split; [vm_compute; reflexivity|].
  exact (@validate_checks_the_schema itch50 itch50_header itch50_header_generated sample_bytes itch50_ok).
Defined.

Lemma decoders_agree_on_book `{HG : !GeneratedFrom itch50 H} c n bytes :
  head bytes = Some c → book_size c = Some n →
  same_result (ItchDecoder.decode_book_event bytes) (ReferenceItchDecoder.decode_book_event bytes).
Proof.
  intros Hh Hc. destruct (decide (len bytes = n)) as [Hl|Hl].
  - left. by apply (decoders_make_the_same_reads c n).
  - right. rewrite (decode_wrong_length c n), (reference_wrong_length c n) by done. by eexists _, _.
Qed.

(** C8: Differential correctness.  With the header generated from the checked-in schema, the
    production decoder and the handwritten reference agree on every buffer whose first byte is
    one of the seven book types, or that is empty: same event, or [DecodeError] from both.  On
    every other buffer the reference returns no event, and the production decoder returns no
    event either or rejects the buffer with [DecodeError]. *)
Theorem decoders_agree `{HG : !GeneratedFrom itch50 H} bytes :
  (bytes = [] ∨ (∃ c, head bytes = Some c ∧ is_Some (book_size c)) →
   same_result (ItchDecoder.decode_book_event bytes) (ReferenceItchDecoder.decode_book_event bytes)) ∧
  (∀ c, head bytes = Some c → book_size c = None →
   ReferenceItchDecoder.decode_book_event bytes = Ret None ∧
   (ItchDecoder.decode_book_event bytes = Ret None ∨
    ∃ what, ItchDecoder.decode_book_event bytes = Throw (DecodeError what))).
Proof.
  split.
  - intros [->|(c & Hh & n & Hc)]; [right; by eexists _, _|by apply (decoders_agree_on_book c n)].
  - intros c Hh Hc. split; [by apply (reference_not_book c)|by apply (decode_other c)].
Qed.
(** A message of the book, one of another type and an unknown one. *)
Lemma decoders_agree_witness :
  same_result (@ItchDecoder.decode_book_event itch50_header sample_bytes)
    (ReferenceItchDecoder.decode_book_event sample_bytes) ∧
  ReferenceItchDecoder.decode_book_event [Byte.x53] = Ret None ∧
  (@ItchDecoder.decode_book_event itch50_header [Byte.x53] = Ret None ∨
   ∃ what, @ItchDecoder.decode_book_event itch50_header [Byte.x53] = Throw (DecodeError what)).
Proof.
  split.
  - apply (@decoders_agree itch50_header itch50_header_generated sample_bytes).
    right. exists Byte.x41. split; [reflexivity|by eexists].
  - by apply (@decoders_agree itch50_header itch50_header_generated [Byte.x53]) with (c := Byte.x53).
Defined.
