(* ===== verification/BuiltHeader.v ===== *)
(** The build: [efe_protocolc] run on the checked-in schema writes the header that the decoder is
    compiled with, and with that header the decoder is the one that the wire format and the
    handwritten reference describe.  No assumption on the header is left. *)
From S2P Require Import Prelude Types ByteReader ProtocolCompiler Emitter Itch50Schema ProtocolProofs GeneratedHeader Cpp EmittedHeader ItchDecoder ItchProofs.
From Stdlib Require Import Strings.Byte.
#[local] Open Scope list_scope.
#[local] Open Scope Z_scope.
Import Protocolc Cpp.

(** What [CMakeLists.txt] runs. *)
Definition build (fs : Emitter.Files) : outcome (Z * Emitter.Exit) :=
  Emitter.main fs [bs "efe_protocolc"; bs "schemas/itch50.efe"; bs "include/efe/generated/itch50.hpp"].

(** A build whose files can be read and written. *)
Definition build_possible (fs : Emitter.Files) : Prop :=
  Emitter.input fs = Some itch50_text ∧ Emitter.create_directories fs = Ret tt ∧ Emitter.output_opened fs = true.

Lemma compiler_succeeds fs program schema output source p text :
  Emitter.input fs = Some source → parse_protocol source = Ret p → Emitter.create_directories fs = Ret tt →
  Emitter.output_opened fs = true → Emitter.header_text p = Ret text →
  Emitter.main fs [program; schema; output] = Ret (0, Emitter.Generated (len (protocol_messages p)) text).
Proof.
  intros Hin Hp Hdir Hopen Htext. unfold Emitter.main, Emitter.compile, Emitter.slurp, Emitter.emit.
  rewrite Hin. cbn [mbind outcome_bind]. rewrite Hp, Hdir, Hopen. cbn [mbind outcome_bind negb]. by rewrite Htext.
Qed.

(** C10: The build closes.  Run on the checked-in schema, the compiler reports 23 views and writes a
    header that compiles; with that header the decoder returns an event exactly for the messages
    of the wire format, and agrees with the handwritten reference on every buffer that starts
    with one of the seven book types. *)
Theorem built_decoder_reads_the_wire fs :
  build_possible fs →
  ∃ text u, build fs = Ret (0, Emitter.Generated 23 text) ∧ read (bs text) = Some u ∧
    let H := header_of u in
    GeneratedFrom itch50 H ∧
    (∀ bytes e, ItchDecoder.decode_book_event bytes = Ret (Some e) ↔ event_fits e ∧ wire e bytes) ∧
    (∀ bytes c n, head bytes = Some c → book_size c = Some n →
      same_result (ItchDecoder.decode_book_event bytes) (ReferenceItchDecoder.decode_book_event bytes)).
Proof.
  intros (Hin & Hdir & Hopen).
  pose proof itch50_ok as Hok. destruct (protocol_emits itch50 Hok) as [text Htext]. exists text, (unit_of itch50).
  pose proof (unit_of_generated itch50 Hok itch50_emittable) as HG. split_and!.
  - by apply (compiler_succeeds fs _ _ _ itch50_text itch50).
  - by apply emitted_text_reads; [|exact itch50_emittable|].
  - intros H. split_and!; [done|by apply decode_Some_iff|intros bytes c n; by apply decoders_agree_on_book].
Qed.
Definition build_files : Emitter.Files := Emitter.mkFiles (Some itch50_text) (Ret tt) true.
Lemma built_decoder_reads_the_wire_witness :
  build_possible build_files ∧
  ∃ text u, build build_files = Ret (0, Emitter.Generated 23 text) ∧ read (bs text) = Some u ∧
    let H := header_of u in
    GeneratedFrom itch50 H ∧
    (∀ bytes e, ItchDecoder.decode_book_event bytes = Ret (Some e) ↔ event_fits e ∧ wire e bytes) ∧
    (∀ bytes c n, head bytes = Some c → book_size c = Some n →
      same_result (ItchDecoder.decode_book_event bytes) (ReferenceItchDecoder.decode_book_event bytes)).
Proof. split; [by split_and!|]. apply (built_decoder_reads_the_wire build_files). by split_and!. Defined.
