(* ===== verification/Fuzz.v ===== *)
(** The fuzz targets [fuzz/fuzz_itch.cpp] and [fuzz/fuzz_moldudp.cpp].  A target fails by calling
    [std::abort] or by letting an exception or undefined behaviour out; the theorem is that no
    input makes it fail, so that a fuzzer searches in vain. *)
From S2P Require Import Prelude Types ByteReader MoldUdp64 RecoveryEngine ProtocolCompiler Itch50Schema.
From S2P Require Import GeneratedHeader ItchDecoder ItchProofs.
From Stdlib Require Import Strings.Byte.
#[local] Open Scope list_scope.
#[local] Open Scope Z_scope.
Import MoldUdp64.

(** [std::abort()] is not an exception: no [catch] clause stops it. *)
Definition abort {A} : outcome A := Undef "std::abort".
(** [try { body } catch (const efe::DecodeError&) {}] *)
Definition catch_decode_error (body : outcome unit) : outcome unit :=
  match body with
  | Throw (DecodeError _) => Ret tt
  | r => r
  end.

Module FuzzItch.
Section target.
Context `{Header}.

Definition body (bytes : list byte) : outcome unit :=
  event ← ItchDecoder.decode_book_event bytes;
  match event with
  | Some event =>
      comparison ← ReferenceItchDecoder.decode_book_event bytes;
      match comparison with
      | Some comparison => if decide (event_index comparison ≠ event_index event) then abort else Ret tt
      | None => abort
      end
  | None => Ret tt
  end.
Definition LLVMFuzzerTestOneInput (data : list byte) : outcome Z := catch_decode_error (body data);; Ret 0.
End target.
End FuzzItch.

Module FuzzMoldUdp.

(** [for(std::size_t i=0;i<packet.messages.size();++i)] *)
Fixpoint check_sequences (first i : Z) (ms : list MoldMessage) : outcome unit :=
  match ms with
  | [] => Ret tt
  | m :: ms => if decide (sequence m ≠ u64 (first + i)) then abort else check_sequences first (i + 1) ms
  end.
Definition body (data : list byte) : outcome unit :=
  packet ← parse_downstream data;
  (if negb (heartbeat packet) && negb (end_of_session packet) &&
      negb (len (messages packet) =? message_count packet)
   then abort else Ret tt);;
  check_sequences (first_sequence packet) 0 (messages packet).
Definition LLVMFuzzerTestOneInput (data : list byte) : outcome Z := catch_decode_error (body data);; Ret 0.

Lemma check_numbered first ps i :
  0 ≤ first → 0 ≤ i → first + i + len ps - 1 ≤ u64_max →
  check_sequences first i (numbered (first + i) ps) = Ret tt.
Proof.
  intros Hf. revert i. induction ps as [|p ps IH]; intros i Hi Hmax; [done|]. cbn [numbered check_sequences length] in *.
  rewrite u64_small, decide_False by (cbn; lia). rewrite <-Z.add_assoc. apply IH; lia.
Qed.
End FuzzMoldUdp.

(** C30: No input makes a fuzz target fail.  With the header generated from the checked-in schema both
    targets return 0 on every byte string: an event of the generated decoder always has a
    counterpart of the same kind from the reference decoder, a parsed packet carries the number of
    messages it announces, numbered without a gap, and everything else is a [DecodeError]. *)
Theorem fuzz_targets_never_fail `{HG : !GeneratedFrom itch50 H} data :
  FuzzItch.LLVMFuzzerTestOneInput data = Ret 0 ∧ FuzzMoldUdp.LLVMFuzzerTestOneInput data = Ret 0.
Proof.
  split.
  - unfold FuzzItch.LLVMFuzzerTestOneInput, FuzzItch.body. pose proof (decode_decodes data) as Hd.
    destruct (ItchDecoder.decode_book_event data) as [[e|]|[]|?|] eqn:He; try done.
    apply decode_Some_inv in He as (c & n & Hc & Hl & Hh & Hdec). cbn [mbind outcome_bind].
    rewrite (reference_decodes c n), Hdec by done. cbn [mbind outcome_bind]. by rewrite decide_False by auto.
  - unfold FuzzMoldUdp.LLVMFuzzerTestOneInput, FuzzMoldUdp.body. pose proof (parse_decodes data) as Hd.
    destruct (parse_downstream data) as [p|[]|?|] eqn:Hp; try done. apply parse_sound in Hp as [[_ Hf Hkind] _].
    cbn [mbind outcome_bind].
    destruct Hkind as [(_ & -> & _ & ->)|[(_ & -> & -> & ->)|(_ & _ & _ & Hseq & Hnum & Hcnt & _)]]; [done|done|].
    rewrite (proj2 (Z.eqb_eq _ _) Hcnt), andb_false_r. cbn [mbind outcome_bind].
    rewrite Hnum. rewrite <-(Z.add_0_r (first_sequence p)) at 2.
    rewrite FuzzMoldUdp.check_numbered; [done|lia|lia|]. rewrite length_fmap. lia.
Qed.
Lemma fuzz_targets_never_fail_witness :
  GeneratedFrom itch50 itch50_header ∧
  @FuzzItch.LLVMFuzzerTestOneInput itch50_header sample_bytes = Ret 0 ∧
  FuzzMoldUdp.LLVMFuzzerTestOneInput sample_bytes = Ret 0.
Proof.
  split; [exact itch50_header_generated|].
  exact (@fuzz_targets_never_fail itch50_header itch50_header_generated sample_bytes).
Defined.
