(* ===== verification/Capture.v ===== *)
(** Capture files: [include/efe/capture.hpp] and [src/capture.cpp].  A file is the list of its
    bytes; streams are modelled as the C++ standard defines [std::ofstream::write],
    [std::ifstream::read] and [peek], with their state bits.  The format is shown to round trip,
    and the reader to accept nothing else. *)
From S2P Require Import Prelude ByteReader ProtocolCompiler.
From Stdlib Require Import Strings.Byte.
#[local] Open Scope list_scope.
#[local] Open Scope Z_scope.

Definition kMaxCaptureDatagramSize : Z := 65535.

Record CaptureRecord : Type := mkRecord { monotonic_ns : Z; datagram : list byte }.
#[export] Instance record_eq_dec : EqDecision CaptureRecord.
Proof. solve_decision. Defined.

(** * Streams *)

Module Streams.
Record istream : Type := mkIn { unread : list byte; eofbit : bool; failbit : bool }.
Definition open_in (file : list byte) : istream := mkIn file false false.
Definition good (i : istream) : bool := negb (eofbit i || failbit i).

(** [in.read(p, n)]: the characters extracted, at most [n]. *)
Definition read (n : Z) : M istream (list byte) := λ i,
  if negb (good i) then (Ret [], mkIn (unread i) (eofbit i) true)
  else if decide (n ≤ len (unread i)) then
    (Ret (take (Z.to_nat n) (unread i)), mkIn (drop (Z.to_nat n) (unread i)) false false)
  else (Ret (unread i), mkIn [] true true).

(** [in.peek() == eof()] *)
Definition at_eof : M istream bool := λ i,
  if negb (good i) then (Ret true, mkIn (unread i) (eofbit i) true)
  else
    match unread i with
    | [] => (Ret true, mkIn [] true (failbit i))
    | _ => (Ret false, i)
    end.

Record ostream : Type := mkOut { written : list byte; out_failed : bool }.
(** [out.write(p, n)]; once the stream has failed it stays so. *)
Definition write (bytes : list byte) : M ostream unit := λ o,
  (Ret tt, if out_failed o then o else mkOut (written o ++ bytes) false).
End Streams.
Import Streams.

Module Capture.

Definition magic : list byte := bs "EFC2".

(** The numbers as [std::array]s of characters. *)
Definition write_u32 (v : Z) : M ostream unit :=
  write [byte_of_Z (Z.shiftr v 24); byte_of_Z (Z.shiftr v 16); byte_of_Z (Z.shiftr v 8); byte_of_Z v].
Definition write_u64 (v : Z) : M ostream unit :=
  write ((λ i, byte_of_Z (Z.land (Z.shiftr v (i * 8)) 255)) <$> [7; 6; 5; 4; 3; 2; 1; 0]).

Definition read_u32 : M istream Z :=
  b ← read 4;
  i ← get;
  if failbit i then throw (RuntimeError "truncated capture length")
  else
    let at_ k := default 0 (Z_of_byte <$> vget b k) in
    mret (Z.lor (Z.lor (Z.lor (u32 (Z.shiftl (at_ 0) 24)) (u32 (Z.shiftl (at_ 1) 16))) (u32 (Z.shiftl (at_ 2) 8))) (at_ 3)).
Definition read_u64 : M istream Z :=
  b ← read 8;
  i ← get;
  if failbit i then throw (RuntimeError "truncated capture timestamp")
  else mret (foldl (λ v x, Z.lor (u64 (Z.shiftl v 8)) (Z_of_byte x)) 0 b).

(** [CaptureWriter(path)]; [opened] is what the file system answered. *)
Definition open_writer (path : list byte) (opened : bool) : outcome ostream :=
  if negb opened then Throw (RuntimeError ("failed to open capture for writing: " +:+ String.string_of_list_byte path))
  else Ret (write magic (mkOut [] false)).2.

Definition write_record (ns : Z) (d : list byte) : M ostream unit :=
  if kMaxCaptureDatagramSize <? len d then throw (RuntimeError "capture datagram too large")
  else
    write_u64 ns;;
    write_u32 (u32 (len d));;
    write d;;
    o ← get;
    if out_failed o then throw (RuntimeError "capture write failed") else mret tt.

(** [CaptureReader(path)]; [file] is [None] if it cannot be opened. *)
Definition open_reader (path : list byte) (file : option (list byte)) : outcome istream :=
  match file with
  | None => Throw (RuntimeError ("failed to open capture: " +:+ String.string_of_list_byte path))
  | Some file =>
      match read 4 (open_in file) with
      | (Ret m, i) =>
          if failbit i || negb (bool_decide (m = magic)) then Throw (RuntimeError "not an EFC2 capture") else Ret i
      | _ => Undef "read does not throw"
      end
  end.

Definition next : M istream (option CaptureRecord) :=
  eof ← at_eof;
  if eof : bool then mret None
  else
    ns ← read_u64;
    n ← read_u32;
    if kMaxCaptureDatagramSize <? n then throw (RuntimeError "capture datagram length exceeds limit")
    else
      d ← read n;
      i ← get;
      if failbit i then throw (RuntimeError "truncated capture payload")
      else mret (Some (mkRecord ns d)).

(** A client's loops: write a list of records, and read until [nullopt]. *)
Fixpoint write_all (rs : list CaptureRecord) : M ostream unit :=
  match rs with
  | [] => mret tt
  | r :: rs => write_record (monotonic_ns r) (datagram r);; write_all rs
  end.
Fixpoint read_all (fuel : nat) : M istream (list CaptureRecord) :=
  match fuel with
  | O => λ i, (OutOfFuel, i)
  | S fuel =>
      r ← next;
      match r with
      | None => mret []
      | Some r => rs ← read_all fuel; mret (r :: rs)
      end
  end.
Definition load (path file : list byte) : outcome (list CaptureRecord) :=
  i ← open_reader path (Some file); (read_all (S (length file)) i).1.
End Capture.
Import Capture.

(** * The format *)

Definition record_bytes (r : CaptureRecord) : list byte :=
  be_bytes 8 (monotonic_ns r) ++ be_bytes 4 (len (datagram r)) ++ datagram r.
Definition capture_bytes (rs : list CaptureRecord) : list byte := magic ++ concat (record_bytes <$> rs).
Definition record_ok (r : CaptureRecord) : Prop :=
  0 ≤ monotonic_ns r ≤ u64_max ∧ len (datagram r) ≤ kMaxCaptureDatagramSize.
#[export] Instance record_ok_dec r : Decision (record_ok r).
Proof. unfold record_ok. apply _. Defined.

(** ** Writing *)

Lemma write_u64_bytes v o : write_u64 v o = write (be_bytes 8 v) o.
Proof.
  unfold write_u64. f_equal. cbn [fmap list_fmap be_bytes]. rewrite !byte_of_Z_low. reflexivity.
Qed.
Lemma write_u32_bytes v o : write_u32 v o = write (be_bytes 4 v) o.
Proof. unfold write_u32. cbn [be_bytes]. by rewrite Z.shiftr_0_r. Qed.

Lemma write_record_spec r file :
  record_ok r →
  write_record (monotonic_ns r) (datagram r) (mkOut file false) = (Ret tt, mkOut (file ++ record_bytes r) false).
Proof.
  intros [Hns Hd]. unfold write_record. rewrite (proj2 (Z.ltb_ge _ _)) by done.
  unfold mbind, M_bind. rewrite write_u64_bytes. cbn [write out_failed written]. rewrite write_u32_bytes.
  cbn [write out_failed written]. unfold get. cbn. rewrite u32_small by (unfold kMaxCaptureDatagramSize, u32_max in *; lia).
  unfold record_bytes. by rewrite <-!app_assoc.
Qed.
Lemma write_all_spec rs file :
  Forall record_ok rs →
  write_all rs (mkOut file false) = (Ret tt, mkOut (file ++ concat (record_bytes <$> rs)) false).
Proof.
  intros Hrs. revert file. induction Hrs as [|r rs Hr _ IH]; intros file; cbn [write_all]; [by rewrite app_nil_r|].
  unfold mbind, M_bind. rewrite write_record_spec by done. rewrite IH. cbn. by rewrite <-app_assoc.
Qed.

(** ** Reading *)

Lemma read_spec n file :
  0 ≤ n →
  read n (open_in file) =
    if decide (n ≤ len file) then (Ret (take (Z.to_nat n) file), open_in (drop (Z.to_nat n) file))
    else (Ret file, mkIn [] true true).
Proof. done. Qed.
Lemma read_be_spec n v rest :
  read (Z.of_nat n) (open_in (be_bytes n v ++ rest)) = (Ret (be_bytes n v), open_in rest).
Proof.
  rewrite read_spec by lia. rewrite length_app, length_be_bytes, decide_True, Nat2Z.id by lia.
  by rewrite take_app_length', drop_app_length' by by rewrite length_be_bytes.
Qed.

Lemma lor_fold l v :
  0 ≤ v → (v + 1) * 256 ^ len l ≤ 2 ^ 64 →
  foldl (λ v x, Z.lor (u64 (Z.shiftl v 8)) (Z_of_byte x)) v l = foldl (λ v b, v * 256 + Z_of_byte b) v l.
Proof.
  revert v. induction l as [|b l IH]; intros v Hv Hl; cbn [foldl]; [done|].
  pose proof (Z_of_byte_bound b) as Hb. cbn [length] in Hl.
  rewrite Nat2Z.inj_succ, Z.pow_succ_r in Hl by lia.
  assert (0 < 256 ^ len l) by (apply Z.pow_pos_nonneg; lia).
  rewrite Z.shiftl_mul_pow2, u64_small by (unfold u64_max; nia).
  rewrite lor_add by lia. change (2 ^ 8) with 256. apply IH; nia.
Qed.

Lemma read_u64_spec file :
  read_u64 (open_in file) =
    if decide (8 ≤ len file) then (Ret (be_value (take 8 file)), open_in (drop 8 file))
    else (Throw (RuntimeError "truncated capture timestamp"), mkIn [] true true).
Proof.
  unfold read_u64, mbind, M_bind. rewrite read_spec by lia. case_decide as Hl; [|done].
  unfold get. cbn [failbit open_in]. unfold be_value. rewrite <-lor_fold; [done|done|].
  rewrite length_take, Nat.min_l by lia. done.
Qed.
Lemma read_u32_spec file :
  read_u32 (open_in file) =
    if decide (4 ≤ len file) then (Ret (be_value (take 4 file)), open_in (drop 4 file))
    else (Throw (RuntimeError "truncated capture length"), mkIn [] true true).
Proof.
  unfold read_u32, mbind, M_bind. rewrite read_spec by lia. case_decide as Hl; [|done].
  unfold get. cbn [failbit open_in].
  do 4 (destruct file as [|? file]; [exfalso; cbn in Hl; lia|]). cbv [mret M_ret]. f_equal. f_equal.
  match goal with |- _ = be_value (take _ (?x :: ?y :: ?z :: ?w :: _)) =>
    pose proof (read_u32_be_spec [x; y; z; w] 0 ltac:(done)) as Hspec
  end. unfold reads in Hspec.
  rewrite decide_True in Hspec by done. by injection Hspec.
Qed.

(** One step of the reader on a stream at the start of [file]. *)
Lemma next_end : next (open_in []) = (Ret None, mkIn [] true false).
Proof. done. Qed.

Lemma next_record r rest :
  record_ok r → next (open_in (record_bytes r ++ rest)) = (Ret (Some r), open_in rest).
Proof.
  intros [Hns Hd]. unfold next, mbind, M_bind. 
  assert (Hpeek : ∀ b l, at_eof (open_in (be_bytes 8 b ++ l)) = (Ret false, open_in (be_bytes 8 b ++ l))) by done.
  unfold record_bytes. rewrite <-!app_assoc, Hpeek.
  rewrite read_u64_spec, length_app, length_be_bytes, decide_True by lia.
  rewrite take_app_length', drop_app_length', be_value_bytes, Z.mod_small by (done || (cbn; unfold u64_max in *; lia)).
  rewrite read_u32_spec, length_app, length_be_bytes, decide_True by lia. unfold kMaxCaptureDatagramSize in *.
  rewrite take_app_length', drop_app_length', be_value_bytes, Z.mod_small by (done || (cbn; lia)).
  rewrite (proj2 (Z.ltb_ge _ _)) by done.
  rewrite read_spec, length_app, decide_True, Nat2Z.id, take_app_length, drop_app_length by lia.
  by destruct r.
Qed.

Lemma be_bytes_of_value n l : length l = n → be_bytes n (be_value l) = l.
Proof. intros <-. apply be_bytes_value. Qed.

(** Whatever the file holds, the step ends: at the end of the file, in an error, or past a
    record that was there. *)
Lemma next_inv file :
  match next (open_in file) with
  | (Ret None, _) => file = []
  | (Ret (Some r), i) => ∃ rest, record_ok r ∧ file = record_bytes r ++ rest ∧ i = open_in rest
  | (Throw (RuntimeError _), _) => file ≠ []
  | _ => False
  end.
Proof.
  destruct (decide (file = [])) as [->|Hne]; [done|]. unfold next, mbind, M_bind.
  assert (at_eof (open_in file) = (Ret false, open_in file)) as -> by by destruct file.
  rewrite read_u64_spec. case_decide as H8; [|done].
  rewrite read_u32_spec. case_decide as H4; [|done]. rewrite length_drop in H4.
  set (n := be_value (take 4 (drop 8 file))).
  destruct (Z.ltb_spec kMaxCaptureDatagramSize n) as [?|Hn]; [done|].
  assert (Hn0 : 0 ≤ n) by apply be_value_bound.
  rewrite read_spec by done. case_decide as Hl; [|done]. unfold get, mret, M_ret. cbn [failbit open_in].
  pose proof (be_value_bound (take 8 file)) as Hns. rewrite length_take, Nat.min_l in Hns by lia.
  assert (H88 : length (take 8 file) = 8%nat) by (rewrite length_take; lia).
  assert (H44 : length (take 4 (drop 8 file)) = 4%nat) by (rewrite length_take, length_drop; lia).
  rewrite !length_drop in Hl.
  assert (Hd : len (take (Z.to_nat n) (drop 4 (drop 8 file))) = n) by (rewrite length_take, !length_drop; lia).
  exists (drop (Z.to_nat n) (drop 4 (drop 8 file))). split_and!; [|unfold record_bytes; cbn [monotonic_ns datagram]|done].
  - split; cbn; [word_lia|by rewrite Hd].
  - rewrite Hd. assert (be_bytes 4 n = take 4 (drop 8 file)) as -> by by apply be_bytes_of_value.
    rewrite be_bytes_of_value by done. by rewrite <-!app_assoc, !take_drop.
Qed.

(** The reader's loop on the rest of a file, with enough fuel. *)
Lemma read_all_spec fuel file :
  (length file < fuel)%nat →
  match (read_all fuel (open_in file)).1 with
  | Ret rs => Forall record_ok rs ∧ file = concat (record_bytes <$> rs)
  | Throw (RuntimeError _) => ∀ rs, Forall record_ok rs → file ≠ concat (record_bytes <$> rs)
  | _ => False
  end.
Proof.
  revert file. induction fuel as [|fuel IH]; intros file Hl; [lia|].
  cbn [read_all]. unfold mbind, M_bind. pose proof (next_inv file) as Hnext.
  pose proof (λ r rest, next_record r rest) as Hrec.
  destruct (next (open_in file)) as [[[r|]|[]|?|] i] eqn:Hi; try done.
  - destruct Hnext as (rest & Hr & -> & ->). specialize (IH rest).
    assert (8 ≤ length (record_bytes r))%nat by (unfold record_bytes; autorewrite with lens; lia).
    rewrite length_app in Hl. specialize (IH ltac:(lia)).
    destruct (read_all fuel (open_in rest)) as [[rs|[]|?|] i']; cbn [fst] in *; try done.
    + destruct IH as [Hrs ->]. split; [by constructor|done].
    + intros rs Hrs. destruct Hrs as [|r' rs Hr' Hrs].
      { change (concat _) with ([] : list byte). intros Heq%(f_equal length). rewrite length_app in Heq. cbn [length] in Heq. lia. }
      change (concat _) with (record_bytes r' ++ concat (record_bytes <$> rs)). intros Heq. rewrite Heq, Hrec in Hi by done. injection Hi as -> Hrest.
      apply (IH rs Hrs). congruence.
  - intros rs Hrs Heq. destruct Hrs as [|r' rs Hr' Hrs]; [done|].
    rewrite Heq in Hi. change (concat _) with (record_bytes r' ++ concat (record_bytes <$> rs)) in Hi.
    by rewrite Hrec in Hi.
Qed.

Lemma read_all_records rs fuel :
  Forall record_ok rs → (length (concat (record_bytes <$> rs)) < fuel)%nat →
  (read_all fuel (open_in (concat (record_bytes <$> rs)))).1 = Ret rs.
Proof.
  intros Hrs. revert fuel. induction Hrs as [|r rs Hr _ IH]; intros fuel Hl; (destruct fuel as [|fuel]; [lia|]); [done|].
  cbn [read_all fmap list_fmap concat]. unfold mbind, M_bind. rewrite next_record by done.
  cbn [fmap list_fmap concat] in Hl. rewrite length_app in Hl.
  assert (8 ≤ length (record_bytes r))%nat by (unfold record_bytes; autorewrite with lens; lia).
  specialize (IH fuel ltac:(lia)). destruct (read_all fuel _) as [o i]. cbn in IH. by subst.
Qed.

Lemma open_reader_spec path file :
  open_reader path (Some file) =
    if decide (take 4 file = magic) then Ret (open_in (drop 4 file))
    else Throw (RuntimeError "not an EFC2 capture").
Proof.
  unfold open_reader. rewrite read_spec by lia. case_decide as Hl.
  - cbn [failbit open_in orb]. change (Z.to_nat 4) with 4%nat. case_bool_decide; by case_decide.
  - cbn [failbit orb negb]. rewrite decide_False; [done|]. intros Ht%(f_equal length).
    rewrite length_take in Ht. change (length magic) with 4%nat in Ht. lia.
Qed.

(** C19: The capture reader accepts exactly the files that hold the magic and a sequence of
    records whose timestamps fit in 64 bits and whose datagrams have at most 65535 bytes, and
    returns those records in order; every other file ends in [std::runtime_error]: bad magic, an
    oversized length, or a truncation anywhere inside a record.  The loop terminates. *)
Theorem reader_inverts_the_format path file :
  match load path file with
  | Ret rs => Forall record_ok rs ∧ file = capture_bytes rs
  | Throw (RuntimeError _) => ∀ rs, Forall record_ok rs → file ≠ capture_bytes rs
  | _ => False
  end.
Proof.
  unfold load. rewrite open_reader_spec. case_decide as Hm; cbn [mbind outcome_bind].
  - pose proof (read_all_spec (S (length file)) (drop 4 file)) as Hspec.
    rewrite length_drop in Hspec. specialize (Hspec ltac:(lia)). unfold capture_bytes.
    destruct (read_all _ _).1 as [rs|[]|?|]; try done.
    + destruct Hspec as [Hrs Hfile]. split; [done|]. by rewrite <-Hm, <-Hfile, take_drop.
    + intros rs Hrs Heq. apply (Hspec rs Hrs). by rewrite Heq.
  - intros rs _ Heq. apply Hm. by rewrite Heq.
Qed.

Lemma load_capture path rs : Forall record_ok rs → load path (capture_bytes rs) = Ret rs.
Proof.
  intros Hrs. unfold load. rewrite open_reader_spec, decide_True by done. cbn [mbind outcome_bind].
  change (drop 4 (capture_bytes rs)) with (concat (record_bytes <$> rs)).
  apply read_all_records; [done|].
  change (length (capture_bytes rs)) with (4 + length (concat (record_bytes <$> rs)))%nat. lia.
Qed.

(** What a writer recorded, a reader returns: writing records whose datagrams fit succeeds,
    and loading the file gives the same records. *)
Theorem capture_round_trip path rs :
  Forall record_ok rs →
  ∃ o o', open_writer path true = Ret o ∧ write_all rs o = (Ret tt, o') ∧ load path (written o') = Ret rs.
Proof.
  intros Hrs. eexists _, _. split; [done|]. split; [by apply write_all_spec|]. by apply load_capture.
Qed.
Lemma capture_round_trip_witness :
  ∃ o o', open_writer [Byte.x66] true = Ret o ∧
    write_all [mkRecord 0 [Byte.x41]; mkRecord 1000000 []] o = (Ret tt, o') ∧
    load [Byte.x66] (written o') = Ret [mkRecord 0 [Byte.x41]; mkRecord 1000000 []].
Proof.
  apply (capture_round_trip [Byte.x66] [mkRecord 0 [Byte.x41]; mkRecord 1000000 []]).
  decided.
Defined.
