(* ===== verification/Replay.v ===== *)
(** Replaying a capture: [include/efe/replay.hpp] and [src/replay.cpp].  What the loop does to the
    outside, sleeping and prompting, is recorded as a list of actions; the callback is any
    stateful function.  The speed and the scaled delays are floating-point numbers ([Floats]); the
    specification of the delays ([near], [waits], [paced]) is in exact arithmetic. *)
From S2P Require Import Prelude ByteReader Capture Floats.
From Stdlib Require Import Strings.Byte.
#[local] Open Scope list_scope.
#[local] Open Scope Z_scope.
Import Streams Capture Floats.

Module Replay.

Variant ReplayMode : Type := MaxSpeed | Realtime | Scaled | Step.
#[export] Instance mode_eq_dec : EqDecision ReplayMode.
Proof. solve_decision. Defined.
Record ReplayOptions : Type := mkOptions { mode : ReplayMode; speed : spec_float }.

Variant Action : Type := SleepFor (ns : Z) | Prompt.

(** [std::chrono::nanoseconds(delta)]: the count is signed. *)
Definition to_i64 (z : Z) : Z := if u64 z <? 2 ^ 63 then u64 z else u64 z - 2 ^ 64.
(** [std::chrono::nanoseconds::max().count()] *)
Definition nanoseconds_max : Z := 2 ^ 63 - 1.

(** [x <= 0.0] *)
Definition not_positive (x : spec_float) : bool := SFleb x (S754_zero false).
(** [static_cast<long double>(delta) / static_cast<long double>(o.speed)] *)
Definition scaled (delta : Z) (speed : spec_float) : spec_float :=
  div long_double (of_Z long_double delta) (convert long_double speed).
(** [scaled > static_cast<long double>(std::chrono::nanoseconds::max().count())] *)
Definition too_large (scaled : spec_float) : bool := SFltb (of_Z long_double nanoseconds_max) scaled.

Section replay.
Context {St : Type} (callback : CaptureRecord → M St unit) (path : list byte).

(** The reader, the characters left on the step input, what was done, and the callback's state. *)
Record State : Type := mkState {
  reader : istream;
  step_input : list byte;
  actions : list Action;
  client : St }.

Definition on_reader {A} (m : M istream A) : M State A := λ s,
  let '(o, i) := m (reader s) in (o, mkState i (step_input s) (actions s) (client s)).
Definition on_client {A} (m : M St A) : M State A := λ s,
  let '(o, c) := m (client s) in (o, mkState (reader s) (step_input s) (actions s) c).
Definition act (a : Action) : M State unit :=
  modify (λ s, mkState (reader s) (step_input s) (actions s ++ [a]) (client s)).
(** [input.get()]: the character, or [eof()], which is -1, at the end. *)
Definition get_char : M State Z :=
  s ← get;
  match step_input s with
  | [] => mret (-1)
  | c :: rest => put (mkState (reader s) rest (actions s) (client s));; mret (Z_of_byte c)
  end.

(** The delay before a record, [prev] being the timestamp of the one before it. *)
Definition pace (o : ReplayOptions) (prev : option Z) (rec : CaptureRecord) : M State unit :=
  match prev with
  | None => mret tt
  | Some prev =>
      if monotonic_ns rec <? prev then throw (RuntimeError "capture timestamps are not monotonic")
      else
        let delta := u64 (monotonic_ns rec - prev) in
        (if decide (mode o = Realtime ∧ delta ≠ 0) then act (SleepFor (to_i64 delta)) else mret tt);;
        (if decide (mode o = Scaled ∧ delta ≠ 0) then
           if too_large (scaled delta (speed o)) then throw (OverflowError "scaled replay delay is too large")
           else
             ns ← lift (to_u64 (scaled delta (speed o)));
             act (SleepFor (to_i64 ns))
         else mret tt)
  end.

(** [if(o.mode==ReplayMode::Step) { ... }]; [!input.get()] holds for the character zero. *)
Definition prompt (o : ReplayOptions) : M State unit :=
  if decide (mode o = Step) then
    act Prompt;;
    c ← get_char;
    if decide (c = 0) then throw (RuntimeError "step replay input ended") else mret tt
  else mret tt.

(** [while (auto rec = reader.next())] *)
Fixpoint loop (fuel : nat) (o : ReplayOptions) (prev : option Z) (count : Z) : M State Z :=
  match fuel with
  | O => λ s, (OutOfFuel, s)
  | S fuel =>
      rec ← on_reader next;
      match rec with
      | None => mret count
      | Some rec =>
          pace o prev rec;;
          prompt o;;
          on_client (callback rec);;
          loop fuel o (Some (monotonic_ns rec)) (u64 (count + 1))
      end
  end.

(** [ReplayEngine::run]; a record takes bytes of the file, so its length is fuel enough. *)
Definition run (file : option (list byte)) (o : ReplayOptions) (input : list byte) (c : St)
    : outcome Z * State :=
  let start i := mkState i input [] c in
  if decide (mode o = Scaled ∧ not_positive (speed o) = true)
  then (Throw (InvalidArgument "replay speed must be > 0"), start (open_in []))
  else
    match open_reader path file with
    | Ret i => loop (S (length (default [] file))) o None 0 (start i)
    | Throw e => (Throw e, start (open_in []))
    | Undef why => (Undef why, start (open_in []))
    | OutOfFuel => (OutOfFuel, start (open_in []))
    end.

(** * Specification *)

(** The callback on every record, in order. *)
Fixpoint calls (rs : list CaptureRecord) : M St unit :=
  match rs with
  | [] => mret tt
  | r :: rs => callback r;; calls rs
  end.

(** Timestamps do not decrease, from [prev] on. *)
Fixpoint monotonic (prev : option Z) (rs : list CaptureRecord) : Prop :=
  match rs with
  | [] => True
  | r :: rs => (∀ p, prev = Some p → p ≤ monotonic_ns r) ∧ monotonic (Some (monotonic_ns r)) rs
  end.

(** What a mode does for the time [d] between two records, [None] when that fails. *)
Definition delay (o : ReplayOptions) (d : Z) : option (list Action) :=
  if decide (d = 0) then Some []
  else
    match mode o with
    | MaxSpeed | Step => Some []
    | Realtime => Some [SleepFor (to_i64 d)]
    | Scaled =>
        match too_large (scaled d (speed o)), to_u64 (scaled d (speed o)) with
        | false, Ret ns => Some [SleepFor (to_i64 ns)]
        | _, _ => None
        end
    end.
Definition delay_since (o : ReplayOptions) (prev : option Z) (r : CaptureRecord) : option (list Action) :=
  match prev with None => Some [] | Some p => delay o (monotonic_ns r - p) end.
Definition prompts (o : ReplayOptions) : list Action := if decide (mode o = Step) then [Prompt] else [].

(** All that a replay does before the callbacks. *)
Fixpoint effects (o : ReplayOptions) (prev : option Z) (rs : list CaptureRecord) : option (list Action) :=
  match rs with
  | [] => Some []
  | r :: rs =>
      d ← delay_since o prev r;
      rest ← effects o (Some (monotonic_ns r)) rs;
      Some (d ++ prompts o ++ rest)
  end.

(** ** The delays in exact arithmetic *)

(** [ns] is [d] / [speed] up to a nanosecond and a part in 2^62. *)
Definition near (d : Z) (speed : spec_float) (ns : Z) : Prop :=
  match speed with
  | S754_finite false m e =>
      let '(P, Q) := ratio m e in Z.abs (ns * P - d * Q) * 2 ^ 62 ≤ P * 2 ^ 62 + d * Q
  | S754_infinity false => ns = 0
  | _ => False
  end.
(** The waiting that the documentation describes for the time [d] between two records. *)
Inductive waits (o : ReplayOptions) (d : Z) : list Action → Prop :=
  | waits_not : d = 0 ∨ mode o = MaxSpeed ∨ mode o = Step → waits o d []
  | waits_original : d ≠ 0 → mode o = Realtime → waits o d [SleepFor d]
  | waits_scaled ns :
      d ≠ 0 → mode o = Scaled → near d (speed o) ns → 0 ≤ ns ≤ nanoseconds_max → waits o d [SleepFor ns].
(** Waiting and prompting, record by record. *)
Inductive paced (o : ReplayOptions) : option Z → list CaptureRecord → list Action → Prop :=
  | paced_nil prev : paced o prev [] []
  | paced_first r rs acts :
      paced o (Some (monotonic_ns r)) rs acts → paced o None (r :: rs) (prompts o ++ acts)
  | paced_next p r rs wait acts :
      waits o (monotonic_ns r - p) wait → paced o (Some (monotonic_ns r)) rs acts →
      paced o (Some p) (r :: rs) (wait ++ prompts o ++ acts).

(** A speed that can be divided by: a positive double. *)
Definition speed_ok (speed : spec_float) : Prop :=
  match speed with
  | S754_finite false m e => valid_binary 53 1024 speed = true
  | S754_infinity false => True
  | _ => False
  end.
(** The delay is one that [std::chrono::nanoseconds] can hold; for a quotient, with three
    nanoseconds to spare for its rounding. *)
Definition delay_fits (o : ReplayOptions) (d : Z) : Prop :=
  match mode o with
  | MaxSpeed | Step => True
  | Realtime => d ≤ nanoseconds_max
  | Scaled =>
      match speed o with
      | S754_finite _ m e => let '(P, Q) := ratio m e in d * Q ≤ (nanoseconds_max - 3) * P
      | _ => True
      end
  end.
Fixpoint delays_fit (o : ReplayOptions) (prev : option Z) (rs : list CaptureRecord) : Prop :=
  match rs with
  | [] => True
  | r :: rs => (∀ p, prev = Some p → delay_fits o (monotonic_ns r - p)) ∧ delays_fit o (Some (monotonic_ns r)) rs
  end.

(** The step input that a replay of [n] records waits for: a character per record.  The character
    zero is what the code takes for the end of the input. *)
Definition input_ok (o : ReplayOptions) (n : nat) (input : list byte) : Prop :=
  mode o = Step → (n ≤ length input)%nat ∧ Byte.x00 ∉ take n input.
(** The step input that the code does not refuse. *)
Definition input_passes (o : ReplayOptions) (n : nat) (input : list byte) : Prop :=
  mode o = Step → Byte.x00 ∉ take n input.
Definition input_left (o : ReplayOptions) (n : nat) (input : list byte) : list byte :=
  if decide (mode o = Step) then drop n input else input.

Definition extend (s : State) (new : list Action) : State :=
  mkState (reader s) (step_input s) (actions s ++ new) (client s).
Lemma extend_nil s : extend s [] = s.
Proof. destruct s. unfold extend. cbn. by rewrite app_nil_r. Qed.

(** A record that is not earlier than the one before is delayed as the mode says. *)
Lemma pace_eq o prev r new s :
  record_ok r → (∀ p, prev = Some p → 0 ≤ p ≤ monotonic_ns r) → delay_since o prev r = Some new →
  pace o prev r s = (Ret tt, extend s new).
Proof.
  intros [[_ Hmax] _] Hprev Hd. destruct prev as [p|]; cbn [delay_since pace] in *.
  2: { injection Hd as <-. by rewrite extend_nil. }
  specialize (Hprev p eq_refl). rewrite (proj2 (Z.ltb_ge _ _)) by lia. rewrite u64_small by lia.
  set (d := monotonic_ns r - p) in *. unfold delay in Hd. unfold mbind, M_bind.
  destruct (decide (d = 0)) as [H0|H0].
  { rewrite !decide_False by tauto. injection Hd as <-. by rewrite extend_nil. }
  destruct (mode o).
  - rewrite !decide_False by (intros [? ?]; discriminate). injection Hd as <-. by rewrite extend_nil.
  - rewrite decide_True, decide_False by (done || intros [? ?]; discriminate). by injection Hd as <-.
  - rewrite decide_False, decide_True by (done || intros [? ?]; discriminate). cbn [mret M_ret].
    destruct (too_large _); [done|]. unfold lift. destruct (to_u64 _) as [ns| | |]; try done. by injection Hd as <-.
  - rewrite !decide_False by (intros [? ?]; discriminate). injection Hd as <-. by rewrite extend_nil.
Qed.

Lemma prompt_eq o n s :
  input_passes o (S n) (step_input s) →
  ∃ input, prompt o s = (Ret tt, mkState (reader s) input (actions s ++ prompts o) (client s)) ∧
    input_passes o n input ∧ input_left o n input = input_left o (S n) (step_input s).
Proof.
  unfold prompt, prompts, input_passes, input_left. intros Hi. destruct (decide (mode o = Step)) as [Hs|Hs].
  2: { exists (step_input s). rewrite app_nil_r. by destruct s. }
  specialize (Hi Hs). unfold mbind, M_bind, act, modify, get_char, get. cbn [step_input]. unfold mbind, M_bind.
  destruct (step_input s) as [|c rest].
  - exists []. split; [done|]. split; [|by destruct n]. intros _. rewrite take_nil. apply not_elem_of_nil.
  - cbn [take] in Hi. apply not_elem_of_cons in Hi as [Hc Hi]. exists rest. split; [|by split].
    unfold put, mret, M_ret. cbn [step_input reader actions client]. rewrite decide_False; [done|].
    intros Hz. apply Hc. by apply (inj Z_of_byte).
Qed.

(** The loop takes the records one by one, as long as the timestamps do not decrease. *)
Fixpoint last_time (prev : option Z) (rs : list CaptureRecord) : option Z :=
  match rs with [] => prev | r :: rs => last_time (Some (monotonic_ns r)) rs end.
Lemma loop_records fuel o rs prev count acts rest input acc c c' :
  Forall record_ok rs → monotonic prev rs → (∀ p, prev = Some p → 0 ≤ p) →
  effects o prev rs = Some acts → input_passes o (length rs) input → calls rs c = (Ret tt, c') →
  0 ≤ count → count + len rs ≤ u64_max →
  loop (length rs + fuel) o prev count (mkState (open_in (concat (record_bytes <$> rs) ++ rest)) input acc c) =
  loop fuel o (last_time prev rs) (count + len rs)
    (mkState (open_in rest) (input_left o (length rs) input) (acc ++ acts) c').
Proof.
  intros Hrs. revert prev count acts acc c input. induction Hrs as [|r rs Hr _ IH];
    intros prev count acts acc c input Hmono Hprev Hd Hi Hcalls Hc Hmax.
  - injection Hd as <-. injection Hcalls as <-. cbn. rewrite app_nil_r, Z.add_0_r.
    unfold input_left. rewrite drop_0. by case_decide.
  - cbn [calls] in Hcalls. unfold mbind, M_bind in Hcalls.
    destruct (callback r c) as [[[]|?|?|] c1] eqn:Hcall; try done.
    destruct Hmono as [Hle Hmono]. cbn [length effects] in Hmax, Hi, Hd |- *.
    destruct (delay_since o prev r) as [new|] eqn:Hnew; [|done]. cbn [mbind option_bind] in Hd.
    destruct (effects o _ rs) as [acts'|] eqn:Hacts; [|done]. injection Hd as <-.
    set (s1 := mkState (open_in (concat (record_bytes <$> rs) ++ rest)) input acc c).
    pose proof (pace_eq o prev r new s1 Hr ltac:(intros p Hp; by auto) Hnew) as Hpace.
    destruct (prompt_eq o (length rs) (extend s1 new) Hi) as (input' & Hprompt & Hi' & Hleft).
    cbn [Nat.add loop]. unfold mbind at 1, M_bind at 1, on_reader at 1. cbn [reader].
    change (concat (record_bytes <$> r :: rs)) with (record_bytes r ++ concat (record_bytes <$> rs)).
    rewrite <-app_assoc, next_record by done. cbn [step_input actions client]. fold s1.
    unfold mbind at 1, M_bind at 1. rewrite Hpace.
    unfold mbind at 1, M_bind at 1. rewrite Hprompt.
    unfold mbind at 1, M_bind at 1, on_client. cbn [extend client s1]. rewrite Hcall.
    cbn [extend reader step_input actions s1]. rewrite u64_small by lia.
    pose proof (proj1 (proj1 Hr)) as H0.
    rewrite (IH (Some (monotonic_ns r)) (count + 1) acts' _ c1 _ Hmono ltac:(by intros ? [= <-]) Hacts Hi' Hcalls) by lia.
    cbn [last_time]. rewrite Hleft. f_equal; [lia|]. by rewrite <-!app_assoc.
Qed.

Lemma input_ok_passes o n input : input_ok o n input → input_passes o n input.
Proof. intros Hi Hs. exact (proj2 (Hi Hs)). Qed.
Lemma speed_ok_positive o :
  (mode o = Scaled → speed_ok (speed o)) → ¬ (mode o = Scaled ∧ not_positive (speed o) = true).
Proof. intros Hok [Hs Hp]. specialize (Hok Hs). by destruct (speed o) as [|[]| |[]]. Qed.

(** ** The scaled delay is the exact one *)

Lemma too_large_finite m e :
  too_large (S754_finite false m e) = (-1 <? e) || ((e =? -1) && (18446744073709551614 <? Z.pos m)).
Proof.
  assert (Hmax : of_Z long_double nanoseconds_max = S754_finite false 18446744073709551614 (-1)) by (vm_compute; reflexivity).
  unfold too_large, SFltb. rewrite Hmax. clear Hmax. generalize 18446744073709551614%positive as K. intros K.
  cbn [SFcompare]. destruct (Z.compare_spec (-1) e) as [<-|Hlt|Hgt].
  - reflexivity.
  - symmetry. by rewrite (proj2 (Z.ltb_lt _ _)).
  - symmetry. rewrite (proj2 (Z.ltb_ge _ _)) by lia. by rewrite (proj2 (Z.eqb_neq _ _)) by lia.
Qed.

Lemma scaled_near d m e P Q :
  0 < d ≤ u64_max → speed_ok (S754_finite false m e) → ratio m e = (P, Q) → d * Q ≤ (nanoseconds_max - 3) * P →
  ∃ ns, too_large (scaled d (S754_finite false m e)) = false ∧
    to_u64 (scaled d (S754_finite false m e)) = Ret ns ∧ near d (S754_finite false m e) ns ∧ 0 ≤ ns ≤ nanoseconds_max.
Proof.
  intros Hd Hv HPQ Hfit. destruct (long_quotient d m e Hd Hv) as (m' & e' & t & P' & Q' & Hq & HPQ' & HP & HQ & Ht & He & Hm & Hlo & Hhi).
  unfold scaled. rewrite Hq. rewrite HPQ in HPQ'. injection HPQ' as <- <-. clear Hq.
  pose proof (truncate_scaled m' e' t Ht He) as Htr. cbn zeta in Htr. unfold nanoseconds_max in *.
  set (y := Z.pos m' * 2 ^ (e' + t)) in *. assert (HT : 0 < 2 ^ t) by by apply Z.pow_pos_nonneg.
  (* the quotient is at most the greatest delay *)
  assert (Hy : y ≤ (2 ^ 63 - 1) * 2 ^ t).
  { set (T := 2 ^ t) in *. clearbody y T. clear - HP HT Hhi Hfit.
    assert (d * Q * T * (2 ^ 62 + 1) ≤ (2 ^ 63 - 1 - 3) * P * T * (2 ^ 62 + 1)) by (apply Z.mul_le_mono_nonneg_r; nia).
    assert (y * (P * 2 ^ 62) ≤ (2 ^ 63 - 1) * T * (P * 2 ^ 62)) by nia. nia. }
  assert (Hns : 0 ≤ truncate false m' e' ≤ 2 ^ 63 - 1).
  { assert (0 ≤ y) by (unfold y; apply Z.mul_nonneg_nonneg; [lia|apply Z.pow_nonneg; lia]).
    set (T := 2 ^ t) in *. set (ns := truncate false m' e') in *. clearbody y T ns. clear - Htr Hy HT H. nia. }
  exists (truncate false m' e'). split_and!; [| | |lia|lia].
  - rewrite too_large_finite. apply orb_false_intro.
    + apply Z.ltb_ge. destruct (decide (e' ≤ -1)); [done|]. exfalso. unfold y in Hy.
      rewrite Z.pow_add_r, Z.mul_assoc in Hy by lia. assert (HE : 1 ≤ 2 ^ e') by (pose proof (Z.pow_pos_nonneg 2 e'); lia).
      assert (2 ^ 63 * 1 ≤ Z.pos m' * 2 ^ e') by (apply Z.mul_le_mono_nonneg; lia).
      apply (Z.mul_le_mono_pos_r _ _ _ HT) in Hy. lia.
    + apply andb_false_iff. destruct (decide (e' = -1)) as [->|]; [right|left; by apply Z.eqb_neq].
      apply Z.ltb_ge. unfold y in Hy. replace t with (-1 + t + 1) in Hy at 2 by lia.
      rewrite (Z.pow_add_r 2 (-1 + t) 1) in Hy by lia. change (2 ^ 1) with 2 in Hy.
      pose proof (Z.pow_pos_nonneg 2 (-1 + t) ltac:(lia) ltac:(lia)) as HS. set (S := 2 ^ (-1 + t)) in *.
      clear - Hy HS. nia.
  - unfold to_u64. rewrite decide_True; [done|]. word_lia.
  - unfold near. rewrite HPQ. set (T := 2 ^ t) in *. set (ns := truncate false m' e') in *. clearbody y T ns.
    assert (H1 : ns * P * 2 ^ 62 ≤ d * Q * (2 ^ 62 + 1)).
    { apply (Z.mul_le_mono_pos_r _ _ T HT).
      assert (ns * T * (P * 2 ^ 62) ≤ y * (P * 2 ^ 62)) by (apply Z.mul_le_mono_nonneg_r; lia). lia. }
    assert (H2 : d * Q * (2 ^ 62 - 1) < (ns + 1) * P * 2 ^ 62).
    { apply (Z.mul_lt_mono_pos_r T _ _ HT).
      assert (y * (P * 2 ^ 62) < (ns + 1) * T * (P * 2 ^ 62)) by (apply Z.mul_lt_mono_pos_r; lia). lia. }
    clear - H1 H2 HP. lia.
Qed.

(** The delays that the code computes are those of the documentation. *)
Lemma delay_waits o d :
  (mode o = Scaled → speed_ok (speed o)) → 0 ≤ d ≤ u64_max → delay_fits o d →
  ∃ new, delay o d = Some new ∧ waits o d new.
Proof.
  intros Hspeed Hd Hfit. unfold delay. destruct (decide (d = 0)) as [->|H0]; [eexists; split; [done|]; by constructor; left|].
  unfold delay_fits in Hfit. destruct (mode o) eqn:Hmode.
  - eexists. split; [done|]. constructor. tauto.
  - eexists. split; [done|]. unfold nanoseconds_max in Hfit. assert (to_i64 d = d) as ->.
    { unfold to_i64. rewrite u64_small by lia. by rewrite (proj2 (Z.ltb_lt _ _)) by lia. }
    by constructor.
  - specialize (Hspeed eq_refl). destruct (speed o) as [|[]| |[] m e] eqn:Hs; try done.
    + assert (scaled d (S754_infinity false) = S754_zero false) as ->.
      { unfold scaled. destruct d as [|d|d]; [lia| |lia].
        destruct (round_exact 64 16384 ltac:(lia) ltac:(lia) d 0 (digits2_upper d 64 ltac:(lia) ltac:(word_lia))
          ltac:(pose proof (digits2_upper d 64 ltac:(lia) ltac:(word_lia)); cbn [Zdigits2]; lia)) as (m & Hm & _).
        change (of_Z long_double (Z.pos d)) with (binary_round 64 16384 false d 0). by rewrite Hm. }
      eexists. split; [reflexivity|]. apply waits_scaled; [done|done|by rewrite Hs|done].
    + destruct (ratio m e) as [P Q] eqn:HPQ.
      destruct (scaled_near d m e P Q ltac:(lia) Hspeed HPQ Hfit) as (ns & -> & -> & Hnear & Hns).
      eexists. split; [done|]. unfold nanoseconds_max in Hns. assert (to_i64 ns = ns) as ->.
      { unfold to_i64. rewrite u64_small by word_lia. by rewrite (proj2 (Z.ltb_lt _ _)) by lia. }
      apply waits_scaled; [done|done|by rewrite Hs|done].
  - eexists. split; [done|]. constructor. tauto.
Qed.
Lemma effects_paced o (Hspeed : mode o = Scaled → speed_ok (speed o)) rs prev :
  Forall record_ok rs → monotonic prev rs → delays_fit o prev rs → (∀ p, prev = Some p → 0 ≤ p) →
  ∃ acts, effects o prev rs = Some acts ∧ paced o prev rs acts.
Proof.
  intros Hrs. revert prev. induction Hrs as [|r rs Hr _ IH]; intros prev Hmono Hfit Hprev.
  { eexists. split; [done|constructor]. }
  destruct Hmono as [Hle Hmono]. destruct Hfit as [Hd Hfit]. pose proof Hr as [[H0 Hmax] _].
  destruct (IH (Some (monotonic_ns r)) Hmono Hfit ltac:(by intros ? [= <-])) as (acts & Hacts & Hpaced).
  cbn [effects]. rewrite Hacts. destruct prev as [p|]; cbn [delay_since].
  - specialize (Hle p eq_refl). specialize (Hprev p eq_refl).
    destruct (delay_waits o (monotonic_ns r - p) Hspeed ltac:(lia) (Hd p eq_refl)) as (new & -> & Hw).
    eexists. split; [done|]. by constructor.
  - eexists. split; [done|]. by constructor.
Qed.

Lemma length_records rs : (8 * length rs ≤ length (concat (record_bytes <$> rs)))%nat.
Proof.
  induction rs as [|r rs IH]; [done|].
  change (concat (record_bytes <$> r :: rs)) with (record_bytes r ++ concat (record_bytes <$> rs)).
  unfold record_bytes at 1. autorewrite with lens. cbn [length]. lia.
Qed.

(** The start of a run: enough fuel for the records at the front of the file. *)
Lemma run_records o rs acts rest input c c' :
  ¬ (mode o = Scaled ∧ not_positive (speed o) = true) →
  Forall record_ok rs → monotonic None rs → effects o None rs = Some acts → input_passes o (length rs) input →
  calls rs c = (Ret tt, c') → len rs ≤ u64_max →
  ∃ fuel, (0 < fuel)%nat ∧ (rest ≠ [] → (1 < fuel)%nat) ∧
    run (Some (capture_bytes rs ++ rest)) o input c =
    loop fuel o (last_time None rs) (len rs) (mkState (open_in rest) (input_left o (length rs) input) acts c').
Proof.
  intros Hspeed Hrs Hmono Hd Hi Hcalls Hmax. unfold run. rewrite decide_False by done.
  rewrite open_reader_spec, decide_True by done. unfold default, id.
  change (drop 4 (capture_bytes rs ++ rest)) with (concat (record_bytes <$> rs) ++ rest).
  pose proof (length_records rs) as Hlen.
  exists (S (length (capture_bytes rs ++ rest)) - length rs)%nat.
  change (length (capture_bytes rs ++ rest)) with (4 + length (concat (record_bytes <$> rs) ++ rest))%nat.
  rewrite length_app. split_and!; [lia|lia|].
  rewrite <-(loop_records _ o rs None 0 acts rest input [] c c') by (done || lia). f_equal. unfold id. lia.
Qed.

(** C20: A replay delivers a capture, in every mode: if the timestamps do not decrease, the delays can
    be represented and, in step mode, a character is typed for every record, every record is
    passed to the callback once and in order, the number of records is returned, and the loop
    terminates.  In between it waits as the mode says: not at all, as long as the recorded time
    between the records, or that time divided by the speed, up to a nanosecond and a part in 2^62
    of the exact quotient; in step mode it prompts before every record and takes one character. *)
Theorem replay_delivers_every_record o rs input c c' :
  (mode o = Scaled → speed_ok (speed o)) →
  Forall record_ok rs → monotonic None rs → delays_fit o None rs → input_ok o (length rs) input →
  calls rs c = (Ret tt, c') → len rs ≤ u64_max →
  ∃ s, run (Some (capture_bytes rs)) o input c = (Ret (len rs), s) ∧
    client s = c' ∧ paced o None rs (actions s) ∧ step_input s = input_left o (length rs) input.
Proof.
  intros Hspeed Hrs Hmono Hfit Hi Hcalls Hmax.
  destruct (effects_paced o Hspeed rs None Hrs Hmono Hfit) as (acts & Hd & Hpaced); [done|].
  destruct (run_records o rs acts [] input c c') as (fuel & Hfuel & _ & Hrun);
    try done;
    [by apply speed_ok_positive|by apply input_ok_passes|].
  rewrite app_nil_r in Hrun. rewrite Hrun. destruct fuel as [|fuel]; [lia|]. by eexists.
Qed.

(** A timestamp that is smaller than the one before stops the replay with
    [std::runtime_error] before any delay is computed: the records before it have been
    delivered, it and the rest have not. *)
Theorem decreasing_timestamp_stops_replay o rs acts r rest input c c' :
  ¬ (mode o = Scaled ∧ not_positive (speed o) = true) →
  Forall record_ok rs → monotonic None rs → effects o None rs = Some acts → input_ok o (length rs) input →
  calls rs c = (Ret tt, c') → len rs ≤ u64_max →
  record_ok r → (∃ t, last_time None rs = Some t ∧ monotonic_ns r < t) →
  ∃ s, run (Some (capture_bytes rs ++ record_bytes r ++ rest)) o input c =
      (Throw (RuntimeError "capture timestamps are not monotonic"), s) ∧
    client s = c' ∧ actions s = acts.
Proof.
  intros Hspeed Hrs Hmono Hd Hi Hcalls Hmax Hr (t & Ht & Hlt).
  destruct (run_records o rs acts (record_bytes r ++ rest) input c c') as (fuel & Hfuel & _ & Hrun); try done;
    [by apply input_ok_passes|].
  rewrite Hrun, Ht. destruct fuel as [|fuel]; [lia|]. cbn [loop].
  unfold mbind at 1, M_bind at 1, on_reader at 1. cbn [reader]. rewrite next_record by done.
  unfold mbind at 1, M_bind at 1, pace. rewrite (proj2 (Z.ltb_lt _ _)) by done. by eexists.
Qed.

Lemma step_effects sp prev rs : effects (mkOptions Step sp) prev rs = Some (replicate (length rs) Prompt).
Proof.
  revert prev. induction rs as [|r rs IH]; intros prev; [done|]. cbn [effects].
  assert (delay_since (mkOptions Step sp) prev r = Some []) as ->.
  { destruct prev; [|done]. cbn [delay_since]. unfold delay. by case_decide. }
  cbn [mbind option_bind]. rewrite IH. done.
Qed.

(** Step mode does not notice the end of its input: [!input.get()] compares with zero, and
    [get] returns -1 there.  Without any input the whole capture is replayed; what the code
    reports as the end of the input is the character zero. *)
Theorem end_of_step_input_is_not_detected sp r rs input c c' :
  Forall record_ok (r :: rs) → monotonic None (r :: rs) → calls (r :: rs) c = (Ret tt, c') → len (r :: rs) ≤ u64_max →
  (∃ s, run (Some (capture_bytes (r :: rs))) (mkOptions Step sp) [] c = (Ret (len (r :: rs)), s) ∧ client s = c') ∧
  (∃ s, run (Some (capture_bytes (r :: rs))) (mkOptions Step sp) (Byte.x00 :: input) c =
     (Throw (RuntimeError "step replay input ended"), s) ∧ client s = c).
Proof.
  intros Hrs Hmono Hcalls Hmax. split.
  - destruct (run_records (mkOptions Step sp) (r :: rs) _ [] [] c c' ltac:(by intros [? ?]) Hrs Hmono (step_effects sp None _))
      as (fuel & Hfuel & _ & Hrun); [|done..|].
    { intros _. rewrite take_nil. apply not_elem_of_nil. }
    rewrite app_nil_r in Hrun. rewrite Hrun. destruct fuel as [|fuel]; [lia|]. by eexists.
  - unfold run. rewrite decide_False by (by intros [? ?]). rewrite <-(app_nil_r (capture_bytes _)).
    rewrite open_reader_spec, decide_True by done. cbn [loop]. unfold mbind at 1, M_bind at 1, on_reader at 1. cbn [reader].
    change (drop 4 (capture_bytes (r :: rs) ++ [])) with ((record_bytes r ++ concat (record_bytes <$> rs)) ++ []).
    apply Forall_cons in Hrs as [Hr _]. rewrite <-app_assoc, next_record by done. by eexists.
Qed.

Lemma scaled_nan d : scaled d S754_nan = S754_nan.
Proof. unfold scaled, div. by destruct (of_Z long_double d). Qed.

(** A speed that is not a number passes the test [speed <= 0.0], and the first delay is then
    undefined: a NaN is converted to an integer. *)
Theorem nan_speed_is_undefined r1 r2 rest input c c' :
  record_ok r1 → record_ok r2 → monotonic_ns r1 < monotonic_ns r2 → callback r1 c = (Ret tt, c') →
  ∃ s, run (Some (capture_bytes [r1; r2] ++ rest)) (mkOptions Scaled S754_nan) input c =
    (Undef "NaN or infinity converted to uint64_t", s).
Proof.
  intros Hr1 Hr2 Hlt Hcall. pose proof Hr1 as [[H0 _] _]. pose proof Hr2 as [[_ Hmax] _].
  destruct (run_records (mkOptions Scaled S754_nan) [r1] [] (record_bytes r2 ++ rest) input c c')
    as (fuel & Hfuel & Hmore & Hrun).
  - by intros [_ ?].
  - by constructor.
  - split; [by intros|done].
  - done.
  - by intros ?.
  - cbn. unfold mbind, M_bind. by rewrite Hcall.
  - word_lia.
  - assert (capture_bytes [r1; r2] ++ rest = capture_bytes [r1] ++ record_bytes r2 ++ rest) as ->.
    { unfold capture_bytes. cbn [fmap list_fmap concat]. by rewrite <-!app_assoc. }
    rewrite Hrun. destruct fuel as [|fuel]; [lia|]. cbn [loop].
    unfold mbind at 1, M_bind at 1, on_reader at 1. cbn [reader]. rewrite next_record by done.
    unfold mbind at 1, M_bind at 1. cbn [last_time]. unfold pace. rewrite (proj2 (Z.ltb_ge _ _)) by lia.
    rewrite u64_small by lia. unfold mbind at 1, M_bind at 1. cbn [mode speed].
    rewrite (decide_False (P := Scaled = Realtime ∧ _)) by (by intros [? ?]).
    rewrite (decide_True (P := Scaled = Scaled ∧ _)) by (split; [done|lia]).
    rewrite scaled_nan. by eexists.
Qed.
End replay.

(** * Examples *)

(** A callback that collects the records, and the speed 2.0. *)
Definition collect (r : CaptureRecord) : M (list CaptureRecord) unit := modify (λ l, l ++ [r]).
Definition sample : list CaptureRecord := [mkRecord 0 [Byte.x41]; mkRecord 1000 []; mkRecord 1000 []; mkRecord 5000 []].
Definition double_speed : ReplayOptions := mkOptions Scaled (of_Z double 2).
Definition step_by_step : ReplayOptions := mkOptions Step (of_Z double 1).
Lemma sample_ok : Forall record_ok sample.
Proof. decided. Qed.
Lemma sample_monotonic : monotonic None sample.
Proof. cbn. split_and!; intros; simplify_eq; lia. Qed.

(** The four records at twice the speed, and with four characters for step mode. *)
Lemma replay_delivers_every_record_witness :
  (∃ s, run collect [Byte.x66] (Some (capture_bytes sample)) double_speed [] [] = (Ret 4, s) ∧
    client s = sample ∧ paced double_speed None sample (actions s) ∧ step_input s = []) ∧
  (∃ s, run collect [Byte.x66] (Some (capture_bytes sample)) step_by_step (replicate 5 Byte.x0a) [] = (Ret 4, s) ∧
    client s = sample ∧ paced step_by_step None sample (actions s) ∧ step_input s = [Byte.x0a]).
Proof.
  split.
  - apply (replay_delivers_every_record collect [Byte.x66] double_speed sample [] [] sample).
    + intros _. vm_compute. reflexivity.
    + exact sample_ok.
    + exact sample_monotonic.
    + cbn. split_and!; [|intros p [= <-]; vm_compute; discriminate..|done]. intros p [=].
    + intros H. discriminate H.
    + reflexivity.
    + word_lia.
  - apply (replay_delivers_every_record collect [Byte.x66] step_by_step sample (replicate 5 Byte.x0a) [] sample).
    + intros H. discriminate H.
    + exact sample_ok.
    + exact sample_monotonic.
    + cbn. by split_and!.
    + intros _. by decided.
    + reflexivity.
    + word_lia.
Defined.

Lemma decreasing_timestamp_stops_replay_witness :
  ∃ s, run collect [Byte.x66] (Some (capture_bytes sample ++ record_bytes (mkRecord 4999 []) ++ [Byte.x00]))
         double_speed [] [] =
      (Throw (RuntimeError "capture timestamps are not monotonic"), s) ∧
    client s = sample ∧ actions s = [SleepFor 500; SleepFor 2000].
Proof.
  apply (decreasing_timestamp_stops_replay collect [Byte.x66] double_speed sample
           [SleepFor 500; SleepFor 2000] (mkRecord 4999 []) [Byte.x00] [] [] sample).
  - intros [_ H]. discriminate H.
  - exact sample_ok.
  - exact sample_monotonic.
  - vm_compute. reflexivity.
  - intros H. discriminate H.
  - reflexivity.
  - word_lia.
  - decided.
  - exists 5000. split; [reflexivity|]. cbn. lia.
Defined.

Lemma end_of_step_input_is_not_detected_witness :
  (∃ s, run collect [Byte.x66] (Some (capture_bytes sample)) step_by_step [] [] = (Ret 4, s) ∧ client s = sample) ∧
  (∃ s, run collect [Byte.x66] (Some (capture_bytes sample)) step_by_step [Byte.x00] [] =
     (Throw (RuntimeError "step replay input ended"), s) ∧ client s = []).
Proof.
  apply (end_of_step_input_is_not_detected collect [Byte.x66] (of_Z double 1) (mkRecord 0 [Byte.x41])
           [mkRecord 1000 []; mkRecord 1000 []; mkRecord 5000 []] [] [] sample).
  - exact sample_ok.
  - exact sample_monotonic.
  - reflexivity.
  - word_lia.
Defined.

Lemma nan_speed_is_undefined_witness :
  ∃ s, run collect [Byte.x66] (Some (capture_bytes [mkRecord 0 [Byte.x41]; mkRecord 7 []] ++ [])) (mkOptions Scaled S754_nan) [] [] =
    (Undef "NaN or infinity converted to uint64_t", s).
Proof.
  apply (nan_speed_is_undefined collect [Byte.x66] (mkRecord 0 [Byte.x41]) (mkRecord 7 []) [] [] [] [mkRecord 0 [Byte.x41]]).
  - decided.
  - decided.
  - cbn. lia.
  - reflexivity.
Defined.
End Replay.
