(* ===== verification/UdpReceiver.v ===== *)
(** The multicast socket: [include/efe/udp_receiver.hpp] and [src/udp_receiver.cpp].  The operating
    system is a set of open descriptors, the bytes waiting in the wake pipe, and the answers its
    calls give, which are arguments.  Another thread may call [request_stop] at any time; it does
    so as part of the answer of a call that blocks. *)
From S2P Require Import Prelude ByteReader.
From Stdlib Require Import Strings.Byte.
#[local] Open Scope list_scope.
#[local] Open Scope Z_scope.

Module UdpReceiver.

(** [error_text] is what [std::strerror(errno)] says after a call that failed. *)
Record Kernel : Type := mkKernel {
  open_fds : gset Z;
  wake_bytes : Z;
  datagrams_sent : list (list byte);
  error_text : string }.

Definition k_open (fd : Z) : M Kernel unit :=
  modify (λ k, mkKernel ({[fd]} ∪ open_fds k) (wake_bytes k) (datagrams_sent k) (error_text k)).
Definition close (fd : Z) : M Kernel unit :=
  modify (λ k, mkKernel (open_fds k ∖ {[fd]}) (wake_bytes k) (datagrams_sent k) (error_text k)).
Definition sys_error (what : string) (k : Kernel) : exn := RuntimeError (what +:+ ": " +:+ error_text k).
Definition sys_fail {A} (what : string) : M Kernel A := k ← get; throw (sys_error what k).

Record t : Type := mk { fd_ : Z; wake_read_fd_ : Z; wake_write_fd_ : Z; stop_requested_ : bool }.
Definition stop_requested (u : t) : bool := stop_requested_ u.

(** * Construction and destruction *)

(** The answers to the calls of the constructor, in order; [None] is failure. *)
Record Setup : Type := mkSetup {
  socket : option Z;
  reuse_ok : bool;
  bind_ok : bool;
  group_ok : bool;
  any_interface : bool;
  interface_ok : bool;
  membership_ok : bool;
  pipe : option (Z * Z) }.

Definition require (ok : bool) (what : string) : M Kernel unit := if ok then mret tt else sys_fail what.
Definition convert (ok : bool) (what : string) : M Kernel unit := if ok then mret tt else throw (RuntimeError what).

Definition new (a : Setup) : M Kernel t :=
  match socket a with
  | None => sys_fail "socket"
  | Some candidate =>
      k_open candidate;;
      catch_rethrow
        (require (reuse_ok a) "setsockopt SO_REUSEADDR";;
         require (bind_ok a) "bind";;
         convert (group_ok a) "invalid multicast group";;
         (if any_interface a then mret tt else convert (interface_ok a) "invalid interface IP");;
         require (membership_ok a) "IP_ADD_MEMBERSHIP";;
         match pipe a with
         | None => sys_fail "pipe"
         | Some (r, w) => k_open r;; k_open w;; mret (mk candidate r w false)
         end)
        (close candidate)
  end.

Definition destroy (u : t) : M Kernel unit :=
  (if 0 <=? fd_ u then close (fd_ u) else mret tt);;
  (if 0 <=? wake_read_fd_ u then close (wake_read_fd_ u) else mret tt);;
  (if 0 <=? wake_write_fd_ u then close (wake_write_fd_ u) else mret tt).

(** * Operations *)

(** The object and the operating system. *)
Record State : Type := mkState { object : t; kernel : Kernel }.

Definition set_stop (u : t) : t := mk (fd_ u) (wake_read_fd_ u) (wake_write_fd_ u) true.

(** [exchange(true)], and one byte into the wake pipe the first time. *)
Definition request_stop (s : State) : State :=
  let u := object s in
  let k := kernel s in
  if stop_requested_ u then s
  else
    mkState (set_stop u)
      (if 0 <=? wake_write_fd_ u then mkKernel (open_fds k) (wake_bytes k + 1) (datagrams_sent k) (error_text k) else k).

(** The answer of one [poll], and of the [recv] that follows it: [stopped_in_poll] and
    [stopped_in_recv] say that the other thread called [request_stop] meanwhile.  [PollReady] is a
    poll that returns for the socket; with [PollIdle] nothing arrives at the socket, and the poll
    returns only if there is a byte in the wake pipe. *)
Variant PollResult : Type := PollFailed (interrupted : bool) | PollReady | PollIdle.
Record Answer : Type := mkAnswer {
  poll_result : PollResult;
  stopped_in_poll : bool;
  recv_result : option (list byte);
  stopped_in_recv : bool }.

(** [sys_fail], in a member function. *)
Definition fail {A} (what : string) : M State A := s ← get; throw (sys_error what (kernel s)).
Definition interfere (stops : bool) : M State unit := modify (if stops then request_stop else λ s, s).

(** [stop_requested()], and [(descriptors[1].revents & POLLIN) != 0]. *)
Definition load_stop : M State bool := λ s, (Ret (stop_requested (object s)), s).
Definition wake_ready : M State bool := λ s, (Ret (0 <? wake_bytes (kernel s)), s).

Definition blocked {A} : M State A := λ s, (OutOfFuel, s).

(** The default argument of [receive]. *)
Definition max_datagram : Z := 65536.
(** [receive], one answer per turn; [OutOfFuel] stands for a call that is still blocked when the
    answers end.  [recv] cuts a datagram to the size of the buffer. *)
Fixpoint receive (size : Z) (answers : list Answer) : M State (list byte) :=
  stop ← load_stop;
  if stop : bool then mret []
  else
    match answers with
    | [] => blocked
    | a :: answers =>
        interfere (stopped_in_poll a);;
        match poll_result a with
        | PollFailed interrupted =>
            if interrupted then receive size answers else fail "poll"
        | PollIdle => wake ← wake_ready; if wake : bool then mret [] else blocked
        | PollReady =>
            wake ← wake_ready;
            stop ← load_stop;
            if (wake || stop : bool) then mret []
            else
              interfere (stopped_in_recv a);;
              match recv_result a with
              | None => stop ← load_stop; if stop : bool then mret [] else fail "recv"
              | Some d => mret (take (Z.to_nat size) d)
              end
        end
    end.

(** [sent] is what [sendto] returned. *)
Definition send_unicast (host_ok : bool) (bytes : list byte) (sent : Z) : M State unit :=
  if negb host_ok then throw (RuntimeError "invalid rerequest host")
  else
    modify (λ s, mkState (object s) (mkKernel (open_fds (kernel s)) (wake_bytes (kernel s)) (datagrams_sent (kernel s) ++ [bytes]) (error_text (kernel s))));;
    if (sent <? 0) || negb (sent =? len bytes) then fail "sendto" else mret tt.

(** * Descriptors *)

(** POSIX: a new descriptor is not negative, and not one that is open. *)
Record fresh (a : Setup) (k : Kernel) : Prop := {
  fresh_socket fd : socket a = Some fd → 0 ≤ fd ∧ fd ∉ open_fds k;
  fresh_pipe fd r w : socket a = Some fd → pipe a = Some (r, w) →
    0 ≤ r ∧ 0 ≤ w ∧ r ≠ w ∧ r ≠ fd ∧ w ≠ fd ∧ (r ∉ open_fds k) ∧ (w ∉ open_fds k)
}.

(** The constructor and the destructor on every path. *)
Lemma new_then_destroy a k :
  fresh a k →
  match new a k with
  | (Ret u, k') =>
      open_fds k' = ({[fd_ u; wake_read_fd_ u; wake_write_fd_ u]} ∪ open_fds k : gset Z) ∧
      size (open_fds k') = (3 + size (open_fds k))%nat ∧
      ∃ k'', destroy u k' = (Ret tt, k'') ∧ open_fds k'' = open_fds k
  | (Throw (RuntimeError _), k') => open_fds k' = open_fds k
  | _ => False
  end.
Proof.
  intros [Hfd Hpipe]. unfold new. destruct (socket a) as [fd|] eqn:Hs; [|done].
  destruct (Hfd fd eq_refl) as [Hfd0 Hfd1].
  assert (Hclose : ({[fd]} ∪ open_fds k) ∖ {[fd]} = open_fds k) by set_solver.
  unfold mbind, M_bind, k_open, catch_rethrow, require, modify.
  destruct (reuse_ok a); [|exact Hclose]. destruct (bind_ok a); [|exact Hclose].
  destruct (group_ok a); [|exact Hclose].
  destruct (any_interface a), (interface_ok a); try exact Hclose;
    (destruct (membership_ok a); [|exact Hclose]);
    (destruct (pipe a) as [[r w]|]; [|exact Hclose]);
    destruct (Hpipe fd r w eq_refl eq_refl) as (Hr0 & Hw0 & Hrw & Hrf & Hwf & Hr & Hw); cbn;
    (split; [set_solver|]); (split; [rewrite !size_union, !size_singleton by (set_solver); lia|]);
    unfold destroy; cbn; rewrite !(proj2 (Z.leb_le _ _)) by done;
    (eexists; split; [reflexivity|]); cbn; set_solver.
Qed.

(** C34: The socket object leaks no descriptor.  The constructor either throws
    [std::runtime_error] and leaves exactly the descriptors open that were open before, whichever
    of its calls failed, or returns an object that holds three new ones, which the destructor
    closes again. *)
Theorem no_descriptor_leaks a k :
  fresh a k →
  match new a k with
  | (Ret u, k') =>
      open_fds k' = ({[fd_ u; wake_read_fd_ u; wake_write_fd_ u]} ∪ open_fds k : gset Z) ∧
      size (open_fds k') = (3 + size (open_fds k))%nat ∧
      ∃ k'', destroy u k' = (Ret tt, k'') ∧ open_fds k'' = open_fds k
  | (Throw (RuntimeError _), k') => open_fds k' = open_fds k
  | _ => False
  end.
Proof. apply new_then_destroy. Qed.

Lemma no_descriptor_leaks_witness :
  let a := mkSetup (Some 3) true true true true true true (Some (4, 5)) in
  let k := mkKernel {[0; 1; 2]} 0 [] "Bad address" in
  fresh a k ∧
  match new a k with
  | (Ret u, k') =>
      open_fds k' = ({[fd_ u; wake_read_fd_ u; wake_write_fd_ u]} ∪ open_fds k : gset Z) ∧
      size (open_fds k') = (3 + size (open_fds k))%nat ∧
      ∃ k'', destroy u k' = (Ret tt, k'') ∧ open_fds k'' = open_fds k
  | (Throw (RuntimeError _), k') => open_fds k' = open_fds k
  | _ => False
  end.
Proof.
  intros a k. assert (Hfresh : fresh a k).
  { split.
    - intros fd [= <-]. split; [lia|]. unfold k. cbn. set_solver.
    - intros fd r w [= <-] [= <- <-]. split_and!; try lia; unfold k; cbn; set_solver. }
  split; [exact Hfresh|]. exact (no_descriptor_leaks a k Hfresh).
Defined.

(** The operations open and close nothing, and the destructor looks at nothing but the open
    descriptors. *)
Definition fds (s : State) : gset Z := open_fds (kernel s).
Lemma request_stop_fds s : fds (request_stop s) = fds s.
Proof. unfold request_stop, fds. destruct (stop_requested_ (object s)); [done|]. by destruct (0 <=? _). Qed.
Lemma receive_fds size l s : fds (receive size l s).2 = fds s.
Proof.
  assert (Hinterfere : ∀ b s, fds ((if b : bool then request_stop else λ s, s) s) = fds s).
  { intros [] s'; [apply request_stop_fds|done]. }
  revert s. induction l as [|a l IH]; intros s; cbn [receive]; unfold mbind, M_bind, load_stop, interfere, modify;
    destruct (stop_requested (object s)); try done.
  destruct (poll_result a) as [[|]| |]; [by rewrite IH|apply Hinterfere| |].
  2: { unfold wake_ready. case_match; apply Hinterfere. }
  unfold wake_ready. case_match; [apply Hinterfere|].
  destruct (recv_result a); [cbn; by rewrite !Hinterfere|]. match goal with |- context [if ?b then mret [] else _] => destruct b end; unfold fail, mbind, M_bind; cbn; by rewrite !Hinterfere.
Qed.
Lemma send_unicast_fds host bytes sent s : fds (send_unicast host bytes sent s).2 = fds s.
Proof. unfold send_unicast. destruct host; [|done]. unfold mbind, M_bind, modify. cbn. by case_match. Qed.
Lemma destroy_after u k k1 k' :
  destroy u k = (Ret tt, k') → open_fds k1 = open_fds k →
  ∃ k1', destroy u k1 = (Ret tt, k1') ∧ open_fds k1' = open_fds k' ∧ datagrams_sent k1' = datagrams_sent k1.
Proof.
  unfold destroy, close, mbind, M_bind, mret, M_ret, modify. intros Hd Heq.
  destruct (0 <=? fd_ u), (0 <=? wake_read_fd_ u), (0 <=? wake_write_fd_ u); cbn in *; simplify_eq;
    eexists; (split; [reflexivity|]); cbn; (split; [by rewrite ?Heq|done]).
Qed.

(** * Datagrams *)

(** Without a stop request a waiting datagram is received, cut to the buffer, and sending succeeds
    when the system takes the whole datagram. *)
Definition ready (d : list byte) : Answer := mkAnswer PollReady false (Some d) false.
Definition running (s : State) : Prop := stop_requested (object s) = false ∧ wake_bytes (kernel s) = 0.
Lemma receive_ready size d l s : running s → receive size (ready d :: l) s = (Ret (take (Z.to_nat size) d), s).
Proof.
  intros [Hs Hw]. cbn [receive]. unfold mbind, M_bind, load_stop, interfere, modify. rewrite Hs. cbn [ready stopped_in_poll poll_result].
  unfold wake_ready. by rewrite Hw, Hs.
Qed.
Definition after_send (d : list byte) (s : State) : State :=
  mkState (object s) (mkKernel (open_fds (kernel s)) (wake_bytes (kernel s)) (datagrams_sent (kernel s) ++ [d]) (error_text (kernel s))).
Definition after_sends (ds : list (list byte)) (s : State) : State := foldl (λ s d, after_send d s) s ds.
Lemma after_sends_app ds ds' s : after_sends (ds ++ ds') s = after_sends ds' (after_sends ds s).
Proof. apply foldl_app. Qed.
Lemma after_sends_running ds s : running s → running (after_sends ds s).
Proof. revert s. induction ds as [|d ds IH]; intros s Hs; [done|]. by apply IH. Qed.
Lemma after_sends_object ds s : object (after_sends ds s) = object s.
Proof. revert s. induction ds as [|d ds IH]; intros s; [done|]. by apply (IH (after_send d s)). Qed.
Lemma after_sends_kernel ds s :
  fds (after_sends ds s) = fds s ∧ datagrams_sent (kernel (after_sends ds s)) = datagrams_sent (kernel s) ++ ds.
Proof.
  revert s. induction ds as [|d ds IH]; intros s; [cbn; by rewrite app_nil_r|].
  change (after_sends (d :: ds) s) with (after_sends ds (after_send d s)). destruct (IH (after_send d s)) as [-> ->]. cbn. by rewrite <-app_assoc.
Qed.
(** A new socket is running. *)
Lemma new_running a k u k' :
  new a k = (Ret u, k') → wake_bytes k = 0 →
  running (mkState u k') ∧ datagrams_sent k' = datagrams_sent k.
Proof.
  unfold new, mbind, M_bind, catch_rethrow, require, convert, k_open, modify, running. intros Hnew Hw.
  destruct (socket a); [|done].
  destruct (reuse_ok a); [|done]. destruct (bind_ok a); [|done]. destruct (group_ok a); [|done].
  destruct (any_interface a), (interface_ok a); try done;
    (destruct (membership_ok a); [|done]);
    (destruct (pipe a) as [[r w]|]; [|done]); cbn in Hnew; by injection Hnew as <- <-.
Qed.
Lemma send_unicast_whole d s : send_unicast true d (len d) s = (Ret tt, after_send d s).
Proof.
  unfold send_unicast, mbind, M_bind, modify. cbn. rewrite (proj2 (Z.ltb_ge _ _)), Z.eqb_refl by lia. done.
Qed.

(** * Stopping *)

Lemma request_stop_stops s : stop_requested (object (request_stop s)) = true.
Proof. unfold request_stop, stop_requested. destruct (stop_requested_ (object s)) eqn:E; [done|by cbn]. Qed.
Lemma receive_stopped max answers s :
  stop_requested (object s) = true → receive max answers s = (Ret [], s).
Proof. intros Hs. destruct answers; cbn [receive]; unfold mbind, M_bind, load_stop; by rewrite Hs. Qed.

(** What a stop request leaves alone. *)
Lemma request_stop_kernel s :
  fds (request_stop s) = fds s ∧ datagrams_sent (kernel (request_stop s)) = datagrams_sent (kernel s).
Proof.
  split; [apply request_stop_fds|]. unfold request_stop. destruct (stop_requested_ (object s)); [done|]. by destruct (0 <=? _).
Qed.
Lemma request_stop_idempotent s : request_stop (request_stop s) = request_stop s.
Proof.
  pose proof (request_stop_stops s) as Hs. unfold request_stop at 1. unfold stop_requested in Hs. by rewrite Hs.
Qed.

(** A stop request ends [receive].  A call that starts after the request returns an empty
    datagram without a system call, and one that is blocked returns an empty datagram once its
    poll has answered: because of the byte in the wake pipe even if nothing arrives any more, but also
    if a datagram is waiting as well and however often the poll was interrupted before.  All that
    has changed is the flag and the pipe; requests after the first write nothing more to it. *)
Theorem stop_ends_receive max before a after s :
  0 ≤ wake_bytes (kernel s) → 0 ≤ wake_write_fd_ (object s) → stop_requested (object s) = false →
  Forall (λ b, poll_result b = PollFailed true) before → poll_result a ≠ PollFailed false →
  stopped_in_poll a = true →
  receive max (before ++ a :: after) s = (Ret [], request_stop s) ∧
  (∀ answers, receive max answers (request_stop s) = (Ret [], request_stop s)) ∧
  request_stop (request_stop s) = request_stop s.
Proof.
  intros Hbytes Hfd Hs Hbefore Ha Hstop.
  assert (Hall : ∀ l, receive max l (request_stop s) = (Ret [], request_stop s)).
  { intros l. apply receive_stopped, request_stop_stops. }
  split; [|split; [exact Hall|apply request_stop_idempotent]].
  induction Hbefore as [|b before Hb _ IH]; cbn [app receive]; unfold mbind, M_bind, load_stop, interfere, modify; rewrite Hs.
  - rewrite Hstop. destruct (poll_result a) as [[|]| |]; [apply Hall|done| |]; unfold wake_ready.
    + by rewrite request_stop_stops, orb_true_r.
    + assert ((0 <? wake_bytes (kernel (request_stop s))) = true) as ->; [|done].
      unfold request_stop. unfold stop_requested in Hs. rewrite Hs, (proj2 (Z.leb_le _ _)) by done. apply Z.ltb_lt. cbn. lia.
  - rewrite Hb. destruct (stopped_in_poll b); [apply Hall|exact IH].
Qed.
Lemma stop_ends_receive_witness :
  let interrupted := mkAnswer (PollFailed true) false None false in
  let silent := mkAnswer PollIdle true None false in
  let s := mkState (mk 3 4 5 false) (mkKernel {[3; 4; 5]} 0 [] "Bad address") in
  receive 65536 ([interrupted] ++ silent :: []) s = (Ret [], request_stop s) ∧
  (∀ answers, receive 65536 answers (request_stop s) = (Ret [], request_stop s)) ∧
  request_stop (request_stop s) = request_stop s.
Proof.
  intros interrupted silent s. apply (stop_ends_receive 65536 [interrupted] silent [] s).
  - done.
  - done.
  - reflexivity.
  - constructor; [reflexivity|constructor].
  - discriminate.
  - reflexivity.
Defined.
End UdpReceiver.
