(* ===== verification/Tests.v ===== *)
(** The repository's tests as programs on this model: [tests/test_support.hpp], the fixed part of
    [tests/test_order_book.cpp], [tests/test_itch.cpp], [tests/test_transport.cpp],
    [tests/test_capture_replay.cpp], [tests/test_network.cpp] and [tests/protocolc_tests.cmake].  The decoder is built with
    the header that the compiler emits.  That every test passes says that the model makes the
    observations that the repository expects of the program.  [SystemTests], [PropertyTests] and [RandomBookTest] hold
    the other tests. *)
From S2P Require Import Prelude Floats Types FlatOrderIndex BookSpec OrderBook ByteReader MoldUdp64 RecoveryEngine ProtocolCompiler Itch50Schema Emitter ProtocolProofs GeneratedHeader Cpp EmittedHeader ItchDecoder ItchProofs Capture Replay UdpReceiver.
From Stdlib Require Import Strings.Byte.
#[local] Open Scope list_scope.
#[local] Open Scope Z_scope.
Import ByteReader MoldUdp64.

(** * tests/test_support.hpp *)

Module Test.

(** The state of a test is the number of failures. *)
Definition T : Type → Type := M Z.

Definition check (condition : bool) : T unit := modify (λ failures, if condition then failures else failures + 1).
(** An operation of an object that the test holds. *)
Definition call {S A} (m : M S A) (s : S) : T (A * S) := lift (a ← (m s).1; Ret (a, (m s).2)).
(** [throws<Exception>(function)]; another exception passes through. *)
Definition throws {A} (exception : exn → bool) (o : outcome A) : T unit :=
  match o with
  | Ret _ => check false
  | Throw e => if exception e then mret tt else throw e
  | Undef why => undef why
  | OutOfFuel => lift OutOfFuel
  end.
Definition decode_error (e : exn) : bool := match e with DecodeError _ => true | _ => false end.
Definition invalid_argument (e : exn) : bool := match e with InvalidArgument _ => true | _ => false end.
(** [DecodeError] and [std::overflow_error] are derived from [std::runtime_error]. *)
Definition runtime_error (e : exn) : bool :=
  match e with DecodeError _ | RuntimeError _ | OverflowError _ => true | _ => false end.
Definition finish : T Z := failures ← get; mret (if failures =? 0 then 0 else 1).
(** The exit code of [main]. *)
Definition exit_code (main : T Z) : outcome Z := (main 0).1.

Definition put_u16 (b : list byte) (offset value : Z) : outcome (list byte) :=
  b ← set_byte b offset (Z.shiftr value 8); set_byte b (offset + 1) value.
Definition put_u32 (b : list byte) (offset value : Z) : outcome (list byte) := write_loop b offset 4 value.
Definition put_u48 (b : list byte) (offset value : Z) : outcome (list byte) := write_loop b offset 6 value.
Definition put_u64 (b : list byte) (offset value : Z) : outcome (list byte) := write_loop b offset 8 value.
Definition put_ascii (b : list byte) (offset : Z) (width : nat) (value : list byte) : outcome (list byte) :=
  Put.put_ascii b offset width value.

Definition base (type : byte) (size : nat) : outcome (list byte) :=
  b ← set_byte (replicate size Byte.x00) 0 (Z_of_byte type);
  b ← put_u16 b 1 0x1234;
  b ← put_u16 b 3 0x5678;
  put_u48 b 5 0x010203040506.

Fixpoint mold_messages (b : list byte) (offset : Z) (ms : list (list byte)) : outcome (list byte) :=
  match ms with
  | [] => Ret b
  | m :: ms =>
      b ← put_u16 b offset (u16 (len m));
      b ← blit b (offset + 2) m;
      mold_messages b (offset + 2 + len m) ms
  end.
Definition mold (first : Z) (ms : list (list byte)) (count_override : Z) : outcome (list byte) :=
  let size := foldl (λ size m, size + (2 + len m)) 20 ms in
  b ← put_ascii (replicate (Z.to_nat size) Byte.x00) 0 10 (bs "TEST");
  b ← put_u64 b 10 first;
  b ← put_u16 b 18 (if count_override =? 0 then u16 (len ms) else count_override);
  mold_messages b 20 ms.

(** The test reaches the end of [m] without a failed check. *)
Definition passes {A} (m : T A) (a : A) : Prop := ∀ failures, m failures = (Ret a, failures).
Lemma passes_bind {A B} (m : T A) (k : A → T B) a b : passes m a → passes (k a) b → passes (m ≫= k) b.
Proof. intros Hm Hk failures. unfold mbind, M_bind. rewrite Hm. apply Hk. Qed.
Lemma exit_code_bind {A} (m : T A) (k : A → T Z) a r :
  passes m a → exit_code (k a) = r → exit_code (m ≫= k) = r.
Proof. intros Hm Hk. unfold exit_code, mbind, M_bind. by rewrite Hm. Qed.
Lemma passes_lift {A} (o : outcome A) a : o = Ret a → passes (lift o) a.
Proof. by intros -> failures. Qed.
Lemma passes_check b : b = true → passes (check b) tt.
Proof. by intros -> failures. Qed.
Lemma passes_call {S A} (m : M S A) s a s' : m s = (Ret a, s') → passes (call m s) (a, s').
Proof. intros Hm failures. unfold call. by rewrite Hm. Qed.
Lemma passes_ret {A} (a : A) : passes (mret a) a.
Proof. done. Qed.
End Test.
Import Test.

(** * tests/test_order_book.cpp, up to the random transitions *)

Module TestOrderBook.
Import OrderBook.
Definition aapl : Symbol.t := Symbol.from_string (bs "AAPL").
Definition msft : Symbol.t := Symbol.from_string (bs "MSFT").
Definition no_meta : EventMeta := mkMeta 0 0 0.
Definition add_ (id : Z) (sym : Symbol.t) (s : Side) (q p : Z) : MarketEvent := Add (mkAdd no_meta (mkOrder id sym s q p)).
Definition execute_ (id q : Z) : MarketEvent := Execute (mkExecute no_meta id q 0 false 0 true).
Definition cancel_ (id q : Z) : MarketEvent := Cancel (mkCancel no_meta id q).
Definition erase_ (id : Z) : MarketEvent := Delete (mkDelete no_meta id).
Definition replace_ (old new q p : Z) : MarketEvent := Replace (mkReplace no_meta old new q p).

(** [CHECK(book.add(...))] and [CHECK(!book.add(...))], for each of the operations. *)
Definition expect (e : MarketEvent) (result : bool) (book : t) : T t :=
  '(ok, book) ← call (apply e) book; check (bool_decide (ok = result));; mret book.
Fixpoint expect_all (es : list (MarketEvent * bool)) (book : t) : T t :=
  match es with [] => mret book | (e, r) :: es => book ← expect e r book; expect_all es book end.
Definition found (book : t) (id : Z) : T bool := o ← lift (find book id); mret (bool_decide (is_Some o)).
Definition first_queue (book : t) (ids : list Z) : T unit :=
  l ← lift (bid_levels book aapl);
  match l with
  | l :: _ => check (bool_decide (fifo_order_ids l = ids))
  | [] => undef "[0]: empty vector"
  end.

Definition operations : T unit :=
  book ← lift (new 8);
  book ← expect_all [(add_ 1 aapl Buy 100 1000, true); (add_ 2 aapl Buy 200 1000, true);
    (add_ 3 aapl Sell 50 1010, true); (add_ 1 aapl Buy 1 999, false)] book;
  check (bool_decide (best_bid book aapl = Some 1000));;
  check (bool_decide (best_ask book aapl = Some 1010));;
  first_queue book [1; 2];;
  book ← expect_all [(execute_ 99 1, false); (execute_ 1 101, false); (execute_ 1 25, true)] book;
  o ← lift (find book 1);
  check (bool_decide (quantity <$> o = Some 75));;
  book ← expect_all [(cancel_ 1 76, false); (cancel_ 1 75, true)] book;
  first_queue book [2];;
  book ← expect (erase_ 3) true book;
  check (bool_decide (best_ask book aapl = None));;
  book ← expect_all [(erase_ 3, false); (replace_ 2 4 150 1005, true)] book;
  old ← found book 2; new ← found book 4; check (negb old && new).

Definition capacity : T unit :=
  full ← lift (new 1);
  full ← expect_all [(add_ 10 aapl Buy 10 10, true); (replace_ 10 11 20 11, true)] full;
  old ← found full 10; new ← found full 11; check (negb old && new);;
  full ← expect (replace_ 11 0 20 12) false full;
  kept ← found full 11; check kept;;
  full ← expect_all [(add_ 12 aapl Sell 1 12, false); (erase_ 11, true); (add_ 12 aapl Sell 1 12, true)] full;
  check (live_order_count full =? 1).

Definition isolation : T unit :=
  isolated ← lift (new 4);
  isolated ← expect_all [(add_ 13 aapl Buy 1 100, true); (add_ 14 msft Sell 1 200, true)] isolated;
  check (bool_decide (best_bid isolated aapl = Some 100 ∧ best_ask isolated aapl = None));;
  check (bool_decide (best_ask isolated msft = Some 200 ∧ best_bid isolated msft = None)).

Definition overflow : T unit :=
  book ← lift (new 4);
  book ← expect_all [(add_ 20 aapl Buy u32_max 500, true); (add_ 21 aapl Buy 1 500, false)] book;
  refused ← found book 21; check (negb refused);;
  l ← lift (bid_levels book aapl); check (len l =? 1).

Definition priority (char_is_signed : bool) : T unit :=
  first ← lift (new 4); second ← lift (new 4);
  first ← expect_all [(add_ 30 aapl Buy 10 700, true); (add_ 31 aapl Buy 20 700, true)] first;
  second ← expect_all [(add_ 31 aapl Buy 20 700, true); (add_ 30 aapl Buy 10 700, true)] second;
  h1 ← lift (state_hash char_is_signed first); h2 ← lift (state_hash char_is_signed second);
  check (negb (h1 =? h2)).

Definition fixed_part (char_is_signed : bool) : T unit :=
  operations;; capacity;; isolation;; overflow;; priority char_is_signed.
End TestOrderBook.

(** * tests/test_itch.cpp *)

Module TestItch.
Section test.
Context `{Header}.

Definition equal (left_ right_ : MarketEvent) : bool :=
  match left_, right_ with
  | Add a, Add b =>
      bool_decide (timestamp_ns (add_meta a) = timestamp_ns (add_meta b) ∧ Types.add_order a = Types.add_order b)
  | Execute a, Execute b =>
      bool_decide (exec_order_id a = exec_order_id b ∧ executed_shares a = executed_shares b ∧
        match_number a = match_number b ∧ has_execution_price a = has_execution_price b ∧
        execution_price a = execution_price b ∧ printable a = printable b)
  | Cancel a, Cancel b => bool_decide (cancel_order_id a = cancel_order_id b ∧ canceled_shares a = canceled_shares b)
  | Delete a, Delete b => bool_decide (delete_order_id a = delete_order_id b)
  | Replace a, Replace b =>
      bool_decide (old_order_id a = old_order_id b ∧ new_order_id a = new_order_id b ∧
        new_quantity a = new_quantity b ∧ new_price a = new_price b)
  | _, _ => false
  end.

(** The last accessor of each view, as the [switch] calls it. *)
Inductive Access : Type := OfUint (view field : string) | OfChar (view field : string) | OfText (view field : string).
Definition access (a : Access) (b : list byte) : outcome unit :=
  match a with
  | OfUint view field => v ← make_view (bs view) b; get_uint v (bs field);; Ret tt
  | OfChar view field => v ← make_view (bs view) b; get_char v (bs field);; Ret tt
  | OfText view field => v ← make_view (bs view) b; get_ascii v (bs field);; Ret tt
  end.
Definition layouts : list (byte * nat * Access) :=
    [(Byte.x53, 12%nat, OfChar "SystemEvent" "event_code");
     (Byte.x52, 39%nat, OfChar "StockDirectory" "inverse_indicator");
     (Byte.x48, 25%nat, OfText "StockTradingAction" "reason");
     (Byte.x59, 20%nat, OfChar "RegShoRestriction" "reg_sho_action");
     (Byte.x4c, 26%nat, OfChar "MarketParticipantPosition" "market_participant_state");
     (Byte.x56, 35%nat, OfUint "MwcbDeclineLevel" "level3");
     (Byte.x57, 12%nat, OfChar "MwcbStatus" "breached_level");
     (Byte.x4b, 28%nat, OfUint "IpoQuotingPeriodUpdate" "ipo_price");
     (Byte.x4a, 35%nat, OfUint "LuldAuctionCollar" "auction_collar_extension");
     (Byte.x68, 21%nat, OfChar "OperationalHalt" "operational_halt_action");
     (Byte.x41, 36%nat, OfUint "AddOrder" "price");
     (Byte.x46, 40%nat, OfText "AddOrderWithMpid" "attribution");
     (Byte.x45, 31%nat, OfUint "OrderExecuted" "match_number");
     (Byte.x43, 36%nat, OfUint "OrderExecutedWithPrice" "execution_price");
     (Byte.x58, 23%nat, OfUint "OrderCancel" "canceled_shares");
     (Byte.x44, 19%nat, OfUint "OrderDelete" "order_reference");
     (Byte.x55, 35%nat, OfUint "OrderReplace" "price"); (Byte.x50, 44%nat, OfUint "Trade" "match_number");
     (Byte.x51, 40%nat, OfChar "CrossTrade" "cross_type");
     (Byte.x42, 19%nat, OfUint "BrokenTrade" "match_number");
     (Byte.x49, 50%nat, OfChar "Noii" "price_variation_indicator");
     (Byte.x4e, 20%nat, OfChar "RetailInterest" "interest_flag");
     (Byte.x4f, 48%nat, OfUint "DirectListingCapitalRaise" "upper_price_range_collar")].

(** [for (std::size_t length=0; length<size; ++length)] *)
Fixpoint truncations (b : list byte) (lengths : list nat) : T unit :=
  match lengths with
  | [] => mret tt
  | n :: lengths => throws decode_error (ItchDecoder.validate (take n b));; truncations b lengths
  end.
Definition check_layout (layout : byte * nat * Access) : T unit :=
  let '(type, size, a) := layout in
  check (bool_decide (message_size type = Some (Z.of_nat size)));;
  b ← lift (base type size);
  lift (ItchDecoder.validate b);;
  name ← lift (ItchDecoder.message_name b);
  check (bool_decide (name ≠ bs "Unknown"));;
  lift (access a b);;
  truncations b (seq 0 size);;
  wrong ← lift (set_byte b 0 (Z_of_byte Byte.x3f));
  throws decode_error (ItchDecoder.validate wrong).
Fixpoint for_each {A} (f : A → T unit) (l : list A) : T unit :=
  match l with [] => mret tt | a :: l => f a;; for_each f l end.

Definition book_message (type : byte) : outcome (list byte) :=
  if decide (type = Byte.x41 ∨ type = Byte.x46) then
    b ← base type (if decide (type = Byte.x41) then 36 else 40)%nat;
    b ← put_u64 b 11 0x0102030405060708;
    b ← set_byte b 19 (Z_of_byte Byte.x42);
    b ← put_u32 b 20 1234;
    b ← put_ascii b 24 8 (bs "MSFT");
    b ← put_u32 b 32 2345678;
    if decide (type = Byte.x46) then put_ascii b 36 4 (bs "ABCD") else Ret b
  else if decide (type = Byte.x45) then
    b ← base type 31; b ← put_u64 b 11 9; b ← put_u32 b 19 10; put_u64 b 23 11
  else if decide (type = Byte.x43) then
    b ← base type 36; b ← put_u64 b 11 9; b ← put_u32 b 19 10; b ← put_u64 b 23 11;
    b ← set_byte b 31 (Z_of_byte Byte.x59); put_u32 b 32 123
  else if decide (type = Byte.x58) then b ← base type 23; b ← put_u64 b 11 9; put_u32 b 19 10
  else if decide (type = Byte.x44) then b ← base type 19; put_u64 b 11 9
  else if decide (type = Byte.x55) then
    b ← base type 35; b ← put_u64 b 11 9; b ← put_u64 b 19 10; b ← put_u32 b 27 11; put_u32 b 31 12
  else Ret [].

Definition compare_decoders (type : byte) : T unit :=
  b ← lift (book_message type);
  a ← lift (ItchDecoder.decode_book_event b);
  r ← lift (ReferenceItchDecoder.decode_book_event b);
  check (match a, r with Some a, Some r => equal a r | _, _ => false end).

Definition check_uint (v : View) (field : string) (expected : Z) : T unit :=
  n ← lift (get_uint v (bs field)); check (n =? expected).
Definition main : T Z :=
  for_each check_layout layouts;;
  for_each compare_decoders (bs "AFECXDU");;
  add ← lift (book_message Byte.x41);
  view ← lift (make_view (bs "AddOrder") add);
  check_uint view "stock_locate" 0x1234;; check_uint view "tracking_number" 0x5678;;
  check_uint view "timestamp" 0x010203040506;; check_uint view "order_reference" 0x0102030405060708;;
  stock ← lift (get_ascii view (bs "stock"));
  check (bool_decide (stock = bs "MSFT    "));; check_uint view "price" 2345678;;
  price8 ← lift (base Byte.x56 35); price8 ← lift (put_u64 price8 11 0x0102030405060708);
  decline ← lift (make_view (bs "MwcbDeclineLevel") price8);
  check_uint decline "level1" 0x0102030405060708;;
  bad_side ← lift (set_byte add 19 (Z_of_byte Byte.x3f));
  throws decode_error (ItchDecoder.decode_book_event bad_side);;
  finish.
End test.
End TestItch.

(** * tests/test_transport.cpp *)

Module TestTransport.
Import RecoveryEngine.

Definition one : list byte := [Byte.x01].
Definition two : list byte := [Byte.x02].
Definition three : list byte := [Byte.x03].
Definition four : list byte := [Byte.x04].
Definition five : list byte := [Byte.x05].
Definition parse_mold (first : Z) (ms : list (list byte)) (count_override : Z) : outcome MoldDownstreamPacket :=
  d ← mold first ms count_override; parse_downstream d.

Fixpoint truncations (d : list byte) (lengths : list nat) : T unit :=
  match lengths with
  | [] => mret tt
  | n :: lengths => throws decode_error (parse_downstream (take n d));; truncations d lengths
  end.

Definition framing : T unit :=
  multi_bytes ← lift (mold 10 [one; two; three] 0);
  multi ← lift (parse_downstream multi_bytes);
  check (bool_decide (session_string (session multi) = bs "TEST"));;
  check (first_sequence multi =? 10);; check (len (messages multi) =? 3);;
  check (bool_decide (messages multi !! 2%nat = Some (MoldUdp64.mkMessage 12 three)));;
  truncations multi_bytes (seq 0 (length multi_bytes));;
  throws decode_error (parse_downstream (multi_bytes ++ [Byte.x00]));;
  bad_length ← lift (put_u16 multi_bytes 20 0xFFFF);
  throws decode_error (parse_downstream bad_length);;
  heartbeat_ ← lift (parse_mold 13 [] 0);
  check (heartbeat heartbeat_ && negb (end_of_session heartbeat_));;
  eos ← lift (parse_mold 13 [] 0xFFFF);
  check (end_of_session eos && negb (heartbeat eos));;
  request ← lift (encode_request (mkRequest (session_from_string (bs "TEST")) 77 4));
  first ← lift (read_u64_be request 10); count ← lift (read_u16_be request 18);
  check (first =? 77);; check (count =? 4);;
  throws decode_error (encode_request (mkRequest (session_from_string (bs "TEST")) 1 0));;
  throws decode_error (parse_mold u64_max [one; two] 0).

Definition sequences (r : Result) : list Z := sequence <$> ready r.
Definition ingest_mold (first : Z) (ms : list (list byte)) (e : t) : T (Result * t) :=
  p ← lift (parse_mold first ms 0); call (ingest p) e.
Definition requests (r : Result) (first : Z) (count : option Z) : bool :=
  match request r with
  | Some g => (gap_first g =? first) && match count with Some n => gap_count g =? n | None => true end
  | None => false
  end.

Definition gaps : T unit :=
  '(r, ordered) ← ingest_mold 1 [one; two] (new 1);
  check (bool_decide (sequences r = [1; 2]) && (expected ordered =? 3));;
  '(future, recovery) ← ingest_mold 4 [four; five] (new 1);
  check (bool_decide (ready future = []) && requests future 1 (Some 3));;
  check (buffered_messages recovery =? 2);;
  '(partial, recovery) ← ingest_mold 1 [one; two] recovery;
  check ((len (ready partial) =? 2) && (expected recovery =? 3) && requests partial 3 None);;
  '(complete, recovery) ← ingest_mold 3 [three] recovery;
  check ((len (ready complete) =? 3) && bool_decide (head (sequences complete) = Some 3) &&
         bool_decide (sequences complete !! 2%nat = Some 5) && (expected recovery =? 6));;
  '(stale, recovery) ← ingest_mold 1 [one; two] recovery;
  check (bool_decide (ready stale = []) && duplicate_or_stale stale);;
  '(second_gap, recovery) ← ingest_mold 8 [one] recovery;
  check (requests second_gap 6 (Some 2));;
  TestItch.for_each (λ s, check ((3 <=? s) && (s <=? 5))) (sequences complete);;
  other ← lift (mold 6 [one] 0); other ← lift (put_ascii other 0 10 (bs "OTHER"));
  throws decode_error (p ← parse_downstream other; (ingest p recovery).1);;
  throws decode_error (p ← parse_mold u64_max [one] 0; (ingest p (new u64_max)).1).

Definition main : T Z := framing;; gaps;; finish.
End TestTransport.

(** * tests/test_capture_replay.cpp *)

Module TestCaptureReplay.
Import Floats Streams Capture Replay.
Section test.
(** The path of the file that is tested; it is only seen in messages. *)
Context `{Header} (path : list byte).

(** A capture file that is written with [CaptureWriter]. *)
Definition capture (rs : list CaptureRecord) : outcome (list byte) :=
  w ← open_writer path true; let '(r, w) := write_all rs w in r;; Ret (written w).

Definition hash_datagram (r : CaptureRecord) : M Z unit :=
  modify (λ hash, foldl (λ h b, u64 (Z.lxor h (Z_of_byte b) * 1099511628211)) hash (datagram r)).
(** The hash, and what the replay did. *)
Definition replay_hash (file : list byte) (o : ReplayOptions) (input : list byte) : T (Z * list Action) :=
  let '(count, s) := run hash_datagram path (Some file) o input 1469598103934665603 in
  n ← lift count; check (n =? 3);; mret (client s, actions s).

Record Engine : Type := mkEngine { failures : Z; recovery : RecoveryEngine.t; book : OrderBook.t }.
Definition on_book {A} (m : M OrderBook.t A) : M Engine A := λ e,
  let '(o, b) := m (book e) in (o, mkEngine (failures e) (recovery e) b).
Definition on_recovery {A} (m : M RecoveryEngine.t A) : M Engine A := λ e,
  let '(o, r) := m (recovery e) in (o, mkEngine (failures e) r (book e)).
Definition apply_message (m : MoldMessage) : M Engine unit :=
  event ← lift (ItchDecoder.decode_book_event (payload m));
  match event with
  | None => mret tt
  | Some event =>
      ok ← on_book (OrderBook.apply event);
      modify (λ e, mkEngine (if (ok : bool) then failures e else failures e + 1) (recovery e) (book e))
  end.
Fixpoint apply_messages (ms : list MoldMessage) : M Engine unit :=
  match ms with [] => mret tt | m :: ms => apply_message m;; apply_messages ms end.
Definition engine_record (r : CaptureRecord) : M Engine unit :=
  packet ← lift (parse_downstream (datagram r));
  result ← on_recovery (RecoveryEngine.ingest packet);
  apply_messages (RecoveryEngine.ready result).
Definition max_speed : ReplayOptions := mkOptions MaxSpeed (of_Z double 1).
Definition engine_hash (char_is_signed : bool) (file : list byte) : T Z :=
  b ← lift (OrderBook.new 16);
  let '(count, s) := run engine_record path (Some file) max_speed [] (mkEngine 0 (RecoveryEngine.new 1) b) in
  lift count;; modify (λ n, n + failures (client s));;
  lift (OrderBook.state_hash char_is_signed (book (client s))).

#[local] Instance action_eq_dec : EqDecision Action.
Proof. solve_decision. Defined.
Definition replays : T unit :=
  good ← lift (capture [mkRecord 0 [Byte.x01; Byte.x02]; mkRecord 1 [Byte.x03]; mkRecord 2 [Byte.x04; Byte.x05]]);
  '(first, _) ← replay_hash good max_speed [];
  '(again, _) ← replay_hash good max_speed []; check (first =? again);;
  '(scaled, _) ← replay_hash good (mkOptions Scaled (of_Z double 1000000)) []; check (first =? scaled);;
  '(realtime, _) ← replay_hash good (mkOptions Realtime (of_Z double 1)) []; check (first =? realtime);;
  '(stepped, output) ← replay_hash good (mkOptions Step (of_Z double 1)) (replicate 3 Protocolc.newline);
  check (first =? stepped);; check (bool_decide (Prompt ∈ output));;
  throws invalid_argument (replay_hash good (mkOptions Scaled (of_Z double 0)) [] 0).1.

Definition pipeline (char_is_signed : bool) : T unit :=
  add ← lift (base Byte.x41 36); add ← lift (put_u64 add 11 1); add ← lift (set_byte add 19 (Z_of_byte Byte.x42));
  add ← lift (put_u32 add 20 100); add ← lift (put_ascii add 24 8 (bs "AAPL")); add ← lift (put_u32 add 32 1000);
  cancel ← lift (base Byte.x58 23); cancel ← lift (put_u64 cancel 11 1); cancel ← lift (put_u32 cancel 19 25);
  first ← lift (mold 2 [cancel] 0); second ← lift (mold 1 [add] 0);
  file ← lift (capture [mkRecord 0 first; mkRecord 1 second]);
  hash ← engine_hash char_is_signed file;
  hash2 ← engine_hash char_is_signed file; check (hash =? hash2);;
  hash3 ← engine_hash char_is_signed file; check (hash =? hash3).

Definition read_first (file : list byte) : outcome (option CaptureRecord) := i ← open_reader path (Some file); (next i).1.
Definition malformed : T unit :=
  throws runtime_error (read_first (magic ++ [Byte.x00]));;
  throws runtime_error (read_first (magic ++ replicate 8 Byte.x00 ++ [Byte.x00; Byte.x01; Byte.x00; Byte.x00]));;
  backwards ← lift (capture [mkRecord 2 [Byte.x01]; mkRecord 1 [Byte.x02]]);
  throws runtime_error (run (λ _, mret tt) path (Some backwards) (mkOptions Realtime (of_Z double 1)) [] tt).1;;
  throws runtime_error
    (w ← open_writer path true; (write_record 0 (replicate (Z.to_nat (kMaxCaptureDatagramSize + 1)) Byte.x00) w).1).

Definition main (char_is_signed : bool) : T Z := replays;; pipeline char_is_signed;; malformed;; finish.
End test.
End TestCaptureReplay.


(** * tests/test_network.cpp *)

Module TestNetwork.
Import UdpReceiver.

(** ["not-an-address"] as the group; [invalid] and [setup] are the answers to the calls of the two constructors, [answers] those to
    the calls of [receive], during which the main thread requests the stop. *)
Definition not_an_address (a : Setup) : Setup :=
  mkSetup (socket a) (reuse_ok a) (bind_ok a) false (any_interface a) (interface_ok a) (membership_ok a) (pipe a).
Definition main (invalid setup : Setup) (answers : list Answer) (k : Kernel) : T Z :=
  let '(first, k) := new (not_an_address invalid) k in
  throws runtime_error first;;
  match new setup k with
  | (Ret u, k) =>
      let '(result, s) := receive max_datagram answers (mkState u k) in
      datagram ← lift result;
      check (bool_decide (datagram = []));;
      check (stop_requested (object s));;
      finish
  | (Throw e, _) => if runtime_error e then mret 77 else throw e
  | (Undef why, _) => undef why
  | (OutOfFuel, _) => lift OutOfFuel
  end.

(** The stop arrives while the thread polls, after interruptions. *)
Definition stop_answers (interruptions : nat) (d : option (list byte)) (later : bool) : list Answer :=
  replicate interruptions (mkAnswer (PollFailed true) false None false) ++ [mkAnswer PollReady true d later].
Lemma answers_run_out size n d later s :
  stop_requested (object s) = false →
  ∃ s', receive size (stop_answers n d later) s = (Ret [], s') ∧ stop_requested (object s') = true.
Proof.
  intros Hs. induction n as [|n IH].
  - cbn. unfold mbind, M_bind, load_stop, interfere, modify, wake_ready, request_stop. cbn.
    unfold stop_requested in Hs |- *. rewrite !Hs. cbn. rewrite orb_true_r. by eexists.
  - destruct IH as (s' & Hr & Hs'). exists s'. split; [|done]. cbn.
    unfold mbind, M_bind, load_stop, interfere, modify. rewrite Hs. exact Hr.
Qed.
Lemma new_fails a k : group_ok a = false → ∃ what k', new a k = (Throw (RuntimeError what), k').
Proof.
  intros Hg. unfold new. destruct (socket a) as [fd|]; [|by eexists _, _].
  unfold mbind, M_bind, k_open, catch_rethrow, require, modify. rewrite Hg.
  destruct (reuse_ok a); [|by eexists _, _]. destruct (bind_ok a); by eexists _, _.
Qed.
Lemma new_starts a k :
  match new a k with
  | (Ret u, _) => stop_requested u = false
  | (Throw e, _) => runtime_error e = true
  | _ => False
  end.
Proof.
  unfold new. destruct (socket a) as [fd|]; [|done].
  unfold mbind, M_bind, k_open, catch_rethrow, require, modify.
  destruct (reuse_ok a); [|done]. destruct (bind_ok a); [|done]. destruct (group_ok a); [|done].
  destruct (any_interface a), (interface_ok a); try done;
    (destruct (membership_ok a); [|done]); by destruct (pipe a) as [[r w]|].
Qed.
Lemma main_passes invalid setup n d later k :
  exit_code (main invalid setup (stop_answers n d later) k) = Ret 0 ∨
  exit_code (main invalid setup (stop_answers n d later) k) = Ret 77.
Proof.
  unfold main. destruct (new_fails (not_an_address invalid) k eq_refl) as (what & k' & ->).
  pose proof (new_starts setup k') as Hn. destruct (new setup k') as [[u|e|?|] k'']; try done.
  - destruct (answers_run_out max_datagram n d later (mkState u k'') Hn) as (s' & -> & Hs). left.
    unfold exit_code. cbn. unfold mbind, M_bind, check, modify. by rewrite Hs.
  - right. by rewrite Hn.
Qed.
End TestNetwork.

(** * tests/protocolc_tests.cmake *)

Module TestProtocolc.
Import Protocolc.

(** [execute_process(COMMAND efe_protocolc schema output)]: exit code, and the file written. *)
Definition execute (schema : list byte) : T (Z * option string) :=
  '(code, what) ← lift (Emitter.main (Emitter.mkFiles (Some schema) (Ret tt) true)
    [bs "efe_protocolc"; bs "schema.efe"; bs "out.hpp"]);
  mret (code, match what with Emitter.Generated _ header => Some header | _ => None end).

Definition valid : list byte := unquote (bs "protocol Test;
message Ping 'P' { value: u32_be; name: ascii[4]; }
").
Definition invalid_schemas : list (list byte) := unquote <$> (bs <$>
  ["protocol T;
message A 'A' { x: u8; }
message B 'A' { y: u8; }
"; "protocol T;
message A 'A' { x: u8; x: u8; }
"; "protocol T;
message A 'A' { x: nope; }
"; "protocol T;
message A 'A' { x u8; }
"; "protocol T;
message A 'A' { x: ascii[0]; }
"; "protocol T;
message A 'A' { x: u8; }
message A 'B' { y: u8; }
"; "protocol T;
message A 'AB' { x: u8; }
"])%string.

Definition main : T Z :=
  '(first, one) ← execute valid;
  '(second, two) ← execute valid;
  check ((first =? 0) && (second =? 0));;
  check (bool_decide (is_Some one ∧ one = two));;
  TestItch.for_each (λ schema, '(result, _) ← execute schema; check (negb (result =? 0))) invalid_schemas;;
  finish.
End TestProtocolc.

(** The repository's tests pass on the model: the fixed part of the book test, whether [char] is signed or
    not, the decoder tests with the header that the compiler emits for the checked-in schema, and
    the framing, recovery, capture, replay and compiler tests all exit with 0; the network test exits with 0, or
    with 77 when no socket can be had, however often the poll is interrupted before the stop. *)
Theorem repository_tests_pass path (char_is_signed : bool) :
  TestOrderBook.fixed_part char_is_signed 0 = (Ret tt, 0) ∧
  (∃ text u, Emitter.header_text itch50 = Ret text ∧ Cpp.read (bs text) = Some u ∧
    exit_code (@TestItch.main (header_of u)) = Ret 0 ∧
    exit_code (@TestCaptureReplay.main (header_of u) path char_is_signed) = Ret 0) ∧
  exit_code TestTransport.main = Ret 0 ∧
  exit_code TestProtocolc.main = Ret 0 ∧
  ∀ invalid setup n d later k,
    let code := exit_code (TestNetwork.main invalid setup (TestNetwork.stop_answers n d later) k) in
    code = Ret 0 ∨ code = Ret 77.
Proof.
  split_and!.
  - destruct char_is_signed; vm_compute; reflexivity.
  - destruct (protocol_emits itch50 itch50_ok) as [text Htext]. exists text, (unit_of itch50). split_and!; [done|..].
    + apply emitted_text_reads; [exact itch50_ok|exact itch50_emittable|done].
    + vm_compute. reflexivity.
    + destruct char_is_signed; vm_compute; reflexivity.
  - vm_compute. reflexivity.
  - vm_compute. reflexivity.
  - intros invalid setup n d later k. apply TestNetwork.main_passes.
Qed.
