(* ===== verification/Pipeline.v ===== *)
(** The program [src/main.cpp]: how packets flow through framing, recovery, decoding and the book.
    The local objects of [demo], [replay] and [listen] are one state, to which only [listen] adds a
    socket; console lines are recorded.  System calls, files and clocks answer through arguments. *)
From S2P Require Import Prelude Types ByteReader MoldUdp64 RecoveryEngine ProtocolCompiler.
From S2P Require Import GeneratedHeader ItchDecoder OrderBook Capture Floats Text Replay UdpReceiver.
From Stdlib Require Import Strings.Byte.
#[local] Open Scope list_scope.
#[local] Open Scope Z_scope.
Import MoldUdp64.

Module Pipeline.

(** * Sample messages *)

Definition add_msg (id : Z) (side : byte) (qty : Z) (symbol : list byte) (price : Z) : outcome (list byte) :=
  let b := replicate 36 Byte.x00 in
  b ← ByteReader.set_byte b 0 (Z_of_byte Byte.x41);
  b ← Put.put_u16 b 1 1;
  b ← Put.put_u16 b 3 1;
  b ← Put.put_u48 b 5 1000000;
  b ← Put.put_u64 b 11 id;
  b ← ByteReader.set_byte b 19 (Z_of_byte side);
  b ← Put.put_u32 b 20 qty;
  b ← Put.put_ascii b 24 8 symbol;
  Put.put_u32 b 32 price.

Definition cancel_msg (id qty : Z) : outcome (list byte) :=
  let b := replicate 23 Byte.x00 in
  b ← ByteReader.set_byte b 0 (Z_of_byte Byte.x58);
  b ← Put.put_u16 b 1 1;
  b ← Put.put_u16 b 3 2;
  b ← Put.put_u48 b 5 1000100;
  b ← Put.put_u64 b 11 id;
  Put.put_u32 b 19 qty.

(** The three packets of [demo] and of [make_sample_capture], with the order they are used in. *)
Definition sample_packets : outcome (list (list byte)) :=
  a1 ← add_msg 10 Byte.x42 100 (bs "AAPL") 2000000;
  p1 ← mold_packet (bs "DEMO") 1 [a1];
  x3 ← cancel_msg 10 25;
  p3 ← mold_packet (bs "DEMO") 3 [x3];
  a2 ← add_msg 11 Byte.x42 200 (bs "AAPL") 1999000;
  p2 ← mold_packet (bs "DEMO") 2 [a2];
  Ret [p1; p3; p2].

(** What is left of [out_] is kept when a write throws. *)
Definition write_samples (path : list byte) (opened : bool) : outcome (outcome unit * Streams.ostream) :=
  o ← Capture.open_writer path opened;
  ps ← sample_packets;
  Ret
    ((match ps with
      | [p1; p3; p2] =>
          Capture.write_record 0 p1;; Capture.write_record 1000000 p3;; Capture.write_record 2000000 p2
      | _ => undef "three packets"
      end) o).
Definition make_sample_capture (path : list byte) (opened : bool) : outcome Streams.ostream :=
  '(r, o) ← write_samples path opened; r;; Ret o.

(** * The local objects *)

Variant Line : Type :=
| GapLine (first count : Z)
| MessageLine (sequence : Z) (name : list byte) (applied : option bool)
| RejectedLine (sequence : Z)
| EndLine (state_hash : Z).

Record t : Type := mk {
  recovery : RecoveryEngine.t;
  book : OrderBook.t;
  lines : list Line;
  messages : Z;
  capture : option Streams.ostream;
  socket : option UdpReceiver.State }.
Definition new (first : Z) (b : OrderBook.t) : t := mk (RecoveryEngine.new first) b [] 0 None None.

Definition on_recovery {A} (m : M RecoveryEngine.t A) : M t A := λ s,
  let '(o, r) := m (recovery s) in (o, mk r (book s) (lines s) (messages s) (capture s) (socket s)).
Definition on_book {A} (m : M OrderBook.t A) : M t A := λ s,
  let '(o, b) := m (book s) in (o, mk (recovery s) b (lines s) (messages s) (capture s) (socket s)).
Definition print (l : Line) : M t unit :=
  modify (λ s, mk (recovery s) (book s) (lines s ++ [l]) (messages s) (capture s) (socket s)).
Definition count_message : M t unit :=
  modify (λ s, mk (recovery s) (book s) (lines s) (u64 (messages s + 1)) (capture s) (socket s)).
Definition set_capture (c : option Streams.ostream) : M t unit :=
  modify (λ s, mk (recovery s) (book s) (lines s) (messages s) c (socket s)).
Definition on_socket {A} (m : M UdpReceiver.State A) : M t A := λ s,
  match socket s with
  | Some n => let '(o, n) := m n in (o, mk (recovery s) (book s) (lines s) (messages s) (capture s) (Some n))
  | None => (Undef "socket", s)
  end.

(** [for (const auto& m : ms)] *)
Fixpoint for_each {S A} (ms : list A) (body : A → M S unit) : M S unit :=
  match ms with
  | [] => mret tt
  | m :: ms => body m;; for_each ms body
  end.

Section program.
Context `{Header}.

(** * [process_packet] and [demo] *)

Definition process_message (m : MoldMessage) : M t unit :=
  event ← lift (ItchDecoder.decode_book_event (payload m));
  name ← lift (ItchDecoder.message_name (payload m));
  applied ← (match event with
             | Some e => ok ← on_book (OrderBook.apply e); mret (Some ok)
             | None => mret None
             end);
  print (MessageLine (sequence m) name applied).

Definition process_packet (datagram : list byte) : M t unit :=
  packet ← lift (parse_downstream datagram);
  r ← on_recovery (RecoveryEngine.ingest packet);
  (match RecoveryEngine.request r with
   | Some g => print (GapLine (RecoveryEngine.gap_first g) (RecoveryEngine.gap_count g))
   | None => mret tt
   end);;
  for_each (RecoveryEngine.ready r) process_message.

Definition process_packets (datagrams : list (list byte)) : M t unit := for_each datagrams process_packet.

(** The state behind the summary that [demo] prints; [demo_run] keeps it when a packet throws. *)
Definition demo_run : outcome (outcome unit * t) :=
  b ← OrderBook.new 1024;
  ps ← sample_packets;
  Ret (process_packets ps (new 1 b)).
Definition demo : outcome t := '(r, s) ← demo_run; r;; Ret s.

(** * [replay] *)

Definition replay_message (m : MoldMessage) : M t unit :=
  event ← lift (ItchDecoder.decode_book_event (payload m));
  (match event with
   | Some e => _ ← on_book (OrderBook.apply e); mret tt
   | None => mret tt
   end);;
  count_message.

Definition replay_record (rec : CaptureRecord) : M t unit :=
  packet ← lift (parse_downstream (datagram rec));
  r ← on_recovery (RecoveryEngine.ingest packet);
  for_each (RecoveryEngine.ready r) replay_message.

Definition replay_run (path : list byte) (file : option (list byte)) (o : Replay.ReplayOptions) (input : list byte)
    : outcome (outcome Z * @Replay.State t) :=
  b ← OrderBook.new 1000000;
  Ret (Replay.run replay_record path file o input (new 1 b)).
Definition replay (path : list byte) (file : option (list byte)) (o : Replay.ReplayOptions) (input : list byte) : outcome (Z * t) :=
  '(r, s) ← replay_run path file o input;
  packets ← r; Ret (packets, Replay.client s).

(** * [listen] *)

Definition listen_message (m : MoldMessage) : M t unit :=
  event ← lift (ItchDecoder.decode_book_event (payload m));
  match event with
  | Some e =>
      ok ← on_book (OrderBook.apply e);
      if ok : bool then mret tt else print (RejectedLine (sequence m))
  | None => mret tt
  end.

(** What the outside answers in a turn: the system calls of [socket.receive()], the clock, and
    [inet_pton] and [sendto] if a request is sent. *)
Record Turn : Type := mkTurn {
  answers : list UdpReceiver.Answer;
  now : Z;
  host_ok : bool;
  sent : Z }.

(** One turn of [while (true)]; [true] when the loop breaks.  [char_signed] is the platform's
    signedness of [char], which [state_hash] depends on through the order of symbols. *)
Definition listen_turn (char_signed : bool) (w : Turn) : M t bool :=
  d ← on_socket (UdpReceiver.receive UdpReceiver.max_datagram (answers w));
  stop ← (if decide (d = []) then on_socket UdpReceiver.load_stop else mret false);
  if stop : bool then mret true
  else
    s ← get;
    (match capture s with
     | Some o =>
         let '(r, o) := Capture.write_record (u64 (now w)) d o in
         set_capture (Some o);; lift r
     | None => mret tt
     end);;
    packet ← lift (parse_downstream d);
    r ← on_recovery (RecoveryEngine.ingest packet);
    s ← get;
    (match RecoveryEngine.request r, RecoveryEngine.session_ (recovery s) with
     | Some g, Some session =>
         req ← lift (encode_request (mkRequest session (RecoveryEngine.gap_first g) (RecoveryEngine.gap_count g)));
         on_socket (UdpReceiver.send_unicast (host_ok w) req (sent w))
     | _, _ => mret tt
     end);;
    for_each (RecoveryEngine.ready r) listen_message;;
    if RecoveryEngine.result_end_of_session r then
      s ← get;
      h ← lift (OrderBook.state_hash char_signed (book s));
      print (EndLine h);;
      mret true
    else mret false.

(** The loop, on the answers of the outside; [false] when they end before it does. *)
Fixpoint listen (char_signed : bool) (ws : list Turn) : M t bool :=
  match ws with
  | [] => mret false
  | w :: ws => stop ← listen_turn char_signed w; if stop : bool then mret true else listen char_signed ws
  end.
End program.

(** * [replay_options] *)

Definition replay_options (argv : list (list byte)) : outcome Replay.ReplayOptions :=
  let one := Floats.of_Z Floats.double 1 in
  let default_options := Replay.mkOptions Replay.MaxSpeed one in
  match argv !! 3%nat with
  | None => Ret default_options
  | Some argument =>
      if decide (argument = bs "--step" ∨ argument = bs "step") then Ret (Replay.mkOptions Replay.Step one)
      else if decide (argument = bs "--realtime" ∨ argument = bs "realtime") then
        Ret (Replay.mkOptions Replay.Realtime one)
      else
        value ← (if decide (argument = bs "--speed") then
                   match argv !! 4%nat with
                   | None => Throw (InvalidArgument "--speed requires max or a positive multiplier")
                   | Some value => Ret value
                   end
                 else Ret argument);
        if decide (value = bs "max" ∨ value = bs "0") then Ret default_options
        else
          speed ← Text.stod value;
          if Replay.not_positive speed then Throw (InvalidArgument "replay speed must be positive")
          else Ret (Replay.mkOptions Replay.Scaled speed)
  end.
End Pipeline.
