(* ===== verification/PipelineProofs.v ===== *)
(** End to end: whatever way the packets of a feed arrive, the pipeline leaves the book that
    applying the feed's events in order would leave; a message that the decoder rejects ends it. *)
From S2P Require Import Prelude Types ByteReader MoldUdp64 RecoveryEngine ProtocolCompiler Itch50Schema.
From S2P Require Import ProtocolProofs GeneratedHeader ItchDecoder ItchProofs OrderBook BookSpec BookTheorems.
From S2P Require Import Capture Floats Text Replay Pipeline.
From Stdlib Require Import Strings.Byte.
#[local] Open Scope list_scope.
#[local] Open Scope Z_scope.
Import MoldUdp64 Floats Pipeline.

(** * The events of a feed *)

Section pipeline.
Context `{HG : !GeneratedFrom itch50 H}.

(** The events of consecutive payloads; payloads without an event are skipped. *)
Fixpoint decode_all (ps : list (list byte)) : outcome (list MarketEvent) :=
  match ps with
  | [] => Ret []
  | p :: ps =>
      e ← ItchDecoder.decode_book_event p;
      es ← decode_all ps;
      Ret (option_list e ++ es)
  end.

Definition valid_payload (p : list byte) : Prop := ∃ e, ItchDecoder.decode_book_event p = Ret e.

Lemma decode_all_app ps qs es fs :
  decode_all ps = Ret es → decode_all qs = Ret fs → decode_all (ps ++ qs) = Ret (es ++ fs).
Proof.
  revert es. induction ps as [|p ps IH]; intros es; cbn [decode_all app]; [by intros [= <-]|].
  destruct (ItchDecoder.decode_book_event p) as [e| | |]; try discriminate. cbn [mbind outcome_bind].
  destruct (decode_all ps) as [es'| | |]; try discriminate. cbn [mbind outcome_bind].
  intros [= <-] Hq. rewrite (IH es' eq_refl Hq). cbn. by rewrite <-app_assoc.
Qed.
Lemma decode_all_split ps qs es :
  decode_all (ps ++ qs) = Ret es → ∃ es1 es2, es = es1 ++ es2 ∧ decode_all ps = Ret es1 ∧ decode_all qs = Ret es2.
Proof.
  revert es. induction ps as [|p ps IH]; intros es; cbn [decode_all app]; [intros ?; by exists [], es|].
  destruct (ItchDecoder.decode_book_event p) as [e| | |]; try discriminate. cbn [mbind outcome_bind].
  destruct (decode_all (ps ++ qs)) as [es'| | |]; try discriminate. intros [= <-].
  destruct (IH es' eq_refl) as (es1 & es2 & -> & H1 & H2). rewrite H1. cbn [mbind outcome_bind].
  eexists _, es2. by rewrite <-app_assoc.
Qed.
Lemma decode_all_valid ps : Forall valid_payload ps → ∃ es, decode_all ps = Ret es.
Proof.
  induction 1 as [|p ps [e He] _ [es Hes]]; [by eexists|]. cbn [decode_all]. rewrite He, Hes. by eexists.
Qed.
Lemma decode_event_ok p e : ItchDecoder.decode_book_event p = Ret (Some e) → event_ok e.
Proof. intros (c & n & Hc & Hl & _ & Hd)%decode_Some_inv. eauto using event_fits_ok, decoded_fits. Qed.
Lemma decode_option_ok p oe : ItchDecoder.decode_book_event p = Ret oe → Forall event_ok (option_list oe).
Proof. intros Hp. destruct oe as [e|]; [|constructor]. constructor; [|constructor]. by eapply decode_event_ok. Qed.
Lemma decode_all_ok ps es : decode_all ps = Ret es → Forall event_ok es.
Proof.
  revert es. induction ps as [|p ps IH]; intros es; cbn [decode_all]; [by intros [= <-]|].
  destruct (ItchDecoder.decode_book_event p) as [oe| | |] eqn:Hp; try done. cbn [mbind outcome_bind].
  destruct (decode_all ps) as [es'| | |]; try done. intros [= <-]. apply Forall_app. eauto using decode_option_ok.
Qed.
Lemma message_name_valid p : valid_payload p → ∃ name, ItchDecoder.message_name p = Ret name.
Proof.
  intros [e He]. destruct p as [|c p]; [by eexists|]. unfold ItchDecoder.message_name.
  rewrite decide_False, type_of_cons by done. by eexists.
Qed.

(** * One message, three loops *)

Context (max : Z) (Hmax : capacity_ok max).

(** [replay] counts the messages it decodes; the other loops do not. *)
Definition counted (counting : bool) (n : Z) (s s' : Pipeline.t) : Prop :=
  if counting then 0 ≤ messages s ≤ u64_max → messages s' = u64 (messages s + n) else messages s' = messages s.

(** From [s] to [s'] [n] messages were taken, which applied the events [es] to the book, and
    nothing was received. *)
Record applied (counting : bool) (n : Z) (es : list MarketEvent) (s s' : Pipeline.t) : Prop := {
  applied_recovery : recovery s' = recovery s;
  applied_run : ∃ oks, run es (book s) = (Ret oks, book s');
  applied_represents : ∃ a, represents max (book s') a;
  applied_capture : capture s' = capture s;
  applied_socket : socket s' = socket s;
  applied_messages : counted counting n s s'
}.

Lemma counted_trans counting n1 n2 s1 s2 s3 :
  counted counting n1 s1 s2 → counted counting n2 s2 s3 → counted counting (n1 + n2) s1 s3.
Proof.
  unfold counted. destruct counting; [|congruence]. intros H1 H2 Hm. specialize (H1 Hm).
  rewrite H2, H1 by (rewrite H1; pose proof (wrap_bound 64 (messages s1 + n1)); unfold u64, u64_max; lia).
  unfold u64, wrap. rewrite Z.add_mod_idemp_l by done. f_equal. lia.
Qed.
Lemma counted_0 counting s s' : messages s' = messages s → counted counting 0 s s'.
Proof.
  unfold counted. intros ->. destruct counting; [|done]. intros Hm. by rewrite Z.add_0_r, u64_small.
Qed.

Lemma run_app es fs b b' b'' oks oks' :
  run es b = (Ret oks, b') → run fs b' = (Ret oks', b'') → run (es ++ fs) b = (Ret (oks ++ oks'), b'').
Proof.
  revert b oks. induction es as [|e es IH]; intros b oks; cbn [run app].
  { unfold mret, M_ret. intros [= <- <-] Hf. by rewrite Hf. }
  unfold mbind, M_bind. destruct (OrderBook.apply e b) as [[ok|?|?|] b1]; try discriminate.
  destruct (run es b1) as [[oks1|?|?|] b2] eqn:Hr; try discriminate.
  unfold mret, M_ret. intros [= <- ->] Hf. by rewrite (IH b1 oks1 Hr Hf).
Qed.

Definition delivers (counting : bool) (body : MoldMessage → M Pipeline.t unit) : Prop :=
  ∀ m oe s, ItchDecoder.decode_book_event (payload m) = Ret oe → (∃ a, represents max (book s) a) →
  wp (body m) (λ _, applied counting 1 (option_list oe) s) s.

Lemma wp_on_book e s (Q : bool → Pipeline.t → Prop) p :
  ItchDecoder.decode_book_event p = Ret (Some e) → (∃ a, represents max (book s) a) →
  (∀ ok b', run [e] (book s) = (Ret [ok], b') → (∃ a, represents max b' a) →
     Q ok (mk (recovery s) b' (lines s) (messages s) (capture s) (socket s))) →
  wp (on_book (OrderBook.apply e)) Q s.
Proof.
  intros Hd [a Hr] HQ.
  destruct (represents_apply max Hmax (book s) a e Hr (decode_event_ok _ _ Hd)) as (b' & Happly & Hr').
  unfold wp, on_book. rewrite Happly. apply HQ; [|by eexists]. cbn. unfold mbind, M_bind. by rewrite Happly.
Qed.
Lemma applied_nil counting s : (∃ a, represents max (book s) a) → applied counting 0 [] s s.
Proof. intros Ha. split; [done| |done|done|done|by apply counted_0]. by exists []. Qed.

Ltac applied_ok := split; first [done | by unfold counted | by eexists | by exists []].

(** The three bodies decode, apply what they decode, and differ in what they print and count. *)
Lemma process_message_delivers : delivers false process_message.
Proof.
  intros m oe s Hd Ha. unfold process_message. apply wp_bind, (wp_lift _ oe); [done|].
  destruct (message_name_valid (payload m)) as [name Hname]; [by exists oe|].
  apply wp_bind, (wp_lift _ name); [done|]. apply wp_bind. destruct oe as [e|].
  - apply wp_bind. eapply wp_on_book; [done..|]. intros ok b' Hrun Ha'. apply wp_ret, wp_modify. applied_ok.
  - apply wp_ret, wp_modify. applied_ok.
Qed.
Lemma replay_message_delivers : delivers true replay_message.
Proof.
  intros m oe s Hd Ha. unfold replay_message. apply wp_bind, (wp_lift _ oe); [done|]. apply wp_bind.
  destruct oe as [e|].
  - apply wp_bind. eapply wp_on_book; [done..|]. intros ok b' Hrun Ha'. apply wp_ret, wp_modify. applied_ok.
  - apply wp_ret, wp_modify. applied_ok.
Qed.
Lemma listen_message_delivers : delivers false listen_message.
Proof.
  intros m oe s Hd Ha. unfold listen_message. apply wp_bind, (wp_lift _ oe); [done|]. destruct oe as [e|].
  - apply wp_bind. eapply wp_on_book; [done..|]. intros [] b' Hrun Ha'; [apply wp_ret|apply wp_modify];
      applied_ok.
  - apply wp_ret. applied_ok.
Qed.

Lemma applied_trans counting n1 n2 es fs s1 s2 s3 :
  applied counting n1 es s1 s2 → applied counting n2 fs s2 s3 → applied counting (n1 + n2) (es ++ fs) s1 s3.
Proof.
  intros [Hr1 [oks1 Hrun1] Ha1 ? ? ?] [Hr2 [oks2 Hrun2] Ha2 ? ? ?].
  split; [congruence| |done|congruence|congruence|by eapply counted_trans]. eexists. by eapply run_app.
Qed.

Lemma for_each_delivers counting body ms es s :
  delivers counting body → decode_all (payload <$> ms) = Ret es → (∃ a, represents max (book s) a) →
  wp (for_each ms body) (λ _, applied counting (len ms) es s) s.
Proof.
  intros Hbody. revert es s. induction ms as [|m ms IH]; intros es s Hd Ha.
  - injection Hd as <-. apply wp_ret. by apply applied_nil.
  - cbn [fmap list_fmap decode_all] in Hd.
    destruct (ItchDecoder.decode_book_event (payload m)) as [oe| | |] eqn:Hm; try discriminate. cbn [mbind outcome_bind] in Hd.
    fold (payload <$> ms) in Hd. destruct (decode_all (payload <$> ms)) as [es'| | |] eqn:Hms; try discriminate.
    injection Hd as <-. cbn [for_each]. apply wp_bind. eapply wp_mono; [by apply Hbody|]. intros [] s1 H1.
    eapply wp_mono; [apply (IH es' s1 eq_refl), H1|]. intros [] s2 H2.
    replace (len (m :: ms)) with (1 + len ms) by (cbn [length]; lia). by eapply applied_trans.
Qed.

(** * One packet, and many *)

(** Recovery moved to [e], and the events of the [n] messages it released were applied. *)
Record delivered (counting : bool) (n : Z) (e : RecoveryEngine.t) (es : list MarketEvent) (s s' : Pipeline.t) : Prop := {
  delivered_recovery : recovery s' = e;
  delivered_run : ∃ oks, run es (book s) = (Ret oks, book s');
  delivered_represents : ∃ a, represents max (book s') a;
  delivered_messages : counted counting n s s'
}.

(** A handler parses a datagram, hands the packet to recovery, and delivers what it releases. *)
Definition handles (counting : bool) {A} (packet_of : A → MoldDownstreamPacket) (handle : A → M Pipeline.t unit) : Prop :=
  ∀ x r e es s, packet_ok (packet_of x) → RecoveryEngine.ingest (packet_of x) (recovery s) = (Ret r, e) →
    decode_all (payload <$> RecoveryEngine.ready r) = Ret es → (∃ a, represents max (book s) a) →
    wp (handle x) (λ _, delivered counting (len (RecoveryEngine.ready r)) e es s) s.

Lemma wp_ready counting body r e es s s2 :
  delivers counting body → decode_all (payload <$> RecoveryEngine.ready r) = Ret es → (∃ a, represents max (book s) a) →
  recovery s2 = e → book s2 = book s → messages s2 = messages s →
  wp (for_each (RecoveryEngine.ready r) body) (λ _, delivered counting (len (RecoveryEngine.ready r)) e es s) s2.
Proof.
  intros Hbody Hd Ha Hr2 Hb2 Hm2. eapply wp_mono; [apply (for_each_delivers counting _ _ es); [done|done|by rewrite Hb2]|].
  intros [] s3 [Hr3 Hrun Hrep _ _ Hm3]. split; [congruence|by rewrite <-Hb2|done|].
  unfold counted in *. by rewrite <-Hm2.
Qed.

Lemma process_packet_handles : handles false (λ p, p) (λ p, process_packet (packet_bytes p)).
Proof.
  intros p r e es s Hp Hi Hd Ha. unfold process_packet. apply wp_bind, (wp_lift _ p); [by apply parse_complete|].
  apply wp_bind. unfold wp at 1, on_recovery. rewrite Hi. apply wp_bind.
  destruct (RecoveryEngine.request r) as [g|]; [apply wp_modify|apply wp_ret];
    by apply wp_ready; [apply process_message_delivers|..].
Qed.
Lemma replay_record_handles :
  handles true snd (λ x : Z * MoldDownstreamPacket, replay_record (mkRecord x.1 (packet_bytes x.2))).
Proof.
  intros [t p] r e es s Hp Hi Hd Ha. unfold replay_record. apply wp_bind, (wp_lift _ p); [by apply parse_complete|].
  apply wp_bind. unfold wp at 1, on_recovery. cbn [snd] in Hi. rewrite Hi.
  by apply wp_ready; [apply replay_message_delivers|..].
Qed.

Lemma wp_packets counting {A} (packet_of : A → MoldDownstreamPacket) handle xs rs e es s :
  handles counting packet_of handle →
  Forall (λ x, packet_ok (packet_of x)) xs → RecoveryEngine.ingest_all (packet_of <$> xs) (recovery s) = (Ret rs, e) →
  decode_all (payload <$> RecoveryEngine.released rs) = Ret es → (∃ a, represents max (book s) a) →
  wp (for_each xs handle) (λ _, delivered counting (len (RecoveryEngine.released rs)) e es s) s.
Proof.
  intros Hhandle Hps. revert rs es s. induction Hps as [|p ps Hp _ IH]; intros rs es s Hi Hd Ha.
  - cbn in Hi. injection Hi as <- <-. injection Hd as <-. apply wp_ret. split; [done| |done|by apply counted_0]. by exists [].
  - cbn [fmap list_fmap RecoveryEngine.ingest_all] in Hi. unfold mbind, M_bind in Hi.
    destruct (RecoveryEngine.ingest (packet_of p) (recovery s)) as [[r|?|?|] e1] eqn:Hi1; try discriminate.
    fold (packet_of <$> ps) in Hi.
    destruct (RecoveryEngine.ingest_all (packet_of <$> ps) e1) as [[rs1|?|?|] e2] eqn:Hi2; try discriminate.
    injection Hi as <- <-. change (RecoveryEngine.released (r :: rs1)) with
      (RecoveryEngine.ready r ++ RecoveryEngine.released rs1) in Hd |- *. rewrite fmap_app in Hd.
    destruct (decode_all_split _ _ _ Hd) as (es1 & es2 & -> & Hd1 & Hd2).
    cbn [for_each]. apply wp_bind.
    eapply wp_mono; [by apply (Hhandle p r e1 es1)|]. intros [] s1 [Hr1 [oks1 Hrun1] Ha1 Hm1].
    eapply wp_mono; [apply (IH rs1 es2); [by rewrite Hr1|done|done]|]. intros [] s2 [Hr2 [oks2 Hrun2] Ha2 Hm2].
    rewrite length_app, Nat2Z.inj_add. split; [done| |done|by eapply counted_trans]. eexists. by eapply run_app.
Qed.

(** ** Messages that do not decode *)

Lemma for_each_app {S X} (body : X → M S unit) xs ys s s' :
  for_each xs body s = (Ret tt, s') → for_each (xs ++ ys) body s = for_each ys body s'.
Proof.
  revert s. induction xs as [|x xs IH]; intros s; cbn [for_each app]; [by intros [= ->]|].
  unfold mbind, M_bind. destruct (body x s) as [[[]|?|?|] s1]; try done. apply IH.
Qed.

(** A message that the decoder rejects ends the run of a body, which has changed nothing. *)
Definition rejects (body : MoldMessage → M Pipeline.t unit) : Prop :=
  ∀ m err s, ItchDecoder.decode_book_event (payload m) = Throw err → body m s = (Throw err, s).
Lemma process_message_rejects : rejects process_message.
Proof. intros m err s Hm. unfold process_message, mbind, M_bind, lift. by rewrite Hm. Qed.
Lemma replay_message_rejects : rejects replay_message.
Proof. intros m err s Hm. unfold replay_message, mbind, M_bind, lift. by rewrite Hm. Qed.

(** From [s] the code ends with [err] when it has applied the events [es]. *)
Definition halted {A} (m : M Pipeline.t A) (err : exn) (es : list MarketEvent) (s : Pipeline.t) : Prop :=
  ∃ s' oks, m s = (Throw err, s') ∧ run es (book s) = (Ret oks, book s').

Lemma for_each_halts counting body pre bad post es err s :
  delivers counting body → rejects body → decode_all (payload <$> pre) = Ret es →
  ItchDecoder.decode_book_event (payload bad) = Throw err → (∃ a, represents max (book s) a) →
  halted (for_each (pre ++ bad :: post) body) err es s.
Proof.
  intros Hbody Hrej Hes Hbad Ha.
  pose proof (for_each_delivers counting body pre es s Hbody Hes Ha) as ([] & s' & Hs & [_ [oks Hrun] _ _ _ _])%wp_exact.
  exists s', oks. split; [|done]. rewrite (for_each_app _ _ _ _ _ Hs). cbn [for_each].
  unfold mbind, M_bind. by rewrite (Hrej bad err s' Hbad).
Qed.

(** A handler on a packet that releases such a message. *)
Definition halts {A} (packet_of : A → MoldDownstreamPacket) (handle : A → M Pipeline.t unit) : Prop :=
  ∀ x r e pre bad post es err s, packet_ok (packet_of x) →
    RecoveryEngine.ingest (packet_of x) (recovery s) = (Ret r, e) → RecoveryEngine.ready r = pre ++ bad :: post →
    decode_all (payload <$> pre) = Ret es → ItchDecoder.decode_book_event (payload bad) = Throw err →
    (∃ a, represents max (book s) a) → halted (handle x) err es s.
Lemma process_packet_halts : halts (λ p, p) (λ p, process_packet (packet_bytes p)).
Proof.
  intros p r e pre bad post es err s Hp Hi Hr Hes Hbad Ha. unfold halted, process_packet, mbind at 1 2 3, M_bind at 1 2 3, lift, on_recovery.
  rewrite (parse_complete p Hp), Hi, Hr. destruct (RecoveryEngine.request r) as [g|]; unfold print, modify, mret, M_ret; cbv beta iota.
  all: match goal with |- context [for_each _ _ ?s1] =>
    destruct (for_each_halts false process_message pre bad post es err s1) as (s' & oks & Hs & Hrun) end;
    [apply process_message_delivers|apply process_message_rejects|done..|].
  all: exists s', oks; by split.
Qed.
Lemma replay_record_halts :
  halts snd (λ x : Z * MoldDownstreamPacket, replay_record (mkRecord x.1 (packet_bytes x.2))).
Proof.
  intros [t p] r e pre bad post es err s Hp Hi Hr Hes Hbad Ha. cbn [fst snd] in *.
  unfold halted, replay_record, mbind at 1 2, M_bind at 1 2, lift, on_recovery. cbn [datagram].
  rewrite (parse_complete p Hp), Hi, Hr. cbv beta iota.
  match goal with |- context [for_each _ _ ?s1] =>
    destruct (for_each_halts true replay_message pre bad post es err s1) as (s' & oks & Hs & Hrun) end;
    [apply replay_message_delivers|apply replay_message_rejects|done..|].
  exists s', oks. by split.
Qed.

(** Many packets: the run ends at the first message that is released and does not decode. *)
Lemma packets_halt counting {A} (packet_of : A → MoldDownstreamPacket) handle xs rs e pre bad post es err s :
  handles counting packet_of handle → halts packet_of handle →
  Forall (λ x, packet_ok (packet_of x)) xs → RecoveryEngine.ingest_all (packet_of <$> xs) (recovery s) = (Ret rs, e) →
  RecoveryEngine.released rs = pre ++ bad :: post → decode_all (payload <$> pre) = Ret es →
  ItchDecoder.decode_book_event (payload bad) = Throw err → (∃ a, represents max (book s) a) →
  halted (for_each xs handle) err es s.
Proof.
  intros Hhandle Hhalt Hps. revert rs pre es s. induction Hps as [|x xs Hx _ IH]; intros rs pre es s Hi Hrel Hes Hbad Ha.
  { cbn in Hi. injection Hi as <- _. by destruct pre. }
  cbn [fmap list_fmap RecoveryEngine.ingest_all] in Hi. unfold mbind, M_bind in Hi.
  destruct (RecoveryEngine.ingest (packet_of x) (recovery s)) as [[r|?|?|] e1] eqn:Hi1; try discriminate.
  fold (packet_of <$> xs) in Hi.
  destruct (RecoveryEngine.ingest_all (packet_of <$> xs) e1) as [[rs1|?|?|] e2] eqn:Hi2; try discriminate.
  injection Hi as <- <-. change (RecoveryEngine.released (r :: rs1)) with
    (RecoveryEngine.ready r ++ RecoveryEngine.released rs1) in Hrel.
  assert (Hcase : (∃ tl, RecoveryEngine.ready r = pre ++ bad :: tl) ∨
    ∃ pre2, pre = RecoveryEngine.ready r ++ pre2 ∧ RecoveryEngine.released rs1 = pre2 ++ bad :: post).
  { apply app_eq_app in Hrel as [l [[Hr Hl]|[Hr Hl]]]; [|right; by exists l].
    destruct l as [|y l]; [right; exists []; by rewrite app_nil_r in *|left; exists l]. by injection Hl as <- _. }
  unfold halted. cbn [for_each]. unfold mbind, M_bind. destruct Hcase as [[tl Hr]|(pre2 & -> & Hrel2)].
  - destruct (Hhalt x r e1 pre bad tl es err s) as (s' & oks & Hs & Hrun); [done..|]. exists s', oks. by rewrite Hs.
  - rewrite fmap_app in Hes. destruct (decode_all_split _ _ _ Hes) as (es1 & es2 & -> & Hes1 & Hes2).
    pose proof (Hhandle x r e1 es1 s Hx Hi1 Hes1 Ha) as ([] & s1 & Hs1 & [Hr1 [oks1 Hrun1] Ha1 _])%wp_exact.
    rewrite Hs1. destruct (IH rs1 pre2 es2 s1) as (s' & oks2 & Hs & Hrun2); [by rewrite Hr1|done..|].
    exists s', (oks1 ++ oks2). split; [done|]. by eapply run_app.
Qed.
End pipeline.

(** * A feed *)

Section feed.
Context `{HG : !GeneratedFrom itch50 H}.
(** Its session, and the payload under each sequence number. *)
Context (session : list byte) (content : Z → list byte).

(** Packets of the feed, as datagrams can carry them. *)
Definition feed_packet (p : MoldDownstreamPacket) : Prop := packet_ok p ∧ from_stream session content p.

(** The events up to the first missing number, which is [next]. *)
Definition events_until (first next : Z) : outcome (list MarketEvent) :=
  decode_all (content <$> seqZ first (next - first)).

Lemma stream_payloads first n : payload <$> stream content first n = content <$> seqZ first (Z.of_nat n).
Proof. unfold stream. by rewrite numbered_payloads. Qed.

(** The packets [packet_of <$> xs] of the feed, through a handler. *)
Lemma feed_handled counting {A} (packet_of : A → MoldDownstreamPacket) handle max first xs b :
  capacity_ok max → handles max counting packet_of handle → 0 < first ≤ u64_max → OrderBook.new max = Ret b →
  Forall feed_packet (packet_of <$> xs) →
  (∀ n, n ∈ carried_all (packet_of <$> xs) → valid_payload (content n)) →
  ∃ s es oks, for_each xs handle (new first b) = (Ret tt, s) ∧
    events_until first (RecoveryEngine.expected (recovery s)) = Ret es ∧ run es b = (Ret oks, book s) ∧
    recovered session content first (carried_all (packet_of <$> xs)) (recovery s)
      (stream content first (Z.to_nat (RecoveryEngine.expected (recovery s) - first))) ∧
    counted counting (RecoveryEngine.expected (recovery s) - first) (new first b) s.
Proof.
  intros Hmax Hhandle Hf Hb Hps Hvalid. destruct (represents_new max Hmax) as (b' & Hb' & Hr).
  assert (b' = b) as -> by congruence.
  apply Forall_and in Hps as [Hok0 Hstream]. assert (Hok : Forall (packet_ok ∘ packet_of) xs) by by apply Forall_fmap.
  destruct (ingest_all_new session content first (packet_of <$> xs) Hf Hstream) as (rs & e & Hi & Hrec & _).
  pose proof Hrec as [[Hfe _ Hpre _ Hout _ _] _].
  destruct (decode_all_valid (content <$> seqZ first (RecoveryEngine.expected_ e - first))) as [es Hes].
  { apply Forall_fmap, Forall_forall. intros n Hn%elem_of_seqZ. apply Hvalid, Hpre. lia. }
  pose proof (wp_packets max counting packet_of handle xs rs e es (new first b) Hhandle Hok Hi) as Hwp.
  rewrite Hout, stream_payloads, Z2Nat.id in Hwp by lia.
  apply wp_exact in Hwp as ([] & s & Hs & [He [oks Hrun] _ Hm]); [|done|by eexists].
  exists s, es, oks. unfold RecoveryEngine.expected, events_until. rewrite He. split_and!; try done; [by rewrite <-Hout|].
  replace (RecoveryEngine.expected_ e - first) with
    (len (stream content first (Z.to_nat (RecoveryEngine.expected_ e - first)))); [done|].
  unfold stream. rewrite length_numbered, length_fmap, length_seqZ. lia.
Qed.
Lemma for_each_fmap {S X Y} (f : X → Y) (body : Y → M S unit) xs :
  for_each (f <$> xs) body = for_each xs (λ x, body (f x)).
Proof. induction xs as [|x xs IH]; [done|]. cbn [fmap list_fmap for_each]. fold (f <$> xs). by rewrite IH. Qed.

Lemma calls_for_each {S} (callback : CaptureRecord → M S unit) rs : Replay.calls callback rs = for_each rs callback.
Proof. induction rs as [|r rs IH]; [done|]. cbn. by rewrite IH. Qed.

Lemma feed_processed max first ps :
  capacity_ok max → 0 < first ≤ u64_max → Forall feed_packet ps →
  (∀ n, n ∈ carried_all ps → valid_payload (content n)) →
  ∃ b s es oks, OrderBook.new max = Ret b ∧
    process_packets (packet_bytes <$> ps) (new first b) = (Ret tt, s) ∧
    events_until first (RecoveryEngine.expected (recovery s)) = Ret es ∧ run es b = (Ret oks, book s) ∧
    recovered session content first (carried_all ps) (recovery s)
      (stream content first (Z.to_nat (RecoveryEngine.expected (recovery s) - first))).
Proof.
  intros Hmax Hf Hps Hvalid. destruct (represents_new max Hmax) as (b & Hb & _).
  pose proof (feed_handled false (λ p, p) _ max first ps b Hmax (process_packet_handles max Hmax) Hf Hb) as Hh.
  rewrite list_fmap_id in Hh. destruct (Hh Hps Hvalid) as (s & es & oks & Hs & Hes & Hrun & Hrec & _).
  exists b, s, es, oks. split; [done|]. split; [|done]. unfold process_packets. by rewrite for_each_fmap.
Qed.

(** C1: End to end.  Whatever datagrams of a feed arrive, in whatever order, lost, repeated or
    late, the pipeline runs without an exception, an access out of range or an endless loop, and
    leaves the book that the feed's events from [first] up to the first missing message, applied
    in order to a new book, leave. *)
Theorem pipeline_builds_the_book max first ps :
  capacity_ok max → 0 < first ≤ u64_max → Forall feed_packet ps →
  (∀ n, n ∈ carried_all ps → valid_payload (content n)) →
  ∃ b s es oks, OrderBook.new max = Ret b ∧
    process_packets (packet_bytes <$> ps) (new first b) = (Ret tt, s) ∧
    let next := RecoveryEngine.expected (recovery s) in
    (first ≤ next ∧ (∀ n, first ≤ n < next → n ∈ carried_all ps) ∧ next ∉ carried_all ps) ∧
    events_until first next = Ret es ∧ run es b = (Ret oks, book s).
Proof.
  intros Hmax Hf Hps Hvalid.
  destruct (feed_processed max first ps) as (b & s & es & oks & Hb & Hs & Hes & Hrun & Hrec); [done..|].
  exists b, s, es, oks. destruct Hrec as [[Hfe _ Hpre _ _ _ _] Hhole]. split; [done|]. split; [done|]. cbv zeta. split_and!; try done. exact (proj2 Hfe).
Qed.

(** C14: Two runs that received the same messages hold the same book, bit for bit, whatever the
    order, the repetitions and the packet boundaries: the recovered book is the in-order book. *)
Theorem arrival_order_leaves_the_same_book max first ps1 ps2 :
  capacity_ok max → 0 < first ≤ u64_max → Forall feed_packet ps1 → Forall feed_packet ps2 →
  carried_all ps1 = carried_all ps2 → (∀ n, n ∈ carried_all ps1 → valid_payload (content n)) →
  ∃ b s1 s2, OrderBook.new max = Ret b ∧
    process_packets (packet_bytes <$> ps1) (new first b) = (Ret tt, s1) ∧
    process_packets (packet_bytes <$> ps2) (new first b) = (Ret tt, s2) ∧
    book s1 = book s2 ∧ RecoveryEngine.expected (recovery s1) = RecoveryEngine.expected (recovery s2).
Proof.
  intros Hmax Hf Hps1 Hps2 Hc Hvalid.
  destruct (feed_processed max first ps1) as (b & s1 & es1 & oks1 & Hb & Hs1 & Hes1 & Hrun1 & Hrec1); [done..|].
  rewrite Hc in Hvalid, Hrec1.
  destruct (feed_processed max first ps2) as (b' & s2 & es2 & oks2 & Hb' & Hs2 & Hes2 & Hrun2 & Hrec2); [done..|].
  assert (b' = b) as -> by congruence.
  pose proof (recovered_expected _ _ _ _ _ _ _ _ Hrec1 Hrec2) as Hexp.
  exists b, s1, s2. split_and!; try done. unfold RecoveryEngine.expected in Hes1, Hes2. rewrite Hexp in Hes1.
  assert (es1 = es2) as -> by congruence. congruence.
Qed.

(** ** A feed with a malformed message *)

Lemma stream_split first m n :
  first ≤ m < first + Z.of_nat n →
  ∃ post, stream content first n = stream content first (Z.to_nat (m - first)) ++ mkMessage m (content m) :: post.
Proof.
  intros Hm. induction n as [|n IH]; [lia|]. rewrite stream_snoc. destruct (decide (m = first + Z.of_nat n)) as [->|].
  - exists []. by replace (Z.to_nat (first + Z.of_nat n - first)) with n by lia.
  - destruct IH as [post ->]; [lia|]. exists (post ++ [mkMessage (first + Z.of_nat n) (content (first + Z.of_nat n))]).
    by rewrite <-app_assoc.
Qed.

(** The run of a handler over the packets of a feed in which message [m] does not decode. *)
Lemma feed_halts counting {A} (packet_of : A → MoldDownstreamPacket) handle max first xs b m err :
  capacity_ok max → handles max counting packet_of handle → halts max packet_of handle →
  0 < first ≤ u64_max → OrderBook.new max = Ret b → Forall feed_packet (packet_of <$> xs) →
  first ≤ m → (∀ n, first ≤ n ≤ m → n ∈ carried_all (packet_of <$> xs)) →
  (∀ n, first ≤ n < m → valid_payload (content n)) → ItchDecoder.decode_book_event (content m) = Throw err →
  ∃ s es oks, for_each xs handle (new first b) = (Throw err, s) ∧
    events_until first m = Ret es ∧ run es b = (Ret oks, book s).
Proof.
  intros Hmax Hhandle Hhalt Hf Hb Hps Hm Hcarried Hvalid Hbad. destruct (represents_new max Hmax) as (b' & Hb' & Hr).
  assert (b' = b) as -> by congruence.
  apply Forall_and in Hps as [Hok0 Hstream]. assert (Hok : Forall (packet_ok ∘ packet_of) xs) by by apply Forall_fmap.
  destruct (ingest_all_new session content first (packet_of <$> xs) Hf Hstream) as (rs & e & Hi & [[Hfe _ _ _ Hout _ _] Hhole] & _).
  assert (Hreach : m < RecoveryEngine.expected_ e).
  { destruct (decide (m < RecoveryEngine.expected_ e)); [done|]. destruct Hhole. apply Hcarried. lia. }
  destruct (stream_split first m (Z.to_nat (RecoveryEngine.expected_ e - first))) as [post Hsplit]; [lia|].
  destruct (decode_all_valid (content <$> seqZ first (m - first))) as [es Hes].
  { apply Forall_fmap, Forall_forall. intros n Hn%elem_of_seqZ. apply Hvalid. lia. }
  destruct (packets_halt max counting packet_of handle xs rs e
    (stream content first (Z.to_nat (m - first))) (mkMessage m (content m)) post es err (new first b))
    as (s & oks & Hs & Hrun); [done|done|done|done|by rewrite Hout|by rewrite stream_payloads, Z2Nat.id by lia|done|by eexists|].
  by exists s, es, oks.
Qed.

(** C40: A malformed message ends the run before it can do harm.  If the decoder rejects message [m] of a
    feed and everything up to it has arrived, in whatever order and whatever else has arrived, then
    the pipeline of the demo and that of replay both end with the decoder's exception, and the
    book is exactly the one that the messages before [m] leave: neither [m] nor any message
    after it, though recovery has released it, has touched the book. *)
Theorem malformed_message_stops_pipeline max first m err xs :
  let ps := snd <$> xs in
  capacity_ok max → 0 < first ≤ u64_max → Forall feed_packet ps →
  first ≤ m → (∀ n, first ≤ n ≤ m → n ∈ carried_all ps) → (∀ n, first ≤ n < m → valid_payload (content n)) →
  ItchDecoder.decode_book_event (content m) = Throw err →
  ∃ b es, OrderBook.new max = Ret b ∧ events_until first m = Ret es ∧
    (∃ s oks, process_packets (packet_bytes <$> ps) (new first b) = (Throw err, s) ∧ run es b = (Ret oks, book s)) ∧
    (∃ s oks, Replay.calls replay_record ((λ x, mkRecord x.1 (packet_bytes x.2)) <$> xs) (new first b) = (Throw err, s) ∧
       run es b = (Ret oks, book s)).
Proof.
  intros ps Hmax Hf Hps Hm Hcarried Hvalid Hbad. destruct (represents_new max Hmax) as (b & Hb & _).
  pose proof (feed_halts false (λ p, p) _ max first ps b m err Hmax (process_packet_handles max Hmax)
    (process_packet_halts max Hmax) Hf Hb) as Hproc. rewrite list_fmap_id in Hproc.
  destruct Hproc as (s1 & es & oks1 & Hs1 & Hes & Hrun1); [done..|].
  destruct (feed_halts true snd _ max first xs b m err Hmax (replay_record_handles max Hmax)
    (replay_record_halts max Hmax) Hf Hb) as (s2 & es2 & oks2 & Hs2 & Hes2 & Hrun2); [done..|].
  assert (es2 = es) as -> by congruence.
  exists b, es. split_and!; [done..| |].
  - exists s1, oks1. split; [|done]. unfold process_packets. by rewrite for_each_fmap.
  - exists s2, oks2. split; [|done]. by rewrite calls_for_each, for_each_fmap.
Qed.

(** A replayed capture of a feed. *)
Lemma replay_of_feed path o acts input (stamped : list (Z * MoldDownstreamPacket)) :
  let rs := (λ x, mkRecord x.1 (packet_bytes x.2)) <$> stamped in
  ¬ (Replay.mode o = Replay.Scaled ∧ Replay.not_positive (Replay.speed o) = true) →
  Forall record_ok rs → Replay.monotonic None rs → Replay.effects o None rs = Some acts →
  Replay.input_ok o (length rs) input →
  len rs ≤ u64_max → Forall feed_packet (snd <$> stamped) →
  (∀ n, n ∈ carried_all (snd <$> stamped) → valid_payload (content n)) →
  ∃ b st es oks, OrderBook.new 1000000 = Ret b ∧
    replay_run path (Some (capture_bytes rs)) o input = Ret (Ret (len rs), st) ∧ Replay.actions st = acts ∧
    let s := Replay.client st in
    let next := RecoveryEngine.expected (recovery s) in
    (1 ≤ next ∧ (∀ n, 1 ≤ n < next → n ∈ carried_all (snd <$> stamped)) ∧ next ∉ carried_all (snd <$> stamped)) ∧
    events_until 1 next = Ret es ∧ run es b = (Ret oks, book s) ∧ messages s = next - 1.
Proof.
  intros rs Hspeed Hrs Hmono Hd Hinput Hlen Hps Hvalid.
  assert (Hmax : capacity_ok 1000000) by (unfold capacity_ok, kInvalidSlot; lia).
  destruct (represents_new 1000000 Hmax) as (b & Hb & _).
  destruct (feed_handled true snd _ 1000000 1 stamped b Hmax (replay_record_handles _ Hmax)
    ltac:(word_lia) Hb Hps Hvalid) as (s & es & oks & Hs & Hes & Hrun & Hrec & Hm).
  rewrite <-(for_each_fmap _ replay_record), <-calls_for_each in Hs. fold rs in Hs.
  destruct (Replay.run_records replay_record path o rs acts [] input (new 1 b) s)
    as (fuel & Hfuel & _ & Hr); try done; [by apply Replay.input_ok_passes|]. rewrite app_nil_r in Hr. destruct fuel as [|fuel]; [lia|].
  eexists b, _, es, oks. split; [done|]. split.
  { unfold replay_run. rewrite Hb. cbn [mbind outcome_bind]. by rewrite Hr. }
  destruct Hrec as [[Hfe Hexp Hpre _ _ _ _] Hhole]. cbn [Replay.actions Replay.client]. split; [done|].
  split_and!; try done; [exact (proj2 Hfe)|].
  rewrite (Hm ltac:(word_lia)). apply u64_small. unfold RecoveryEngine.expected. cbn. lia.
Qed.

(** Replay rebuilds the book: a capture that holds datagrams of a feed, in any order and with any
    loss and repetition, is replayed to the end, leaves the book of the feed's events up to the
    first missing message, and counts the messages up to there. *)
Theorem replay_rebuilds_the_book path o acts input (stamped : list (Z * MoldDownstreamPacket)) :
  let rs := (λ x, mkRecord x.1 (packet_bytes x.2)) <$> stamped in
  ¬ (Replay.mode o = Replay.Scaled ∧ Replay.not_positive (Replay.speed o) = true) →
  Forall record_ok rs → Replay.monotonic None rs → Replay.effects o None rs = Some acts →
  Replay.input_ok o (length rs) input →
  len rs ≤ u64_max → Forall feed_packet (snd <$> stamped) →
  (∀ n, n ∈ carried_all (snd <$> stamped) → valid_payload (content n)) →
  ∃ b s es oks, OrderBook.new 1000000 = Ret b ∧
    replay path (Some (capture_bytes rs)) o input = Ret (len rs, s) ∧
    let next := RecoveryEngine.expected (recovery s) in
    (1 ≤ next ∧ (∀ n, 1 ≤ n < next → n ∈ carried_all (snd <$> stamped)) ∧ next ∉ carried_all (snd <$> stamped)) ∧
    events_until 1 next = Ret es ∧ run es b = (Ret oks, book s) ∧ messages s = next - 1.
Proof.
  intros rs H1 H2 H3 H4 H5 H6 H7 H8.
  destruct (replay_of_feed path o acts input stamped H1 H2 H3 H4 H5 H6 H7 H8) as (b & st & es & oks & Hb & Hrun & _ & Hs).
  exists b, (Replay.client st), es, oks. split; [done|]. split; [|exact Hs].
  unfold replay. fold rs in Hrun. by rewrite Hrun.
Qed.
End feed.

(** * The messages that [main.cpp] builds *)

Lemma splice_next b acc o new :
  o = len acc → len acc + len new ≤ len b → splice (splice b 0 acc) o new = splice b 0 (acc ++ new).
Proof. intros -> Hl. pose proof (splice_app b 0 acc new ltac:(lia) ltac:(lia)) as Hs. by rewrite Z.add_0_l in Hs. Qed.
Lemma from_string_padded s : Symbol.from_string s = Symbol.mk (padded 8 s).
Proof.
  unfold Symbol.from_string, padded, Symbol.width. f_equal.
  destruct (decide (length s ≤ 8)%nat).
  - by rewrite Nat.min_l, !take_ge by lia.
  - rewrite Nat.min_r by lia. by replace (8 - length s)%nat with 0%nat by lia.
Qed.

(** Run the writes of a message one after the other. *)
Ltac lens := rewrite ?length_splice; autorewrite with lens; cbn [length]; lia.
Ltac next_write :=
  first [ rewrite set_byte_spec by lens | rewrite put_u16_spec by lens | rewrite put_u48_spec by lens
        | rewrite put_u64_spec by lens | rewrite put_u32_spec by lens | rewrite put_ascii_spec by lens ];
  try (rewrite splice_next by lens); cbn [mbind outcome_bind].

Lemma add_msg_spec i s q sym p :
  add_msg i (side_byte s) q sym p =
  Ret (Byte.x41 :: add_bytes (mkMeta 1 1 1000000) (mkOrder i (Symbol.from_string sym) s q p)).
Proof.
  unfold add_msg. do 9 next_write. rewrite splice_all by lens. rewrite !byte_of_Z_of_byte, from_string_padded.
  unfold add_bytes, meta_bytes. cbn [stock_locate tracking_number timestamp_ns id side quantity symbol price Symbol.bytes].
  by rewrite <-!app_assoc.
Qed.
Lemma cancel_msg_spec i q :
  cancel_msg i q = Ret (Byte.x58 :: meta_bytes (mkMeta 1 2 1000100) ++ be_bytes 8 i ++ be_bytes 4 q).
Proof.
  unfold cancel_msg. do 6 next_write. rewrite splice_all by lens. rewrite !byte_of_Z_of_byte.
  unfold meta_bytes. cbn [stock_locate tracking_number timestamp_ns]. by rewrite <-!app_assoc.
Qed.

(** The messages that [add_msg] and [cancel_msg] build are written without an access out of
    range, and decode to the order and the cancellation they were built from. *)
Theorem built_messages_decode `{HG : !GeneratedFrom itch50 H} i s q sym p :
  fits 8 i → fits 4 q → fits 4 p →
  (∃ m, add_msg i (side_byte s) q sym p = Ret m ∧ ItchDecoder.decode_book_event m =
     Ret (Some (Add (mkAdd (mkMeta 1 1 1000000) (mkOrder i (Symbol.from_string sym) s q p))))) ∧
  (∃ m, cancel_msg i q = Ret m ∧ ItchDecoder.decode_book_event m =
     Ret (Some (Cancel (mkCancel (mkMeta 1 2 1000100) i q)))).
Proof.
  intros Hi Hq Hp. split; eexists; (split; [rewrite ?add_msg_spec, ?cancel_msg_spec; reflexivity|]); apply decode_wire.
  - split_and!; try done. rewrite from_string_padded. apply length_padded.
  - constructor.
  - done.
  - constructor.
Qed.
Lemma built_messages_decode_witness :
  (∃ m, add_msg 10 Byte.x42 100 (bs "AAPL") 2000000 = Ret m ∧
     @ItchDecoder.decode_book_event itch50_header m =
       Ret (Some (Add (mkAdd (mkMeta 1 1 1000000) (mkOrder 10 (Symbol.from_string (bs "AAPL")) Buy 100 2000000))))) ∧
  (∃ m, cancel_msg 10 100 = Ret m ∧
     @ItchDecoder.decode_book_event itch50_header m = Ret (Some (Cancel (mkCancel (mkMeta 1 2 1000100) 10 100)))).
Proof.
  apply (@built_messages_decode itch50_header itch50_header_generated 10 Buy 100 (bs "AAPL") 2000000);
    unfold fits; cbn; lia.
Defined.

(** The demo: packet 3 arrives before packet 2, one request for message 2 is printed, and then
    the messages are applied in order, so that the cancellation finds its order.  Two orders are
    live at the end, and the best bid is $200.0000. *)
Theorem demo_recovers_the_gap :
  match @demo itch50_header with
  | Ret s =>
      lines s = [MessageLine 1 (bs "AddOrder") (Some true); GapLine 2 1;
                 MessageLine 2 (bs "AddOrder") (Some true); MessageLine 3 (bs "OrderCancel") (Some true)] ∧
      OrderBook.live_order_count (book s) = 2 ∧
      OrderBook.best_bid (book s) (Symbol.from_string (bs "AAPL")) = Some 2000000
  | _ => False
  end.
Proof. vm_compute. by split_and!. Qed.

(** * Examples *)

Lemma stream_messages content first n :
  Forall (λ m, first ≤ sequence m < first + Z.of_nat n ∧ payload m = content (sequence m)) (stream content first n).
Proof.
  induction n as [|n IH]; [constructor|]. rewrite stream_snoc. apply Forall_app. split.
  - eapply Forall_impl; [exact IH|]. intros m [? ?]. split; [lia|done].
  - constructor; [|constructor]. cbn. split; [lia|done].
Qed.

Module PipelineExamples.
(** A feed of orders: message [n] adds order [n]. *)
Definition feed_session : list byte := padded 10 (bs "DEMO").
Definition feed_content (n : Z) : list byte :=
  Byte.x41 :: add_bytes (mkMeta 1 1 1000000) (mkOrder n (Symbol.from_string (bs "AAPL")) Buy 100 (2000000 + n)).
Definition data (first : Z) (n : nat) : MoldDownstreamPacket :=
  mkPacket feed_session first (Z.of_nat n) false false (stream feed_content first n).
(** Message 2 is late, message 3 comes twice, 5 never. *)
Definition scattered : list MoldDownstreamPacket := [data 1 1; data 3 2; data 6 1; data 3 1; data 2 1].
Definition gathered : list MoldDownstreamPacket := [data 6 1; data 1 4].

Lemma content_valid n : @valid_payload itch50_header (feed_content n).
Proof.
  eexists. rewrite (@decode_book itch50_header itch50_header_generated Byte.x41 36 (feed_content n)) by done. done.
Qed.
Lemma content_packet_ok content first n :
  (∀ n, len (content n) ≤ 65535) → 0 ≤ first → (0 < n < 100)%nat → first < 100 →
  feed_packet feed_session content (mkPacket feed_session first (Z.of_nat n) false false (stream content first n)).
Proof.
  intros Hlen Hf Hn Hmax. split.
  - split; cbn; [done|word_lia|]. right. right. split_and!; [lia|lia|done|done|word_lia| | |].
    + unfold stream. by rewrite numbered_payloads.
    + unfold stream. rewrite length_numbered, length_fmap, length_seqZ. lia.
    + apply Forall_forall. intros m Hm. apply (list_elem_of_fmap_2 payload) in Hm.
      unfold stream in Hm. rewrite numbered_payloads in Hm. apply list_elem_of_fmap in Hm as (k & -> & _). apply Hlen.
  - split; cbn; [done|word_lia|]. eapply Forall_impl; [apply stream_messages|].
    unfold u64_max. intros m [? ?]. split; [lia|done].
Qed.
Lemma data_ok first n :
  0 ≤ first → (0 < n < 100)%nat → first < 100 → feed_packet feed_session feed_content (data first n).
Proof. by apply content_packet_ok. Qed.
Lemma scattered_ok : Forall (feed_packet feed_session feed_content) scattered.
Proof. repeat (constructor; [apply data_ok; lia|]). constructor. Qed.
Lemma gathered_ok : Forall (feed_packet feed_session feed_content) gathered.
Proof. repeat (constructor; [apply data_ok; lia|]). constructor. Qed.
Lemma capacity_4 : capacity_ok 4.
Proof. unfold capacity_ok, kInvalidSlot. lia. Qed.
End PipelineExamples.
Import PipelineExamples.

Lemma pipeline_builds_the_book_witness :
  ∃ b s es oks, OrderBook.new 4 = Ret b ∧
    @process_packets itch50_header (packet_bytes <$> scattered) (new 1 b) = (Ret tt, s) ∧
    let next := RecoveryEngine.expected (recovery s) in
    (1 ≤ next ∧ (∀ n, 1 ≤ n < next → n ∈ carried_all scattered) ∧ next ∉ carried_all scattered) ∧
    @events_until itch50_header feed_content 1 next = Ret es ∧ run es b = (Ret oks, book s).
Proof.
  apply (@pipeline_builds_the_book itch50_header itch50_header_generated feed_session feed_content 4 1 scattered).
  - exact capacity_4.
  - word_lia.
  - exact scattered_ok.
  - intros n _. apply content_valid.
Defined.

Lemma arrival_order_leaves_the_same_book_witness :
  ∃ b s1 s2, OrderBook.new 4 = Ret b ∧
    @process_packets itch50_header (packet_bytes <$> scattered) (new 1 b) = (Ret tt, s1) ∧
    @process_packets itch50_header (packet_bytes <$> gathered) (new 1 b) = (Ret tt, s2) ∧
    book s1 = book s2 ∧ RecoveryEngine.expected (recovery s1) = RecoveryEngine.expected (recovery s2).
Proof.
  apply (@arrival_order_leaves_the_same_book itch50_header itch50_header_generated feed_session feed_content
           4 1 scattered gathered).
  - exact capacity_4.
  - word_lia.
  - exact scattered_ok.
  - exact gathered_ok.
  - vm_compute. reflexivity.
  - intros n _. apply content_valid.
Defined.

(** Message 3 is of no known type; message 2 is late, so that 2, 3 and 4 are released together. *)
Definition broken_content (n : Z) : list byte := if decide (n = 3) then [Byte.x3f] else feed_content n.
Definition broken (first : Z) (n : nat) : MoldDownstreamPacket :=
  mkPacket feed_session first (Z.of_nat n) false false (stream broken_content first n).
Definition broken_arrivals : list (Z * MoldDownstreamPacket) := [(0, broken 1 1); (10, broken 3 2); (20, broken 2 1)].
Lemma malformed_message_stops_pipeline_witness :
  let ps := snd <$> broken_arrivals in
  ∃ b es, OrderBook.new 4 = Ret b ∧ @events_until itch50_header broken_content 1 3 = Ret es ∧
    (∃ s oks, @process_packets itch50_header (packet_bytes <$> ps) (new 1 b) =
       (Throw (DecodeError "unsupported ITCH message type"), s) ∧ run es b = (Ret oks, book s)) ∧
    (∃ s oks, Replay.calls (@replay_record itch50_header)
       ((λ x : Z * _, mkRecord x.1 (packet_bytes x.2)) <$> broken_arrivals) (new 1 b) =
       (Throw (DecodeError "unsupported ITCH message type"), s) ∧ run es b = (Ret oks, book s)).
Proof.
  intros ps. apply (@malformed_message_stops_pipeline itch50_header itch50_header_generated feed_session broken_content 4 1 3).
  - exact capacity_4.
  - word_lia.
  - repeat (constructor; [apply content_packet_ok; [intros n; unfold broken_content; case_decide; vm_compute; discriminate|lia..]|]).
    constructor.
  - lia.
  - intros n Hn. assert (n = 1 ∨ n = 2 ∨ n = 3) as [->|[->| ->]] by lia; vm_compute; reflexivity.
  - intros n Hn. unfold broken_content. rewrite decide_False by lia. apply content_valid.
  - vm_compute. reflexivity.
Defined.

Lemma replay_rebuilds_the_book_witness :
  ∃ b s es oks, OrderBook.new 1000000 = Ret b ∧
    @replay itch50_header (bs "day.efc")
      (Some (capture_bytes ((λ x : Z * _, mkRecord x.1 (packet_bytes x.2)) <$> [(0, data 2 1); (1000, data 1 1)])))
      Replay.double_speed [] = Ret (2, s) ∧
    let next := RecoveryEngine.expected (recovery s) in
    (1 ≤ next ∧ (∀ n, 1 ≤ n < next → n ∈ carried_all [data 2 1; data 1 1]) ∧ next ∉ carried_all [data 2 1; data 1 1]) ∧
    @events_until itch50_header feed_content 1 next = Ret es ∧ run es b = (Ret oks, book s) ∧
    messages s = next - 1.
Proof.
  apply (@replay_rebuilds_the_book itch50_header itch50_header_generated feed_session feed_content
           (bs "day.efc") Replay.double_speed [Replay.SleepFor 500] []
           [(0, data 2 1); (1000, data 1 1)]).
  - intros [_ H]. discriminate H.
  - decided.
  - cbn. split_and!; intros; simplify_eq; lia.
  - vm_compute. reflexivity.
  - intros H. discriminate H.
  - word_lia.
  - repeat (constructor; [apply data_ok; lia|]). constructor.
  - intros n _. apply content_valid.
Defined.

(** * Replay options *)

(** The options that the command line gives are ones that replay accepts: with three
    arguments the replay runs at full speed, and a speed is scaled only if it is positive, so
    that [ReplayEngine::run] never throws [std::invalid_argument]. *)
Theorem command_line_options_are_accepted argv :
  (length argv ≤ 3)%nat ∧ replay_options argv = Ret (Replay.mkOptions Replay.MaxSpeed (of_Z double 1)) ∨
  (3 < length argv)%nat ∧
  match replay_options argv with
  | Ret o => ¬ (Replay.mode o = Replay.Scaled ∧ Replay.not_positive (Replay.speed o) = true)
  | _ => True
  end.
Proof.
  unfold replay_options. destruct (argv !! 3%nat) as [argument|] eqn:Harg.
  - right. split; [by apply lookup_lt_Some in Harg|].
    case_decide; [by intros [? ?]|]. case_decide; [by intros [? ?]|].
    case_decide; cbn [mbind outcome_bind].
    + destruct (argv !! 4%nat) as [value|]; [|done]. cbn [mbind outcome_bind]. case_decide; [by intros [? ?]|].
      destruct (Text.stod value) as [speed| | |]; try done. cbn [mbind outcome_bind]. destruct (Replay.not_positive speed) eqn:Hs; [done|].
      intros [_ ?]. cbn in *. congruence.
    + case_decide; [by intros [? ?]|]. destruct (Text.stod argument) as [speed| | |]; try done. cbn [mbind outcome_bind]. destruct (Replay.not_positive speed) eqn:Hs; [done|].
      intros [_ ?]. cbn in *. congruence.
  - left. split; [by apply lookup_ge_None in Harg|done].
Qed.
