(* ===== verification/ListenProofs.v ===== *)
(** The [listen] loop of [src/main.cpp]: it builds the same book as the rest of the pipeline, writes
    every datagram it received to the capture, sends well-formed re-requests, and ends with the
    session, when it is asked to stop, or with a datagram that framing rejects. *)
From S2P Require Import Prelude Types ByteReader MoldUdp64 RecoveryEngine ProtocolCompiler Itch50Schema.
From S2P Require Import GeneratedHeader ItchDecoder ItchProofs OrderBook BookSpec BookTheorems.
From S2P Require Import Capture UdpReceiver Pipeline PipelineProofs.
From Stdlib Require Import Strings.Byte.
#[local] Open Scope list_scope.
#[local] Open Scope Z_scope.
Import MoldUdp64 Pipeline.

Section listen.
Context `{HG : !GeneratedFrom itch50 H}.
Context (max : Z) (Hmax : capacity_ok max) (char_signed : bool).

(** The re-request for a gap. *)
Definition request_bytes (session : list byte) (g : RecoveryEngine.GapRequest) : list byte :=
  header_bytes session (RecoveryEngine.gap_first g) (RecoveryEngine.gap_count g).
(** The turn in which a packet arrives at time [t]; a request, of 20 bytes, can be sent. *)
Definition received (x : Z * MoldDownstreamPacket) : Turn :=
  mkTurn [UdpReceiver.ready (packet_bytes x.2)] x.1 true 20.
Definition recorded (x : Z * MoldDownstreamPacket) : CaptureRecord := mkRecord x.1 (packet_bytes x.2).

(** The state after a turn, or several, on the packets [xs]. *)
Record listened (e : RecoveryEngine.t) (es : list MarketEvent) (reqs : list (list byte))
    (xs : list (Z * MoldDownstreamPacket)) (file : list byte) (s s' : Pipeline.t) : Prop := {
  listened_recovery : recovery s' = e;
  listened_run : ∃ oks, run es (book s) = (Ret oks, book s');
  listened_represents : ∃ a, represents max (book s') a;
  listened_capture : capture s' = Some (Streams.mkOut (file ++ concat (record_bytes <$> (recorded <$> xs))) false);
  listened_socket : socket s' = UdpReceiver.after_sends reqs <$> socket s
}.

Lemma listened_nil file s :
  (∃ a, represents max (book s) a) → capture s = Some (Streams.mkOut file false) →
  listened (recovery s) [] [] [] file s s.
Proof.
  intros Ha Hc. split; [done|by exists []|done| |by destruct (socket s)]. cbn. by rewrite app_nil_r.
Qed.
Lemma listened_trans e1 e2 es1 es2 reqs1 reqs2 xs1 xs2 file s1 s2 s3 :
  listened e1 es1 reqs1 xs1 file s1 s2 →
  listened e2 es2 reqs2 xs2 (file ++ concat (record_bytes <$> (recorded <$> xs1))) s2 s3 →
  listened e2 (es1 ++ es2) (reqs1 ++ reqs2) (xs1 ++ xs2) file s1 s3.
Proof.
  intros [_ [oks1 H1] _ _ Hs1] [Hr [oks2 H2] Ha Hc Hs2]. split; [done| |done| |].
  - eexists. by eapply run_app.
  - rewrite Hc. by rewrite !fmap_app, concat_app, app_assoc.
  - rewrite Hs2, Hs1, <-option_fmap_compose. apply option_fmap_ext. intros n. symmetry. apply UdpReceiver.after_sends_app.
Qed.

(** At the end of a session the hash of the book is printed. *)
Definition hash_printed (s : Pipeline.t) : Prop :=
  ∃ h, OrderBook.state_hash char_signed (book s) = Ret h ∧ last (lines s) = Some (EndLine h).

Lemma wp_on_socket {A} (m : M UdpReceiver.State A) a n n' (Q : A → Pipeline.t → Prop) s :
  socket s = Some n → m n = (Ret a, n') →
  Q a (mk (recovery s) (book s) (lines s) (messages s) (capture s) (Some n')) → wp (on_socket m) Q s.
Proof. intros Hn Hm. unfold wp, on_socket. by rewrite Hn, Hm. Qed.
Lemma packet_not_empty p : packet_ok p → packet_bytes p ≠ [].
Proof.
  intros Hp Hnil%(f_equal length). pose proof (length_header (session p) (first_sequence p) (message_count p) (packet_session _ Hp)).
  unfold packet_bytes in Hnil. rewrite length_app in Hnil. cbn in Hnil. lia.
Qed.

(** One turn on a packet that recovery accepts. *)
Lemma wp_listen_turn t p r e es file session n s (Q : bool → Pipeline.t → Prop) :
  packet_ok p → record_ok (recorded (t, p)) → RecoveryEngine.ingest p (recovery s) = (Ret r, e) →
  RecoveryEngine.session_ e = Some session → length session = 10%nat →
  (∀ g, RecoveryEngine.request r = Some g → 0 < RecoveryEngine.gap_count g ≤ 65534) →
  decode_all (payload <$> RecoveryEngine.ready r) = Ret es →
  (∃ a, represents max (book s) a) → capture s = Some (Streams.mkOut file false) →
  socket s = Some n → UdpReceiver.running n →
  (∀ s', listened e es (request_bytes session <$> option_list (RecoveryEngine.request r)) [(t, p)] file s s' →
     (RecoveryEngine.result_end_of_session r = true → hash_printed s') → Q (RecoveryEngine.result_end_of_session r) s') →
  wp (listen_turn char_signed (received (t, p))) Q s.
Proof.
  intros Hp [Ht Hlen] Hi Hsess Hs10 Hreq Hd Ha Hc Hn Hrunning HQ. unfold listen_turn. cbn [answers received snd].
  apply wp_bind. eapply wp_on_socket; [done|by apply UdpReceiver.receive_ready|]. cbn [fst].
  rewrite take_ge by (cbn in Hlen; unfold UdpReceiver.max_datagram, kMaxCaptureDatagramSize in *; lia).
  rewrite decide_False by by apply packet_not_empty.
  apply wp_bind, wp_ret, wp_bind, wp_get. cbn [capture]. rewrite Hc. cbn [now received fst capture].
  rewrite u64_small by exact Ht.
  pose proof (write_record_spec (recorded (t, p)) file (conj Ht Hlen)) as Hw. cbn [recorded monotonic_ns datagram fst snd] in Hw.
  rewrite Hw. clear Hw.
  apply wp_bind, wp_bind, wp_modify, (wp_lift _ tt); [done|]. cbn [recovery book lines messages socket].
  apply wp_bind, (wp_lift _ p); [by apply parse_complete|].
  apply wp_bind. unfold wp at 1, on_recovery. cbn [recovery]. rewrite Hi. cbn [recovery book lines messages capture socket].
  apply wp_bind, wp_get, wp_bind. cbn [recovery]. rewrite Hsess.
  assert (Hrest : ∀ s2, recovery s2 = e → book s2 = book s →
    capture s2 = Some (Streams.mkOut (file ++ record_bytes (recorded (t, p))) false) →
    socket s2 = Some (UdpReceiver.after_sends (request_bytes session <$> option_list (RecoveryEngine.request r)) n) →
    wp (for_each (RecoveryEngine.ready r) listen_message;;
        if RecoveryEngine.result_end_of_session r then
          s ← get; h ← lift (OrderBook.state_hash char_signed (book s)); print (EndLine h);; mret true
        else mret false) Q s2).
  { intros s2 Hr2 Hb2 Hc2 Hsent2. apply wp_bind. eapply wp_mono.
    - apply (for_each_delivers max false listen_message _ es); [by apply listen_message_delivers|done|by rewrite Hb2].
    - intros [] s3 [Hr3 Hrun3 [a3 Ha3] Hc3 Hs3 _]. rewrite Hr2 in Hr3. rewrite Hb2 in Hrun3.
      assert (Hl : ∀ ls, listened e es (request_bytes session <$> option_list (RecoveryEngine.request r)) [(t, p)] file s
        (mk (recovery s3) (book s3) ls (messages s3) (capture s3) (socket s3))).
      { intros ls. split; cbn [recovery book capture socket]; [done|done|by eexists| |by rewrite Hs3, Hsent2, Hn].
        rewrite Hc3, Hc2. cbn. by rewrite app_nil_r. }
      destruct (RecoveryEngine.result_end_of_session r).
      + apply wp_bind, wp_get, wp_bind. eapply wp_lift; [by apply (represents_hash max Hmax _ a3)|].
        apply wp_bind, wp_modify, wp_ret, HQ; [apply Hl|]. intros _. eexists. cbn [book lines].
        split; [by apply (represents_hash max Hmax _ a3)|apply last_snoc].
      + apply wp_ret, HQ; [|done]. pose proof (Hl (lines s3)) as H3. by destruct s3. }
  destruct (RecoveryEngine.request r) as [g|] eqn:Hg.
  - pose proof (Hreq g eq_refl).
    assert (Henc : encode_request (mkRequest session (RecoveryEngine.gap_first g) (RecoveryEngine.gap_count g)) =
      Ret (request_bytes session g)).
    { rewrite encode_request_spec by done. by rewrite decide_False by (cbn; lia). }
    apply wp_bind. eapply wp_lift; [exact Henc|].
    eapply wp_on_socket; [done| |by apply Hrest]. cbn [received host_ok sent]. unfold request_bytes.
    rewrite <-(length_header session (RecoveryEngine.gap_first g) (RecoveryEngine.gap_count g)) by done.
    apply UdpReceiver.send_unicast_whole.
  - apply wp_ret. by apply Hrest.
Qed.

(** * The loop *)

Context (session : list byte) (content : Z → list byte).

(** A datagram that asks for 1 to 65534 messages of the session. *)
Definition is_request (d : list byte) : Prop :=
  ∃ f c, d = header_bytes session f c ∧ 0 < c ≤ 65534.

(** What recovery releases decodes, if all that arrived does. *)
Lemma released_decodes first arrived e out new :
  recovered session content first arrived e (out ++ new) →
  (∀ n, n ∈ arrived → valid_payload (content n)) → ∃ es, decode_all (payload <$> new) = Ret es.
Proof.
  intros [[Hfe _ Hpre _ Hout _ _] _] Hvalid. apply decode_all_valid.
  assert (Forall valid_payload (payload <$> (out ++ new))) as Hall.
  { rewrite Hout, stream_payloads. apply Forall_fmap, Forall_forall. intros n Hn%elem_of_seqZ.
    apply Hvalid, Hpre. lia. }
  rewrite fmap_app in Hall. by apply Forall_app in Hall as [_ ?].
Qed.

(** The loop's state: what has been released decodes, and is in the book. *)
Record serving (first : Z) (arrived : gset Z) (asked : RecoveryEngine.GapRequest → Prop) (out : list MoldMessage)
    (file : list byte) (s : Pipeline.t) : Prop := {
  serving_recovered : recovered session content first arrived (recovery s) out;
  serving_marks : marks_ok asked (recovery s);
  serving_hole : hole_marked (recovery s);
  serving_book : ∃ a, represents max (book s) a;
  serving_capture : capture s = Some (Streams.mkOut file false);
  serving_socket : ∃ n, socket s = Some n ∧ UdpReceiver.running n
}.

(** What the packets [xs] did. *)
Definition served (first : Z) (arrived : gset Z) (out : list MoldMessage) (file : list byte)
    (xs : list (Z * MoldDownstreamPacket)) (s s' : Pipeline.t) : Prop :=
  ∃ es reqs new asked,
    listened (recovery s') es reqs xs file s s' ∧
    serving first (arrived ∪ carried_all (snd <$> xs)) asked (out ++ new)
      (file ++ concat (record_bytes <$> (recorded <$> xs))) s' ∧
    decode_all (payload <$> new) = Ret es ∧ Forall is_request reqs.

Lemma served_nil first arrived asked out file s :
  serving first arrived asked out file s → served first arrived out file [] s s.
Proof.
  intros [Hr Hm Hh Ha Hc Hn]. exists [], [], [], asked. split_and!; [by apply listened_nil| |done|constructor].
  cbn. unfold carried_all. cbn. rewrite union_empty_r_L, !app_nil_r. by split.
Qed.

Lemma wp_serve first x arrived out asked file s :
  0 < first → feed_packet session content x.2 → record_ok (recorded x) →
  (∀ n, n ∈ arrived ∪ carried x.2 → valid_payload (content n)) → serving first arrived asked out file s →
  wp (listen_turn char_signed (received x))
    (λ stop s', stop = end_of_session x.2 ∧ served first arrived out file [x] s s' ∧ (stop = true → hash_printed s')) s.
Proof.
  destruct x as [t p]. cbn [snd]. intros Hfirst [Hp Hps] Hrok Hvalid [Hr Hm Hh Ha Hc (n & Hn & Hrunning)].
  pose proof (wp_ingest session content p (recovery s) first asked arrived out
    (ingested session content first asked arrived out p) Hr Hps Hfirst Hm Hh ltac:(done))
    as (r & e1 & Hi & [Hr1 Hs1 Hm1 Hh1 He1 Hq1])%wp_exact.
  destruct (released_decodes _ _ _ _ _ Hr1 Hvalid) as [es1 Hd1].
  eapply wp_listen_turn with (session := session); [exact Hp|exact Hrok|exact Hi|exact Hs1| | |exact Hd1|exact Ha|exact Hc|exact Hn|exact Hrunning|].
  { rewrite <-(from_session _ _ _ Hps). apply packet_session. exact Hp. }
  { intros g Hg. by apply Hq1. }
  intros s1 Hl Hend. split; [by rewrite He1|]. split; [|done]. pose proof Hl as [He Hrun Ha1 Hc1 Hn1].
  eexists es1, _, (RecoveryEngine.ready r), _. split; [by rewrite He|]. split.
  - cbn [fmap list_fmap snd]. rewrite carried_all_single. split; [rewrite He; exact Hr1|rewrite He; exact Hm1|rewrite He; exact Hh1|done|exact Hc1|].
    rewrite Hn1, Hn. eexists. split; [done|]. by apply UdpReceiver.after_sends_running.
  - split; [done|]. destruct (RecoveryEngine.request r) as [g|]; cbn; [|constructor].
    constructor; [|constructor]. eexists _, _. split; [done|]. by apply Hq1.
Qed.

Lemma served_trans first arrived out file xs ys es reqs new s1 s2 s3 :
  listened (recovery s2) es reqs xs file s1 s2 → decode_all (payload <$> new) = Ret es → Forall is_request reqs →
  served first (arrived ∪ carried_all (snd <$> xs)) (out ++ new)
    (file ++ concat (record_bytes <$> (recorded <$> xs))) ys s2 s3 →
  served first arrived out file (xs ++ ys) s1 s3.
Proof.
  intros Hl1 Hd1 Hq1 (es2 & reqs2 & new2 & asked2 & Hl2 & Hs2 & Hd2 & Hq2).
  exists (es ++ es2), (reqs ++ reqs2), (new ++ new2), asked2. split_and!.
  - by eapply listened_trans.
  - rewrite !fmap_app, concat_app, carried_all_app, union_assoc_L, !app_assoc. exact Hs2.
  - rewrite fmap_app. by apply decode_all_app.
  - by apply Forall_app.
Qed.

Lemma wp_listen first xs arrived out asked file s :
  0 < first → Forall (λ x, feed_packet session content x.2 ∧ end_of_session x.2 = false) xs →
  Forall record_ok (recorded <$> xs) →
  (∀ n, n ∈ arrived ∪ carried_all (snd <$> xs) → valid_payload (content n)) →
  serving first arrived asked out file s →
  wp (listen char_signed (received <$> xs)) (λ stop s', stop = false ∧ served first arrived out file xs s s') s.
Proof.
  intros Hfirst Hxs. revert arrived out asked file s.
  induction Hxs as [|x xs [Hx Hend] _ IH]; intros arrived out asked file s Hrec Hvalid Hs.
  - apply wp_ret. split; [done|]. by eapply served_nil.
  - cbn [fmap list_fmap] in Hrec, Hvalid. apply Forall_cons in Hrec as [Hrok Hrec].
    rewrite carried_all_cons in Hvalid. fold (snd <$> xs) in Hvalid. cbn [fmap list_fmap listen]. apply wp_bind.
    eapply wp_mono; [apply (wp_serve first x arrived out asked file s); [done..| |done]|].
    { intros n Hn. apply Hvalid. set_solver. }
    intros stop s1 (-> & (es & reqs & new & asked1 & Hl1 & Hs1 & Hd1 & Hq1) & _). rewrite Hend.
    eapply wp_mono; [eapply IH; [exact Hrec| |exact Hs1]|].
    { intros n Hn. apply Hvalid. cbn [fmap list_fmap] in Hn. rewrite carried_all_single in Hn. set_solver. }
    intros stop s2 [-> H2]. split; [done|]. by apply (served_trans _ _ _ _ [x] xs _ _ _ _ _ _ Hl1 Hd1 Hq1).
Qed.

Lemma listen_app xs ys s s' :
  listen char_signed xs s = (Ret false, s') → listen char_signed (xs ++ ys) s = listen char_signed ys s'.
Proof.
  revert s. induction xs as [|x xs IH]; intros s; cbn [listen app]; [by intros [= ->]|].
  unfold mbind, M_bind. destruct (listen_turn char_signed x s) as [[[|]|?|?|] s1]; try done. apply IH.
Qed.
End listen.

(** The objects [listen] starts with when a capture file is named. *)
Definition listen_start (first : Z) (b : OrderBook.t) (n : UdpReceiver.State) : Pipeline.t :=
  mk (RecoveryEngine.new first) b [] 0 (Some (Streams.mkOut Capture.magic false)) (Some n).

Section live.
Context `{HG : !GeneratedFrom itch50 H} (char_signed : bool) (session : list byte) (content : Z → list byte).

(** What [listen] has done when it has taken the packets [xs], having started with the book [b] and
    the socket [n]. *)
Definition live_session (first : Z) (b : OrderBook.t) (n : UdpReceiver.State) (xs : list (Z * MoldDownstreamPacket)) (s : Pipeline.t) : Prop :=
  let next := RecoveryEngine.expected (recovery s) in
  (first ≤ next ∧ (∀ n, first ≤ n < next → n ∈ carried_all (snd <$> xs)) ∧ next ∉ carried_all (snd <$> xs)) ∧
  (∃ es oks, events_until content first next = Ret es ∧ run es b = (Ret oks, book s)) ∧
  (∃ reqs, Forall (is_request session) reqs ∧ socket s = Some (UdpReceiver.after_sends reqs n)) ∧
  ∃ file, capture s = Some (Streams.mkOut file false) ∧ ∀ path, Capture.load path file = Ret (recorded <$> xs).

Lemma listen_start_serving max first b n :
  capacity_ok max → 0 < first ≤ u64_max → OrderBook.new max = Ret b → UdpReceiver.running n →
  serving max session content first ∅ (λ _, False) [] Capture.magic (listen_start first b n).
Proof.
  intros Hmax Hf Hb Hn. destruct (represents_new max Hmax) as (b' & Hb' & Hr). assert (b' = b) as -> by congruence.
  split; [by apply recovered_new; lia|by left|by intros Hne|by eexists|done|by exists n].
Qed.

Lemma served_live max first b n xs s :
  Forall record_ok (recorded <$> xs) → served max session content first ∅ [] Capture.magic xs (listen_start first b n) s →
  live_session first b n xs s.
Proof.
  intros Hrecs (es & reqs & new & asked & [_ [oks Hrun] _ Hc Hsent] & [Hrec _ _ _ _ _] & Hd & Hreqs).
  rewrite union_empty_l_L in Hrec. pose proof Hrec as [[Hfe _ Hpre _ Hout _ _] Hhole]. cbn [app] in Hout.
  split; [|split; [|split]].
  - split_and!; [exact (proj2 Hfe)|done|done].
  - exists es, oks. split; [|done]. unfold events_until, RecoveryEngine.expected.
    rewrite Hout, stream_payloads, Z2Nat.id in Hd by lia. done.
  - by exists reqs.
  - eexists. split; [exact Hc|]. intros path. by apply load_capture.
Qed.

(** A packet that a feed can send at a time the capture can hold. *)
Definition arrives (x : Z * MoldDownstreamPacket) : Prop := feed_packet session content x.2 ∧ record_ok (recorded x).

Lemma listen_serves max first b n xs :
  capacity_ok max → 0 < first ≤ u64_max → OrderBook.new max = Ret b → UdpReceiver.running n →
  Forall (λ x, arrives x ∧ end_of_session x.2 = false) xs →
  (∀ n, n ∈ carried_all (snd <$> xs) → valid_payload (content n)) →
  ∃ s, listen char_signed (received <$> xs) (listen_start first b n) = (Ret false, s) ∧
    served max session content first ∅ [] Capture.magic xs (listen_start first b n) s.
Proof.
  intros Hmax Hf Hb Hn Hxs Hvalid.
  assert (Hfeed : Forall (λ x, feed_packet session content x.2 ∧ end_of_session x.2 = false) xs)
    by (eapply Forall_impl; [exact Hxs|]; intros ? [[? ?] ?]; done).
  assert (Hrecs : Forall record_ok (recorded <$> xs))
    by (apply Forall_fmap; eapply Forall_impl; [exact Hxs|]; intros ? [[? ?] ?]; done).
  pose proof (wp_listen max Hmax char_signed session content first xs ∅ [] (λ _, False) Capture.magic
    (listen_start first b n) (proj1 Hf) Hfeed Hrecs) as Hwp.
  rewrite union_empty_l_L in Hwp. specialize (Hwp Hvalid (listen_start_serving max first b n Hmax Hf Hb Hn)).
  apply wp_exact in Hwp as (stop & s & Hs & -> & Hserved). by exists s.
Qed.

(** C12: The live loop.  On datagrams of a feed, in any order and with any loss and repetition,
    [listen] runs on without an exception; its book is the one that the feed's events up to the
    first missing message leave; every re-request it sends is well formed and asks for 1 to 65534
    messages of the session; and loading the capture returns every datagram it received, with its
    arrival time, in order of arrival. *)
Theorem listen_serves_and_records_the_feed max first n xs :
  capacity_ok max → 0 < first ≤ u64_max → UdpReceiver.running n → Forall (λ x, arrives x ∧ end_of_session x.2 = false) xs →
  (∀ n, n ∈ carried_all (snd <$> xs) → valid_payload (content n)) →
  ∃ b s, OrderBook.new max = Ret b ∧
    listen char_signed (received <$> xs) (listen_start first b n) = (Ret false, s) ∧ live_session first b n xs s.
Proof.
  intros Hmax Hf Hn Hxs Hvalid. destruct (represents_new max Hmax) as (b & Hb & _).
  destruct (listen_serves max first b n xs) as (s & Hs & Hserved); [done..|]. exists b, s. split_and!; [done..|].
  eapply served_live; [|exact Hserved]. apply Forall_fmap. eapply Forall_impl; [exact Hxs|]. by intros ? [[? ?] ?].
Qed.

(** The live loop ends with the session.  The first packet that announces the end is handled as
    any other, then the hash of the book is printed and the loop is left: what arrives later is
    not received. *)
Theorem listen_ends_with_the_session max first n xs z later :
  capacity_ok max → 0 < first ≤ u64_max → UdpReceiver.running n → Forall (λ x, arrives x ∧ end_of_session x.2 = false) xs →
  arrives z → end_of_session z.2 = true →
  (∀ n, n ∈ carried_all (snd <$> xs ++ [z]) → valid_payload (content n)) →
  ∃ b s hash, OrderBook.new max = Ret b ∧
    listen char_signed ((received <$> xs ++ [z]) ++ later) (listen_start first b n) = (Ret true, s) ∧
    live_session first b n (xs ++ [z]) s ∧
    OrderBook.state_hash char_signed (book s) = Ret hash ∧ last (lines s) = Some (EndLine hash).
Proof.
  intros Hmax Hf Hn Hxs [Hz Hzr] Hend Hvalid. destruct (represents_new max Hmax) as (b & Hb & _).
  rewrite fmap_app, carried_all_app in Hvalid. cbn [fmap list_fmap] in Hvalid. rewrite carried_all_single in Hvalid.
  destruct (listen_serves max first b n xs) as (s1 & Hs1 & (es & reqs & new & asked & Hl1 & Hserving & Hd1 & Hq1));
    [done..|set_solver|].
  pose proof (wp_serve max Hmax char_signed session content first z (∅ ∪ carried_all (snd <$> xs)) _ _ _ s1 (proj1 Hf) Hz Hzr
    ltac:(rewrite union_empty_l_L; exact Hvalid) Hserving) as (stop & s & Hs & -> & Hserved & Hhash)%wp_exact.
  rewrite Hend in Hs, Hhash. destruct (Hhash eq_refl) as (hash & Hh & Hlast).
  exists b, s, hash. split; [done|]. split; [|split; [|done]].
  - rewrite fmap_app, <-app_assoc. rewrite (listen_app _ _ _ _ _ Hs1). cbn [fmap list_fmap app listen].
    unfold mbind, M_bind. by rewrite Hs.
  - eapply served_live.
    + rewrite fmap_app. apply Forall_app. split; [|by constructor].
      apply Forall_fmap. eapply Forall_impl; [exact Hxs|]. by intros ? [[? ?] ?].
    + by eapply served_trans.
Qed.

(** The turn in which a datagram arrives. *)
Definition received_bytes (t : Z) (d : list byte) : Turn := mkTurn [UdpReceiver.ready d] t true 20.
Lemma listen_turn_rejects t d err file n s :
  UdpReceiver.running n → socket s = Some n → capture s = Some (Streams.mkOut file false) →
  record_ok (mkRecord t d) → parse_downstream d = Throw err →
  listen_turn char_signed (received_bytes t d) s =
    (Throw err, mk (recovery s) (book s) (lines s) (messages s)
       (Some (Streams.mkOut (file ++ record_bytes (mkRecord t d)) false)) (socket s)).
Proof.
  intros Hn Hs Hc [Ht Hlen] Hd. cbn [monotonic_ns datagram] in Ht, Hlen.
  unfold listen_turn, mbind at 1, M_bind at 1, on_socket at 1. rewrite Hs. cbn [received_bytes answers].
  rewrite UdpReceiver.receive_ready by done. rewrite take_ge by (unfold UdpReceiver.max_datagram, kMaxCaptureDatagramSize in *; lia).
  assert (Hstop : ∀ X (k : bool → M Pipeline.t X),
    ((stop ← (if decide (d = []) then on_socket UdpReceiver.load_stop else mret false); k stop)
       (mk (recovery s) (book s) (lines s) (messages s) (capture s) (Some n))) =
    k false (mk (recovery s) (book s) (lines s) (messages s) (capture s) (Some n))).
  { intros X k. unfold mbind, M_bind. case_decide; [|done]. unfold on_socket. cbn [socket].
    unfold UdpReceiver.load_stop. by rewrite (proj1 Hn). }
  rewrite Hstop. unfold get, mbind, M_bind. cbn [capture]. rewrite Hc.
  cbn [now received_bytes]. rewrite u64_small by exact Ht.
  pose proof (write_record_spec (mkRecord t d) file (conj Ht Hlen)) as Hw. cbn [monotonic_ns datagram] in Hw. rewrite Hw.
  unfold set_capture, modify, lift. by rewrite Hd.
Qed.


End live.

Import PipelineExamples.

Definition sample_arrivals : list (Z * MoldDownstreamPacket) := [(10, data 2 1); (20, data 1 1); (30, data 4 2)].
Definition session_end : Z * MoldDownstreamPacket := (40, mkPacket feed_session 6 65535 false true []).
Lemma sample_arrive : Forall (λ x, arrives feed_session feed_content x ∧ end_of_session x.2 = false) sample_arrivals.
Proof.
  repeat (constructor; [split; [split; [apply data_ok; lia|]|reflexivity]; decided|]).
  constructor.
Qed.
Lemma session_end_arrives : arrives feed_session feed_content session_end.
Proof.
  split; [split|decided].
  - split; cbn; [done|word_lia|by right; left].
  - split; cbn; [done|word_lia|constructor].
Qed.

Definition sample_socket : UdpReceiver.State :=
  UdpReceiver.mkState (UdpReceiver.mk 3 4 5 false) (UdpReceiver.mkKernel {[0; 1; 2; 3; 4; 5]} 0 [] "Success").

Lemma listen_serves_and_records_the_feed_witness :
  ∃ b s, OrderBook.new 4 = Ret b ∧
    @listen itch50_header true (received <$> sample_arrivals) (listen_start 1 b sample_socket) = (Ret false, s) ∧
    @live_session itch50_header feed_session feed_content 1 b sample_socket sample_arrivals s.
Proof.
  apply (@listen_serves_and_records_the_feed itch50_header itch50_header_generated true feed_session feed_content 4 1 sample_socket).
  - exact capacity_4.
  - word_lia.
  - split; reflexivity.
  - exact sample_arrive.
  - intros n _. apply content_valid.
Defined.

Lemma listen_ends_with_the_session_witness :
  ∃ b s hash, OrderBook.new 4 = Ret b ∧
    @listen itch50_header true ((received <$> sample_arrivals ++ [session_end]) ++ [received (50, data 3 1)])
      (listen_start 1 b sample_socket) = (Ret true, s) ∧
    @live_session itch50_header feed_session feed_content 1 b sample_socket (sample_arrivals ++ [session_end]) s ∧
    OrderBook.state_hash true (book s) = Ret hash ∧ last (lines s) = Some (EndLine hash).
Proof.
  apply (@listen_ends_with_the_session itch50_header itch50_header_generated true feed_session feed_content 4 1 sample_socket).
  - exact capacity_4.
  - word_lia.
  - split; reflexivity.
  - exact sample_arrive.
  - exact session_end_arrives.
  - reflexivity.
  - intros n _. apply content_valid.
Defined.


