(* ===== verification/Metrics.v ===== *)
(** Latency statistics: [include/efe/metrics.hpp] and [src/metrics.cpp], with the floating-point
    arithmetic of [Floats].  [std::sort] is a merge sort. *)
From S2P Require Import Prelude Floats.
Import Floats.

Module Metrics.

Record LatencySummary : Type := mkSummary {
  mean_ns : spec_float;
  p50_ns : Z;
  p95_ns : Z;
  p99_ns : Z;
  p999_ns : Z;
  max_ns : Z }.

Definition add (ns : Z) (samples : list Z) : list Z := samples ++ [ns].
Definition size (samples : list Z) : Z := Z.of_nat (length samples).

(** [s[idx]] *)
Definition at_index (s : list Z) (i : Z) : outcome Z :=
  match vget s i with Some v => Ret v | None => Undef "s[idx]: index out of range" end.

(** [static_cast<std::size_t>(p*static_cast<double>(s.size()-1))] *)
Definition index (p : spec_float) (s : list Z) : outcome Z := to_u64 (mul double p (of_Z double (size s - 1))).
(** The lambda [q]. *)
Definition quantile (s : list Z) (p : spec_float) : outcome Z := i ← index p s; at_index s i.

Definition mean (s : list Z) : spec_float :=
  let sum := foldl (λ sum v, Floats.add long_double sum (of_Z long_double v)) (S754_zero false) s in
  convert double (div long_double sum (of_Z long_double (size s))).

Definition summarize (samples : list Z) : outcome LatencySummary :=
  if decide (samples = []) then Ret (mkSummary (S754_zero false) 0 0 0 0 0)
  else
    let s := merge_sort Z.le samples in
    p50 ← quantile s (literal double 50 100);
    p95 ← quantile s (literal double 95 100);
    p99 ← quantile s (literal double 99 100);
    p999 ← quantile s (literal double 999 1000);
    back ← at_index s (size s - 1);
    Ret (mkSummary (mean s) p50 p95 p99 p999 back).

(** * The ranks *)

(** The four literals, times 2^53. *)
Definition literals : list (spec_float * positive) :=
  [(literal double 50 100, 4503599627370496%positive); (literal double 95 100, 8556839292003942%positive);
   (literal double 99 100, 8917127262193582%positive); (literal double 999 1000, 8998192055486251%positive)].
Lemma literals_ok : Forall (λ l, l.1 = S754_finite false l.2 (-53)) literals.
Proof. repeat (constructor; [vm_compute; reflexivity|]). constructor. Qed.

(** The product behind a rank, in the scale of [fraction_of]. *)
Definition rounded_product (P : positive) (n w : Z) : Prop :=
  Z.pos P * (n * 2 ^ align n) * (2 ^ 52 - 1) ≤ w * 2 ^ 52 ≤ Z.pos P * (n * 2 ^ align n) * (2 ^ 52 + 1).

(** A literal below one selects a rank of a sample list of up to 2^53 elements. *)
Lemma index_rank p P s :
  p = S754_finite false P (-53) → 2 ^ 52 ≤ Z.pos P → Z.pos P * (2 ^ 52 + 1) ≤ 2 ^ 105 → 0 < size s ≤ 2 ^ 53 →
  ∃ w, index p s = Ret (w / 2 ^ (53 + align (size s - 1))) ∧
    0 ≤ w / 2 ^ (53 + align (size s - 1)) < size s ∧ rounded_product P (size s - 1) w.
Proof.
  intros -> Hlo Hhi Hs. unfold index, rounded_product. set (n := size s - 1) in *.
  destruct (decide (n = 0)) as [Hn|Hn].
  - rewrite Hn. exists 0. split; [done|]. split; [change (0 ≤ 0 < size s)|change (0 ≤ 0 ≤ 0)]; lia.
  - destruct (fraction_of P n ltac:(lia) ltac:(lia)) as (w & -> & Hw). exists w. split; [done|]. split; [|done].
    pose proof (proj1 (of_Z_double n ltac:(lia))) as Ha.
    assert (Hpow : 0 < 2 ^ align n) by (apply Z.pow_pos_nonneg; lia).
    rewrite Z.pow_add_r by lia. set (a := 2 ^ align n) in *.
    assert (w ≤ n * (2 ^ 53 * a)) by nia.
    split; [apply Z.div_pos; nia|]. pose proof (Z.div_le_upper_bound w (2 ^ 53 * a) n ltac:(nia) ltac:(lia)). lia.
Qed.

(** Of two literals that differ by more than rounding can, the larger selects the later rank. *)
Lemma ranks_increase P P' n w w' :
  rounded_product P n w → rounded_product P' n w' → 0 ≤ n → Z.pos P * (2 ^ 52 + 1) ≤ Z.pos P' * (2 ^ 52 - 1) →
  w / 2 ^ (53 + align n) ≤ w' / 2 ^ (53 + align n).
Proof.
  unfold rounded_product. intros Hw Hw' Hn HP. assert (0 ≤ 2 ^ align n) by (apply Z.pow_nonneg; lia).
  destruct (decide (53 + align n < 0)); [by rewrite Z.pow_neg_r, !Z.div_0_r by lia|].
  apply Z.div_le_mono; [apply Z.pow_pos_nonneg; lia|]. assert (0 ≤ n * 2 ^ align n) by nia. nia.
Qed.

(** * Correctness *)

Lemma at_index_Ret s i : 0 ≤ i < size s → ∃ v, at_index s i = Ret v ∧ s !! Z.to_nat i = Some v.
Proof.
  intros Hi. unfold at_index, vget. rewrite decide_True by lia.
  destruct (lookup_lt_is_Some_2 s (Z.to_nat i)) as [v Hv]; [unfold size in Hi; lia|]. rewrite Hv. by exists v.
Qed.
Lemma sorted_lookup s i j v w :
  StronglySorted Z.le s → s !! i = Some v → s !! j = Some w → (i ≤ j)%nat → v ≤ w.
Proof.
  revert i j. induction s as [|x s IH]; intros i j Hs Hi Hj Hij; [done|].
  apply StronglySorted_inv in Hs as [Hs Hall]. rewrite Forall_forall in Hall. destruct i as [|i], j as [|j]; cbn in Hi, Hj.
  - simplify_eq. lia.
  - injection Hi as <-. apply Hall, list_elem_of_lookup. by exists j.
  - lia.
  - apply (IH i j); [done..|lia].
Qed.

(** The four percentiles exist, at ranks that do not decrease. *)
Lemma quantiles s :
  0 < size s ≤ 2 ^ 53 →
  ∃ i50 i95 i99 i999 v50 v95 v99 v999,
    quantile s (literal double 50 100) = Ret v50 ∧ s !! Z.to_nat i50 = Some v50 ∧
    quantile s (literal double 95 100) = Ret v95 ∧ s !! Z.to_nat i95 = Some v95 ∧
    quantile s (literal double 99 100) = Ret v99 ∧ s !! Z.to_nat i99 = Some v99 ∧
    quantile s (literal double 999 1000) = Ret v999 ∧ s !! Z.to_nat i999 = Some v999 ∧
    0 ≤ i50 ≤ i95 ∧ i95 ≤ i99 ≤ i999 ∧ i999 < size s.
Proof.
  intros Hs. pose proof literals_ok as Hl. unfold literals in Hl. rewrite !Forall_cons in Hl.
  destruct Hl as (H50 & H95 & H99 & H999 & _). cbn [fst snd] in *.
  destruct (index_rank _ _ s H50) as (w50 & E50 & B50 & R50); [lia..|].
  destruct (index_rank _ _ s H95) as (w95 & E95 & B95 & R95); [lia..|].
  destruct (index_rank _ _ s H99) as (w99 & E99 & B99 & R99); [lia..|].
  destruct (index_rank _ _ s H999) as (w999 & E999 & B999 & R999); [lia..|].
  destruct (at_index_Ret s _ B50) as (v50 & Q50 & L50). destruct (at_index_Ret s _ B95) as (v95 & Q95 & L95).
  destruct (at_index_Ret s _ B99) as (v99 & Q99 & L99). destruct (at_index_Ret s _ B999) as (v999 & Q999 & L999).
  pose proof (ranks_increase _ _ _ _ _ R50 R95 ltac:(lia) ltac:(lia)).
  pose proof (ranks_increase _ _ _ _ _ R95 R99 ltac:(lia) ltac:(lia)).
  pose proof (ranks_increase _ _ _ _ _ R99 R999 ltac:(lia) ltac:(lia)).
  do 4 eexists. exists v50, v95, v99, v999. unfold quantile. rewrite E50, E95, E99, E999.
  cbn [mbind outcome_bind]. split_and!; [exact Q50|exact L50|exact Q95|exact L95|exact Q99|exact L99|exact Q999|exact L999|lia..].
Qed.

(** C36: A summary of at most 2^53 samples reads no sample out of range and converts no
    floating-point number that does not fit: its percentiles are samples and increase with the
    rank, and its maximum is a sample that no other exceeds. *)
Theorem summary_is_ordered samples :
  samples ≠ [] → size samples ≤ 2 ^ 53 →
  ∃ r, summarize samples = Ret r ∧
    p50_ns r ≤ p95_ns r ≤ p99_ns r ∧ p99_ns r ≤ p999_ns r ≤ max_ns r ∧
    Forall (λ v, v ∈ samples) [p50_ns r; p95_ns r; p99_ns r; p999_ns r; max_ns r] ∧
    Forall (λ v, v ≤ max_ns r) samples.
Proof.
  intros Hne Hmax. unfold summarize. rewrite decide_False by done. set (s := merge_sort Z.le samples).
  assert (Hp : Permutation s samples) by apply merge_sort_Permutation.
  assert (Hsorted : StronglySorted Z.le s) by (apply StronglySorted_merge_sort; apply _).
  assert (Hlen : 0 < size s ≤ 2 ^ 53).
  { unfold size in *. rewrite Hp. split; [|done]. destruct samples; [done|]. cbn. lia. }
  destruct (quantiles s Hlen) as (i50 & i95 & i99 & i999 & v50 & v95 & v99 & v999 &
    -> & H50 & -> & H95 & -> & H99 & -> & H999 & ? & ? & ?).
  destruct (at_index_Ret s (size s - 1) ltac:(lia)) as (vmax & -> & Hvmax).
  eexists. split; [done|]. cbn.
  assert (Hin : ∀ i v, s !! i = Some v → v ∈ samples).
  { intros i v Hi. rewrite <-Hp. apply list_elem_of_lookup. by exists i. }
  split_and!; try (eapply sorted_lookup; [exact Hsorted|eassumption..|lia]).
  - repeat constructor; eapply Hin; eassumption.
  - apply Forall_forall. intros v Hv. rewrite <-Hp in Hv. apply list_elem_of_lookup in Hv as [i Hi].
    eapply sorted_lookup; [exact Hsorted|exact Hi|exact Hvmax|]. apply lookup_lt_Some in Hi. unfold size. lia.
Qed.

Lemma summary_is_ordered_witness :
  ∃ r, summarize [30; 10; 20] = Ret r ∧
    p50_ns r ≤ p95_ns r ≤ p99_ns r ∧ p99_ns r ≤ p999_ns r ≤ max_ns r ∧
    Forall (λ v, v ∈ [30; 10; 20]) [p50_ns r; p95_ns r; p99_ns r; p999_ns r; max_ns r] ∧
    Forall (λ v, v ≤ max_ns r) [30; 10; 20].
Proof.
  apply (summary_is_ordered [30; 10; 20]).
  - discriminate.
  - vm_compute. discriminate.
Defined.
End Metrics.
