(* ===== verification/Program.v ===== *)
(** The command line of [src/main.cpp]: [main], its commands, what they print, and the exit codes.
    The commands run the pipeline of [Pipeline] and, for [listen], the socket of [UdpReceiver]; what
    the outside answers is the [World].  The state is the process: its descriptors, its two
    standard streams, and the capture file that it writes.  A line that the pipeline prints is
    one [Pipeline.Line]; [print_line] gives its text. *)
From S2P Require Import Prelude Types ByteReader MoldUdp64 RecoveryEngine ProtocolCompiler Text.
From S2P Require Import GeneratedHeader ItchDecoder OrderBook Capture Floats Replay Pipeline UdpReceiver.
From Stdlib Require Import Strings.Byte.
#[local] Open Scope list_scope.
#[local] Open Scope Z_scope.

Module Program.
Export Text.Items.

(** * The process and the outside *)

Record Process : Type := mkProcess {
  kernel : UdpReceiver.Kernel;
  out : Text.ostream;
  err : Text.ostream;
  file : option Streams.ostream }.

(** The capture file that is read, [None] if it cannot be opened; whether the one that is written
    can be opened; [std::cin]; the nanoseconds that pass on the steady clock while a capture is
    replayed; the answers to the socket's constructor; and those to the turns of [listen]. *)
Record World : Type := mkWorld {
  capture_file : option (list byte);
  capture_opened : bool;
  keyboard : list byte;
  replay_ns : Z;
  setup : UdpReceiver.Setup;
  turns : list Pipeline.Turn }.

Definition on_kernel {A} (m : M UdpReceiver.Kernel A) : M Process A := λ p,
  let '(r, k) := m (kernel p) in (r, mkProcess k (out p) (err p) (file p)).
Definition set_kernel (k : UdpReceiver.Kernel) : M Process unit :=
  modify (λ p, mkProcess k (out p) (err p) (file p)).
Definition set_file (f : Streams.ostream) : M Process unit :=
  modify (λ p, mkProcess (kernel p) (out p) (err p) (Some f)).

(** * Printing *)

(** [std::cout << ...] and [std::cerr << ...] *)
Definition cout (items : list Item) : M Process unit :=
  modify (λ p, mkProcess (kernel p) (foldl put_item (out p) items) (err p) (file p)).
Definition cerr (items : list Item) : M Process unit :=
  modify (λ p, mkProcess (kernel p) (out p) (foldl put_item (err p) items) (file p)).

Definition print_line (l : Pipeline.Line) : M Process unit :=
  match l with
  | Pipeline.GapLine first count =>
      cout [Str "GAP: request seq "; Unsigned first; Str " count "; Unsigned count; Newline]
  | Pipeline.MessageLine sequence name applied =>
      cout [Str "seq "; Unsigned sequence; Str " "; Chars name];;
      (match applied with
       | Some ok => cout [Str (if ok : bool then " applied" else " rejected")]
       | None => mret tt
       end);;
      cout [Newline]
  | Pipeline.RejectedLine sequence => cerr [Str "book rejected seq "; Unsigned sequence; Newline]
  | Pipeline.EndLine hash =>
      cout [Str "end of session; state_hash=0x"; Hex; Unsigned hash; Dec; Newline]
  end.

(** Code on the local objects: what it has printed and written stays, whether it returns or throws. *)
Definition run_pipeline {A} (r : outcome A) (s : Pipeline.t) : M Process A :=
  Pipeline.for_each (Pipeline.lines s) print_line;;
  (match Pipeline.capture s with Some f => set_file f | None => mret tt end);;
  lift r.

Definition argument (argv : list (list byte)) (i : nat) : outcome (list byte) :=
  match argv !! i with Some a => Ret a | None => Undef "argv" end.

Section program.
Context `{Header} (char_signed : bool) (w : World).

(** * Commands *)

Definition demo : M Process Z :=
  cout [Str "Exchange Feed Engine demo: gap recovery + generated ITCH decoding + arena book"; Newline; Newline];;
  '(r, s) ← lift Pipeline.demo_run;
  run_pipeline r s;;
  let book := Pipeline.book s in
  cout [Newline; Str "final live orders: "; Unsigned (OrderBook.live_order_count book); Newline];;
  (match OrderBook.best_bid book (Symbol.from_string (bs "AAPL")) with
   | Some bid => cout [Str "best bid: $"; Fixed; Precision 4; Double (to_decimal_price bid); Newline]
   | None => mret tt
   end);;
  cout [Str "state hash: 0x"; Hex];;
  hash ← lift (OrderBook.state_hash char_signed book);
  cout [Unsigned hash; Dec; Newline];;
  mret 0.

(** [ReplayEngine::run] prints the prompts of step mode. *)
Definition print_action (a : Replay.Action) : M Process unit :=
  match a with
  | Replay.Prompt => cout [Str "press ENTER for next packet..."]
  | Replay.SleepFor _ => mret tt
  end.
(** [std::chrono::duration<double>] *)
Definition seconds (ns : Z) : spec_float := Floats.duration 1000000000 ns.

Definition replay (path : list byte) (options : Replay.ReplayOptions) : M Process Z :=
  '(r, s) ← lift (Pipeline.replay_run path (capture_file w) options (keyboard w));
  Pipeline.for_each (Replay.actions s) print_action;;
  packets ← lift r;
  let book := Pipeline.book (Replay.client s) in
  cout [Str "replayed "; Unsigned packets; Str " packets / "; Unsigned (Pipeline.messages (Replay.client s));
        Str " messages in "; Double (seconds (replay_ns w)); Str " s"; Newline];;
  cout [Str "live orders="; Unsigned (OrderBook.live_order_count book); Str " state_hash=0x"; Hex];;
  hash ← lift (OrderBook.state_hash char_signed book);
  cout [Unsigned hash; Dec; Newline];;
  mret 0.

Definition help : M Process unit :=
  cout [Str "Exchange Feed Engine"; Newline;
        Str "  feed_engine demo"; Newline;
        Str "  feed_engine make-sample-capture <file>"; Newline;
        Str "  feed_engine replay <capture> [--speed max|N | --realtime | --step]"; Newline;
        Str "  feed_engine listen <group> <port> <rerequest-host> <rerequest-port> [capture.efc]"; Newline].

Definition make_sample_capture (path : list byte) : M Process Z :=
  '(r, f) ← lift (Pipeline.write_samples path (capture_opened w));
  set_file f;;
  lift r;;
  cout [Str "wrote sample capture: "; Chars path; Newline];;
  mret 0.

(** [listen] after the socket has been made.  [OutOfFuel] stands for a loop that is not left before
    the answers of the outside end. *)
Definition listen_on_socket (argv : list (list byte)) (socket : UdpReceiver.t) : M Process Z :=
  b ← lift (OrderBook.new 2000000);
  capture ← lift (if decide (7 ≤ length argv)%nat then
                    path ← argument argv 6; Some <$> Capture.open_writer path (capture_opened w)
                  else Ret None);
  p ← get;
  let '(r, s) :=
    Pipeline.listen char_signed (turns w)
      (Pipeline.mk (RecoveryEngine.new 1) b [] 0 capture (Some (UdpReceiver.mkState socket (kernel p)))) in
  (match Pipeline.socket s with Some n => set_kernel (UdpReceiver.kernel n) | None => mret tt end);;
  stop ← run_pipeline r s;
  if stop : bool then mret 0 else lift OutOfFuel.

(** A local socket: its destructor, for which the stop flag is nothing, runs when the rest returns or
    throws. *)
Definition with_socket {A} (rest : UdpReceiver.t → M Process A) : M Process A :=
  socket ← on_kernel (UdpReceiver.new (setup w));
  a ← catch_rethrow (rest socket) (on_kernel (UdpReceiver.destroy socket));
  on_kernel (UdpReceiver.destroy socket);;
  mret a.

(** The port numbers are converted before the socket is made, and cut to 16 bits. *)
Definition listen (argv : list (list byte)) : M Process Z :=
  if decide (length argv < 6)%nat then
    cerr [Str "usage: feed_engine listen <group> <port> <rerequest-host> <rerequest-port> [capture.efc]"; Newline];;
    mret 2
  else
    port ← lift (argument argv 3 ≫= Text.stoi);
    rport ← lift (argument argv 5 ≫= Text.stoi);
    with_socket (listen_on_socket argv).

(** * [main] *)

Definition dispatch (argv : list (list byte)) : M Process Z :=
  match argv with
  | [] => undef "argv[1]"
  | [_] => demo
  | _ :: command :: _ =>
      if decide (command = bs "demo") then demo
      else if decide (command = bs "--help" ∨ command = bs "help") then help;; mret 0
      else if decide (command = bs "replay") then
        if decide (length argv < 3)%nat then
          cerr [Str "usage: feed_engine replay <capture.efc> [--speed max|N | --realtime | --step]"; Newline];;
          mret 2
        else options ← lift (Pipeline.replay_options argv); path ← lift (argument argv 2); replay path options
      else if decide (command = bs "make-sample-capture") then
        if decide (length argv < 3)%nat then
          cerr [Str "usage: feed_engine make-sample-capture <capture.efc>"; Newline];;
          mret 2
        else path ← lift (argument argv 2); make_sample_capture path
      else if decide (command = bs "listen") then listen argv
      else cerr [Str "unknown command; run feed_engine --help"; Newline];; mret 2
  end.

(** [e.what()] *)
Definition what (e : exn) : string :=
  match e with
  | DecodeError s | RuntimeError s | InvalidArgument s | OverflowError s | OutOfRange s | LengthError s => s
  | BadAlloc => "std::bad_alloc"
  end.

(** [catch (const std::exception& e)] *)
Definition main (argv : list (list byte)) : M Process Z := λ p,
  match dispatch argv p with
  | (Throw e, p') => (cerr [Str "fatal: "; Str (what e); Newline];; mret 1) p'
  | r => r
  end.
End program.
End Program.
