(* ===== verification/ProgramProofs.v ===== *)
(** Theorems about the command line: exit codes, descriptors, what replay prints, how it reads its
    speed, and the sample capture, which replays to the state that the demo ends in. *)
From S2P Require Import Prelude Types ByteReader MoldUdp64 RecoveryEngine ProtocolCompiler Itch50Schema.
From S2P Require Import GeneratedHeader ItchDecoder ItchProofs OrderBook BookSpec BookQueries BookTheorems.
From S2P Require Import Capture Floats Text TextProofs Replay Pipeline PipelineProofs UdpReceiver Program.
From Stdlib Require Import Strings.Byte.
#[local] Open Scope list_scope.
#[local] Open Scope Z_scope.
Import MoldUdp64 Pipeline Program.

(** * Exit codes and descriptors *)

(** Whatever happens, the code leaves the descriptors alone, and what it returns satisfies [Q]. *)
Definition open_fds (p : Process) : gset Z := UdpReceiver.open_fds (kernel p).
Definition quiet {A} (m : M Process A) (Q : A → Prop) : Prop :=
  ∀ p, open_fds (m p).2 = open_fds p ∧ ∀ a, (m p).1 = Ret a → Q a.

Section quiet_rules.
Lemma quiet_bind {A B} (m : M Process A) (k : A → M Process B) Q :
  quiet m (λ a, quiet (k a) Q) → quiet (m ≫= k) Q.
Proof.
  intros Hm p. destruct (Hm p) as [Hk Ha]. unfold mbind, M_bind.
  destruct (m p) as [[a|?|?|] p']; cbn in *; [|done..].
  destruct (Ha a eq_refl p') as [Hk' Hb]. split; [congruence|done].
Qed.
Lemma quiet_ret {A} (a : A) (Q : A → Prop) : Q a → quiet (mret a) Q.
Proof. intros Ha p. split; [done|]. by intros a' [= <-]. Qed.
Lemma quiet_lift {A} (o : outcome A) (Q : A → Prop) : (∀ a, o = Ret a → Q a) → quiet (lift o) Q.
Proof. by intros Ho p. Qed.
Lemma quiet_modify (f : Process → Process) (Q : unit → Prop) :
  (∀ p, open_fds (f p) = open_fds p) → Q tt → quiet (modify f) Q.
Proof. intros Hf Hq p. split; [apply Hf|]. by intros []. Qed.
Lemma quiet_get {A} (k : Process → M Process A) (Q : A → Prop) :
  (∀ p, open_fds (k p p).2 = open_fds p ∧ ∀ a, (k p p).1 = Ret a → Q a) → quiet (get ≫= k) Q.
Proof. done. Qed.
Lemma quiet_cout items (Q : unit → Prop) : Q tt → quiet (cout items) Q.
Proof. by apply quiet_modify. Qed.
Lemma quiet_cerr items (Q : unit → Prop) : Q tt → quiet (cerr items) Q.
Proof. by apply quiet_modify. Qed.
Lemma quiet_for_each {A} (ms : list A) (body : A → M Process unit) (Q : unit → Prop) :
  (∀ m, quiet (body m) (λ _, True)) → Q tt → quiet (for_each ms body) Q.
Proof.
  intros Hb Hq. induction ms as [|m ms IH]; cbn [for_each]; [by apply quiet_ret|].
  apply quiet_bind. intros p. split; [apply Hb|done].
Qed.
Lemma quiet_print_line l : quiet (print_line l) (λ _, True).
Proof.
  destruct l as [first count|sequence name [ok|]|sequence|hash]; cbn [print_line];
    repeat first [apply quiet_bind | apply quiet_cout | apply quiet_cerr | apply quiet_ret | done].
Qed.
Lemma quiet_run_pipeline {A} (r : outcome A) s (Q : A → Prop) :
  (∀ a, r = Ret a → Q a) → quiet (run_pipeline r s) Q.
Proof.
  intros Hr. unfold run_pipeline. apply quiet_bind, quiet_for_each; [apply quiet_print_line|].
  apply quiet_bind. destruct (capture s); [apply quiet_modify; [done|]|apply quiet_ret]; by apply quiet_lift.
Qed.
End quiet_rules.

(** Symbolic execution of code that may throw. *)
Ltac quiet_step :=
  cbv beta; lazymatch goal with
  | |- quiet (_ ≫= _) _ => apply quiet_bind
  | |- quiet (mret _) _ => apply quiet_ret
  | |- quiet (lift OutOfFuel) _ => by apply quiet_lift
  | |- quiet (lift _) _ => apply quiet_lift; intros ? _
  | |- quiet (cout _) _ => apply quiet_cout
  | |- quiet (cerr _) _ => apply quiet_cerr
  | |- quiet (set_file _) _ => apply quiet_modify; [done|]
  | |- quiet (run_pipeline _ _) _ => apply quiet_run_pipeline; intros ? _
  | |- quiet (for_each _ _) _ => apply quiet_for_each; [intros ?|]
  | |- quiet (match ?x with _ => _ end) _ => destruct x
  | |- True => exact I
  | |- _ = _ => reflexivity
  end.

(** [listen] opens and closes nothing. *)
Section listen.
Context `{Header}.

Definition socket_fds (s : Pipeline.t) : option (gset Z) := UdpReceiver.fds <$> socket s.
Definition keeps {A} (m : M Pipeline.t A) : Prop := ∀ s, socket_fds (m s).2 = socket_fds s.

Lemma keeps_bind {A B} (m : M Pipeline.t A) (k : A → M Pipeline.t B) : keeps m → (∀ a, keeps (k a)) → keeps (m ≫= k).
Proof.
  intros Hm Hk s. specialize (Hm s). unfold mbind, M_bind. destruct (m s) as [[a|?|?|] s']; [|done..]. by rewrite Hk.
Qed.
Lemma keeps_on_book {A} (m : M OrderBook.t A) : keeps (on_book m).
Proof. intros s. unfold on_book. by destruct (m (book s)). Qed.
Lemma keeps_on_recovery {A} (m : M RecoveryEngine.t A) : keeps (on_recovery m).
Proof. intros s. unfold on_recovery. by destruct (m (recovery s)). Qed.
Lemma keeps_on_socket {A} (m : M UdpReceiver.State A) :
  (∀ n, UdpReceiver.fds (m n).2 = UdpReceiver.fds n) → keeps (on_socket m).
Proof.
  intros Hm s. unfold on_socket, socket_fds. destruct (socket s) as [n|] eqn:Hs; [|cbn; by rewrite Hs].
  specialize (Hm n). destruct (m n). cbn in *. by rewrite Hm.
Qed.
Lemma keeps_for_each {A} (ms : list A) (body : A → M Pipeline.t unit) : (∀ a, keeps (body a)) → keeps (for_each ms body).
Proof. intros Hb. induction ms; [by intros s|]. by apply keeps_bind. Qed.

Ltac keeps_step :=
  cbv beta; lazymatch goal with
  | |- keeps (_ ≫= _) => apply keeps_bind; [|intros ?]
  | |- keeps (on_book _) => apply keeps_on_book
  | |- keeps (on_recovery _) => apply keeps_on_recovery
  | |- keeps (on_socket _) => apply keeps_on_socket; intros ?
  | |- keeps (for_each _ _) => apply keeps_for_each; intros ?
  | |- keeps (match ?x with _ => _ end) => destruct x
  | |- keeps _ => intros ?; reflexivity
  end.
Lemma listen_turn_keeps_fds char_signed t : keeps (listen_turn char_signed t).
Proof.
  unfold listen_turn, listen_message. repeat keeps_step.
  - apply UdpReceiver.receive_fds.
  - done.
  - apply UdpReceiver.send_unicast_fds.
Qed.
Lemma listen_keeps_fds char_signed ts : keeps (Pipeline.listen char_signed ts).
Proof.
  induction ts as [|t ts IH]; cbn [Pipeline.listen]; [by intros s|].
  apply keeps_bind; [apply listen_turn_keeps_fds|]. by intros [|]; [intros s|].
Qed.
End listen.

Section commands.
Context `{Header} (char_signed : bool) (w : World).

Lemma demo_quiet : quiet (demo char_signed) (λ c, c = 0).
Proof. unfold demo. repeat quiet_step. Qed.
Lemma replay_quiet path o : quiet (replay char_signed w path o) (λ c, c = 0).
Proof.
  unfold replay. do 2 quiet_step. destruct a as [r s]. apply quiet_bind, quiet_for_each.
  - intros []; [by apply quiet_ret|by apply quiet_cout].
  - repeat quiet_step.
Qed.
Lemma make_sample_capture_quiet path : quiet (make_sample_capture w path) (λ c, c = 0).
Proof. unfold make_sample_capture. repeat quiet_step. Qed.
Lemma listen_on_socket_quiet argv u : quiet (listen_on_socket char_signed w argv u) (λ c, c = 0).
Proof.
  unfold listen_on_socket. do 2 (apply quiet_bind, quiet_lift; intros ? _). apply quiet_get. intros p. set (s0 := mk _ _ _ _ _ _).
  pose proof (listen_keeps_fds char_signed (turns w) s0) as Hk. unfold socket_fds in Hk.
  destruct (Pipeline.listen char_signed (turns w) s0) as [r s]. cbn in Hk.
  destruct (socket s) as [n|]; [|done]. injection Hk as Hk.
  assert (Hrest : quiet (stop ← run_pipeline r s; if stop : bool then mret 0 else lift OutOfFuel) (λ c, c = 0))
    by repeat quiet_step.
  destruct (Hrest (mkProcess (UdpReceiver.kernel n) (out p) (err p) (file p))) as [H1 H2].
  unfold mbind, M_bind, set_kernel, modify in *. split; [|exact H2]. etransitivity; [exact H1|exact Hk].
Qed.

(** How the documentation says a command is used: its name, the least number of words of the command
    line, and the text that is printed when there are fewer. *)
Definition line (s : string) : list byte := bs s ++ [Byte.x0a].
Definition commands : list (list byte * (nat * list byte)) :=
  [(bs "demo", (0%nat, [])); (bs "help", (0%nat, [])); (bs "--help", (0%nat, []));
   (bs "replay", (3%nat, line "usage: feed_engine replay <capture.efc> [--speed max|N | --realtime | --step]"));
   (bs "make-sample-capture", (3%nat, line "usage: feed_engine make-sample-capture <capture.efc>"));
   (bs "listen", (6%nat, line "usage: feed_engine listen <group> <port> <rerequest-host> <rerequest-port> [capture.efc]"))].
(** What is wrong with a command line, if it is not understood; without a command the demo is run. *)
Definition misuse (argv : list (list byte)) : option (list byte) :=
  match argv !! 1%nat with
  | None => None
  | Some command =>
      match list_find (λ c, c.1 = command) commands with
      | Some (_, (_, (least, usage))) => if decide (length argv < least)%nat then Some usage else None
      | None => Some (line "unknown command; run feed_engine --help")
      end
  end.

(** A run of the body of [main]: it has printed [usage] and returned 2, or it has returned 0 or
    thrown; the open descriptors are those of [p]. *)
Definition ended_well (usage : option (list byte)) (p : Process) (r : outcome Z * Process) : Prop :=
  match r with
  | (Ret code, p') =>
      open_fds p' = open_fds p ∧
      match usage with
      | Some u => code = 2 ∧ Text.text (err p') = Text.text (err p) ++ u ∧ out p' = out p
      | None => code = 0
      end
  | (Throw _, p') => open_fds p' = open_fds p ∧ usage = None
  | _ => True
  end.

Lemma quiet_ended_well m p : quiet m (λ c, c = 0) → ended_well None p (m p).
Proof.
  intros Hm. destruct (Hm p) as [Hk Hc]. unfold ended_well.
  destruct (m p) as [[c|e|?|] p']; cbn in *; [|done..]. split; [done|by apply Hc].
Qed.
Lemma usage_ended_well (s : string) p : ended_well (Some (line s)) p ((cerr [Str s; Newline];; mret 2) p).
Proof. split_and!; [done..|cbn; by rewrite <-app_assoc|done]. Qed.

Lemma with_socket_ended_well m p :
  UdpReceiver.fresh (setup w) (kernel p) → (∀ u, quiet (m u) (λ c, c = 0)) → ended_well None p (with_socket w m p).
Proof.
  intros Hfresh Hm. pose proof (UdpReceiver.new_then_destroy (setup w) (kernel p) Hfresh) as Hnew.
  unfold with_socket, mbind, M_bind, on_kernel at 1.
  destruct (UdpReceiver.new (setup w) (kernel p)) as [[u|e| |] k1]; [|by destruct e|done..].
  destruct Hnew as (_ & _ & k2 & Hdestroy & Hfds).
  set (p1 := mkProcess k1 (out p) (err p) (file p)). destruct (Hm u p1) as [Hk Hc].
  destruct (UdpReceiver.destroy_after u k1 (kernel (m u p1).2) k2 Hdestroy Hk) as (k3 & Hdestroy' & Hfds' & _).
  unfold catch_rethrow, mbind, M_bind, throw.
  destruct (m u p1) as [[c|e|?|] p2]; cbn in Hdestroy', Hc |- *; try done; unfold on_kernel; rewrite Hdestroy'; cbn;
    unfold open_fds; cbn; rewrite Hfds'; [|done]. split; [done|by apply Hc].
Qed.
Lemma listen_ended_well argv p :
  UdpReceiver.fresh (setup w) (kernel p) →
  ended_well (if decide (length argv < 6)%nat then
      Some (line "usage: feed_engine listen <group> <port> <rerequest-host> <rerequest-port> [capture.efc]") else None)
    p (listen char_signed w argv p).
Proof.
  intros Hfresh. unfold listen. case_decide; [apply usage_ended_well|].
  unfold mbind at 1 2, M_bind at 1 2, lift.
  destruct (argument argv 3 ≫= Text.stoi) as [port| | |]; try done.
  destruct (argument argv 5 ≫= Text.stoi) as [rport| | |]; try done.
  apply with_socket_ended_well; [done|apply listen_on_socket_quiet].
Qed.

(** The table and the chain of comparisons find the same command. *)
Lemma dispatch_ended_well argv p :
  UdpReceiver.fresh (setup w) (kernel p) → ended_well (misuse argv) p (dispatch char_signed w argv p).
Proof.
  intros Hfresh. unfold dispatch. destruct argv as [|program [|command rest]]; [done| |].
  { apply quiet_ended_well, demo_quiet. }
  unfold misuse. cbn [lookup list_lookup].
  case_decide as H1; [subst; apply quiet_ended_well, demo_quiet|].
  case_decide as H2; [destruct H2 as [->| ->]; apply quiet_ended_well; unfold help; repeat quiet_step|].
  apply Decidable.not_or in H2 as [H2 H3]. unfold commands. cbn [list_find fst].
  rewrite (decide_False (P := bs "demo" = command)), (decide_False (P := bs "help" = command)),
    (decide_False (P := bs "--help" = command)) by congruence.
  destruct (decide (command = bs "replay")) as [->|H4].
  { rewrite decide_True by done. cbn [fmap option_fmap option_map prod_map fst snd Datatypes.id].
    case_decide; [apply usage_ended_well|]. apply quiet_ended_well. do 4 quiet_step. apply replay_quiet. }
  rewrite (decide_False (P := bs "replay" = command)) by congruence.
  destruct (decide (command = bs "make-sample-capture")) as [->|H5].
  { rewrite decide_True by done. cbn [fmap option_fmap option_map prod_map fst snd Datatypes.id].
    case_decide; [apply usage_ended_well|]. apply quiet_ended_well. do 2 quiet_step. apply make_sample_capture_quiet. }
  rewrite (decide_False (P := bs "make-sample-capture" = command)) by congruence.
  destruct (decide (command = bs "listen")) as [->|H6].
  { rewrite decide_True by done. cbn [fmap option_fmap option_map prod_map fst snd Datatypes.id]. by apply listen_ended_well. }
  rewrite (decide_False (P := bs "listen" = command)) by congruence.
  cbn [fmap option_fmap option_map]. apply usage_ended_well.
Qed.
End commands.

(** C22: Whatever the command line, the files and the network are, the exit code says how the run ended.
    A command line that is not understood, by the table of the commands, ends with 2 after exactly the
    line on the error stream that says how it is used; any other one ends with 0 if the body of
    [main] returns, and if that throws, with 1, after the text of that exception as the last line on
    the error stream and nothing else.  No exception leaves the program, and in every case the open
    descriptors are those it was started with. *)
Theorem program_ends_cleanly `{H : Header} char_signed w argv p :
  UdpReceiver.fresh (setup w) (kernel p) →
  match dispatch char_signed w argv p, main char_signed w argv p with
  | (Ret code, p0), (r, p') =>
      r = Ret code ∧ p' = p0 ∧ open_fds p' = open_fds p ∧
      match misuse argv with
      | Some usage => code = 2 ∧ Text.text (err p') = Text.text (err p) ++ usage ∧ out p' = out p
      | None => code = 0
      end
  | (Throw e, p0), (r, p') =>
      r = Ret 1 ∧ misuse argv = None ∧ open_fds p' = open_fds p ∧ out p' = out p0 ∧ file p' = file p0 ∧
      Text.text (err p') = Text.text (err p0) ++ bs "fatal: " ++ bs (what e) ++ [Byte.x0a]
  | (Undef why, _), (r, _) => r = Undef why
  | (OutOfFuel, _), (r, _) => r = OutOfFuel
  end.
Proof.
  intros Hfresh. pose proof (dispatch_ended_well char_signed w argv p Hfresh) as Hd. unfold main.
  destruct (dispatch char_signed w argv p) as [[code|e| |] p']; [| |done..].
  - destruct Hd as [Hfds Hc]. by split_and!.
  - destruct Hd as [Hfds Hc]. split_and!; [done..|]. cbn. by rewrite <-!app_assoc.
Qed.

(** * What the commands print *)

Definition newline : list byte := [Byte.x0a].
(** A process that has printed nothing. *)
Definition started (k : UdpReceiver.Kernel) : Process := mkProcess k Text.empty Text.empty None.

(** The prompts of step mode. *)
Definition prompts (acts : list Replay.Action) : list byte :=
  concat ((λ a, match a with
                | Replay.Prompt => bs "press ENTER for next packet..."
                | Replay.SleepFor _ => []
                end) <$> acts).
Lemma print_actions acts p :
  for_each acts print_action p =
    (Ret tt, mkProcess (kernel p) (Text.put_text (prompts acts) (out p)) (err p) (file p)).
Proof.
  revert p. induction acts as [|a acts IH]; intros p; cbn [for_each].
  - destruct p as [k [t h f n] e fl]. cbn. unfold Text.put_text. cbn. by rewrite app_nil_r.
  - unfold mbind, M_bind. destruct a as [ns|]; cbn [print_action]; unfold mret, M_ret, cout, modify; rewrite IH.
    + destruct p. reflexivity.
    + destruct p. unfold prompts, Text.put_text. cbn. by rewrite <-app_assoc.
Qed.

(** The summary of [replay]. *)
Definition replay_summary (packets messages : Z) (elapsed : spec_float) (live hash : Z) : list byte :=
  bs "replayed " ++ Text.digits 10 packets ++ bs " packets / " ++ Text.digits 10 messages ++ bs " messages in " ++
  Text.format_general 6 elapsed ++ bs " s" ++ newline ++
  bs "live orders=" ++ Text.digits 10 live ++ bs " state_hash=0x" ++ Text.digits 16 hash ++ newline.

Lemma replay_prints `{Header} char_signed w path o packets st hash k :
  replay_run path (capture_file w) o (keyboard w) = Ret (Ret packets, st) →
  OrderBook.state_hash char_signed (book (Replay.client st)) = Ret hash →
  ∃ p, Program.replay char_signed w path o (started k) = (Ret 0, p) ∧ kernel p = k ∧ Text.text (err p) = [] ∧
    Text.text (out p) = prompts (Replay.actions st) ++ replay_summary packets (messages (Replay.client st))
      (seconds (replay_ns w)) (OrderBook.live_order_count (book (Replay.client st))) hash.
Proof.
  intros Hrun Hhash. unfold Program.replay, mbind, M_bind, lift. rewrite Hrun, print_actions, Hhash.
  eexists. split; [reflexivity|]. split_and!; [done..|].
  unfold replay_summary. cbn [out started cout modify snd foldl put_item Text.put_text Text.put_unsigned
    Text.put_double Text.set_hex Text.text Text.hexadecimal Text.fixed Text.precision Text.empty].
  rewrite <-!app_assoc. reflexivity.
Qed.

(** The dispatch of the commands. *)
Lemma main_replay `{H : Header} char_signed w program path args o r p p' :
  replay_options (program :: bs "replay" :: path :: args) = Ret o →
  Program.replay char_signed w path o p = (Ret r, p') →
  main char_signed w (program :: bs "replay" :: path :: args) p = (Ret r, p').
Proof.
  intros Ho Hr. unfold main, dispatch. do 2 (rewrite decide_False by decided). rewrite decide_True by done.
  rewrite decide_False by (cbn; lia). unfold mbind, M_bind, lift, argument. rewrite Ho. cbn [lookup list_lookup]. by rewrite Hr.
Qed.

Section replay_command.
Context `{HG : !GeneratedFrom itch50 H} (session : list byte) (content : Z → list byte).

End replay_command.

(** * The speed option *)

Lemma show_fixed_first p n : 0 ≤ p → 0 ≤ n → ∃ c s, Text.show_fixed p n = c :: s ∧ Protocolc.isdigit c = true.
Proof.
  intros Hp Hn. assert (Hq : 0 ≤ n / 10 ^ p) by (apply Z.div_pos; [lia|apply Z.pow_pos_nonneg; lia]).
  unfold Text.show_fixed. pose proof (digits_isdigit _ Hq) as Hall.
  destruct (digits_spec 10 _ ltac:(lia) Hq) as (_ & _ & Hne).
  destruct (Text.digits 10 (n / 10 ^ p)) as [|c ds]; [done|]. apply Forall_cons in Hall as [Hc _].
  eexists c, _. split; [done|]. by destruct (Protocolc.isdigit c).
Qed.

(** C39: The speed that replay runs at is the one on the command line.  A positive decimal number
    [n / 10^p], behind --speed or in its place, selects scaled mode with a positive speed that
    differs from the number by a factor of at most 1 ± 2^-51. *)
Theorem speed_is_read program path p n rest :
  0 ≤ p ≤ 100 → 0 < n < 10 ^ 100 →
  ∃ m e a b,
    let o := Replay.mkOptions Replay.Scaled (S754_finite false m e) in
    replay_options (program :: bs "replay" :: path :: Text.show_fixed p n :: rest) = Ret o ∧
    replay_options (program :: bs "replay" :: path :: bs "--speed" :: Text.show_fixed p n :: rest) = Ret o ∧
    Floats.ratio m e = (a, b) ∧ Z.abs (a * 10 ^ p - n * b) * 2 ^ 51 ≤ n * b.
Proof.
  intros Hp Hn. destruct (decimal_is_read p n Hp Hn) as (m & e & a & b & Hstod & Hr & Hb).
  exists m, e, a, b. destruct (show_fixed_first p n) as (c & s & Hcs & Hc); [lia..|].
  assert (Hword : ∀ w ws, Protocolc.isdigit w = false → Text.show_fixed p n ≠ w :: ws) by (rewrite Hcs; intros; congruence).
  assert (Hzero : Text.show_fixed p n ≠ bs "0") by (intros Heq; rewrite Heq in Hstod; vm_compute in Hstod; discriminate).
  assert (Hplain : ¬ (Text.show_fixed p n = bs "max" ∨ Text.show_fixed p n = bs "0")).
  { intros [Heq|Heq]; [by eapply Hword in Heq|done]. }
  intros o. split_and!; [| |done..]; unfold replay_options; cbn [lookup list_lookup].
  - rewrite decide_False by (intros [Heq|Heq]; by eapply Hword in Heq).
    rewrite decide_False by (intros [Heq|Heq]; by eapply Hword in Heq).
    rewrite decide_False by (intros Heq; by eapply Hword in Heq). cbn [mbind outcome_bind].
    rewrite decide_False, Hstod by done. reflexivity.
  - do 2 (rewrite decide_False by decided). rewrite decide_True by done. cbn [mbind outcome_bind].
    rewrite decide_False, Hstod by done. reflexivity.
Qed.
Lemma speed_is_read_witness :
  ∃ m e a b,
    let o := Replay.mkOptions Replay.Scaled (S754_finite false m e) in
    replay_options (bs <$> ["feed_engine"; "replay"; "day.efc"; "2.5"]) = Ret o ∧
    replay_options (bs <$> ["feed_engine"; "replay"; "day.efc"; "--speed"; "2.5"]) = Ret o ∧
    Floats.ratio m e = (a, b) ∧ Z.abs (a * 10 ^ 1 - 25 * b) * 2 ^ 51 ≤ 25 * b.
Proof. apply (speed_is_read (bs "feed_engine") (bs "day.efc") 1 25 []); [lia|split; reflexivity]. Defined.

(** * The lines of the pipeline *)

(** What a line adds to the two streams. *)
Definition out_text (l : Line) : list byte :=
  match l with
  | GapLine first count =>
      bs "GAP: request seq " ++ Text.digits 10 first ++ bs " count " ++ Text.digits 10 count ++ newline
  | MessageLine sequence name applied =>
      bs "seq " ++ Text.digits 10 sequence ++ bs " " ++ name ++
      match applied with Some true => bs " applied" | Some false => bs " rejected" | None => [] end ++ newline
  | RejectedLine _ => []
  | EndLine hash => bs "end of session; state_hash=0x" ++ Text.digits 16 hash ++ newline
  end.
Definition err_text (l : Line) : list byte :=
  match l with
  | RejectedLine sequence => bs "book rejected seq " ++ Text.digits 10 sequence ++ newline
  | _ => []
  end.
Definition log (ls : list Line) : list byte := concat (out_text <$> ls).
Definition error_log (ls : list Line) : list byte := concat (err_text <$> ls).

Lemma put_text_nil o : Text.put_text [] o = o.
Proof. destruct o. unfold Text.put_text. cbn. by rewrite app_nil_r. Qed.
Lemma put_text_app s s' o : Text.put_text (s ++ s') o = Text.put_text s' (Text.put_text s o).
Proof. unfold Text.put_text. cbn. by rewrite app_assoc. Qed.

Lemma print_line_text l p :
  Text.hexadecimal (out p) = false → Text.hexadecimal (err p) = false →
  print_line l p =
    (Ret tt, mkProcess (kernel p) (Text.put_text (out_text l) (out p)) (Text.put_text (err_text l) (err p)) (file p)).
Proof.
  destruct p as [k [t h f n] [t' h' f' n'] fl]. cbn. intros -> ->.
  destruct l as [first count|sequence name [[]|]|sequence|hash]; unfold print_line, mbind, M_bind, cout, cerr, modify, mret, M_ret;
    cbn -[app bs Text.digits]; unfold Text.put_text, Text.put_unsigned; cbn -[app bs Text.digits];
    rewrite ?app_nil_r, <-?app_assoc; reflexivity.
Qed.
Lemma print_lines_text ls p :
  Text.hexadecimal (out p) = false → Text.hexadecimal (err p) = false →
  for_each ls print_line p =
    (Ret tt, mkProcess (kernel p) (Text.put_text (log ls) (out p)) (Text.put_text (error_log ls) (err p)) (file p)).
Proof.
  revert p. induction ls as [|l ls IH]; intros p Ho He; cbn [for_each].
  - destruct p as [k o e f]. unfold log, error_log. cbn. by rewrite !put_text_nil.
  - unfold mbind, M_bind. rewrite print_line_text, IH by done. unfold log, error_log. cbn [fmap list_fmap concat].
    by rewrite !put_text_app.
Qed.

(** * The sample session *)

Section sample.
Context `{HG : !GeneratedFrom itch50 H}.

Definition sample_session : list byte := padded 10 (bs "DEMO").
Definition sample_symbol : Symbol.t := Symbol.from_string (bs "AAPL").
Definition sample_event (n : Z) : MarketEvent :=
  if decide (n = 1) then Add (mkAdd (mkMeta 1 1 1000000) (mkOrder 10 sample_symbol Buy 100 2000000))
  else if decide (n = 2) then Add (mkAdd (mkMeta 1 1 1000000) (mkOrder 11 sample_symbol Buy 200 1999000))
  else Cancel (mkCancel (mkMeta 1 2 1000100) 10 25).
Definition sample_content (n : Z) : list byte :=
  match sample_event n with
  | Add a => Byte.x41 :: add_bytes (add_meta a) (add_order a)
  | Cancel c => Byte.x58 :: meta_bytes (cancel_meta c) ++ be_bytes 8 (cancel_order_id c) ++ be_bytes 4 (canceled_shares c)
  | _ => []
  end.
Definition sample_packet (n : Z) : MoldDownstreamPacket :=
  mkPacket sample_session n 1 false false [mkMessage n (sample_content n)].
Definition sample_arrivals : list MoldDownstreamPacket := sample_packet <$> [1; 3; 2].
Definition sample_records : list (Z * MoldDownstreamPacket) :=
  [(0, sample_packet 1); (1000000, sample_packet 3); (2000000, sample_packet 2)].

Lemma sample_packets_bytes : sample_packets = Ret (packet_bytes <$> sample_arrivals).
Proof. vm_compute. reflexivity. Qed.
Lemma sample_capture_bytes path :
  Pipeline.make_sample_capture path true =
  Ret (Streams.mkOut (capture_bytes ((λ x, mkRecord x.1 (packet_bytes x.2)) <$> sample_records)) false).
Proof. vm_compute. reflexivity. Qed.

Lemma sample_decodes n : ItchDecoder.decode_book_event (sample_content n) = Ret (Some (sample_event n)).
Proof.
  apply decode_wire; unfold sample_content, sample_event; repeat case_decide; try constructor;
    repeat split; cbn; unfold fits; cbn; lia.
Qed.
Lemma sample_feed : Forall (feed_packet sample_session sample_content) sample_arrivals.
Proof.
  assert (Hp : ∀ n, 1 ≤ n ≤ 3 → feed_packet sample_session sample_content (sample_packet n)).
  { intros n Hn. split.
    - split; cbn; [done|word_lia|]. right. right. split_and!; try done; [word_lia|].
      constructor; [|constructor]. unfold sample_content, sample_event. cbn. by repeat case_decide.
    - split; cbn; [done|word_lia|]. constructor; [|constructor]. cbn. unfold u64_max. split; [lia|done]. }
  repeat (constructor; [apply Hp; lia|]). constructor.
Qed.

(** ** The book that it leaves *)

Definition sample_book : BookSpec.t := (spec_run 1024 (sample_event <$> [1; 2; 3]) BookSpec.empty).2.

(** Capacity does not matter as long as it is not reached. *)
Lemma size_remove i a : (size (BookSpec.orders (BookSpec.remove i a)) ≤ size (BookSpec.orders a))%nat.
Proof.
  unfold BookSpec.remove. destruct (BookSpec.orders a !! i); [|done]. cbn. rewrite map_size_delete. destruct (_ !! i); cbn; lia.
Qed.
Lemma size_apply c e a : (size (BookSpec.orders (BookSpec.apply c e a).2) ≤ S (size (BookSpec.orders a)))%nat.
Proof.
  assert (Hinsert : ∀ i o (m : gmap Z Order), (size (<[i:=o]> m) ≤ S (size m))%nat).
  { intros i o m. rewrite map_size_insert. destruct (_ !! i); cbn; lia. }
  assert (Hreduce : ∀ i n, (size (BookSpec.orders (BookSpec.reduce i n a).2) ≤ S (size (BookSpec.orders a)))%nat).
  { intros i n. unfold BookSpec.reduce. destruct (BookSpec.orders a !! i); [|cbn; lia].
    case_decide; [cbn; lia|]. case_decide; cbn; [|apply Hinsert]. pose proof (size_remove i a). lia. }
  destruct e as [e|e|e|e|e]; cbn [BookSpec.apply]; try apply Hreduce.
  - unfold BookSpec.add. case_decide; [cbn; lia|]. destruct (BookSpec.fits _ _); cbn; [apply Hinsert|lia].
  - cbn. pose proof (size_remove (delete_order_id e) a). lia.
  - unfold BookSpec.replace. destruct (BookSpec.orders a !! _); [|cbn; lia]. case_decide; [cbn; lia|].
    destruct (BookSpec.fits _ _); cbn; [|lia]. etrans; [apply Hinsert|]. pose proof (size_remove (old_order_id e) a). lia.
Qed.
Lemma apply_capacity c c' e a :
  Z.of_nat (size (BookSpec.orders a)) < c → Z.of_nat (size (BookSpec.orders a)) < c' →
  BookSpec.apply c e a = BookSpec.apply c' e a.
Proof. intros Hc Hc'. destruct e; try done. apply decide_ext. split; intros [?|[?|[?|?]]]; auto; lia. Qed.
Lemma spec_run_capacity c c' es a :
  Z.of_nat (size (BookSpec.orders a)) + len es ≤ c → Z.of_nat (size (BookSpec.orders a)) + len es ≤ c' →
  spec_run c es a = spec_run c' es a.
Proof.
  revert a. induction es as [|e es IH]; intros a Hc Hc'; [done|]. cbn [spec_run length] in *.
  rewrite (apply_capacity c c') by lia. pose proof (size_apply c' e a).
  destruct (BookSpec.apply c' e a) as [ok a']. cbn in *. by rewrite IH by lia.
Qed.
Lemma sample_book_large : (spec_run 1000000 (sample_event <$> [1; 2; 3]) BookSpec.empty).2 = sample_book.
Proof. unfold sample_book. rewrite (spec_run_capacity 1000000 1024) by (vm_compute; discriminate). reflexivity. Qed.

Lemma sample_events : decode_all (sample_content <$> [1; 2; 3]) = Ret (sample_event <$> [1; 2; 3]).
Proof. cbn [fmap list_fmap decode_all]. by rewrite !sample_decodes. Qed.

Lemma sample_result max b b' es oks next :
  capacity_ok max → (spec_run max (sample_event <$> [1; 2; 3]) BookSpec.empty).2 = sample_book →
  OrderBook.new max = Ret b →
  1 ≤ next ∧ (∀ n, 1 ≤ n < next → n ∈ RecoveryEngine.carried_all sample_arrivals) ∧
    next ∉ RecoveryEngine.carried_all sample_arrivals →
  events_until sample_content 1 next = Ret es → run es b = (Ret oks, b') →
  next = 4 ∧ represents max b' sample_book.
Proof.
  intros Hmax Hspec Hb (Hnext & Hall & Hnot) Hes Hrun.
  assert (Hc : RecoveryEngine.carried_all sample_arrivals = {[1; 2; 3]}) by (vm_compute; reflexivity).
  rewrite Hc in Hall, Hnot.
  assert (next = 4) as ->.
  { destruct (decide (4 < next)) as [Hlt|Hle].
    - specialize (Hall 4 ltac:(lia)). set_solver.
    - destruct (decide (next = 4)); [done|]. exfalso. apply Hnot.
      assert (next = 1 ∨ next = 2 ∨ next = 3) by lia. set_solver. }
  split; [done|]. unfold events_until in Hes. change (seqZ 1 (4 - 1)) with [1; 2; 3] in Hes.
  rewrite sample_events in Hes. assert (es = sample_event <$> [1; 2; 3]) as -> by congruence.
  destruct (represents_new max Hmax) as (b0 & Hb0 & Hr). assert (b0 = b) as -> by congruence.
  assert (Hok : Forall event_ok (sample_event <$> [1; 2; 3])).
  { apply Forall_fmap, Forall_forall. intros n _. cbn. eapply decode_event_ok, sample_decodes. }
  destruct (represents_run max Hmax _ b BookSpec.empty Hr Hok) as (b1 & Hrun1 & Hr1).
  rewrite Hrun in Hrun1. assert (b1 = b') as -> by congruence. by rewrite <-Hspec.
Qed.
End sample.

Section sample_runs.
Context `{HG : !GeneratedFrom itch50 H} (char_signed : bool).

(** The hash of the book that the sample session leaves. *)
Definition sample_hash : Z := BookView.state_hash char_signed sample_book.

(** What [demo] prints: the log of the packets, and the state of the book. *)
Definition demo_text (ls : list Line) (hash : Z) : list byte :=
  bs "Exchange Feed Engine demo: gap recovery + generated ITCH decoding + arena book" ++ newline ++ newline ++
  log ls ++ newline ++ bs "final live orders: 2" ++ newline ++ bs "best bid: $200.0000" ++ newline ++
  bs "state hash: 0x" ++ Text.digits 16 hash ++ newline.

Lemma demo_prints_text k :
  ∃ ls p, Program.demo char_signed (started k) = (Ret 0, p) ∧ Text.text (out p) = demo_text ls sample_hash.
Proof.
  assert (Hmax : capacity_ok 1024) by (unfold capacity_ok, kInvalidSlot; lia).
  destruct (feed_processed sample_session sample_content 1024 1 sample_arrivals)
    as (b & s & es & oks & Hb & Hs & Hes & Hrun & Hrec);
    [done|word_lia|apply sample_feed|intros n _; eexists; apply sample_decodes|].
  destruct Hrec as [[Hfe _ Hpre _ _ _ _] Hhole].
  destruct (sample_result 1024 b (book s) es oks _ Hmax eq_refl Hb ltac:(by split_and!; [apply (proj2 Hfe)|..]) Hes Hrun)
    as [_ Hr].
  assert (Hd : demo_run = Ret (Ret tt, s)).
  { unfold demo_run. rewrite Hb. cbn [mbind outcome_bind]. rewrite sample_packets_bytes. cbn [mbind outcome_bind]. by rewrite Hs. }
  assert (Hbest : OrderBook.best_bid (book s) (Symbol.from_string (bs "AAPL")) = Some 2000000).
  { unfold OrderBook.best_bid. rewrite (represents_best 1024 _ _ Hr). reflexivity. }
  assert (Hprice : Text.format_fixed 4 (to_decimal_price 2000000) = bs "200.0000") by (vm_compute; reflexivity).
  assert (Hlive : OrderBook.live_order_count (book s) = 2) by (rewrite (represents_count 1024 Hmax _ _ Hr); reflexivity).
  exists (lines s). unfold Program.demo, run_pipeline, mbind, M_bind, lift, cout at 1, modify. rewrite Hd.
  rewrite print_lines_text by done. rewrite Hbest, (represents_hash 1024 Hmax _ _ Hr), Hlive.
  destruct (capture s); (eexists; split; [reflexivity|]); unfold demo_text;
    cbn -[app bs Text.format_fixed Text.digits to_decimal_price log]; rewrite Hprice;
    change (Text.digits 10 2) with (bs "2"); rewrite <-!app_assoc; reflexivity.
Qed.

(** The sample capture, whatever the mode. *)
Lemma sample_replay_prints o args acts w program path k :
  capture_file w = Some (capture_bytes ((λ x, mkRecord x.1 (packet_bytes x.2)) <$> sample_records)) →
  replay_options (program :: bs "replay" :: path :: args) = Ret o →
  ¬ (Replay.mode o = Replay.Scaled ∧ Replay.not_positive (Replay.speed o) = true) →
  Replay.effects o None ((λ x, mkRecord x.1 (packet_bytes x.2)) <$> sample_records) = Some acts →
  Replay.input_ok o 3 (keyboard w) →
  ∃ p, main char_signed w (program :: bs "replay" :: path :: args) (started k) = (Ret 0, p) ∧
    Text.text (out p) = prompts acts ++ replay_summary 3 3 (seconds (replay_ns w)) 2 sample_hash.
Proof.
  intros Hw Ho Hspeed Hacts Hinput. assert (Hmax : capacity_ok 1000000) by (unfold capacity_ok, kInvalidSlot; lia).
  destruct (replay_of_feed sample_session sample_content path o acts
    (keyboard w) sample_records) as (b & st & es & oks & Hb & Hs & Hact & Hnext & Hes & Hrun & Hm).
  - done.
  - decided.
  - cbn. split_and!; intros; simplify_eq; lia.
  - done.
  - done.
  - word_lia.
  - apply sample_feed.
  - intros n _. eexists. apply sample_decodes.
  - destruct (sample_result 1000000 b _ es oks _ Hmax sample_book_large Hb Hnext Hes Hrun) as [Hn Hr].
    rewrite <-Hw in Hs.
    destruct (replay_prints char_signed w path _ _ st _ k Hs (represents_hash 1000000 Hmax _ _ Hr char_signed))
      as (p & Hp & _ & _ & Hout).
    exists p. split; [by eapply main_replay|]. rewrite Hout, Hact, Hm, Hn, (represents_count 1000000 Hmax _ _ Hr). reflexivity.
Qed.

Lemma sample_capture_is_written w program path k :
  capture_opened w = true →
  ∃ p, main char_signed w [program; bs "make-sample-capture"; path] (started k) = (Ret 0, p) ∧
    Program.file p = Some (Streams.mkOut (capture_bytes ((λ x, mkRecord x.1 (packet_bytes x.2)) <$> sample_records)) false) ∧
    Text.text (out p) = bs "wrote sample capture: " ++ path ++ newline.
Proof.
  intros Hopened.
  assert (Hw : write_samples path true = Ret (Ret tt,
    Streams.mkOut (capture_bytes ((λ x, mkRecord x.1 (packet_bytes x.2)) <$> sample_records)) false)).
  { vm_compute. reflexivity. }
  eexists. split_and!.
  - unfold main, dispatch. do 3 (rewrite decide_False by decided). rewrite decide_True by done.
    rewrite decide_False by (cbn; lia). unfold Program.make_sample_capture, mbind, M_bind, lift. cbn [argument lookup list_lookup].
    rewrite Hopened, Hw. reflexivity.
  - reflexivity.
  - reflexivity.
Qed.

(** C21: The three commands agree.  [make-sample-capture] writes a file from which [replay] prints the
    state of [demo]: the packets come out of order, both recover the same sequence, both count two
    live orders, and the hashes they print are the same digits although the books have different
    capacities.  The best bid that [demo] prints is $200.0000. *)
Theorem sample_capture_replays_to_the_demo program path w k :
  capture_opened w = true →
  ∃ f hash ls pm pd,
    main char_signed w [program; bs "make-sample-capture"; path] (started k) = (Ret 0, pm) ∧
    Program.file pm = Some f ∧ Text.text (out pm) = bs "wrote sample capture: " ++ path ++ newline ∧
    main char_signed w [program] (started k) = (Ret 0, pd) ∧ Text.text (out pd) = demo_text ls hash ∧
    ∀ w', capture_file w' = Some (Streams.written f) →
      ∃ pr, main char_signed w' [program; bs "replay"; path] (started k) = (Ret 0, pr) ∧
        Text.text (out pr) = replay_summary 3 3 (seconds (replay_ns w')) 2 hash.
Proof.
  intros Hopened. destruct (demo_prints_text k) as (ls & pd & Hdemo & Htext).
  destruct (sample_capture_is_written w program path k Hopened) as (pm & Hpm & Hf & Hout).
  eexists _, _, ls, pm, pd. split_and!; [done..| | |].
  - unfold main, dispatch. by rewrite Hdemo.
  - exact Htext.
  - intros w' Hw'. by apply (sample_replay_prints (Replay.mkOptions Replay.MaxSpeed (Floats.of_Z Floats.double 1)) [] []);
      [|  |intros [? _]| |intros ?].
Qed.
End sample_runs.

(** * Examples *)

Section examples.
#[local] Existing Instance itch50_header.

(** The output of [demo], character by character: packet 3 arrives before packet 2, message 2 is
    requested, and the messages are applied in order. *)
Theorem demo_prints char_signed program w k :
  let '(r, p) := main char_signed w [program] (started k) in
  r = Ret 0 ∧ kernel p = k ∧ Text.text (err p) = [] ∧
  Text.text (out p) = concat ((λ l, bs l ++ newline) <$>
    ["Exchange Feed Engine demo: gap recovery + generated ITCH decoding + arena book";
     "";
     "seq 1 AddOrder applied";
     "GAP: request seq 2 count 1";
     "seq 2 AddOrder applied";
     "seq 3 OrderCancel applied";
     "";
     "final live orders: 2";
     "best bid: $200.0000";
     "state hash: 0xb6cac6573c4522b7"]).
Proof. vm_compute. split_and!; reflexivity. Qed.
End examples.

Definition sample_setup : UdpReceiver.Setup := UdpReceiver.mkSetup (Some 3) true true true true true true None.
Definition sample_world : World := mkWorld None true [] 1500000 sample_setup [].
Definition sample_kernel : UdpReceiver.Kernel := UdpReceiver.mkKernel {[0; 1; 2]} 0 [] "Too many open files".
(** The pipe cannot be made; and the port is missing. *)
Lemma program_ends_cleanly_witness :
  let argv := bs <$> ["feed_engine"; "listen"; "239.1.1.1"; "5000"; "127.0.0.1"; "6000"] in
  (∃ p', @main itch50_header true sample_world argv (started sample_kernel) = (Ret 1, p') ∧
    open_fds p' = UdpReceiver.open_fds sample_kernel ∧
    Text.text (err p') = bs "fatal: pipe: Too many open files" ++ newline) ∧
  (∃ p', @main itch50_header true sample_world (take 3 argv) (started sample_kernel) = (Ret 2, p') ∧
    open_fds p' = UdpReceiver.open_fds sample_kernel ∧
    Text.text (err p') =
      line "usage: feed_engine listen <group> <port> <rerequest-host> <rerequest-port> [capture.efc]").
Proof.
  intros argv. assert (Hfresh : UdpReceiver.fresh (setup sample_world) (kernel (started sample_kernel))).
  { split.
    - intros fd [= <-]. split; [lia|]. unfold sample_kernel. cbn. set_solver.
    - intros fd r w' _ Hpipe. discriminate Hpipe. }
  split.
  - pose proof (@program_ends_cleanly itch50_header true sample_world argv (started sample_kernel) Hfresh) as Hend.
    destruct (@dispatch itch50_header true sample_world argv (started sample_kernel)) as [r0 p0] eqn:Hd.
    assert (Hr0 : r0 = Throw (RuntimeError "pipe: Too many open files") ∧ Text.text (err p0) = [])
      by (vm_compute in Hd; injection Hd as <- <-; by split).
    destruct Hr0 as [-> Herr]. destruct (main true sample_world argv _) as [r p'].
    destruct Hend as (-> & _ & Hfds & _ & _ & Htext). exists p'. split_and!; [done..|]. by rewrite Htext, Herr.
  - pose proof (@program_ends_cleanly itch50_header true sample_world (take 3 argv) (started sample_kernel) Hfresh) as Hend.
    destruct (@dispatch itch50_header true sample_world (take 3 argv) (started sample_kernel)) as [r0 p0] eqn:Hd.
    assert (Hr0 : r0 = Ret 2) by (vm_compute in Hd; by injection Hd as <- _). subst r0.
    destruct (main true sample_world (take 3 argv) _) as [r p'].
    destruct Hend as (-> & _ & Hfds & _ & Htext & _). exists p'. by split_and!.
Defined.

Lemma sample_capture_replays_to_the_demo_witness :
  ∃ f hash ls pm pd,
    @main itch50_header true sample_world [[]; bs "make-sample-capture"; bs "sample.efc"] (started sample_kernel) = (Ret 0, pm) ∧
    Program.file pm = Some f ∧ Text.text (out pm) = bs "wrote sample capture: " ++ bs "sample.efc" ++ newline ∧
    @main itch50_header true sample_world [[]] (started sample_kernel) = (Ret 0, pd) ∧
    Text.text (out pd) = demo_text ls hash ∧
    ∀ w', capture_file w' = Some (Streams.written f) →
      ∃ pr, @main itch50_header true w' [[]; bs "replay"; bs "sample.efc"] (started sample_kernel) = (Ret 0, pr) ∧
        Text.text (out pr) = replay_summary 3 3 (seconds (replay_ns w')) 2 hash.
Proof.
  apply (@sample_capture_replays_to_the_demo itch50_header itch50_header_generated true [] (bs "sample.efc")
           sample_world sample_kernel).
  reflexivity.
Defined.

(** Message 2 comes before message 1, and the time between them is replayed at double speed. *)
Definition late_first : list (Z * MoldDownstreamPacket) := [(0, PipelineExamples.data 2 1); (1000, PipelineExamples.data 1 1)].
Definition late_world : World :=
  mkWorld (Some (capture_bytes ((λ x, mkRecord x.1 (packet_bytes x.2)) <$> late_first))) true [] 2500000 sample_setup [].
