(* ===== verification/ListenCommand.v ===== *)
(** The listen command, end to end: socket, loop, capture, output and exit code. *)
From S2P Require Import Prelude Types ByteReader MoldUdp64 RecoveryEngine ProtocolCompiler Itch50Schema.
From S2P Require Import GeneratedHeader ItchDecoder ItchProofs OrderBook BookSpec BookQueries BookTheorems.
From S2P Require Import Capture Floats Text TextProofs Replay UdpReceiver Pipeline PipelineProofs ListenProofs.
From S2P Require Import Program ProgramProofs.
From Stdlib Require Import Strings.Byte.
#[local] Open Scope list_scope.
#[local] Open Scope Z_scope.
Import MoldUdp64 Pipeline Program.

(** * What the loop prints *)

Section lines.
Context `{Header} (char_signed : bool).

Definition rejection (l : Line) : Prop := ∃ n, l = RejectedLine n.
(** The code prints nothing but rejections. *)
Definition only_rejections {A} (m : M Pipeline.t A) : Prop :=
  ∀ s, ∃ ls, lines (m s).2 = lines s ++ ls ∧ Forall rejection ls.
(** ... or, when it breaks the loop, the hash of the book after them. *)
Definition ends_with_hash (m : M Pipeline.t bool) : Prop :=
  ∀ s, ∃ ls, Forall rejection ls ∧
    (lines (m s).2 = lines s ++ ls ∨ ∃ h, lines (m s).2 = lines s ++ ls ++ [EndLine h] ∧ (m s).1 = Ret true).

Lemma only_rejections_silent {A} (m : M Pipeline.t A) : (∀ s, lines (m s).2 = lines s) → only_rejections m.
Proof. intros Hm s. exists []. by rewrite Hm, app_nil_r. Qed.
Lemma only_rejections_bind {A B} (m : M Pipeline.t A) (k : A → M Pipeline.t B) :
  only_rejections m → (∀ a, only_rejections (k a)) → only_rejections (m ≫= k).
Proof.
  intros Hm Hk s. destruct (Hm s) as (ls & Hs & Hls). unfold mbind, M_bind.
  destruct (m s) as [[a|?|?|] s']; try by exists ls. destruct (Hk a s') as (ls' & Hs' & Hls'). exists (ls ++ ls').
  split; [|by apply Forall_app]. cbn in Hs. by rewrite Hs', Hs, app_assoc.
Qed.
Lemma only_rejections_for_each {A} (ms : list A) (body : A → M Pipeline.t unit) :
  (∀ a, only_rejections (body a)) → only_rejections (for_each ms body).
Proof.
  intros Hb. induction ms; [by apply only_rejections_silent|]. by apply only_rejections_bind.
Qed.
Lemma ends_with_hash_bind {A} (m : M Pipeline.t A) (k : A → M Pipeline.t bool) :
  only_rejections m → (∀ a, ends_with_hash (k a)) → ends_with_hash (m ≫= k).
Proof.
  intros Hm Hk s. destruct (Hm s) as (ls & Hs & Hls). unfold mbind, M_bind.
  destruct (m s) as [[a|?|?|] s']; try (exists ls; by auto). destruct (Hk a s') as (ls' & Hls' & Hs').
  exists (ls ++ ls'). split; [by apply Forall_app|]. cbn in Hs.
  destruct Hs' as [->|(h & -> & ->)]; [left|right; exists h]; rewrite Hs, <-?app_assoc; auto.
Qed.
Lemma ends_with_hash_quiet (m : M Pipeline.t bool) : only_rejections m → ends_with_hash m.
Proof. intros Hm s. destruct (Hm s) as (ls & ? & ?). exists ls. auto. Qed.

Lemma silent_on_book {A} (m : M OrderBook.t A) s : lines (on_book m s).2 = lines s.
Proof. unfold on_book. by destruct (m (book s)). Qed.
Lemma silent_on_recovery {A} (m : M RecoveryEngine.t A) s : lines (on_recovery m s).2 = lines s.
Proof. unfold on_recovery. by destruct (m (recovery s)). Qed.
Lemma silent_on_socket {A} (m : M UdpReceiver.State A) s : lines (on_socket m s).2 = lines s.
Proof. unfold on_socket. destruct (socket s) as [n|]; [|done]. by destruct (m n). Qed.

Ltac lines_step :=
  cbv beta; lazymatch goal with
  | |- ends_with_hash (_ ≫= _) => apply ends_with_hash_bind; [|intros ?]
  | |- only_rejections (_ ≫= _) => apply only_rejections_bind; [|intros ?]
  | |- only_rejections (on_book _) => apply only_rejections_silent, silent_on_book
  | |- only_rejections (on_recovery _) => apply only_rejections_silent, silent_on_recovery
  | |- only_rejections (on_socket _) => apply only_rejections_silent, silent_on_socket
  | |- only_rejections (for_each _ _) => apply only_rejections_for_each; intros ?
  | |- only_rejections (print (RejectedLine ?n)) => intros ?; exists [RejectedLine n]; (split; [done|by repeat econstructor])
  | |- ends_with_hash (mret _) => apply ends_with_hash_quiet
  | |- ends_with_hash (match ?x with _ => _ end) => destruct x
  | |- only_rejections (match ?x with _ => _ end) => destruct x
  | |- only_rejections _ => by apply only_rejections_silent
  end.
Lemma print_hash_ends : ends_with_hash
  (s ← get; h ← lift (OrderBook.state_hash char_signed (book s)); print (EndLine h);; mret true).
Proof.
  intros s. exists []. split; [done|]. unfold mbind, M_bind, get, lift.
  destruct (OrderBook.state_hash char_signed (book s)) as [h| | |]; [right; by exists h|left; by rewrite app_nil_r..].
Qed.
Lemma listen_turn_lines w : ends_with_hash (listen_turn char_signed w).
Proof.
  unfold listen_turn, listen_message. repeat first [apply print_hash_ends | lines_step].
Qed.
Lemma listen_lines ws : ends_with_hash (Pipeline.listen char_signed ws).
Proof.
  induction ws as [|w ws IH]; cbn [Pipeline.listen]; [by apply ends_with_hash_quiet, only_rejections_silent|].
  intros s. destruct (listen_turn_lines w s) as (ls & Hls & Hs). unfold mbind, M_bind.
  destruct (listen_turn char_signed w s) as [[stop|?|?|] s']; try by exists ls. destruct stop; [by exists ls|].
  destruct Hs as [Hs|(h & _ & Hs)]; [|done]. destruct (IH s') as (ls' & Hls' & Hs'). exists (ls ++ ls').
  split; [by apply Forall_app|]. cbn in Hs.
  destruct Hs' as [->|(h & -> & ->)]; [left|right; exists h]; rewrite Hs, <-?app_assoc; auto.
Qed.
End lines.

(** * The command *)

Section command.
Context `{HG : !GeneratedFrom itch50 H} (char_signed : bool) (session : list byte) (content : Z → list byte).

(** [listen] once the socket is made. *)
Lemma listen_on_socket_runs w argv u p b s n f :
  OrderBook.new 2000000 = Ret b → (7 ≤ length argv)%nat → capture_opened w = true →
  Pipeline.listen char_signed (turns w) (listen_start 1 b (UdpReceiver.mkState u (kernel p))) = (Ret true, s) →
  socket s = Some n → capture s = Some f → Text.hexadecimal (out p) = false → Text.hexadecimal (err p) = false →
  listen_on_socket char_signed w argv u p =
    (Ret 0, mkProcess (UdpReceiver.kernel n) (Text.put_text (log (lines s)) (out p))
              (Text.put_text (error_log (lines s)) (err p)) (Some f)).
Proof.
  intros Hb Hargv Hopened Hlisten Hn Hf Ho He. destruct (lookup_lt_is_Some_2 argv 6 ltac:(lia)) as [path Hpath].
  unfold listen_on_socket, argument. rewrite Hb, decide_True, Hpath, Hopened by done. cbn [mbind outcome_bind].
  assert (Hw : Some <$> Capture.open_writer path true = Ret (Some (Streams.mkOut Capture.magic false))) by done.
  rewrite Hw. unfold mbind, M_bind, lift, get. unfold listen_start in Hlisten.
  rewrite Hlisten, Hn. unfold set_kernel, modify, run_pipeline, mbind, M_bind. rewrite print_lines_text by done.
  rewrite Hf. reflexivity.
Qed.

Lemma log_rejections ls l : Forall rejection ls → log (ls ++ [l]) = out_text l.
Proof.
  unfold log. rewrite fmap_app, concat_app. cbn. rewrite app_nil_r.
  induction 1 as [|r ls [n ->] _ IH]; [done|exact IH].
Qed.

(** The dispatch, the ports, and the life of the socket. *)
Lemma main_listen w program group port host rport rest ps rs u p k1 c p1 :
  let argv := program :: bs "listen" :: group :: port :: host :: rport :: rest in
  Text.stoi port = Ret ps → Text.stoi rport = Ret rs →
  UdpReceiver.fresh (setup w) (kernel p) → UdpReceiver.new (setup w) (kernel p) = (Ret u, k1) →
  listen_on_socket char_signed w argv u (mkProcess k1 (out p) (err p) (file p)) = (Ret c, p1) →
  UdpReceiver.open_fds (kernel p1) = UdpReceiver.open_fds k1 →
  ∃ k2, main char_signed w argv p = (Ret c, mkProcess k2 (out p1) (err p1) (file p1)) ∧
    UdpReceiver.open_fds k2 = UdpReceiver.open_fds (kernel p) ∧
    UdpReceiver.datagrams_sent k2 = UdpReceiver.datagrams_sent (kernel p1).
Proof.
  intros argv Hport Hrport Hfresh Hnew Hrun Hfds.
  pose proof (UdpReceiver.new_then_destroy (setup w) (kernel p) Hfresh) as Hdestroy. rewrite Hnew in Hdestroy.
  destruct Hdestroy as (_ & _ & k' & Hdestroy & Hk').
  destruct (UdpReceiver.destroy_after u k1 (kernel p1) k' Hdestroy Hfds) as (k2 & Hk2 & Hopen & Hsent).
  exists k2. split; [|by rewrite Hopen]. unfold main, dispatch, argv. do 4 (rewrite decide_False by decided).
  rewrite decide_True by done. unfold Program.listen. rewrite decide_False by (cbn; lia).
  unfold argument. cbn [lookup list_lookup mbind outcome_bind]. rewrite Hport, Hrport.
  unfold with_socket, catch_rethrow, on_kernel, mbind, M_bind, lift. rewrite Hnew. fold argv. rewrite Hrun.
  cbn [kernel out err file]. by rewrite Hk2.
Qed.

(** C13: The listen command, end to end.  When the datagrams of a feed arrive, in any order and with any
    loss and repetition, and the session is announced to be over, the program exits with 0.  The
    hash it prints is that of the book that the events up to the first missing message leave; the
    capture it has written loads back as every datagram, with its arrival time; it has sent
    nothing but well-formed re-requests; and its descriptors are closed. *)
Theorem listen_command_serves_the_session w program group port host rport path rest ps rs u k k1 xs z later :
  let argv := program :: bs "listen" :: group :: port :: host :: rport :: path :: rest in
  Text.stoi port = Ret ps → Text.stoi rport = Ret rs → capture_opened w = true →
  UdpReceiver.fresh (setup w) k → UdpReceiver.new (setup w) k = (Ret u, k1) → UdpReceiver.wake_bytes k = 0 →
  turns w = (received <$> xs ++ [z]) ++ later →
  Forall (λ x, arrives session content x ∧ end_of_session x.2 = false) xs →
  arrives session content z → end_of_session z.2 = true →
  (∀ n, n ∈ RecoveryEngine.carried_all (snd <$> xs ++ [z]) → valid_payload (content n)) →
  let carried := RecoveryEngine.carried_all (snd <$> xs ++ [z]) in
  ∃ b b' es oks next hash p file reqs,
    OrderBook.new 2000000 = Ret b ∧
    (1 ≤ next ∧ (∀ n, 1 ≤ n < next → n ∈ carried) ∧ next ∉ carried) ∧
    events_until content 1 next = Ret es ∧ run es b = (Ret oks, b') ∧ OrderBook.state_hash char_signed b' = Ret hash ∧
    main char_signed w argv (started k) = (Ret 0, p) ∧
    Text.text (out p) = bs "end of session; state_hash=0x" ++ Text.digits 16 hash ++ newline ∧
    Program.file p = Some (Streams.mkOut file false) ∧ (∀ name, Capture.load name file = Ret (recorded <$> xs ++ [z])) ∧
    UdpReceiver.datagrams_sent (kernel p) = UdpReceiver.datagrams_sent k ++ reqs ∧ Forall (is_request session) reqs ∧
    UdpReceiver.open_fds (kernel p) = UdpReceiver.open_fds k.
Proof.
  intros argv Hport Hrport Hopened Hfresh Hnew Hwake Hturns Hxs Hz Hend Hvalid carried.
  destruct (UdpReceiver.new_running _ _ _ _ Hnew Hwake) as [Hrunning Hsent].
  set (n := UdpReceiver.mkState u k1) in *.
  destruct (listen_ends_with_the_session char_signed session content 2000000 1 n xs z later)
    as (b & s & hash & Hb & Hlisten & (Hnext & (es & oks & Hes & Hrun) & (reqs & Hreqs & Hsocket) & file & Hfile & Hload) & Hhash & Hlast);
    [unfold capacity_ok, kInvalidSlot; lia|unfold u64_max; lia|done..|].
  destruct (UdpReceiver.after_sends_kernel reqs n) as [Hfds Hds].
  destruct (listen_lines char_signed ((received <$> xs ++ [z]) ++ later) (listen_start 1 b n)) as (ls & Hls & Hlines).
  rewrite Hlisten in Hlines. cbn [fst snd] in Hlines.
  assert (lines s = ls ++ [EndLine hash]) as Hs.
  { destruct Hlines as [Hlines|(h & Hlines & _)]; cbn in Hlines; rewrite Hlines in Hlast |- *.
    - exfalso. apply last_Some in Hlast as [ls' ->]. apply Forall_app in Hls as [_ [[? [=]] _]%Forall_cons].
    - rewrite last_snoc in Hlast. by injection Hlast as ->. }
  rewrite <-Hturns in Hlisten.
  destruct (main_listen w program group port host rport (path :: rest) ps rs u (started k) k1 0
    (mkProcess (UdpReceiver.kernel (UdpReceiver.after_sends reqs n)) (Text.put_text (log (lines s)) Text.empty)
       (Text.put_text (error_log (lines s)) Text.empty) (Some (Streams.mkOut file false))))
    as (k2 & Hmain & Hk2 & Hk2s); [done..| |exact Hfds|].
  { apply (listen_on_socket_runs w _ u (mkProcess k1 Text.empty Text.empty None) b s); try done. cbn. lia. }
  eexists b, (book s), es, oks, _, hash, _, file, reqs. do 5 (split; [done|]). split; [exact Hmain|].
  cbn [out Program.file kernel]. rewrite Hs, log_rejections by done. split_and!; try done. rewrite Hk2s. cbn [kernel]. by rewrite Hds, <-Hsent.
Qed.
End command.

Import PipelineExamples.

Definition live_setup : UdpReceiver.Setup := UdpReceiver.mkSetup (Some 3) true true true true true true (Some (4, 5)).
Definition live_kernel : UdpReceiver.Kernel := UdpReceiver.mkKernel {[0; 1; 2]} 0 [] "Success".
Definition live_world : World :=
  mkWorld None true [] 0 live_setup ((received <$> ListenProofs.sample_arrivals ++ [session_end]) ++ []).
Lemma listen_command_serves_the_session_witness :
  let argv := bs <$> ["feed_engine"; "listen"; "239.1.1.1"; "5000"; "127.0.0.1"; "6000"; "live.efc"] in
  let xs := ListenProofs.sample_arrivals ++ [session_end] in
  let carried := RecoveryEngine.carried_all (snd <$> xs) in
  ∃ b b' es oks next hash p file reqs,
    OrderBook.new 2000000 = Ret b ∧
    (1 ≤ next ∧ (∀ n, 1 ≤ n < next → n ∈ carried) ∧ next ∉ carried) ∧
    @events_until itch50_header feed_content 1 next = Ret es ∧ run es b = (Ret oks, b') ∧
    OrderBook.state_hash true b' = Ret hash ∧
    @main itch50_header true live_world argv (started live_kernel) = (Ret 0, p) ∧
    Text.text (out p) = bs "end of session; state_hash=0x" ++ Text.digits 16 hash ++ newline ∧
    Program.file p = Some (Streams.mkOut file false) ∧ (∀ name, Capture.load name file = Ret (recorded <$> xs)) ∧
    UdpReceiver.datagrams_sent (kernel p) = UdpReceiver.datagrams_sent live_kernel ++ reqs ∧
    Forall (is_request feed_session) reqs ∧
    UdpReceiver.open_fds (kernel p) = UdpReceiver.open_fds live_kernel.
Proof.
  intros argv xs carried.
  apply (@listen_command_serves_the_session itch50_header itch50_header_generated true feed_session feed_content live_world
    (bs "feed_engine") (bs "239.1.1.1") (bs "5000") (bs "127.0.0.1") (bs "6000") (bs "live.efc") [] 5000 6000
    (UdpReceiver.mk 3 4 5 false) live_kernel (UdpReceiver.new live_setup live_kernel).2
    ListenProofs.sample_arrivals session_end []); try reflexivity.
  - split.
    + intros fd [= <-]. split; [lia|]. unfold live_kernel. cbn. set_solver.
    + intros fd r w' [= <-] [= <- <-]. split_and!; try lia; unfold live_kernel; cbn; set_solver.
  - exact sample_arrive.
  - exact session_end_arrives.
  - intros n _. apply content_valid.
Defined.
