(* ===== verification/SystemTests.v ===== *)
(** The repository's tests of the whole program: [tests/cli_tests.cmake], which runs the commands,
    on the sample capture. *)
From S2P Require Import Prelude Floats Types ByteReader MoldUdp64 RecoveryEngine ProtocolCompiler Itch50Schema GeneratedHeader.
From S2P Require Import Text TextProofs ItchDecoder OrderBook BookSpec BookQueries BookTheorems Capture Replay UdpReceiver.
From S2P Require Import Pipeline Program ProgramProofs.
From Stdlib Require Import Strings.Byte.
#[local] Open Scope list_scope.
#[local] Open Scope Z_scope.
Import MoldUdp64 Text Pipeline Program.

(** * tests/cli_tests.cmake *)

Module TestCli.

Definition fatal_error {A} (message : string) : outcome A := Throw (RuntimeError message).

Definition begins (text output : list byte) : bool := bool_decide (take (length text) output = text).
(** [output MATCHES text], for a text without special characters. *)
Fixpoint contains (text output : list byte) : bool :=
  begins text output || match output with [] => false | _ :: output => contains text output end.
Definition lower_hex (c : byte) : bool := Protocolc.in_range 48 57 c || Protocolc.in_range 97 102 c.
(** [string(REGEX MATCH "state_hash=0x([0-9a-f]+)" ...)]: the group of the first match, nothing
    without one. *)
Definition state_hash_text : list byte := bs "state_hash=0x".
Definition hash_here (output : list byte) : list byte :=
  if begins state_hash_text output
  then (Protocolc.span lower_hex (drop (length state_hash_text) output)).1 else [].
Fixpoint match_state_hash (output : list byte) : list byte :=
  match hash_here output with
  | [] => match output with [] => [] | _ :: output => match_state_hash output end
  | ds => ds
  end.

Section script.
Context `{H : Header} (char_signed : bool) (k : UdpReceiver.Kernel) (setup : UdpReceiver.Setup).
(** [FEED_ENGINE], the path of the sample, and how long each of the replays takes. *)
Context (feed_engine sample : list byte) (max_ns scaled_ns realtime_ns step_ns : Z).

(** A process: its result, its output, and the capture that it wrote. *)
Definition execute_process (arguments : list (list byte)) (capture : option (list byte)) (input : list byte) (ns : Z) :
    outcome (Z * list byte * option (list byte)) :=
  let '(r, p) := main char_signed (mkWorld capture true input ns setup []) (feed_engine :: arguments) (started k) in
  result ← r; Ret (result, Text.text (out p), Streams.written <$> Program.file p).

Definition script : outcome unit :=
  '(help_result, help_output, _) ← execute_process [bs "--help"] None [] 0;
  if negb ((help_result =? 0) && contains (bs "--step") help_output) then fatal_error "CLI help failed" else
  '(make_result, _, capture) ← execute_process [bs "make-sample-capture"; sample] None [] 0;
  if negb (make_result =? 0) then fatal_error "sample capture command failed" else
  '(max_result, max_output, _) ← execute_process [bs "replay"; sample; bs "--speed"; bs "max"] capture [] max_ns;
  '(scaled_result, scaled_output, _) ←
    execute_process [bs "replay"; sample; bs "--speed"; bs "1000000"] capture [] scaled_ns;
  '(realtime_result, realtime_output, _) ← execute_process [bs "replay"; sample; bs "--realtime"] capture [] realtime_ns;
  if negb ((max_result =? 0) && (scaled_result =? 0) && (realtime_result =? 0))
  then fatal_error "a replay CLI mode failed" else
  let expected := state_hash_text ++ match_state_hash max_output in
  if negb (contains expected scaled_output && contains expected realtime_output)
  then fatal_error "replay hash changed" else
  '(step_result, step_output, _) ←
    execute_process [bs "replay"; sample; bs "--step"] capture (replicate 3 Protocolc.newline) step_ns;
  if negb ((step_result =? 0) && contains expected step_output) then fatal_error "step replay CLI failed" else
  Ret tt.
End script.

(** ** The output of the replays *)

Lemma begins_app text rest : begins text (text ++ rest) = true.
Proof. apply bool_decide_eq_true. by rewrite take_app_length. Qed.
Lemma contains_app before text rest : contains text (before ++ text ++ rest) = true.
Proof.
  induction before as [|c before IH]; cbn [app contains].
  - destruct (text ++ rest) eqn:E; cbn; [|rewrite <-E]; rewrite ?begins_app; [|done].
    by apply app_nil in E as [-> _].
  - rewrite IH. apply orb_true_r.
Qed.

(** No letter s is in a printed number. *)
Definition no_s (c : byte) : Prop := c ≠ Byte.x73.
Lemma no_s_digits n : Forall no_s (digits 10 n).
Proof.
  unfold digits. generalize (S (Z.to_nat (Z.log2 n))) as fuel. intros fuel.
  assert (Hacc : Forall no_s []) by constructor. revert n Hacc. generalize (@nil byte) as acc.
  induction fuel as [|fuel IH]; intros acc n Hacc; [done|]. cbn [digits_loop].
  assert (Hd : no_s (digit (n mod 10))).
  { pose proof (Z.mod_pos_bound n 10 ltac:(lia)) as Hm.
    assert (Hall : Forall (λ d, no_s (digit d)) (seqZ 0 10)) by decided.
    rewrite Forall_forall in Hall. apply Hall, elem_of_seqZ. lia. }
  case_match; [by constructor|]. apply IH. by constructor.
Qed.
Lemma no_s_pad p n : Forall no_s (pad p n).
Proof. apply Forall_app. split; [by apply Forall_replicate|apply no_s_digits]. Qed.
Lemma no_s_show_fixed p n : Forall no_s (show_fixed p n).
Proof.
  apply Forall_app. split; [apply no_s_digits|]. case_match; [constructor|]. constructor; [done|apply no_s_pad].
Qed.
Lemma no_s_strip ds : Forall no_s ds → Forall no_s (strip_fraction ds).
Proof.
  intros Hds. unfold strip_fraction. case_decide; [|done]. apply Forall_rev.
  assert (Hz : Forall no_s (drop_zeros (rev ds))).
  { apply Forall_rev in Hds. induction Hds as [|c l Hc Hl IH]; [done|]. cbn. case_decide; [done|by constructor]. }
  case_decide; [by apply Forall_tail|done].
Qed.
Lemma no_s_format_general p x : Forall no_s (format_general p x).
Proof.
  assert (Hsign : ∀ s, Forall no_s (sign s)) by (intros []; decided).
  unfold format_general. destruct x as [s|s| |s m e].
  1-3: repeat (apply Forall_app; split; [apply Hsign|]); decided.
  destruct (Floats.ratio m e) as [n d]. cbv zeta. set (p' := if p =? 0 then 1 else p).
  destruct (if scale10 n d (p' - 1 - decimal_exponent n d) =? 10 ^ p' then _ else _) as [c z].
  apply Forall_app. split; [apply Hsign|]. destruct ((-4 <=? z) && (z <? p')); [apply no_s_strip, no_s_show_fixed|].
  apply Forall_app. split; [apply no_s_strip, no_s_show_fixed|].
  constructor; [done|]. constructor; [by case_match|apply no_s_pad].
Qed.

Lemma match_after before rest : Forall no_s before → match_state_hash (before ++ rest) = match_state_hash rest.
Proof.
  induction 1 as [|c before Hc _ IH]; [done|]. cbn [app match_state_hash]. unfold hash_here.
  assert (begins state_hash_text (c :: before ++ rest) = false) as ->; [|done].
  apply bool_decide_eq_false. cbn. congruence.
Qed.

Section proof.
Context `{HG : !GeneratedFrom itch50 H} (char_signed : bool) (k : UdpReceiver.Kernel) (setup : UdpReceiver.Setup).
Context (feed_engine sample : list byte).

Lemma replay_matches acts elapsed hash :
  contains (state_hash_text ++ digits 16 hash) (prompts acts ++ replay_summary 3 3 elapsed 2 hash) = true.
Proof.
  unfold replay_summary.
  replace (prompts acts ++ _) with
    ((prompts acts ++ bs "replayed " ++ digits 10 3 ++ bs " packets / " ++ digits 10 3 ++ bs " messages in " ++
      format_general 6 elapsed ++ bs " s" ++ newline ++ bs "live orders=" ++ digits 10 2 ++ bs " ") ++
     (state_hash_text ++ digits 16 hash) ++ newline); [apply contains_app|].
  rewrite <-!app_assoc. reflexivity.
Qed.

Lemma span_hash : Protocolc.span lower_hex (digits 16 (sample_hash char_signed) ++ newline) = (digits 16 (sample_hash char_signed), newline).
Proof. destruct char_signed; vm_compute; reflexivity. Qed.
Lemma replay_hash elapsed :
  match_state_hash (prompts [] ++ replay_summary 3 3 elapsed 2 (sample_hash char_signed)) =
  digits 16 (sample_hash char_signed).
Proof.
  change (match_state_hash (format_general 6 elapsed ++ bs " s" ++ newline ++ bs "live orders=" ++ digits 10 2 ++
    bs " state_hash=0x" ++ digits 16 (sample_hash char_signed) ++ newline) = digits 16 (sample_hash char_signed)).
  rewrite match_after by apply no_s_format_general.
  change (match hash_here (state_hash_text ++ digits 16 (sample_hash char_signed) ++ newline) with
    | [] => match_state_hash (tail (state_hash_text ++ digits 16 (sample_hash char_signed) ++ newline))
    | ds => ds
    end = digits 16 (sample_hash char_signed)).
  unfold hash_here. rewrite begins_app, drop_app_length, span_hash. cbn [fst].
  by destruct (digits 16 (sample_hash char_signed)) eqn:E; [destruct char_signed; vm_compute in E|].
Qed.

Lemma execute_process_returns arguments capture input ns p :
  main char_signed (mkWorld capture true input ns setup []) (feed_engine :: arguments) (started k) = (Ret 0, p) →
  execute_process char_signed k setup feed_engine arguments capture input ns =
    Ret (0, Text.text (out p), Streams.written <$> Program.file p).
Proof. intros Hp. unfold execute_process. by rewrite Hp. Qed.

Definition sample_file : list byte := capture_bytes ((λ x, mkRecord x.1 (packet_bytes x.2)) <$> sample_records).
Lemma replay_process o args acts input ns :
  replay_options (feed_engine :: bs "replay" :: sample :: args) = Ret o →
  ¬ (Replay.mode o = Replay.Scaled ∧ Replay.not_positive (Replay.speed o) = true) →
  Replay.effects o None ((λ x, mkRecord x.1 (packet_bytes x.2)) <$> sample_records) = Some acts →
  Replay.input_ok o 3 input →
  ∃ file, execute_process char_signed k setup feed_engine (bs "replay" :: sample :: args) (Some sample_file) input ns =
    Ret (0, prompts acts ++ replay_summary 3 3 (seconds ns) 2 (sample_hash char_signed), file).
Proof.
  intros Ho Hspeed Hacts Hinput.
  destruct (sample_replay_prints char_signed o args acts (mkWorld (Some sample_file) true input ns setup [])
    feed_engine sample k eq_refl Ho Hspeed Hacts Hinput) as (p & Hp & Hout).
  eexists. by rewrite (execute_process_returns _ _ _ _ p Hp), Hout.
Qed.

Lemma replay_passes o args input ns :
  replay_options (feed_engine :: bs "replay" :: sample :: args) = Ret o →
  ¬ (Replay.mode o = Replay.Scaled ∧ Replay.not_positive (Replay.speed o) = true) →
  is_Some (Replay.effects o None ((λ x, mkRecord x.1 (packet_bytes x.2)) <$> sample_records)) →
  Replay.input_ok o 3 input →
  ∃ output file, execute_process char_signed k setup feed_engine (bs "replay" :: sample :: args) (Some sample_file) input ns =
    Ret (0, output, file) ∧ contains (state_hash_text ++ digits 16 (sample_hash char_signed)) output = true.
Proof.
  intros Ho Hspeed [acts Hacts] Hinput. destruct (replay_process o args acts input ns) as (f & ->); [done..|].
  eexists _, f. split; [done|]. apply replay_matches.
Qed.

(** The command test passes, however long the replays take. *)
Theorem cli_tests_pass max_ns scaled_ns realtime_ns step_ns :
  script char_signed k setup feed_engine sample max_ns scaled_ns realtime_ns step_ns = Ret tt.
Proof.
  destruct (@sample_capture_is_written _ char_signed (mkWorld None true [] 0 setup []) feed_engine sample k eq_refl)
    as (pm & Hpm & Hfile & _).
  destruct (replay_process (Replay.mkOptions Replay.MaxSpeed (Floats.of_Z Floats.double 1)) [bs "--speed"; bs "max"] [] [] max_ns)
    as (f1 & H1); [done|by intros [? _]|done|by intros ?|].
  destruct (replay_passes (Replay.mkOptions Replay.Scaled (Floats.of_Z Floats.double 1000000)) [bs "--speed"; bs "1000000"] []
    scaled_ns) as (o2 & f2 & H2 & Hc2);
    [vm_compute; reflexivity|intros [_ Hs]; by vm_compute in Hs|eexists; vm_compute; reflexivity|by intros ?|].
  destruct (replay_passes (Replay.mkOptions Replay.Realtime (Floats.of_Z Floats.double 1)) [bs "--realtime"] [] realtime_ns)
    as (o3 & f3 & H3 & Hc3); [done|by intros [? _]|eexists; vm_compute; reflexivity|by intros ?|].
  destruct (replay_passes (Replay.mkOptions Replay.Step (Floats.of_Z Floats.double 1)) [bs "--step"]
    (replicate 3 Protocolc.newline) step_ns) as (o4 & f4 & H4 & Hc4);
    [done|by intros [? _]|eexists; vm_compute; reflexivity|intros _; by decided|].
  assert (Hhelp : ∃ help_output file, execute_process char_signed k setup feed_engine [bs "--help"] None [] 0 =
    Ret (0, help_output, file) ∧ contains (bs "--step") help_output = true).
  { eexists _, _. split; [reflexivity|]. vm_compute. reflexivity. }
  destruct Hhelp as (o0 & f0 & H0 & Hc0).
  unfold script. rewrite H0. cbn [mbind outcome_bind]. rewrite Hc0.
  rewrite (execute_process_returns [bs "make-sample-capture"; sample] _ _ _ pm Hpm), Hfile.
  cbn [mbind outcome_bind fmap option_fmap option_map Streams.written Z.eqb andb negb]. fold sample_file.
  rewrite H1, H2, H3. cbn [mbind outcome_bind Z.eqb andb negb]. rewrite replay_hash, Hc2, Hc3. cbn [andb negb].
  rewrite H4. cbn [mbind outcome_bind Z.eqb andb negb]. by rewrite Hc4.
Qed.
End proof.
End TestCli.
