(* ===== verification/PropertyTests.v ===== *)
(** The repository's randomised tests, with the random numbers as an argument:
    [tests/test_pipeline_property.cpp] passes whatever order [std::shuffle] leaves its messages in. *)
From S2P Require Import Prelude Types ByteReader MoldUdp64 RecoveryEngine ProtocolCompiler Itch50Schema GeneratedHeader.
From S2P Require Import ItchDecoder ItchProofs FlatOrderIndex OrderBook BookSpec BookQueries BookTheorems PipelineProofs Tests.
From Stdlib Require Import Strings.Byte.
#[local] Open Scope list_scope.
#[local] Open Scope Z_scope.
Import ByteReader MoldUdp64.

(** * tests/test_pipeline_property.cpp *)

Module TestPipelineProperty.
Import Test.

Section test.
Context `{H : Header} (char_signed : bool).

Definition add_message (id quantity price : Z) : outcome (list byte) :=
  bytes ← base Byte.x41 36;
  bytes ← put_u64 bytes 11 id;
  bytes ← set_byte bytes 19 (Z_of_byte Byte.x42);
  bytes ← put_u32 bytes 20 quantity;
  bytes ← put_ascii bytes 24 8 (bs "PIPE");
  put_u32 bytes 32 price.
Definition delete_message (id : Z) : outcome (list byte) := bytes ← base Byte.x44 19; put_u64 bytes 11 id.

Definition apply_payload (payload : list byte) (book : OrderBook.t) : T OrderBook.t :=
  event ← lift (ItchDecoder.decode_book_event payload);
  match event with
  | Some event => '(ok, book) ← call (OrderBook.apply event) book; check ok;; mret book
  | None => check false;; mret book
  end.

(** The two messages of a turn of the first loop. *)
Definition message_pair (i : Z) : outcome (list (list byte)) :=
  let id := u64 (i + 1) in
  add ← add_message id (u32 (i mod 100 + 1)) (u32 (1000000 + i mod 200));
  delete ← delete_message id;
  Ret [add; delete].
Definition make_messages (message_count : Z) : outcome (list (list byte)) :=
  pairs ← mapM message_pair (seqZ 0 (message_count / 2)); Ret (concat pairs).
Fixpoint apply_payloads (messages : list (list byte)) (book : OrderBook.t) : T OrderBook.t :=
  match messages with
  | [] => mret book
  | message :: messages => book ← apply_payload message book; apply_payloads messages book
  end.

(** The variables of the loop over the arrivals. *)
Record Run : Type := mkRun {
  recovery : RecoveryEngine.t;
  recovered_book : OrderBook.t;
  last_released : Z;
  released : Z;
  requests : Z }.

Fixpoint release (ready : list MoldMessage) (s : Run) : T Run :=
  match ready with
  | [] => mret s
  | m :: ready =>
      check (sequence m =? u64 (last_released s + 1));;
      book ← apply_payload (payload m) (recovered_book s);
      release ready (mkRun (recovery s) book (sequence m) (u64 (released s + 1)) (requests s))
  end.
Definition with_recovery (e : RecoveryEngine.t) (s : Run) : Run :=
  mkRun e (recovered_book s) (last_released s) (released s) (requests s).
Definition with_request (request : option RecoveryEngine.GapRequest) (s : Run) : Run :=
  match request with
  | Some _ => mkRun (recovery s) (recovered_book s) (last_released s) (released s) (u64 (requests s + 1))
  | None => s
  end.

Definition message_at (messages : list (list byte)) (index : Z) : outcome (list byte) :=
  match vget messages index with Some m => Ret m | None => Undef "messages[index]: index out of range" end.
Definition arrive (messages : list (list byte)) (index : Z) (s : Run) : T Run :=
  packet ← lift (message ← message_at messages index; datagram ← mold (u64 (index + 1)) [message] 0;
                 MoldUdp64.parse_downstream datagram);
  '(result, e) ← call (RecoveryEngine.ingest packet) (recovery s);
  s ← release (RecoveryEngine.ready result) (with_request (RecoveryEngine.request result) (with_recovery e s));
  if index mod 997 =? 0 then
    '(duplicate, e) ← call (RecoveryEngine.ingest packet) (recovery s);
    release (RecoveryEngine.ready duplicate) (with_recovery e s)
  else mret s.
Fixpoint arrivals (messages : list (list byte)) (order : list Z) (s : Run) : T Run :=
  match order with [] => mret s | index :: order => s ← arrive messages index s; arrivals messages order s end.

Definition kMessageCount : Z := 50000.
(** [arrival_order] is what [std::shuffle] makes of the indices. *)
Definition main (message_count : Z) (arrival_order : list Z) : T Z :=
  messages ← lift (make_messages message_count);
  ordered_book ← lift (OrderBook.new 1024);
  ordered_book ← apply_payloads messages ordered_book;
  book ← lift (OrderBook.new 1024);
  s ← arrivals messages arrival_order (mkRun (RecoveryEngine.new 1) book 0 0 0);
  check (released s =? len messages);;
  check (last_released s =? len messages);;
  check (RecoveryEngine.expected (recovery s) =? u64 (len messages + 1));;
  check (RecoveryEngine.buffered_messages (recovery s) =? 0);;
  check (0 <? requests s);;
  check (OrderBook.live_order_count (recovered_book s) =? 0);;
  recovered_hash ← lift (OrderBook.state_hash char_signed (recovered_book s));
  ordered_hash ← lift (OrderBook.state_hash char_signed ordered_book);
  check (recovered_hash =? ordered_hash);;
  finish.
End test.

(** ** The feed of the test *)

Definition meta : EventMeta := mkMeta 0x1234 0x5678 0x010203040506.
Definition order_of (i : Z) : Order :=
  mkOrder (i + 1) (Symbol.from_string (bs "PIPE")) Buy (i mod 100 + 1) (1000000 + i mod 200).
(** The event under sequence number [n]: order [i] is added by message [2 * i + 1] and deleted by the next. *)
Definition event (n : Z) : MarketEvent :=
  if Z.even n then Delete (mkDelete meta (n / 2)) else Add (mkAdd meta (order_of (n / 2))).
Definition content (n : Z) : list byte :=
  if Z.even n then Byte.x44 :: meta_bytes meta ++ be_bytes 8 (n / 2)
  else Byte.x41 :: add_bytes meta (order_of (n / 2)).
(** The book after [n] events. *)
Definition stage (n : Z) : BookSpec.t :=
  if Z.even n then BookSpec.empty else BookSpec.push (order_of (n / 2)) BookSpec.empty.
Definition session : list byte := padded 10 (bs "TEST").
Definition packet (n : Z) : MoldDownstreamPacket := mkPacket session n 1 false false [mkMessage n (content n)].

Lemma base_spec type size : (11 ≤ size)%nat →
  base type size = Ret (splice (replicate size Byte.x00) 0 ([type] ++ meta_bytes meta)).
Proof.
  intros Hs. unfold base, put_u48. change put_u16 with Put.put_u16.
  do 3 next_write. rewrite write_loop_spec by lens. rewrite splice_next by lens. rewrite byte_of_Z_of_byte.
  unfold meta_bytes. cbn [stock_locate tracking_number timestamp_ns meta]. by rewrite <-!app_assoc.
Qed.
Lemma length_meta_bytes : length (meta_bytes meta) = 10%nat.
Proof. reflexivity. Qed.
#[local] Hint Rewrite length_meta_bytes : lens.
Ltac next_splice :=
  first [rewrite write_loop_spec by lens | rewrite set_byte_spec by lens | rewrite put_ascii_spec by lens];
  rewrite splice_next by lens; cbn [mbind outcome_bind].
Lemma add_message_spec i :
  add_message (i + 1) (i mod 100 + 1) (1000000 + i mod 200) = Ret (Byte.x41 :: add_bytes meta (order_of i)).
Proof.
  unfold add_message. rewrite base_spec by lia. cbn [mbind outcome_bind]. unfold put_u64, put_u32, put_ascii.
  do 5 next_splice. rewrite splice_all by lens. rewrite byte_of_Z_of_byte. unfold add_bytes.
  cbn [order_of id side quantity symbol price side_byte Symbol.bytes]. rewrite from_string_padded.
  cbn [Symbol.bytes app]. by rewrite <-!app_assoc.
Qed.
Lemma delete_message_spec i : delete_message i = Ret (Byte.x44 :: meta_bytes meta ++ be_bytes 8 i).
Proof.
  unfold delete_message. rewrite base_spec by lia. cbn [mbind outcome_bind]. unfold put_u64.
  next_splice. by rewrite splice_all by lens.
Qed.

(** The feed is long enough for every number of it. *)
Definition count_ok (message_count : Z) : Prop := 0 ≤ message_count < 2 ^ 32 ∧ Z.even message_count = true.

Lemma odd_content i : content (2 * i + 1) = Byte.x41 :: add_bytes meta (order_of i).
Proof.
  unfold content. rewrite Z.even_add, Z.even_mul. cbn [Z.even orb eqb].
  rewrite (Z.mul_comm 2), Z.div_add_l by done. change (1 / 2) with 0. by rewrite Z.add_0_r.
Qed.
Lemma even_content i : content (2 * i + 2) = Byte.x44 :: meta_bytes meta ++ be_bytes 8 (i + 1).
Proof.
  unfold content. replace (2 * i + 2) with (2 * (i + 1)) by lia. rewrite Z.even_mul. cbn [Z.even orb].
  by rewrite Z.mul_comm, Z.div_mul.
Qed.
Lemma message_pair_spec i :
  0 ≤ i < 2 ^ 31 → message_pair i = Ret [content (2 * i + 1); content (2 * i + 2)].
Proof.
  intros Hi. unfold message_pair. pose proof (Z.mod_pos_bound i 100 ltac:(lia)). pose proof (Z.mod_pos_bound i 200 ltac:(lia)).
  unfold u32. rewrite u64_small, !wrap_small by word_lia. rewrite add_message_spec, delete_message_spec.
  cbn [mbind outcome_bind]. by rewrite odd_content, even_content.
Qed.
Lemma message_pairs j k : 0 ≤ j → j + Z.of_nat k ≤ 2 ^ 31 →
  ∃ pairs, mapM message_pair (seqZ j (Z.of_nat k)) = Ret pairs ∧
    concat pairs = content <$> seqZ (2 * j + 1) (2 * Z.of_nat k).
Proof.
  revert j. induction k as [|k IH]; intros j Hj Hk; [by exists []|].
  destruct (IH (j + 1) ltac:(lia) ltac:(lia)) as (pairs & Hp & Hc).
  rewrite (seqZ_cons j) by lia. replace (Z.pred (Z.of_nat (S k))) with (Z.of_nat k) by lia.
  cbn [mapM]. rewrite message_pair_spec by lia. cbn [mbind outcome_bind]. unfold Z.succ. rewrite Hp.
  eexists. split; [reflexivity|]. cbn [concat app]. rewrite Hc.
  rewrite (seqZ_cons (2 * j + 1)), (seqZ_cons (Z.succ _)) by lia. cbn [fmap list_fmap]. unfold Z.succ.
  replace (2 * j + 1 + 1) with (2 * j + 2) by lia. do 2 f_equal. f_equal. f_equal; lia.
Qed.
Lemma make_messages_spec message_count :
  count_ok message_count → make_messages message_count = Ret (content <$> seqZ 1 message_count).
Proof.
  intros [Hc Heven]. unfold make_messages. apply Z.even_spec in Heven as [k ->].
  rewrite Z.mul_comm, Z.div_mul by done. destruct (message_pairs 0 (Z.to_nat k) ltac:(lia) ltac:(lia)) as (pairs & Hp & Hpc).
  rewrite Z2Nat.id in Hp, Hpc by lia. rewrite Hp. cbn [mbind outcome_bind]. rewrite Hpc. do 3 f_equal. lia.
Qed.

Section proof.
Context `{HG : !GeneratedFrom itch50 H} (char_signed : bool).

Lemma event_decodes n : 0 < n ≤ 2 ^ 32 → ItchDecoder.decode_book_event (content n) = Ret (Some (event n)).
Proof.
  intros Hn. pose proof (Z.mod_pos_bound (n / 2) 100 ltac:(lia)). pose proof (Z.mod_pos_bound (n / 2) 200 ltac:(lia)).
  pose proof (Z.div_pos n 2 ltac:(lia) ltac:(lia)). pose proof (Z.div_le_upper_bound n 2 (2 ^ 32) ltac:(lia) ltac:(lia)).
  apply decode_wire; unfold event, content; destruct (Z.even n); try constructor; cbn; unfold meta_fits, fits; cbn; try lia.
  all: split_and!; try lia; done.
Qed.

Lemma stage_step n : 0 ≤ n → BookSpec.apply 1024 (event (n + 1)) (stage n) = (true, stage (n + 1)).
Proof.
  intros Hn. unfold event, stage. rewrite Z.even_add. cbn [Z.even].
  pose proof (Z.div_pos n 2 ltac:(lia) ltac:(lia)). pose proof (Z.mod_pos_bound (n / 2) 100 ltac:(lia)).
  destruct (Z.even n) eqn:Heven; cbn [Bool.eqb].
  - assert ((n + 1) / 2 = n / 2) as ->.
    { apply Z.even_spec in Heven as [k ->]. rewrite (Z.mul_comm 2), Z.div_add_l, Z.div_mul by done. change (1 / 2) with 0. lia. }
    cbn [BookSpec.apply add_order]. unfold BookSpec.add. rewrite decide_False.
    2: { cbn. rewrite lookup_empty, map_size_empty. intros [?|[?|[[? ?]|?]]]; (done || lia). }
    unfold BookSpec.fits, BookSpec.level_total, BookSpec.queue. cbn [BookSpec.queues BookSpec.empty].
    rewrite lookup_empty. cbn [default BookSpec.total quantity order_of]. rewrite (proj2 (Z.leb_le _ _)) by word_lia. done.
  - assert ((n + 1) / 2 = n / 2 + 1) as ->.
    { rewrite <-Z.negb_odd in Heven. apply negb_false_iff, Z.odd_spec in Heven as [k ->].
      replace (2 * k + 1 + 1) with ((k + 1) * 2) by lia. rewrite Z.div_mul by done.
      rewrite (Z.mul_comm 2), Z.div_add_l by done. change (1 / 2) with 0. lia. }
    set (o := order_of (n / 2)). cbn [BookSpec.apply delete_order_id]. change (n / 2 + 1) with (id o).
    unfold BookSpec.erase, BookSpec.remove, BookSpec.push. cbn [BookSpec.orders BookSpec.empty]. rewrite lookup_insert_eq.
    rewrite bool_decide_eq_true_2 by by eexists.
    assert (Hq : ∀ k, BookSpec.queue BookSpec.empty k = []) by (intros k; unfold BookSpec.queue; cbn; by rewrite lookup_empty).
    rewrite Hq, BookSpec.queue_set_queue, decide_True by done. cbn [app BookSpec.queues BookSpec.empty].
    rewrite filter_cons_False, filter_nil by (intros ?; done).
    unfold BookSpec.set_queue. rewrite decide_True by done. rewrite decide_False by done.
    by rewrite !delete_insert_id by apply lookup_empty.
Qed.

(** ** Books *)

Context (b0 : OrderBook.t) (Hb0 : OrderBook.new 1024 = Ret b0).
Lemma capacity_1024 : capacity_ok 1024.
Proof. unfold capacity_ok, kInvalidSlot. lia. Qed.

(** The book that the first [n] events leave. *)
Definition feed_book (n : Z) (b : OrderBook.t) : Prop :=
  (∃ oks, run (event <$> seqZ 1 n) b0 = (Ret oks, b)) ∧ represents 1024 b (stage n).
Lemma feed_book_new : feed_book 0 b0.
Proof.
  split; [by exists []|]. destruct (represents_new 1024 capacity_1024) as (b & Hb & Hr).
  assert (b = b0) as -> by congruence. exact Hr.
Qed.
Lemma feed_book_unique n b b' : feed_book n b → feed_book n b' → b = b'.
Proof. intros [[? ?] _] [[? ?] _]. congruence. Qed.

Lemma passes_payload n b :
  0 ≤ n < 2 ^ 32 → feed_book n b → ∃ b', passes (apply_payload (content (n + 1)) b) b' ∧ feed_book (n + 1) b'.
Proof.
  intros Hn [[oks Hrun] Hr]. pose proof (event_decodes (n + 1) ltac:(lia)) as Hd.
  destruct (represents_apply 1024 capacity_1024 b _ _ Hr (decode_event_ok _ _ Hd)) as (b' & Happly & Hr').
  rewrite stage_step in Happly, Hr' by lia. exists b'. split.
  - unfold apply_payload. eapply passes_bind; [by apply passes_lift|]. cbn beta iota.
    eapply passes_bind; [by apply passes_call|]. by eapply passes_bind; [apply passes_check|apply passes_ret].
  - split; [|done]. exists (oks ++ [true]). rewrite seqZ_app, fmap_app by lia. eapply run_app; [done|].
    rewrite (Z.add_comm 1), seqZ_cons, seqZ_nil by lia. cbn [fmap list_fmap run]. unfold mbind, M_bind. by rewrite Happly.
Qed.
Lemma passes_payloads k n b :
  0 ≤ n → n + Z.of_nat k ≤ 2 ^ 32 → feed_book n b →
  ∃ b', passes (apply_payloads (content <$> seqZ (n + 1) (Z.of_nat k)) b) b' ∧ feed_book (n + Z.of_nat k) b'.
Proof.
  revert n b. induction k as [|k IH]; intros n b Hn Hk Hb.
  { exists b. by rewrite Z.add_0_r. }
  destruct (passes_payload n b ltac:(lia) Hb) as (b1 & Hp & Hb1).
  destruct (IH (n + 1) b1 ltac:(lia) ltac:(lia) Hb1) as (b2 & Hp2 & Hb2).
  exists b2. split; [|by replace (n + Z.of_nat (S k)) with (n + 1 + Z.of_nat k) by lia].
  rewrite seqZ_cons by lia. replace (Z.pred (Z.of_nat (S k))) with (Z.of_nat k) by lia.
  by eapply passes_bind.
Qed.

(** [n] messages have been released. *)
Record released_to (n : Z) (s : Run) : Prop := {
  to_book : feed_book n (recovered_book s);
  to_last : last_released s = n;
  to_released : released s = n }.
Lemma passes_release k n s :
  0 ≤ n → n + Z.of_nat k ≤ 2 ^ 32 → released_to n s →
  ∃ s', passes (release (stream content (n + 1) k) s) s' ∧ released_to (n + Z.of_nat k) s' ∧
    recovery s' = recovery s ∧ requests s' = requests s.
Proof.
  revert n s. induction k as [|k IH]; intros n s Hn Hk [Hb Hlast Hrel].
  { exists s. rewrite Z.add_0_r. by split_and!. }
  destruct (passes_payload n _ ltac:(lia) Hb) as (b1 & Hp & Hb1).
  destruct (IH (n + 1) (mkRun (recovery s) b1 (n + 1) (u64 (released s + 1)) (requests s)) ltac:(lia) ltac:(lia))
    as (s' & Hp' & Hs' & He & Hq).
  { split; cbn; [done|done|]. rewrite Hrel. by rewrite u64_small by word_lia. }
  exists s'. split; [|by replace (n + Z.of_nat (S k)) with (n + 1 + Z.of_nat k) by lia].
  unfold stream. rewrite seqZ_cons by lia. replace (Z.pred (Z.of_nat (S k))) with (Z.of_nat k) by lia.
  cbn [fmap list_fmap numbered release]. eapply passes_bind.
  { apply passes_check. cbn. rewrite Hlast, u64_small by word_lia. apply Z.eqb_refl. }
  eapply passes_bind; [exact Hp|]. exact Hp'.
Qed.

(** ** Arrivals *)

Lemma numbered_app first ps qs : numbered first (ps ++ qs) = numbered first ps ++ numbered (first + len ps) qs.
Proof.
  revert first. induction ps as [|p ps IH]; intros first; cbn [app numbered length]; [by rewrite Z.add_0_r|].
  rewrite IH. do 3 f_equal. lia.
Qed.
Lemma stream_app first n k :
  stream content first (n + k) = stream content first n ++ stream content (first + Z.of_nat n) k.
Proof.
  unfold stream. rewrite Nat2Z.inj_add, seqZ_app, fmap_app, numbered_app, length_fmap, length_seqZ by lia.
  by rewrite Nat2Z.id.
Qed.
Lemma length_stream first n : length (stream content first n) = n.
Proof. unfold stream. rewrite length_numbered, length_fmap, length_seqZ. lia. Qed.
Lemma stream_suffix first n k ready :
  stream content first n ++ ready = stream content first k →
  (n ≤ k)%nat ∧ ready = stream content (first + Z.of_nat n) (k - n).
Proof.
  intros Heq. assert (Hnk : (n ≤ k)%nat).
  { apply (f_equal length) in Heq. rewrite length_app, !length_stream in Heq. lia. }
  split; [done|]. replace k with (n + (k - n))%nat in Heq by lia. rewrite stream_app in Heq.
  by apply app_inv_head in Heq.
Qed.

(** What the engine has released when it expects [n]. *)
Definition prefix (n : Z) : list MoldMessage := stream content 1 (Z.to_nat (n - 1)).
Definition engine_ok (arrived : gset Z) (e : RecoveryEngine.t) : Prop :=
  recovered session content 1 arrived e (prefix (RecoveryEngine.expected_ e)).

Lemma packet_from_stream n : 0 < n < u64_max → from_stream session content (packet n).
Proof. intros Hn. split; cbn; [done|lia|]. constructor; [|constructor]. cbn. split; [lia|done]. Qed.
Lemma carried_packet n : carried (packet n) = {[n]}.
Proof. unfold carried. cbn. by rewrite union_empty_r_L. Qed.

Lemma ingest_packet n arrived asked e :
  0 < n < u64_max → engine_ok arrived e → marks_ok asked e → hole_marked e →
  ∃ r e', RecoveryEngine.ingest (packet n) e = (Ret r, e') ∧ engine_ok (arrived ∪ {[n]}) e' ∧
    marks_ok (λ g, asked g ∨ RecoveryEngine.request r = Some g) e' ∧ hole_marked e' ∧
    RecoveryEngine.session_ e' = Some session ∧ RecoveryEngine.expected_ e ≤ RecoveryEngine.expected_ e' ∧
    RecoveryEngine.ready r = stream content (RecoveryEngine.expected_ e)
      (Z.to_nat (RecoveryEngine.expected_ e' - RecoveryEngine.expected_ e)).
Proof.
  intros Hn He Hm Hh. pose proof (packet_from_stream n Hn) as Hp.
  destruct (proj1 (wp_exact _ _ _) (wp_ingest session content (packet n) e 1 asked arrived _
    (ingested session content 1 asked arrived (prefix (RecoveryEngine.expected_ e)) (packet n)) He Hp ltac:(lia) Hm Hh
    ltac:(by auto))) as (r & e' & Heq & [Hrec Hsess Hmarks Hhole _ _]).
  rewrite carried_packet in Hrec. exists r, e'.
  pose proof (progress_first _ _ _ _ _ _ (proj1 He)). pose proof (progress_first _ _ _ _ _ _ (proj1 Hrec)).
  pose proof (progress_out _ _ _ _ _ _ (proj1 Hrec)) as Hout. rewrite Hout in Hrec.
  apply stream_suffix in Hout as [Hle ->]. split_and!; [done..|lia|]. f_equal; lia.
Qed.

(** A message that came before, while nothing is buffered, is dropped. *)
Lemma ingest_stale n e :
  RecoveryEngine.session_ e = Some session → n < RecoveryEngine.expected_ e → RecoveryEngine.pending_ e = ∅ →
  RecoveryEngine.ingest (packet n) e =
    (Ret (RecoveryEngine.set_stale RecoveryEngine.default_result), e).
Proof.
  intros Hs Hn Hp. unfold RecoveryEngine.ingest, mbind, M_bind, get. rewrite Hs, decide_False by done. cbn.
  rewrite Hs, decide_False by tauto. unfold mbind, M_bind, get. rewrite decide_True by done. cbn. by rewrite Hp.
Qed.

Lemma content_length n : 0 < len (content n) ≤ 65535.
Proof. unfold content. by destruct (Z.even n). Qed.
Lemma packet_parses message_count index :
  message_count < 2 ^ 32 → 0 ≤ index < message_count →
  (message ← message_at (content <$> seqZ 1 message_count) index; datagram ← mold (u64 (index + 1)) [message] 0;
   parse_downstream datagram) = Ret (packet (index + 1)).
Proof.
  intros Hc Hi. unfold message_at, vget. rewrite decide_True by lia.
  rewrite list_lookup_fmap, lookup_seqZ_lt by lia. cbn [fmap option_fmap option_map mbind outcome_bind].
  rewrite u64_small by word_lia. replace (1 + Z.of_nat (Z.to_nat index)) with (index + 1) by lia.
  set (m := content (index + 1)). pose proof (content_length (index + 1)) as Hm. fold m in Hm.
  change (mold (index + 1) [m] 0) with (mold_packet (bs "TEST") (index + 1) [m]).
  rewrite mold_packet_spec by (constructor; [lia|constructor]). cbn [mbind outcome_bind].
  rewrite <-(parse_complete (packet (index + 1))); [done|].
  split; [done|cbn; word_lia|]. right. right. cbn. split_and!; try done; [word_lia|].
  constructor; [apply content_length|constructor].
Qed.

(** What holds after the indices [seen] have arrived. *)
Definition numbers (seen : list Z) : gset Z := list_to_set (Z.succ <$> seen).
Record inv (seen : list Z) (s : Run) : Prop := {
  inv_engine : engine_ok (numbers seen) (recovery s);
  inv_marks : marks_ok (λ _, 0 < requests s) (recovery s);
  inv_hole : hole_marked (recovery s);
  inv_requests : 0 ≤ requests s ≤ len seen;
  inv_in_order : requests s = 0 → seen = seqZ 0 (len seen);
  inv_released : released_to (RecoveryEngine.expected_ (recovery s) - 1) s }.

Lemma numbers_snoc seen index : numbers (seen ++ [index]) = numbers seen ∪ {[index + 1]}.
Proof. unfold numbers. rewrite fmap_app, list_to_set_app_L. cbn. by rewrite union_empty_r_L. Qed.
Lemma elem_of_numbers seen n : n ∈ numbers seen ↔ n - 1 ∈ seen.
Proof.
  unfold numbers. rewrite elem_of_list_to_set, list_elem_of_fmap. split.
  - intros (i & -> & Hi). by replace (Z.succ i - 1) with i by lia.
  - intros Hn. exists (n - 1). split; [lia|done].
Qed.
(** Nothing is buffered that was not asked for. *)
Lemma nothing_buffered arrived e : engine_ok arrived e → marks_ok (λ _, False) e → hole_marked e → RecoveryEngine.pending_ e = ∅.
Proof.
  intros [Hp _] [[Hm1 Hm2]|[_ []]] Hh. pose proof (progress_first _ _ _ _ _ _ Hp).
  destruct (decide (RecoveryEngine.pending_ e = ∅)) as [|Hne]; [done|]. destruct (Hh Hne). lia.
Qed.
Lemma expected_bound seen e message_count :
  0 ≤ message_count → engine_ok (numbers seen) e → Forall (λ i, 0 ≤ i < message_count) seen →
  1 ≤ RecoveryEngine.expected_ e ≤ message_count + 1.
Proof.
  intros Hc [Hp _] Hseen. pose proof (progress_first _ _ _ _ _ _ Hp). split; [lia|].
  destruct (decide (RecoveryEngine.expected_ e = 1)); [lia|].
  pose proof (progress_prefix _ _ _ _ _ _ Hp (RecoveryEngine.expected_ e - 1) ltac:(lia)) as Hin%elem_of_numbers.
  rewrite Forall_forall in Hseen. specialize (Hseen _ Hin). lia.
Qed.
(** Without a request the messages came in order. *)
Lemma in_order seen index e :
  engine_ok (numbers (seen ++ [index])) e → RecoveryEngine.pending_ e = ∅ → seen = seqZ 0 (len seen) → index ∉ seen →
  0 ≤ index → seen ++ [index] = seqZ 0 (len (seen ++ [index])).
Proof.
  intros [Hp Hnext] Hpend Hseen Hnew Hi.
  assert (Hlt : index + 1 < RecoveryEngine.expected_ e).
  { pose proof (progress_pending _ _ _ _ _ _ Hp (index + 1)) as Hl. rewrite Hpend, lookup_empty in Hl.
    case_decide as Hd; [done|]. destruct (decide (RecoveryEngine.expected_ e ≤ index + 1)); [|lia].
    exfalso. apply Hd. split; [done|]. rewrite numbers_snoc. set_solver. }
  assert (Hk : len seen ≤ index).
  { destruct (decide (index < len seen)); [|lia]. exfalso. apply Hnew. rewrite Hseen. apply elem_of_seqZ. lia. }
  assert (index = len seen) as ->.
  { destruct (decide (index = len seen)); [done|].
    pose proof (progress_prefix _ _ _ _ _ _ Hp (len seen + 1) ltac:(lia)) as Hin%elem_of_numbers.
    replace (len seen + 1 - 1) with (len seen) in Hin by lia. apply elem_of_app in Hin as [Hin|Hin%list_elem_of_singleton]; [|done].
    rewrite Hseen in Hin at 2. apply elem_of_seqZ in Hin. lia. }
  rewrite length_app, Nat2Z.inj_add, seqZ_app by (cbn; lia). rewrite <-Hseen, Z.add_0_l. cbn [length].
  by rewrite seqZ_cons, seqZ_nil by lia.
Qed.

Lemma passes_ready e e' r s :
  RecoveryEngine.ready r = stream content (RecoveryEngine.expected_ e)
    (Z.to_nat (RecoveryEngine.expected_ e' - RecoveryEngine.expected_ e)) →
  1 ≤ RecoveryEngine.expected_ e ≤ RecoveryEngine.expected_ e' → RecoveryEngine.expected_ e' ≤ 2 ^ 32 →
  released_to (RecoveryEngine.expected_ e - 1) s →
  ∃ s', passes (release (RecoveryEngine.ready r) s) s' ∧ released_to (RecoveryEngine.expected_ e' - 1) s' ∧
    recovery s' = recovery s ∧ requests s' = requests s.
Proof.
  intros -> He He' Hs.
  destruct (passes_release (Z.to_nat (RecoveryEngine.expected_ e' - RecoveryEngine.expected_ e))
    (RecoveryEngine.expected_ e - 1) s ltac:(lia) ltac:(lia) Hs) as (s' & Hp & Hs' & Hrest).
  rewrite Z.sub_add in Hp. exists s'. split; [done|]. split; [|done]. by replace (RecoveryEngine.expected_ e' - 1) with
    (RecoveryEngine.expected_ e - 1 + Z.of_nat (Z.to_nat (RecoveryEngine.expected_ e' - RecoveryEngine.expected_ e))) by lia.
Qed.

Context (message_count : Z) (Hcount : 0 ≤ message_count < 2 ^ 32).
Let in_range (i : Z) : Prop := 0 ≤ i < message_count.

(** A counter that the arrivals cannot exhaust. *)
Lemma with_request_spec q e s n :
  0 ≤ requests s < message_count → released_to n s →
  let s1 := with_request q (with_recovery e s) in
  recovery s1 = e ∧ released_to n s1 ∧
  requests s1 = match q with Some _ => requests s + 1 | None => requests s end.
Proof.
  intros Hq [? ? ?]. destruct q; cbn; [rewrite u64_small by (unfold u64_max; lia)|]; by split_and!.
Qed.

Lemma passes_first seen index s :
  Forall in_range (seen ++ [index]) → len (seen ++ [index]) ≤ message_count → index ∉ seen → inv seen s →
  ∃ r e' s', RecoveryEngine.ingest (packet (index + 1)) (recovery s) = (Ret r, e') ∧
    passes (release (RecoveryEngine.ready r) (with_request (RecoveryEngine.request r) (with_recovery e' s))) s' ∧
    inv (seen ++ [index]) s' ∧ RecoveryEngine.session_ (recovery s') = Some session.
Proof.
  intros Hall Hlen Hnew [He Hm Hh Hq Horder Hto].
  pose proof Hall as [Hseen [Hindex _]%Forall_cons_1]%Forall_app. unfold in_range in Hindex.
  rewrite length_app in Hlen. cbn [length] in Hlen.
  destruct (ingest_packet (index + 1) _ _ _ ltac:(word_lia) He Hm Hh)
    as (r & e' & Heq & He' & Hm' & Hh' & Hsess & Hle & Hready). rewrite <-numbers_snoc in He'.
  pose proof (expected_bound _ _ message_count ltac:(lia) He Hseen). pose proof (expected_bound _ _ message_count ltac:(lia) He' Hall).
  destruct (with_request_spec (RecoveryEngine.request r) e' s _ ltac:(lia) Hto) as (Hs1 & Hto1 & Hq1).
  set (s1 := with_request _ _) in *.
  destruct (passes_ready _ e' r s1 Hready ltac:(lia) ltac:(lia) Hto1) as (s' & Hp & Hto' & Hs' & Hq').
  rewrite Hs1 in Hs'. exists r, e', s'. split; [done|]. split; [done|]. split; [|by rewrite Hs'].
  split; rewrite ?Hs', ?Hq'; try done.
  - eapply marks_ok_mono; [|exact Hm']. intros g [?|Hg]; [|rewrite Hg in Hq1]; destruct (RecoveryEngine.request r); lia.
  - rewrite length_app. cbn [length]. destruct (RecoveryEngine.request r); lia.
  - intros Hzero. assert (Hnone : RecoveryEngine.request r = None ∧ requests s = 0).
    { destruct (RecoveryEngine.request r); [lia|]. split; [done|lia]. }
    destruct Hnone as [Hnone Hs0]. apply (in_order _ _ e'); try done; [|by apply Horder|lia].
    eapply nothing_buffered; [done| |done]. eapply marks_ok_mono; [|exact Hm']. intros g [?|Hg]; [lia|congruence].
Qed.

(** A packet that has arrived before. *)
Lemma passes_duplicate seen index s :
  Forall in_range seen → index ∈ seen → inv seen s → RecoveryEngine.session_ (recovery s) = Some session →
  ∃ r e' s', RecoveryEngine.ingest (packet (index + 1)) (recovery s) = (Ret r, e') ∧
    passes (release (RecoveryEngine.ready r) (with_recovery e' s)) s' ∧ inv seen s'.
Proof.
  intros Hall Hin Hinv Hsess. pose proof Hinv as [He Hm Hh Hq Horder Hto].
  assert (Hnumber : index + 1 ∈ numbers seen) by (apply elem_of_numbers; by replace (index + 1 - 1) with index by lia).
  pose proof Hall as Hrange. rewrite Forall_forall in Hrange. specialize (Hrange _ Hin). unfold in_range in Hrange.
  destruct (decide (RecoveryEngine.pending_ (recovery s) = ∅)) as [Hempty|Hne].
  - assert (Hlt : index + 1 < RecoveryEngine.expected_ (recovery s)).
    { pose proof (progress_pending _ _ _ _ _ _ (proj1 He) (index + 1)) as Hl. rewrite Hempty, lookup_empty in Hl.
      case_decide as Hd; [done|]. destruct (decide (RecoveryEngine.expected_ (recovery s) ≤ index + 1)); [tauto|lia]. }
    eexists _, _, s. split; [by apply ingest_stale|]. split; [|done]. cbn. destruct s. apply passes_ret.
  - pose proof (progress_first _ _ _ _ _ _ (proj1 He)) as Hfirst.
    assert (Hasked : 0 < requests s) by (destruct (Hh Hne), Hm as [[? ?]|[_ ?]]; lia).
    destruct (ingest_packet (index + 1) _ _ _ ltac:(word_lia) He Hm Hh)
      as (r & e' & Heq & He' & Hm' & Hh' & _ & Hle & Hready).
    rewrite (union_comm_L (numbers seen)), subseteq_union_1_L in He' by set_solver.
    pose proof (expected_bound _ _ message_count ltac:(lia) He Hall). pose proof (expected_bound _ _ message_count ltac:(lia) He' Hall).
    destruct (passes_ready _ e' r (with_recovery e' s) Hready ltac:(lia) ltac:(lia)) as (s' & Hp & Hto' & Hs' & Hq').
    { by destruct Hto. }
    cbn in Hs', Hq'. exists r, e', s'. split; [done|]. split; [done|].
    split; rewrite ?Hs', ?Hq'; try done. by eapply marks_ok_mono; [|exact Hm'].
Qed.

Lemma passes_arrive seen index s :
  Forall in_range (seen ++ [index]) → len (seen ++ [index]) ≤ message_count → index ∉ seen → inv seen s →
  ∃ s', passes (arrive (content <$> seqZ 1 message_count) index s) s' ∧ inv (seen ++ [index]) s'.
Proof.
  intros Hall Hlen Hnew Hinv.
  destruct (passes_first seen index s Hall Hlen Hnew Hinv) as (r & e & s1 & Heq & Hp & Hinv1 & Hsess).
  pose proof Hall as [_ [Hindex _]%Forall_cons_1]%Forall_app.
  assert (∃ s', passes (if index mod 997 =? 0 then
      '(duplicate, e) ← call (RecoveryEngine.ingest (packet (index + 1))) (recovery s1);
      release (RecoveryEngine.ready duplicate) (with_recovery e s1)
    else mret s1) s' ∧ inv (seen ++ [index]) s') as (s' & Hp' & Hinv').
  { case_match; [|by exists s1].
    destruct (passes_duplicate _ index s1 Hall ltac:(set_solver) Hinv1 Hsess) as (r' & e' & s' & Heq' & Hp' & Hinv').
    exists s'. split; [|done]. eapply passes_bind; [by apply passes_call|]. exact Hp'. }
  exists s'. split; [|done]. unfold arrive. eapply passes_bind; [apply passes_lift, packet_parses; [lia|done]|].
  eapply passes_bind; [by apply passes_call|]. cbn beta iota. eapply passes_bind; [exact Hp|]. exact Hp'.
Qed.

Lemma passes_arrivals order seen s :
  Forall in_range (seen ++ order) → len (seen ++ order) ≤ message_count → NoDup (seen ++ order) → inv seen s →
  ∃ s', passes (arrivals (content <$> seqZ 1 message_count) order s) s' ∧ inv (seen ++ order) s'.
Proof.
  revert seen s. induction order as [|index order IH]; intros seen s Hall Hlen Hnodup Hinv.
  { exists s. by rewrite app_nil_r. }
  rewrite cons_middle, app_assoc in Hall, Hlen, Hnodup |- *.
  destruct (passes_arrive seen index s) as (s1 & Hp & Hinv1); [by apply Forall_app in Hall as [? _]| | |done|].
  { rewrite length_app in Hlen. lia. }
  { apply NoDup_app in Hnodup as [Hnodup _]. apply NoDup_app in Hnodup as (_ & Hn & _). intros Hin. apply (Hn _ Hin). set_solver. }
  destruct (IH (seen ++ [index]) s1 Hall Hlen Hnodup Hinv1) as (s' & Hp' & Hinv').
  exists s'. split; [|done]. by eapply passes_bind.
Qed.

(** ** The test *)

Lemma inv_new : inv [] (mkRun (RecoveryEngine.new 1) b0 0 0 0).
Proof.
  split; cbn; [|by left|done|lia|done|split; [apply feed_book_new|done..]].
  exact (recovered_new session content 1 ltac:(word_lia)).
Qed.

Lemma all_arrived order e :
  order ≡ₚ seqZ 0 message_count → engine_ok (numbers order) e →
  RecoveryEngine.expected_ e = message_count + 1 ∧ RecoveryEngine.pending_ e = ∅.
Proof.
  intros Hperm He. assert (Hin : ∀ n, n ∈ numbers order ↔ 1 ≤ n < message_count + 1).
  { intros n. rewrite elem_of_numbers, Hperm, elem_of_seqZ. lia. }
  assert (Hexp : RecoveryEngine.expected_ e = message_count + 1).
  { destruct (expected_bound order e message_count ltac:(lia) He) as [H1 H2].
    { rewrite Hperm. apply Forall_forall. intros i Hi%elem_of_seqZ. lia. }
    destruct (decide (RecoveryEngine.expected_ e ≤ message_count)); [|lia].
    destruct (proj2 He). apply Hin. lia. }
  split; [done|]. apply map_empty. intros k. rewrite (progress_pending _ _ _ _ _ _ (proj1 He)), decide_False; [done|].
  rewrite Hin. lia.
Qed.

Lemma shuffled_main_passes order :
  Z.even message_count = true → order ≡ₚ seqZ 0 message_count → order ≠ seqZ 0 message_count →
  exit_code (main char_signed message_count order) = Ret 0.
Proof.
  intros Heven Hperm Hne. assert (Hlen : len order = message_count) by (rewrite Hperm, length_seqZ; lia).
  destruct (passes_payloads (Z.to_nat message_count) 0 b0 ltac:(lia) ltac:(lia) feed_book_new) as (b & Hb & Hfeed).
  rewrite Z2Nat.id, Z.add_0_l in Hb, Hfeed by lia.
  destruct (passes_arrivals order [] _ ltac:(rewrite Hperm; apply Forall_forall; by intros i Hi%elem_of_seqZ; unfold in_range; lia)
    ltac:(cbn; lia) ltac:(cbn; rewrite Hperm; apply NoDup_seqZ) inv_new) as (s & Hs & [He Hm Hh Hq Horder Hto]).
  cbn [app] in He, Hq, Horder. destruct (all_arrived order _ Hperm He) as [Hexp Hpend].
  rewrite Hexp in Hto. replace (message_count + 1 - 1) with message_count in Hto by lia. destruct Hto as [Hbook Hlast Hrel].
  pose proof (feed_book_unique _ _ _ Hfeed Hbook) as ->. destruct Hbook as [_ Hrep].
  assert (Hmessages : len (content <$> seqZ 1 message_count) = message_count) by (rewrite length_fmap, length_seqZ; lia).
  assert (Hrequests : 0 < requests s).
  { destruct (decide (requests s = 0)) as [Hz|]; [|lia]. destruct Hne. rewrite (Horder Hz). by rewrite Hlen. }
  unfold main. eapply exit_code_bind; [by apply passes_lift, make_messages_spec|].
  eapply exit_code_bind; [by apply passes_lift|]. eapply exit_code_bind; [exact Hb|].
  eapply exit_code_bind; [by apply passes_lift|]. eapply exit_code_bind; [exact Hs|]. rewrite Hmessages.
  eapply exit_code_bind; [apply passes_check; by rewrite Hrel, Z.eqb_refl|].
  eapply exit_code_bind; [apply passes_check; by rewrite Hlast, Z.eqb_refl|].
  eapply exit_code_bind.
  { apply passes_check. unfold RecoveryEngine.expected. rewrite Hexp, u64_small by word_lia. apply Z.eqb_refl. }
  eapply exit_code_bind; [apply passes_check; unfold RecoveryEngine.buffered_messages; by rewrite Hpend|].
  eapply exit_code_bind; [apply passes_check; by apply Z.ltb_lt|].
  eapply exit_code_bind.
  { apply passes_check. rewrite (represents_count 1024 capacity_1024 _ _ Hrep). unfold stage. by rewrite Heven. }
  do 2 (eapply exit_code_bind; [apply passes_lift, (represents_hash 1024 capacity_1024 _ _ Hrep)|]).
  eapply exit_code_bind; [apply passes_check, Z.eqb_refl|]. done.
Qed.
End proof.

(** The test passes whatever [std::shuffle] does with the indices, as long as it moves some: the
    last request count is only positive if something came out of order. *)
Theorem pipeline_property_test_passes `{HG : !GeneratedFrom itch50 H} char_signed order :
  order ≡ₚ seqZ 0 kMessageCount → order ≠ seqZ 0 kMessageCount →
  exit_code (main char_signed kMessageCount order) = Ret 0.
Proof.
  destruct (represents_new 1024 capacity_1024) as (b & Hb & _).
  apply (shuffled_main_passes char_signed b Hb kMessageCount); unfold kMessageCount; [lia|done].
Qed.
End TestPipelineProperty.
