(* ===== verification/RandomBookTest.v ===== *)
(** The random transitions of [tests/test_order_book.cpp], with the numbers of [std::mt19937_64] as
    an argument: the test keeps a model of the book of its own, and passes whatever is drawn. *)
From S2P Require Import Prelude Types ByteReader FlatOrderIndex BookSpec OrderBook BookInvariant BookRefinement BookQueries BookTheorems Tests.
#[local] Open Scope list_scope.
#[local] Open Scope Z_scope.

Module TestRandomBook.
Import Test TestOrderBook.
#[local] Existing Instance OrderBook.level_order_dec.

Record ModelOrder : Type := mkModelOrder { m_side : Side; m_quantity : Z; m_price : Z; m_priority : Z }.
(** The variables of the loop; [drawn] numbers have been taken from the generator. *)
Record Run : Type := mkRun {
  random_book : OrderBook.t;
  model : gmap Z ModelOrder;
  next_id : Z;
  priority : Z;
  drawn : nat }.
Definition set_book (b : OrderBook.t) (s : Run) : Run := mkRun b (model s) (next_id s) (priority s) (drawn s).
Definition set_model (m : gmap Z ModelOrder) (s : Run) : Run :=
  mkRun (random_book s) m (next_id s) (priority s) (drawn s).

Section test.
Context (random : nat → Z).

Definition draw (s : Run) : Z * Run :=
  (random (drawn s), mkRun (random_book s) (model s) (next_id s) (priority s) (S (drawn s))).
(** [CHECK(random_book.add(...))] and so on. *)
Definition accepted (e : MarketEvent) (s : Run) : T Run := b ← expect e true (random_book s); mret (set_book b s).
(** [model[next_id] = ModelOrder{side, quantity, price, priority++}; ++next_id;] *)
Definition model_new (side : Side) (quantity price : Z) (s : Run) : Run :=
  mkRun (random_book s) (<[next_id s := mkModelOrder side quantity price (priority s)]> (model s))
    (u64 (next_id s + 1)) (u64 (priority s + 1)) (drawn s).

Definition new_order (s : Run) : T Run :=
  let '(x, s) := draw s in
  let quantity := u32 (x mod 1000 + 1) in
  let '(x, s) := draw s in
  let side := if x mod 2 =? 0 then Sell else Buy in
  let '(x, s) := draw s in
  let price := u32 (x mod 100 + 1) in
  s ← accepted (add_ (next_id s) aapl side quantity price) s;
  mret (model_new side quantity price s).

(** [it->second.quantity -= quantity; if (it->second.quantity == 0) model.erase(it);] *)
Definition model_reduce (id : Z) (o : ModelOrder) (quantity : Z) (m : gmap Z ModelOrder) : gmap Z ModelOrder :=
  let left_ := u32 (m_quantity o - quantity) in
  if left_ =? 0 then delete id m else <[id := mkModelOrder (m_side o) left_ (m_price o) (m_priority o)]> m.

Definition old_order (transition : Z) (s : Run) : T Run :=
  let '(x, s) := draw s in
  match sorted_keys Z.le (model s) !! Z.to_nat (x mod Z.of_nat (size (model s))) with
  | None => undef "std::advance past the end"
  | Some id =>
      match model s !! id with
      | None => undef "a key without an element"
      | Some o =>
          if m_quantity o =? 0 then undef "random() % 0" else
          let '(x, s) := draw s in
          let quantity := u32 (x mod m_quantity o + 1) in
          let '(x, s) := draw s in
          if x mod 4 =? 0 then
            s ← accepted (cancel_ id quantity) s; mret (set_model (model_reduce id o quantity (model s)) s)
          else if x mod 4 =? 1 then
            s ← accepted (Execute (mkExecute no_meta id quantity transition false 0 true)) s;
            mret (set_model (model_reduce id o quantity (model s)) s)
          else if x mod 4 =? 2 then
            s ← accepted (erase_ id) s; mret (set_model (delete id (model s)) s)
          else
            let '(x, s) := draw s in
            let new_quantity := u32 (x mod 1000 + 1) in
            let '(x, s) := draw s in
            let new_price := u32 (x mod 100 + 1) in
            s ← accepted (replace_ id (next_id s) new_quantity new_price) s;
            mret (model_new (m_side o) new_quantity new_price (set_model (delete id (model s)) s))
      end
  end.

(** [if (model.empty() || (random() % 3U == 0U && model.size() < 1500))] *)
Definition transition_step (transition : Z) (s : Run) : T Run :=
  if decide (model s = ∅) then new_order s
  else
    let '(x, s) := draw s in
    if (x mod 3 =? 0) && (Z.of_nat (size (model s)) <? 1500) then new_order s else old_order transition s.

(** ** The comparison with the model *)

(** [bids], [asks] and their totals. *)
Record Sides : Type := mkSides {
  entries : Side → gmap Z (list (Z * Z));
  totals : Side → gmap Z Z }.
Definition no_sides : Sides := mkSides (λ _, ∅) (λ _, ∅).
Definition side_insert {A} (side : Side) (m : A) (f : Side → A) : Side → A :=
  λ s, if decide (s = side) then m else f s.
Definition push_entry (id : Z) (o : ModelOrder) (l : Sides) : Sides :=
  let e := entries l (m_side o) in
  let t := totals l (m_side o) in
  mkSides
    (side_insert (m_side o) (<[m_price o := default [] (e !! m_price o) ++ [(m_priority o, id)]]> e) (entries l))
    (side_insert (m_side o) (<[m_price o := u64 (default 0 (t !! m_price o) + m_quantity o)]> t) (totals l)).
Fixpoint collect (s : Run) (ids : list Z) (l : Sides) : T Sides :=
  match ids with
  | [] => mret l
  | id :: ids =>
      match model s !! id with
      | None => undef "a key without an element"
      | Some o =>
          actual ← lift (OrderBook.find (random_book s) id);
          check (match actual with
                 | Some a => bool_decide (quantity a = m_quantity o ∧ price a = m_price o ∧ side a = m_side o)
                 | None => false
                 end);;
          collect s ids (push_entry id o l)
      end
  end.

(** The order of [std::pair]. *)
Definition pair_le (x y : Z * Z) : Prop := x.1 < y.1 ∨ x.1 = y.1 ∧ x.2 ≤ y.2.
#[global] Instance pair_le_dec x y : Decision (pair_le x y).
Proof. unfold pair_le. apply _. Defined.
Fixpoint compare (totals : gmap Z Z) (actual : list OrderBook.LevelSnapshot) (level : nat)
    (expected : list (Z * list (Z * Z))) : T unit :=
  match expected with
  | [] => mret tt
  | (price, orders) :: expected =>
      let ids := snd <$> merge_sort pair_le orders in
      match actual !! level with
      | None => undef "actual_levels[level]: index out of range"
      | Some l =>
          check (bool_decide (OrderBook.snapshot_price l = price ∧
            OrderBook.snapshot_total l = default 0 (totals !! price) ∧ OrderBook.fifo_order_ids l = ids));;
          compare totals actual (S level) expected
      end
  end.
Definition check_state (s : Run) : T unit :=
  l ← collect s (sorted_keys Z.le (model s)) no_sides;
  actual_bids ← lift (OrderBook.bid_levels (random_book s) aapl);
  actual_asks ← lift (OrderBook.ask_levels (random_book s) aapl);
  check (len actual_bids =? Z.of_nat (size (entries l Buy)));;
  check (len actual_asks =? Z.of_nat (size (entries l Sell)));;
  compare (totals l Buy) actual_bids 0 (OrderBook.in_order Buy (entries l Buy));;
  compare (totals l Sell) actual_asks 0 (OrderBook.in_order Sell (entries l Sell));;
  check (bool_decide (OrderBook.best_bid (random_book s) aapl = first_key (OrderBook.level_order Buy) (entries l Buy)));;
  check (bool_decide (OrderBook.best_ask (random_book s) aapl = first_key (OrderBook.level_order Sell) (entries l Sell))).

Fixpoint transitions (ts : list Z) (s : Run) : T Run :=
  match ts with
  | [] => mret s
  | transition :: ts =>
      s ← transition_step transition s;
      check (OrderBook.live_order_count (random_book s) =? Z.of_nat (size (model s)));;
      if transition mod 250 =? 0 then
        check_state s;;
        failures ← get;
        if negb (failures =? 0) then mret s else transitions ts s
      else transitions ts s
  end.

Definition transition_count : Z := 100000.
(** The whole of [main]. *)
Definition main (char_is_signed : bool) : T Z :=
  fixed_part char_is_signed;;
  random_book ← lift (OrderBook.new 2048);
  transitions (seqZ 0 transition_count) (mkRun random_book ∅ 100 0 0);;
  finish.
End test.

(** ** The model and the abstract book *)

Definition book_order (i : Z) (o : ModelOrder) : Order := mkOrder i aapl (m_side o) (m_quantity o) (m_price o).
Definition priority_of (m : gmap Z ModelOrder) (i : Z) : Z := from_option m_priority 0 (m !! i).
Definition earlier (m : gmap Z ModelOrder) (i j : Z) : Prop := priority_of m i < priority_of m j.

(** The abstract book holds the orders of the model, and its queues are in the order of their priorities. *)
Record tracks (a : BookSpec.t) (m : gmap Z ModelOrder) : Prop := {
  tracks_wf : BookSpec.wf a;
  tracks_orders i : BookSpec.orders a !! i = book_order i <$> m !! i;
  tracks_sorted k : StronglySorted (earlier m) (BookSpec.queue a k) }.
(** The numbers of the model. *)
Record order_bounds (next pr : Z) (i : Z) (o : ModelOrder) : Prop := {
  bound_id : 100 ≤ i < next;
  bound_quantity : 0 < m_quantity o ≤ 1000;
  bound_priority : 0 ≤ m_priority o < pr }.
Record bounds (next pr : Z) (m : gmap Z ModelOrder) : Prop := {
  bounds_orders i o : m !! i = Some o → order_bounds next pr i o;
  bounds_size : Z.of_nat (size m) ≤ 1500 }.

Lemma sorted_ext {A} (R R' : A → A → Prop) l :
  StronglySorted R l → (∀ x y, x ∈ l → y ∈ l → R x y → R' x y) → StronglySorted R' l.
Proof.
  induction 1 as [|x l Hl IH Hx]; intros HR; constructor.
  - apply IH. intros; apply HR; [by right..|done].
  - rewrite Forall_forall in Hx |- *. intros y Hy. apply HR; [by left|by right|by apply Hx].
Qed.
Lemma sorted_filter {A} (R : A → A → Prop) (P : A → Prop) `{!∀ x, Decision (P x)} l :
  StronglySorted R l → StronglySorted R (filter P l).
Proof.
  induction 1 as [|x l Hl IH Hx]; [constructor|]. destruct (decide (P x)).
  - rewrite filter_cons_True by done. constructor; [done|]. rewrite Forall_forall in Hx |- *.
    intros y [_ Hy]%list_elem_of_filter. by apply Hx.
  - by rewrite filter_cons_False.
Qed.

Section tracking.
Context (a : BookSpec.t) (m : gmap Z ModelOrder) (Ht : tracks a m).

Lemma tracks_live i : is_Some (BookSpec.orders a !! i) ↔ is_Some (m !! i).
Proof. rewrite (tracks_orders _ _ Ht). apply fmap_is_Some. Qed.
Lemma tracks_size : size (BookSpec.orders a) = size m.
Proof.
  rewrite <-!size_dom. f_equal. apply set_eq. intros i. rewrite !elem_of_dom. apply tracks_live.
Qed.
Lemma queued i k : i ∈ BookSpec.queue a k ↔ ∃ o, m !! i = Some o ∧ k = (aapl, m_side o, m_price o).
Proof.
  rewrite (BookSpec.queue_elem a (tracks_wf _ _ Ht)). rewrite (tracks_orders _ _ Ht). split.
  - intros (o & Ho & <-). destruct (m !! i) as [mo|]; [|done]. injection Ho as <-. by exists mo.
  - intros (mo & -> & ->). by eexists.
Qed.

Lemma queue_length k : Z.of_nat (length (BookSpec.queue a k)) ≤ Z.of_nat (size m).
Proof.
  rewrite <-tracks_size, <-size_dom. rewrite <-(size_list_to_set (C := gset Z)) by apply BookSpec.queue_nodup, (tracks_wf _ _ Ht).
  apply inj_le, subseteq_size. intros i Hi%elem_of_list_to_set. apply elem_of_dom, tracks_live.
  apply queued in Hi as (o & Ho & _). by eexists.
Qed.
Lemma total_bound next pr k : bounds next pr m → BookSpec.level_total a k ≤ 1000 * 1500.
Proof.
  intros [Ho Hsize]. pose proof (queue_length k). unfold BookSpec.level_total.
  assert (Hq : ∀ q, (∀ i, i ∈ q → is_Some (m !! i)) → BookSpec.total (BookSpec.orders a) q ≤ 1000 * Z.of_nat (length q)).
  { induction q as [|i q IH]; intros Hq; [done|]. cbn [BookSpec.total length].
    specialize (IH ltac:(intros; apply Hq; by right)). destruct (Hq i) as [o Hio]; [by left|].
    unfold BookSpec.qty. rewrite (tracks_orders _ _ Ht), Hio. cbn [fmap option_fmap option_map book_order quantity].
    pose proof (bound_quantity _ _ _ _ (Ho _ _ Hio)). lia. }
  specialize (Hq (BookSpec.queue a k)). enough (BookSpec.total (BookSpec.orders a) (BookSpec.queue a k) ≤
    1000 * Z.of_nat (length (BookSpec.queue a k))) by lia.
  apply Hq. intros i (o & Hi & _)%queued. by eexists.
Qed.

Lemma tracks_push i o :
  m !! i = None → i ≠ 0 → 0 ≤ m_quantity o ≤ u32_max → BookSpec.fits (book_order i o) a = true →
  (∀ j oj, m !! j = Some oj → m_priority oj < m_priority o) →
  tracks (BookSpec.push (book_order i o) a) (<[i := o]> m).
Proof.
  intros Hfresh H0 Hq Hfit Hlast. split.
  - apply BookSpec.push_wf; try done; [apply Ht|]. cbn. by rewrite (tracks_orders _ _ Ht), Hfresh.
  - intros j. cbn. destruct (decide (i = j)) as [<-|].
    + by rewrite !lookup_insert_eq.
    + rewrite !lookup_insert_ne by done. apply Ht.
  - intros k. unfold BookSpec.push. rewrite BookSpec.queue_set_queue. fold (BookSpec.queue a k).
    assert (Hsame : ∀ j, j ∈ BookSpec.queue a k → priority_of (<[i:=o]> m) j = priority_of m j ∧ priority_of m j < m_priority o).
    { intros j (oj & Hj & _)%queued. unfold priority_of. rewrite lookup_insert_ne by congruence. rewrite Hj. cbn. by eauto. }
    assert (Hold : StronglySorted (earlier (<[i:=o]> m)) (BookSpec.queue a k)).
    { eapply sorted_ext; [apply Ht|]. intros x y Hx Hy. unfold earlier.
      by rewrite (proj1 (Hsame x Hx)), (proj1 (Hsame y Hy)). }
    case_decide as Hk; [|exact Hold]. subst k. apply StronglySorted_app_2; [|done|repeat constructor].
    intros x y Hx ->%list_elem_of_singleton. destruct (Hsame x Hx) as [Hx1 Hx2]. unfold earlier. rewrite Hx1.
    unfold priority_of at 2. cbn. by rewrite lookup_insert_eq.
Qed.

Lemma tracks_remove i : tracks (BookSpec.remove i a) (delete i m).
Proof.
  destruct (m !! i) as [o|] eqn:Hi.
  2: { unfold BookSpec.remove. rewrite (tracks_orders _ _ Ht), Hi. cbn. by rewrite delete_id. }
  assert (Ho : BookSpec.orders a !! i = Some (book_order i o)) by by rewrite (tracks_orders _ _ Ht), Hi.
  split.
  - apply BookSpec.remove_wf, Ht.
  - intros j. unfold BookSpec.remove. rewrite Ho. cbn. destruct (decide (i = j)) as [<-|].
    + by rewrite !lookup_delete_eq.
    + rewrite !lookup_delete_ne by done. apply Ht.
  - intros k. rewrite (BookSpec.queue_remove a i _ k Ho).
    assert (Hf : StronglySorted (earlier (delete i m)) (filter (λ j, j ≠ i) (BookSpec.queue a k))).
    { eapply sorted_ext; [apply sorted_filter, Ht|]. intros x y [Hx _]%list_elem_of_filter [Hy _]%list_elem_of_filter.
      unfold earlier, priority_of. by rewrite !lookup_delete_ne. }
    case_decide as Hk; [done|]. rewrite BookSpec.filter_ne_id in Hf; [done|].
    intros (o' & Ho' & ->)%queued. simplify_eq.
Qed.

Lemma tracks_shrink i o n :
  m !! i = Some o → 0 ≤ n ≤ m_quantity o →
  tracks (BookSpec.mk (<[i := BookSpec.with_quantity (book_order i o) (m_quantity o - n)]> (BookSpec.orders a)) (BookSpec.queues a))
    (<[i := mkModelOrder (m_side o) (m_quantity o - n) (m_price o) (m_priority o)]> m).
Proof.
  intros Hi Hn.
  assert (Ho : BookSpec.orders a !! i = Some (book_order i o)) by by rewrite (tracks_orders _ _ Ht), Hi.
  split.
  - apply (BookSpec.shrink_wf a (tracks_wf _ _ Ht) i _ n Ho Hn).
  - intros j. cbn. destruct (decide (i = j)) as [<-|].
    + by rewrite !lookup_insert_eq.
    + rewrite !lookup_insert_ne by done. apply Ht.
  - intros k. eapply sorted_ext; [apply (tracks_sorted _ _ Ht k)|]. intros x y _ _.
    assert (Hp : ∀ j, priority_of (<[i := mkModelOrder (m_side o) (m_quantity o - n) (m_price o) (m_priority o)]> m) j = priority_of m j).
    { intros j. unfold priority_of. destruct (decide (i = j)) as [<-|]; [by rewrite lookup_insert_eq, Hi|by rewrite lookup_insert_ne]. }
    unfold earlier. by rewrite !Hp.
Qed.
End tracking.

Lemma bounds_delete next pr m i : bounds next pr m → bounds next pr (delete i m).
Proof.
  intros [Ho Hsize]. split.
  - intros j o [_ Hj]%lookup_delete_Some. by apply Ho.
  - rewrite map_size_delete. destruct (m !! i); cbn; lia.
Qed.
Lemma bounds_shrink next pr m i o n :
  m !! i = Some o → 0 < n ≤ m_quantity o → bounds next pr m →
  bounds next pr (<[i := mkModelOrder (m_side o) n (m_price o) (m_priority o)]> m).
Proof.
  intros Hi Hn [Ho Hsize]. split.
  - intros j oj [[<- <-]|[_ Hj]]%lookup_insert_Some; [|by apply Ho].
    destruct (Ho _ _ Hi) as [? ? ?]. split; cbn; lia.
  - by rewrite map_size_insert, Hi.
Qed.
Lemma bounds_new next pr m o :
  bounds next pr m → Z.of_nat (size m) < 1500 → 100 ≤ next → 0 < m_quantity o ≤ 1000 → m_priority o = pr → 0 ≤ pr →
  bounds (next + 1) (pr + 1) (<[next := o]> m).
Proof.
  intros [Ho Hsize] Hs Hn Hq Hp Hpr. split.
  - intros j oj [[<- <-]|[_ Hj]]%lookup_insert_Some; [split; lia|]. destruct (Ho _ _ Hj). split; lia.
  - rewrite map_size_insert. destruct (m !! next); cbn; lia.
Qed.
Lemma next_is_fresh next pr m : bounds next pr m → m !! next = None.
Proof. intros [Ho _]. destruct (m !! next) as [o|] eqn:E; [|done]. destruct (Ho _ _ E). lia. Qed.

(** ** The transitions *)

Section proof.
Context (random : nat → Z).

Lemma capacity_2048 : capacity_ok 2048.
Proof. unfold capacity_ok, kInvalidSlot. lia. Qed.

(** Before transition [t]. *)
Record inv (t : Z) (s : Run) : Prop := {
  inv_book : ∃ a, represents 2048 (random_book s) a ∧ tracks a (model s);
  inv_bounds : bounds (next_id s) (priority s) (model s);
  inv_next : 100 ≤ next_id s ≤ 100 + t;
  inv_priority : 0 ≤ priority s ≤ t }.

Lemma passes_accepted e s a a' :
  represents 2048 (random_book s) a → event_ok e → BookSpec.apply 2048 e a = (true, a') →
  ∃ b, passes (accepted e s) (set_book b s) ∧ represents 2048 b a'.
Proof.
  intros Hr He Hspec. destruct (represents_apply 2048 capacity_2048 _ a e Hr He) as (b & Happly & Hr').
  rewrite Hspec in Happly, Hr'. exists b. split; [|done]. unfold accepted, expect.
  eapply passes_bind; [|apply passes_ret]. eapply passes_bind; [by apply passes_call|].
  eapply passes_bind; [by apply passes_check|apply passes_ret].
Qed.

(** A new order: it fits, and is the last of its level. *)
Section new.
Context (t : Z) (s : Run) (a : BookSpec.t) (side : Side) (q p : Z).
Let o : ModelOrder := mkModelOrder side q p (priority s).
Context (Ht : tracks a (model s)) (Hb : bounds (next_id s) (priority s) (model s))
  (Hsize : Z.of_nat (size (model s)) < 1500) (Hq : 0 < q ≤ 1000) (Htime : 0 ≤ t < 2 ^ 32)
  (Hnext : 100 ≤ next_id s ≤ 100 + t) (Hpr : 0 ≤ priority s ≤ t).

Lemma new_fits : BookSpec.fits (book_order (next_id s) o) a = true.
Proof.
  apply Z.leb_le. pose proof (total_bound a _ Ht _ _ (BookSpec.key_of (book_order (next_id s) o)) Hb). cbn [quantity book_order o m_quantity]. word_lia.
Qed.
Lemma new_tracked : tracks (BookSpec.push (book_order (next_id s) o) a) (<[next_id s := o]> (model s)).
Proof.
  apply tracks_push; [done|by eapply next_is_fresh|lia|cbn; word_lia|apply new_fits|].
  intros j oj Hj. pose proof (bound_priority _ _ _ _ (bounds_orders _ _ _ Hb _ _ Hj)). cbn. lia.
Qed.
Lemma new_inv b :
  represents 2048 b (BookSpec.push (book_order (next_id s) o) a) → inv (t + 1) (model_new side q p (set_book b s)).
Proof.
  intros Hr. unfold model_new. split; cbn; rewrite ?u64_small by word_lia; [|apply bounds_new; cbn; (done || lia)|lia..].
  eexists. split; [exact Hr|exact new_tracked].
Qed.
End new.

Lemma new_order_passes t s :
  0 ≤ t < 2 ^ 32 → inv t s → Z.of_nat (size (model s)) < 1500 → ∃ s', passes (new_order random s) s' ∧ inv (t + 1) s'.
Proof.
  intros Ht [(a & Hr & Htr) Hb Hn Hp] Hsize. unfold new_order, draw. cbn.
  pose proof (Z.mod_pos_bound (random (drawn s)) 1000 ltac:(lia)).
  pose proof (Z.mod_pos_bound (random (S (S (drawn s)))) 100 ltac:(lia)).
  unfold u32. rewrite !wrap_small by lia.
  set (q := random (drawn s) mod 1000 + 1). set (side := if _ =? 0 then Sell else Buy). set (p := _ mod 100 + 1).
  set (s3 := mkRun _ _ _ _ _).
  assert (Hspec : BookSpec.apply 2048 (add_ (next_id s) aapl side q p) a =
    (true, BookSpec.push (book_order (next_id s) (mkModelOrder side q p (priority s))) a)).
  { cbn [BookSpec.apply add_ add_order]. unfold BookSpec.add. rewrite decide_False.
    - assert (Hf : BookSpec.fits (mkOrder (next_id s) aapl side q p) a = true).
      { exact (new_fits s3 a side q p Htr Hb ltac:(unfold q; lia)). }
      by rewrite Hf.
    - cbn. rewrite (tracks_size a _ Htr), (tracks_live a _ Htr), (next_is_fresh _ _ _ Hb).
      intros [?|[?|[[? ?]|?]]]; (done || lia). }
  destruct (passes_accepted (add_ (next_id s) aapl side q p) s3 a _ Hr ltac:(split; cbn; word_lia) Hspec) as (b & Hpass & Hr').
  eexists. split; [eapply passes_bind; [exact Hpass|apply passes_ret]|].
  by apply (new_inv t s3 a side q p Htr Hb Hsize ltac:(unfold q; lia) Ht Hn Hp).
Qed.

(** A transition of order [i]. *)
Section old.
Context (t : Z) (s : Run) (a : BookSpec.t) (i : Z) (o : ModelOrder).
Context (Hr : represents 2048 (random_book s) a) (Ht : tracks a (model s))
  (Hb : bounds (next_id s) (priority s) (model s)) (Htime : 0 ≤ t < 2 ^ 32)
  (Hnext : 100 ≤ next_id s ≤ 100 + t) (Hpr : 0 ≤ priority s ≤ t) (Hi : model s !! i = Some o).

Lemma old_live : BookSpec.orders a !! i = Some (book_order i o).
Proof. by rewrite (tracks_orders _ _ Ht), Hi. Qed.
Lemma old_id : 100 ≤ i < 100 + t.
Proof. pose proof (bound_id _ _ _ _ (bounds_orders _ _ _ Hb _ _ Hi)). lia. Qed.

Lemma reduce_passes n e :
  0 < n ≤ m_quantity o → event_ok e → BookSpec.apply 2048 e a = BookSpec.reduce i n a →
  ∃ s', passes (s ← accepted e s; mret (set_model (model_reduce i o n (model s)) s)) s' ∧ inv (t + 1) s'.
Proof.
  intros Hn He Hspec. pose proof (bound_quantity _ _ _ _ (bounds_orders _ _ _ Hb _ _ Hi)) as Hq.
  unfold BookSpec.reduce in Hspec. rewrite old_live, decide_False in Hspec by (cbn; lia).
  assert (Hleft : ∀ b, model (set_book b s) = model s) by done.
  unfold model_reduce. unfold u32. rewrite wrap_small by lia. cbn [quantity book_order] in Hspec.
  destruct (decide (m_quantity o = n)) as [Heq|Hne].
  - destruct (passes_accepted e s a _ Hr He Hspec) as (b & Hp & Hr').
    eexists. split; [eapply passes_bind; [exact Hp|apply passes_ret]|].
    rewrite (proj2 (Z.eqb_eq _ 0)) by lia. split; cbn; [|by apply bounds_delete|lia..].
    exists (BookSpec.remove i a). split; [exact Hr'|by apply tracks_remove].
  - destruct (passes_accepted e s a _ Hr He Hspec) as (b & Hp & Hr').
    eexists. split; [eapply passes_bind; [exact Hp|apply passes_ret]|].
    rewrite (proj2 (Z.eqb_neq _ 0)) by lia. split; cbn; [|apply bounds_shrink; (done || lia)|lia..].
    eexists. split; [exact Hr'|by apply tracks_shrink; [| |lia]].
Qed.

Lemma erase_passes :
  ∃ s', passes (s ← accepted (erase_ i) s; mret (set_model (delete i (model s)) s)) s' ∧ inv (t + 1) s'.
Proof.
  pose proof old_id. assert (Hspec : BookSpec.apply 2048 (erase_ i) a = (true, BookSpec.remove i a)).
  { cbn. unfold BookSpec.erase. rewrite old_live. by rewrite bool_decide_eq_true_2 by by eexists. }
  destruct (passes_accepted (erase_ i) s a _ Hr ltac:(cbn; word_lia) Hspec) as (b & Hp & Hr').
  eexists. split; [eapply passes_bind; [exact Hp|apply passes_ret]|].
  split; cbn; [|by apply bounds_delete|lia..]. exists (BookSpec.remove i a). split; [exact Hr'|by apply tracks_remove].
Qed.

Lemma replace_passes q p :
  0 < q ≤ 1000 →
  ∃ s', passes (s ← accepted (replace_ i (next_id s) q p) s;
    mret (model_new (m_side o) q p (set_model (delete i (model s)) s))) s' ∧ inv (t + 1) s'.
Proof.
  intros Hq. pose proof old_id. set (s1 := set_model (delete i (model s)) s).
  pose proof (tracks_remove a _ Ht i) as Ht1. pose proof (bounds_delete _ _ _ i Hb) as Hb1.
  assert (Hsize1 : Z.of_nat (size (model s1)) < 1500).
  { cbn. rewrite map_size_delete, Hi. pose proof (bounds_size _ _ _ Hb). cbn.
    assert (size (model s) ≠ 0)%nat by (intros Hz%map_size_empty_inv; by rewrite Hz, lookup_empty in Hi). lia. }
  assert (Hspec : BookSpec.apply 2048 (replace_ i (next_id s) q p) a =
    (true, BookSpec.push (book_order (next_id s1) (mkModelOrder (m_side o) q p (priority s1))) (BookSpec.remove i a))).
  { cbn [BookSpec.apply replace_ old_order_id new_order_id new_quantity new_price]. unfold BookSpec.replace.
    rewrite old_live, decide_False.
    - assert (Hf : BookSpec.fits (mkOrder (next_id s) aapl (m_side o) q p) (BookSpec.remove i a) = true).
      { exact (new_fits s1 (BookSpec.remove i a) (m_side o) q p Ht1 Hb1 Hq). }
      cbn [symbol side book_order]. by rewrite Hf.
    - rewrite (tracks_live a _ Ht), (next_is_fresh _ _ _ Hb). intros [?|[?|[? ?]]]; (done || lia). }
  destruct (passes_accepted (replace_ i (next_id s) q p) s a _ Hr ltac:(cbn; word_lia) Hspec) as (b & Hp & Hr').
  eexists. split; [eapply passes_bind; [exact Hp|apply passes_ret]|].
  exact (new_inv t s1 (BookSpec.remove i a) (m_side o) q p Ht1 Hb1 Hsize1 Hq Htime Hnext Hpr b Hr').
Qed.
End old.

Lemma old_order_passes t s :
  0 ≤ t < 2 ^ 32 → inv t s → model s ≠ ∅ → ∃ s', passes (old_order random t s) s' ∧ inv (t + 1) s'.
Proof.
  intros Ht [(a & Hr & Htr) Hb Hn Hp] Hne. unfold old_order, draw. cbn [model next_id priority random_book drawn].
  assert (Hsize : (0 < size (model s))%nat) by (destruct (decide (size (model s) = 0)%nat) as [Hz%map_size_empty_inv|]; [done|lia]).
  assert (Hidx : 0 < Z.of_nat (size (model s))) by lia. pose proof (Z.mod_pos_bound (random (drawn s)) _ Hidx).
  destruct (lookup_lt_is_Some_2 (sorted_keys Z.le (model s)) (Z.to_nat (random (drawn s) mod Z.of_nat (size (model s)))))
    as [i Hsorted]; [rewrite length_sorted_keys; lia|].
  rewrite Hsorted. apply list_elem_of_lookup_2, elem_of_sorted_keys in Hsorted as [o Ho]. rewrite Ho.
  pose proof (bound_quantity _ _ _ _ (bounds_orders _ _ _ Hb _ _ Ho)) as Hq.
  rewrite (proj2 (Z.eqb_neq _ 0)) by lia.
  pose proof (Z.mod_pos_bound (random (S (drawn s))) (m_quantity o) ltac:(lia)).
  pose proof (Z.mod_pos_bound (random (S (S (S (drawn s))))) 1000 ltac:(lia)).
  pose proof (bound_id _ _ _ _ (bounds_orders _ _ _ Hb _ _ Ho)).
  unfold u32. rewrite !(wrap_small 32 (_ mod m_quantity o + 1)), !(wrap_small 32 (_ mod 1000 + 1)) by lia.
  repeat case_match.
  - match goal with |- context [accepted _ ?s'] => apply (reduce_passes t s' a i o Hr Htr Hb) end; (done || lia || (cbn; word_lia)).
  - match goal with |- context [accepted _ ?s'] => apply (reduce_passes t s' a i o Hr Htr Hb) end; (done || lia || (cbn; word_lia)).
  - match goal with |- context [accepted _ ?s'] => apply (erase_passes t s' a i o Hr Htr Hb) end; (done || lia).
  - match goal with |- context [accepted _ ?s'] => apply (replace_passes t s' a i o Hr Htr Hb) end; (done || lia).
Qed.

Lemma transition_step_passes t s :
  0 ≤ t < 2 ^ 32 → inv t s → ∃ s', passes (transition_step random t s) s' ∧ inv (t + 1) s'.
Proof.
  intros Ht Hinv. unfold transition_step, draw. case_decide as He.
  - apply new_order_passes; [done..|]. rewrite He, map_size_empty. lia.
  - assert (Hinv' : inv t (mkRun (random_book s) (model s) (next_id s) (priority s) (S (drawn s)))) by by destruct Hinv.
    destruct (_ && _) eqn:Hc; [|by apply old_order_passes].
    apply andb_true_iff in Hc as [_ Hc%Z.ltb_lt]. by apply new_order_passes.
Qed.
End proof.

(** ** The comparison succeeds *)

#[local] Instance pair_le_trans : Transitive pair_le.
Proof. intros [] [] []. unfold pair_le. cbn. lia. Qed.
#[local] Instance pair_le_total : Total pair_le.
Proof. intros [] []. unfold pair_le. cbn. lia. Qed.
#[local] Instance pair_le_antisymm : AntiSymm (=) pair_le.
Proof. intros [] []. unfold pair_le. cbn. intros. f_equal; lia. Qed.

#[local] Instance total_proper os : Proper ((≡ₚ) ==> (=)) (BookSpec.total os).
Proof. induction 1; cbn; lia. Qed.

(** The orders of the model at a level, from a list of ids. *)
Definition at_level (m : gmap Z ModelOrder) (sd : Side) (p : Z) (i : Z) : Prop :=
  (λ o, (m_side o, m_price o)) <$> m !! i = Some (sd, p).
#[local] Instance at_level_dec m sd p i : Decision (at_level m sd p i).
Proof. unfold at_level. apply _. Defined.
Definition keyed (m : gmap Z ModelOrder) (i : Z) : Z * Z := (priority_of m i, i).
Definition collected (m : gmap Z ModelOrder) (ids : list Z) : Sides :=
  foldl (λ l i, match m !! i with Some o => push_entry i o l | None => l end) no_sides ids.

Section check.
Context (s : Run) (a : BookSpec.t) (Hr : represents 2048 (random_book s) a) (Ht : tracks a (model s)).
Let m := model s.

Lemma collect_passes ids l :
  (∀ i, i ∈ ids → is_Some (m !! i)) →
  passes (collect s ids l) (foldl (λ l i, match m !! i with Some o => push_entry i o l | None => l end) l ids).
Proof.
  revert l. induction ids as [|i ids IH]; intros l Hids; [apply passes_ret|]. cbn [collect foldl].
  destruct (Hids i) as [o Ho]; [by left|]. unfold m in Ho |- *. rewrite Ho. eapply passes_bind.
  { apply passes_lift. rewrite (represents_find 2048 capacity_2048 _ _ Hr), (tracks_orders _ _ Ht), Ho. reflexivity. }
  eapply passes_bind; [apply passes_check; by apply bool_decide_eq_true|]. apply IH. intros; apply Hids; by right.
Qed.

(** One more order of the model. *)
Lemma collected_snoc ids i :
  collected m (ids ++ [i]) = match m !! i with Some o => push_entry i o (collected m ids) | None => collected m ids end.
Proof. unfold collected. by rewrite foldl_snoc. Qed.
Lemma filter_snoc sd p ids i o :
  m !! i = Some o → filter (at_level m sd p) (ids ++ [i]) =
    filter (at_level m sd p) ids ++ (if decide (m_side o = sd ∧ m_price o = p) then [i] else []).
Proof.
  intros Ho. rewrite filter_app. f_equal. unfold at_level. case_decide as Hd.
  - rewrite filter_cons_True, filter_nil; [done|]. rewrite Ho. cbn. by destruct Hd as [-> ->].
  - rewrite filter_cons_False, filter_nil; [done|]. rewrite Ho. cbn. intros [= ? ?]. by apply Hd.
Qed.

Lemma collected_level ids sd p :
  (∀ i, i ∈ ids → is_Some (m !! i)) →
  entries (collected m ids) sd !! p =
    match keyed m <$> filter (at_level m sd p) ids with [] => None | l => Some l end ∧
  default 0 (totals (collected m ids) sd !! p) =
    u64 (BookSpec.total (BookSpec.orders a) (filter (at_level m sd p) ids)).
Proof.
  induction ids as [|i ids IH] using rev_ind; intros Hids; [by cbn; rewrite !lookup_empty|].
  destruct IH as [IHe IHt]; [intros; apply Hids; set_solver|]. destruct (Hids i) as [o Ho]; [set_solver|].
  rewrite collected_snoc, (filter_snoc _ _ _ _ _ Ho), Ho, fmap_app, BookSpec.total_app.
  unfold push_entry. cbn [entries totals]. unfold side_insert.
  destruct (decide (m_side o = sd ∧ m_price o = p)) as [[<- <-]|Hd].
  - rewrite !decide_True by done. rewrite !lookup_insert_eq. rewrite IHe, IHt. split.
    + cbn. unfold keyed at 3, priority_of. rewrite Ho. by destruct (keyed m <$> filter (at_level m (m_side o) (m_price o)) ids).
    + cbn. unfold BookSpec.qty. rewrite (tracks_orders _ _ Ht). fold m. rewrite Ho. cbn. unfold u64, wrap.
      rewrite Z.add_mod_idemp_l by done. f_equal. lia.
  - cbn [fmap list_fmap BookSpec.total]. rewrite app_nil_r, Z.add_0_r. case_decide as Hs; [|done].
    rewrite !lookup_insert_ne by (intros ?; apply Hd; by subst). by subst.
Qed.

Definition ids : list Z := sorted_keys Z.le m.
Lemma ids_live i : i ∈ ids → is_Some (m !! i).
Proof. apply elem_of_sorted_keys. Qed.
Lemma level_ids sd p : BookSpec.queue a (aapl, sd, p) ≡ₚ filter (at_level m sd p) ids.
Proof.
  apply NoDup_Permutation; [apply BookSpec.queue_nodup, Ht|apply NoDup_filter, NoDup_sorted_keys|].
  intros i. rewrite (queued a _ Ht), list_elem_of_filter. unfold ids. rewrite elem_of_sorted_keys. unfold at_level. fold m. split.
  - intros (o & -> & [= -> ->]). split; [done|by eexists].
  - intros [Hl [o Ho]]. rewrite Ho in Hl |- *. exists o. split; [done|]. cbn in Hl. congruence.
Qed.
(** Sorting by priority gives the queue. *)
Lemma sorted_level sd p :
  snd <$> merge_sort pair_le (keyed m <$> filter (at_level m sd p) ids) = BookSpec.queue a (aapl, sd, p).
Proof.
  assert (merge_sort pair_le (keyed m <$> filter (at_level m sd p) ids) = keyed m <$> BookSpec.queue a (aapl, sd, p)) as ->.
  { apply (StronglySorted_unique pair_le).
    - apply StronglySorted_merge_sort; apply _.
    - eapply StronglySorted_fmap; [|apply (tracks_sorted _ _ Ht)]. intros x y Hxy. by left.
    - rewrite merge_sort_Permutation. by rewrite level_ids. }
  rewrite <-list_fmap_compose. apply list_fmap_id.
Qed.

(** What the loop over the model leaves agrees with the book. *)
Definition sides : Sides := collected m ids.
Lemma side_entries sd p :
  entries sides sd !! p = (λ _, keyed m <$> filter (at_level m sd p) ids) <$> BookView.levels_of a aapl sd !! p.
Proof.
  unfold sides. rewrite (proj1 (collected_level _ _ _ ids_live)), BookView.lookup_levels_of.
  pose proof (level_ids sd p) as Hperm. pose proof (BookSpec.queue_None a (tracks_wf _ _ Ht) (aapl, sd, p)) as Hnone.
  destruct (BookSpec.queues a !! (aapl, sd, p)) as [q|] eqn:Hq.
  - cbn. destruct (filter (at_level m sd p) ids) eqn:Hf; [|done].
    apply Permutation_nil_r in Hperm. by apply Hnone in Hperm.
  - rewrite (proj1 Hnone eq_refl) in Hperm. apply Permutation_nil in Hperm as ->. done.
Qed.
Lemma side_totals sd p :
  default 0 (totals sides sd !! p) = BookSpec.level_total a (aapl, sd, p).
Proof.
  unfold sides. rewrite (proj2 (collected_level _ _ _ ids_live)), <-level_ids.
  pose proof (BookSpec.level_total_bound a (tracks_wf _ _ Ht) (aapl, sd, p)). apply u64_small. unfold BookSpec.level_total in *. word_lia.
Qed.
Lemma side_dom sd : dom (entries sides sd) = dom (BookView.levels_of a aapl sd).
Proof. apply set_eq. intros p. rewrite !elem_of_dom, side_entries. apply fmap_is_Some. Qed.

Lemma compare_passes sd ks before :
  (∀ p, p ∈ ks → is_Some (BookView.levels_of a aapl sd !! p)) →
  passes (compare (totals sides sd)
    (before ++ ((λ '(p, q), OrderBook.mkSnapshot p (BookSpec.total (BookSpec.orders a) q) q) <$>
       omap (λ p, (λ l, (p, l)) <$> BookView.levels_of a aapl sd !! p) ks))
    (length before) (omap (λ p, (λ l, (p, l)) <$> entries sides sd !! p) ks)) tt.
Proof.
  revert before. induction ks as [|p ks IH]; intros before Hks; [apply passes_ret|].
  rewrite !omap_keys, side_entries. destruct (Hks p) as [q Hq]; [by left|]. rewrite Hq.
  pose proof Hq as Hqueue. rewrite BookView.lookup_levels_of in Hqueue. apply BookSpec.queue_Some in Hqueue.
  cbn [fmap option_fmap option_map list_fmap compare]. rewrite list_lookup_middle by done.
  eapply passes_bind.
  { apply passes_check, bool_decide_eq_true. cbn. rewrite side_totals, sorted_level, Hqueue.
    unfold BookSpec.level_total. by rewrite Hqueue. }
  rewrite cons_middle, app_assoc. replace (S (length before)) with (length (before ++
    [OrderBook.mkSnapshot p (BookSpec.total (BookSpec.orders a) q) q])) by (rewrite length_app; cbn; lia).
  apply IH. intros; apply Hks; by right.
Qed.
Lemma compare_side sd :
  passes (compare (totals sides sd) (BookView.levels sd a aapl) 0 (OrderBook.in_order sd (entries sides sd))) tt.
Proof.
  unfold OrderBook.in_order. rewrite (sorted_keys_dom _ _ _ (side_dom sd)).
  apply (compare_passes sd _ []). intros p. apply elem_of_sorted_keys.
Qed.
Lemma side_count sd : (len (BookView.levels sd a aapl) =? Z.of_nat (size (entries sides sd))) = true.
Proof.
  apply Z.eqb_eq. rewrite <-(length_fmap OrderBook.snapshot_price), levels_prices, length_sorted_keys.
  by rewrite <-!size_dom, side_dom.
Qed.
Lemma side_best sd :
  bool_decide (OrderBook.best sd (random_book s) aapl = first_key (OrderBook.level_order sd) (entries sides sd)) = true.
Proof.
  apply bool_decide_eq_true. rewrite (represents_best 2048 _ _ Hr). unfold BookView.best, first_key.
  by rewrite (sorted_keys_dom _ _ _ (side_dom sd)).
Qed.

Lemma check_state_passes : passes (check_state s) tt.
Proof.
  unfold check_state. eapply passes_bind; [apply (collect_passes ids), ids_live|]. change (foldl _ no_sides ids) with sides.
  do 2 (eapply passes_bind; [apply passes_lift, (represents_levels 2048 _ _ Hr)|]).
  do 2 (eapply passes_bind; [apply passes_check, side_count|]).
  do 2 (eapply passes_bind; [apply compare_side|]).
  eapply passes_bind; apply passes_check, side_best.
Qed.
End check.

(** ** The test *)

Lemma bind_0 {A B} (m : T A) (k : A → T B) a : m 0 = (Ret a, 0) → (m ≫= k) 0 = k a 0.
Proof. intros Hm. unfold mbind, M_bind. by rewrite Hm. Qed.

Lemma transitions_pass random k t s :
  0 ≤ t → t + Z.of_nat k ≤ 2 ^ 32 → inv t s → ∃ s', transitions random (seqZ t (Z.of_nat k)) s 0 = (Ret s', 0).
Proof.
  revert t s. induction k as [|k IH]; intros t s Ht Hk Hinv; [by exists s|].
  rewrite seqZ_cons by lia. replace (Z.pred (Z.of_nat (S k))) with (Z.of_nat k) by lia. cbn [transitions].
  destruct (transition_step_passes random t s ltac:(lia) Hinv) as (s1 & Hp & Hinv1).
  destruct (IH (t + 1) s1 ltac:(lia) ltac:(lia) Hinv1) as (s2 & Hs2). exists s2.
  pose proof Hinv1 as [(a & Hr & Htr) _ _ _].
  rewrite (bind_0 _ _ _ (Hp 0)). rewrite (bind_0 _ _ tt).
  2: { apply passes_check. rewrite (represents_count 2048 capacity_2048 _ _ Hr), (tracks_size _ _ Htr). apply Z.eqb_refl. }
  case_match; [|exact Hs2].
  rewrite (bind_0 _ _ _ (check_state_passes s1 a Hr Htr 0)). exact Hs2.
Qed.

Lemma fixed_part_passes char_is_signed : fixed_part char_is_signed 0 = (Ret tt, 0).
Proof. destruct char_is_signed; vm_compute; reflexivity. Qed.

(** [tests/test_order_book.cpp] passes, whatever its generator draws. *)
Theorem order_book_test_passes random char_is_signed : exit_code (main random char_is_signed) = Ret 0.
Proof.
  unfold exit_code, main. rewrite (bind_0 _ _ _ (fixed_part_passes _)). destruct (represents_new 2048 capacity_2048) as (b & Hb & Hr).
  rewrite (bind_0 _ _ b) by (unfold lift; by rewrite Hb).
  destruct (transitions_pass random (Z.to_nat transition_count) 0 (mkRun b ∅ 100 0 0)) as (s' & Hs').
  - done.
  - unfold transition_count. lia.
  - split; cbn; [|split; [by intros ? ? ?%lookup_empty_Some|done]|lia..]. exists BookSpec.empty. split; [exact Hr|].
    split; [apply BookSpec.empty_wf|done|]. intros k. unfold BookSpec.queue. cbn. rewrite lookup_empty. constructor.
  - rewrite Z2Nat.id in Hs' by done. by rewrite (bind_0 _ _ _ Hs').
Qed.
End TestRandomBook.
