(* ===== verification/Benchmark.v ===== *)
(** The benchmark [bench/benchmark.cpp]: its message stream, the two measured loops, the seven
    trials and the report.  The state keeps a trace of what takes time, the decoded messages, and of
    the readings of the steady clock, which is a function from all that was done before a reading to
    nanoseconds; compiler, build and machine are a [Platform].  The code is a template over the class
    of the decoder; its theorems need only [DecodesWire], which both decoders satisfy. *)
From S2P Require Import Prelude Types ByteReader ProtocolCompiler Text Floats.
From S2P Require Import GeneratedHeader ItchDecoder.
From Stdlib Require Import Strings.Byte.
#[local] Open Scope list_scope.
#[local] Open Scope Z_scope.
Import Floats Text.Items.

Module Benchmark.

(** * The stream *)

Definition p32 (b : list byte) (o v : Z) : outcome (list byte) := ByteReader.write_loop b o 4 v.
Definition p64 (b : list byte) (o v : Z) : outcome (list byte) := ByteReader.write_loop b o 8 v.
Definition base (type : byte) (size : nat) (id : Z) : outcome (list byte) :=
  b ← ByteReader.set_byte (replicate size Byte.x00) 0 (Z_of_byte type);
  p64 b 11 id.
(** [std::memcpy(b.data() + o, src, ...)] *)
Fixpoint memcpy (b : list byte) (o : Z) (src : list byte) : outcome (list byte) :=
  match src with
  | [] => Ret b
  | c :: src => b ← ByteReader.set_byte b o (Z_of_byte c); memcpy b (o + 1) src
  end.

Definition templates : outcome (list (list byte)) :=
  add ← base Byte.x41 36 1;
  add ← ByteReader.set_byte add 19 (Z_of_byte Byte.x42);
  add ← p32 add 20 100;
  add ← memcpy add 24 (bs "AAPL    ");
  add ← p32 add 32 2000000;
  execute ← base Byte.x45 31 1;
  execute ← p32 execute 19 25;
  execute ← p64 execute 23 2;
  cancel ← base Byte.x58 23 1;
  cancel ← p32 cancel 19 25;
  del ← base Byte.x44 19 1;
  replace ← base Byte.x55 35 1;
  replace ← p64 replace 19 2;
  replace ← p32 replace 27 100;
  replace ← p32 replace 31 2000100;
  Ret [add; execute; cancel; del; replace].

(** [messages.push_back(patterns[i % patterns.size()]); p64(messages.back(), 11, i + 1)] *)
Definition message (patterns : list (list byte)) (i : Z) : outcome (list byte) :=
  match vget patterns (i `mod` len patterns) with
  | Some b => p64 b 11 (u64 (i + 1))
  | None => Undef "patterns[i % patterns.size()]"
  end.
Fixpoint messages_from (patterns : list (list byte)) (i : Z) (n : nat) : outcome (list (list byte)) :=
  match n with
  | O => Ret []
  | S n => m ← message patterns i; ms ← messages_from patterns (i + 1) n; Ret (m :: ms)
  end.
(** [messages.reserve(n)] comes first. *)
Definition build_messages (max_size n : Z) : outcome (list (list byte)) :=
  patterns ← templates;
  if decide (max_size < n) then Throw (LengthError "vector::reserve")
  else messages_from patterns 0 (Z.to_nat n).

(** * Sorting doubles *)

(** What a list that [operator<] has sorted satisfies between neighbours. *)
Definition double_le (x y : spec_float) : Prop := SFltb y x = false.
#[export] Instance double_le_dec : RelDecision double_le := λ x y, decide (SFltb y x = false).
(** [std::sort], of which a NaN breaks the precondition.  Equal doubles differ at most in the sign of
    a zero, and no measurement is a negative zero. *)
Definition sort (xs : list spec_float) : outcome (list spec_float) :=
  if existsb is_nan xs then Undef "std::sort: not a strict weak ordering" else Ret (merge_sort double_le xs).
(** [values[values.size() / 2]] *)
Definition middle (values : list spec_float) : outcome spec_float :=
  match vget values (len values / 2) with Some x => Ret x | None => Undef "values[values.size()/2]" end.
Definition median (values : list spec_float) : outcome spec_float := values ← sort values; middle values.

(** * Measuring *)

(** The decoder objects of [main], and what is observed of a run: a decoder takes a message, the clock
    is read. *)
Variant Which : Type := Generated | Reference.
#[export] Instance which_eq_dec : EqDecision Which.
Proof. solve_decision. Defined.
Variant Event : Type := Decoded (w : Which) (message : list byte) | Reading.

Record State : Type := mkState { events : list Event; out : Text.ostream }.
Record Result : Type := mkResult { throughput_mps : spec_float; batch_median_us : spec_float; sink : Z }.

Definition cout (items : list Item) : M State unit := modify (λ s, mkState (events s) (foldl put_item (out s) items)).
Definition observe (e : Event) : M State unit := modify (λ s, mkState (events s ++ [e]) (out s)).

Section decoders.
Context (decoder : Which → BookDecoder).

(** [const auto event = decoder.decode_book_event(message); if (event) sink += ...] *)
Definition decode_one (w : Which) (message : list byte) (sink : Z) : M State Z :=
  observe (Decoded w message);;
  event ← lift (decode (decoder w) message);
  mret (match event with Some e => u64 (sink + (event_index e + len message)) | None => sink end).
(** [for (const auto& message : messages)] *)
Fixpoint decode_each (w : Which) (messages : list (list byte)) (sink : Z) : M State Z :=
  match messages with
  | [] => mret sink
  | message :: messages => sink ← decode_one w message sink; decode_each w messages sink
  end.
Definition decode_all (w : Which) (messages : list (list byte)) : M State Z := decode_each w messages 0.

(** [for (std::size_t i = begin; i < end; ++i)] *)
Fixpoint decode_range (w : Which) (messages : list (list byte)) (i : Z) (n : nat) (sink : Z) : M State Z :=
  match n with
  | O => mret sink
  | S n =>
      match vget messages i with
      | Some message => sink ← decode_one w message sink; decode_range w messages (i + 1) n sink
      | None => undef "messages[i]"
      end
  end.

Section clock.
Context (clock : list Event → Z).

(** [std::chrono::steady_clock::now()] *)
Definition now : M State Z := s ← get; observe Reading;; mret (clock (events s)).

Definition batch_size : Z := 256.
(** The loop over the batches.  A batch takes at least one message, so one more than their number is
    enough fuel. *)
Fixpoint batches_loop (fuel : nat) (w : Which) (messages : list (list byte)) (begin : Z)
    (batches : list spec_float) (sink : Z) : M State (list spec_float * Z) :=
  match fuel with
  | O => lift OutOfFuel
  | S fuel =>
      if begin <? len messages then
        let end_ := Z.min (begin + batch_size) (len messages) in
        start ← now;
        sink ← decode_range w messages begin (Z.to_nat (end_ - begin)) sink;
        finish ← now;
        batches_loop fuel w messages (begin + batch_size)
          (batches ++ [duration 1000 (finish - start)]) sink
      else mret (batches, sink)
  end.

Definition throughput (n ns : Z) : spec_float :=
  div double (div double (of_Z double n) (duration 1000000000 ns)) (of_Z double 1000000).

Definition measure (w : Which) (messages : list (list byte)) : M State Result :=
  total_start ← now;
  '(batches, sink) ← batches_loop (S (length messages)) w messages 0 [] 0;
  total_end ← now;
  batches ← lift (sort batches);
  batch ← lift (middle batches);
  mret (mkResult (throughput (len messages) (total_end - total_start)) batch sink).

(** * The trials *)

Record Trials : Type := mkTrials {
  generated_rate : list spec_float;
  reference_rate : list spec_float;
  generated_batch : list spec_float;
  reference_batch : list spec_float;
  total_sink : Z }.
Definition record_trial (g r : Result) (t : Trials) : Trials :=
  mkTrials (generated_rate t ++ [throughput_mps g]) (reference_rate t ++ [throughput_mps r])
    (generated_batch t ++ [batch_median_us g]) (reference_batch t ++ [batch_median_us r])
    (u64 (total_sink t + u64 (sink g + sink r))).

Variant Compiler : Type := Clang (version : list byte) | Gcc (version : list byte) | UnknownCompiler.
(** [uname] gives the machine, the system's name and its release, or fails. *)
Record Platform : Type := mkPlatform {
  compiler : Compiler;
  ndebug : bool;
  uname : option (list byte * list byte * list byte) }.

Section benchmark.
Context (platform : Platform) (max_size : Z).

Definition trial (messages : list (list byte)) (k : Z) (t : Trials) : M State Trials :=
  if k `mod` 2 =? 0 then
    g ← measure Generated messages;
    r ← measure Reference messages;
    mret (record_trial g r t)
  else
    r ← measure Reference messages;
    g ← measure Generated messages;
    mret (record_trial g r t).
Fixpoint trials (messages : list (list byte)) (k : Z) (n : nat) (t : Trials) : M State Trials :=
  match n with
  | O => mret t
  | S n => t ← trial messages k t; trials messages (k + 1) n t
  end.
Fixpoint warmups (messages : list (list byte)) (n : nat) : M State unit :=
  match n with
  | O => mret tt
  | S n => _ ← decode_all Generated messages; _ ← decode_all Reference messages; warmups messages n
  end.

Definition print_platform : M State unit :=
  cout (match compiler platform with
        | Clang v => [Str "compiler=Clang "; Chars v]
        | Gcc v => [Str "compiler=GCC "; Chars v]
        | UnknownCompiler => [Str "compiler=unknown"]
        end);;
  cout [Str (if ndebug platform then " build=Release" else " build=non-Release")];;
  (match uname platform with
   | Some (machine, sysname, release) =>
       cout [Str " machine="; Chars machine; Str " os="; Chars sysname; Str " "; Chars release]
   | None => mret tt
   end);;
  cout [Newline].

Definition report (t : Trials) : M State unit :=
  cout [Fixed; Precision 2; Str "generated median throughput="];;
  g ← lift (median (generated_rate t));
  cout [Double g; Str " M msg/s; median 256-message batch="];;
  gb ← lift (median (generated_batch t));
  cout [Double gb; Str " us"; Newline; Str "reference median throughput="];;
  r ← lift (median (reference_rate t));
  cout [Double r; Str " M msg/s; median 256-message batch="];;
  rb ← lift (median (reference_batch t));
  cout [Double rb; Str " us"; Newline];;
  cout [Str "sink="; Unsigned (total_sink t); Str "; no per-message nanosecond percentiles are reported"; Newline].

Definition message_count (argv : list (list byte)) : outcome Z :=
  match argv !! 1%nat with Some s => Text.stoull s | None => Ret 500000 end.

(** Nothing catches an exception here: [Throw] is [std::terminate]. *)
Definition run (argv : list (list byte)) : M State Z :=
  n ← lift (message_count argv);
  messages ← lift (build_messages max_size n);
  cout [Str "decoder benchmark: mixed A/E/X/D/U, "; Unsigned n; Str " messages, 256-message timing batches, 7 trials";
        Newline];;
  print_platform;;
  warmups messages 2;;
  t ← trials messages 0 7 (mkTrials [] [] [] [] 0);
  report t;;
  mret 0.
End benchmark.
End clock.
End decoders.

Definition main `{Header} (clock : list Event → Z) (platform : Platform) (max_size : Z) (argv : list (list byte)) : M State Z :=
  run (λ w, match w with Generated => generated_decoder | Reference => reference_decoder end) clock platform max_size argv.
End Benchmark.
