(* ===== verification/BenchmarkProofs.v ===== *)
(** Theorems about the benchmark: the trace of its run, in which both decoders do the same, known amount
    of work between the readings of the clock that the printed figures are made of, whatever the
    clock says; and a benchmark of no messages is undefined. *)
From S2P Require Import Prelude Types ByteReader MoldUdp64 ProtocolCompiler Itch50Schema Text TextProofs Floats.
From S2P Require Import GeneratedHeader ItchDecoder ItchProofs Benchmark.
From Stdlib Require Import Strings.Byte.
#[local] Open Scope list_scope.
#[local] Open Scope Z_scope.
Import Floats Text.Items Benchmark.

(** * The stream *)

(** What the message with number [i] adds to the sink: the index of its event and its length. *)
Definition weight (i : Z) : Z :=
  match i `mod` 5 with 0 => 0 + 36 | 1 => 1 + 31 | 2 => 2 + 23 | 3 => 3 + 19 | _ => 4 + 35 end.
(** The sum of the first [n] weights. *)
Definition work (n : Z) : Z :=
  154 * (n / 5) + match n `mod` 5 with 0 => 0 | 1 => 36 | 2 => 68 | 3 => 93 | _ => 115 end.

Lemma div_mod_5 q r : 0 ≤ r < 5 → (5 * q + r) / 5 = q ∧ (5 * q + r) `mod` 5 = r.
Proof. intros. split; symmetry; [by apply (Z.div_unique_pos _ 5 _ r)|by apply (Z.mod_unique_pos _ 5 q)]. Qed.
Lemma residues i : 0 ≤ i → ∃ q r, i = 5 * q + r ∧ 0 ≤ q ∧ (r = 0 ∨ r = 1 ∨ r = 2 ∨ r = 3 ∨ r = 4).
Proof. intros. exists (i / 5), (i `mod` 5). pose proof (Z.div_mod i 5). pose proof (Z.mod_pos_bound i 5). lia. Qed.

Lemma work_step i : 0 ≤ i → work (i + 1) = work i + weight i.
Proof.
  intros (q & r & -> & Hq & Hr)%residues. unfold work, weight. destruct (div_mod_5 q r ltac:(lia)) as [-> ->].
  rewrite <-Z.add_assoc. destruct (decide (r = 4)) as [->|].
  - replace (5 * q + (4 + 1)) with (5 * (q + 1) + 0) by lia. destruct (div_mod_5 (q + 1) 0 ltac:(lia)) as [-> ->]. lia.
  - destruct (div_mod_5 q (r + 1) ltac:(lia)) as [-> ->]. destruct Hr as [->|[->|[->|[->| ->]]]]; [..|done]; by rewrite <-Z.add_assoc.
Qed.

(** A message that decodes, and adds [w] to the sink. *)
Definition weighs (m : list byte) (w : Z) : Prop := ∃ e, event_fits e ∧ wire e m ∧ event_index e + len m = w.

Lemma p64_spec b o v : 0 ≤ o → o + 8 ≤ len b → p64 b o v = Ret (splice b o (be_bytes 8 v)).
Proof. intros. by apply write_loop_spec. Qed.

Lemma message_spec patterns i :
  templates = Ret patterns → 0 ≤ i → fits 8 (i + 1) →
  ∃ m, message patterns i = Ret m ∧ weighs m (weight i).
Proof.
  intros Hp Hi Hid. vm_compute in Hp. injection Hp as <-. unfold message. cbn [length].
  change (Z.of_nat 5) with 5. rewrite (u64_small (i + 1)) by (unfold fits, u64_max in *; lia).
  set (id := i + 1) in *. clearbody id. apply residues in Hi as (q & r & -> & _ & Hr). unfold weight.
  destruct (div_mod_5 q r ltac:(lia)) as [_ ->].
  destruct Hr as [->|[->|[->|[->| ->]]]]; (eexists; split; [apply (p64_spec _ 11 id); cbn; lia|]).
  - exists (Add (mkAdd (mkMeta 0 0 0) (mkOrder id (Symbol.mk (bs "AAPL    ")) Buy 100 2000000))).
    split; [done|]. split; [|done]. eapply wire_eq; [apply wire_add|reflexivity].
  - exists (Execute (mkExecute (mkMeta 0 0 0) id 25 2 false 0 true)).
    split; [done|]. split; [|done]. eapply wire_eq; [apply wire_execute|reflexivity].
  - exists (Cancel (mkCancel (mkMeta 0 0 0) id 25)).
    split; [done|]. split; [|done]. eapply wire_eq; [apply wire_cancel|reflexivity].
  - exists (Delete (mkDelete (mkMeta 0 0 0) id)).
    split; [done|]. split; [|done]. eapply wire_eq; [apply wire_delete|reflexivity].
  - exists (Replace (mkReplace (mkMeta 0 0 0) id 2 100 2000100)).
    split; [done|]. split; [|done]. eapply wire_eq; [apply wire_replace|reflexivity].
Qed.

(** The messages numbered [i], ..., [i + n - 1], with their weights. *)
Definition weights (i : Z) (n : nat) : list Z := weight <$> seqZ i (Z.of_nat n).
Definition total (ws : list Z) : Z := foldr Z.add 0 ws.
Lemma weights_app ws ws' : total (ws ++ ws') = total ws + total ws'.
Proof. induction ws as [|w ws IH]; unfold total in *; cbn [app foldr]; lia. Qed.
Lemma weights_cons w ws : total (w :: ws) = w + total ws.
Proof. done. Qed.

Lemma messages_from_spec patterns n i :
  templates = Ret patterns → 0 ≤ i → i + Z.of_nat n ≤ u64_max →
  ∃ ms, messages_from patterns i n = Ret ms ∧ Forall2 weighs ms (weights i n) ∧
    total (weights i n) = work (i + Z.of_nat n) - work i.
Proof.
  intros Hp. revert i. induction n as [|n IH]; intros i Hi Hmax.
  { exists []. unfold weights. rewrite seqZ_nil, Z.add_0_r by lia. split_and!; [done|constructor|cbn; lia]. }
  destruct (message_spec patterns i Hp Hi) as (m & Hm & Hw); [unfold fits, u64_max in *; lia|].
  destruct (IH (i + 1) ltac:(lia) ltac:(lia)) as (ms & Hms & Hws & Htotal).
  exists (m :: ms). cbn [messages_from]. rewrite Hm. cbn [mbind outcome_bind]. rewrite Hms. split; [done|].
  unfold weights in *. rewrite (seqZ_cons i) by lia. replace (Z.succ i) with (i + 1) by lia.
  replace (Z.pred (Z.of_nat (S n))) with (Z.of_nat n) by lia. cbn [fmap list_fmap]. rewrite weights_cons.
  split; [by constructor|]. rewrite Htotal, work_step by done. replace (i + 1 + Z.of_nat n) with (i + Z.of_nat (S n)) by lia. lia.
Qed.

(** * The trace *)

(** The state after some more events. *)
Definition later (es : list Event) (st : State) : State := mkState (events st ++ es) (out st).
Lemma later_later es es' st : later es' (later es st) = later (es ++ es') st.
Proof. unfold later. cbn. by rewrite app_assoc. Qed.
Lemma later_nil st : later [] st = st.
Proof. destruct st. unfold later. cbn. by rewrite app_nil_r. Qed.

(** The messages of a batch, and the batches of a stream. *)
Definition batch (ms : list (list byte)) (k : Z) : list (list byte) :=
  take (Z.to_nat batch_size) (drop (Z.to_nat (k * batch_size)) ms).
Definition batch_count (n : Z) : Z := (n + batch_size - 1) / batch_size.
Definition batches (ms : list (list byte)) : list (list (list byte)) := batch ms <$> seqZ 0 (batch_count (len ms)).

(** What decoding and measuring are to do. *)
Definition decodes (w : Which) (ms : list (list byte)) : list Event := Decoded w <$> ms.
Definition timed (w : Which) (ms : list (list byte)) : list Event := Reading :: decodes w ms ++ [Reading].
Definition batch_events (w : Which) (bs : list (list (list byte))) : list Event := concat (timed w <$> bs).
Definition measurement (w : Which) (ms : list (list byte)) : list Event :=
  Reading :: batch_events w (batches ms) ++ [Reading].
Definition warmup (ms : list (list byte)) : list Event := decodes Generated ms ++ decodes Reference ms.
Definition other (w : Which) : Which := match w with Generated => Reference | Reference => Generated end.
(** The decoder that a trial begins with. *)
Definition first_of (k : Z) : Which := if k `mod` 2 =? 0 then Generated else Reference.
Definition trial_events (ms : list (list byte)) (k : Z) : list Event :=
  measurement (first_of k) ms ++ measurement (other (first_of k)) ms.
(** All that happens before trial [k], and before the measurement of a decoder in it. *)
Definition before (ms : list (list byte)) (k : Z) : list Event :=
  warmup ms ++ warmup ms ++ concat (trial_events ms <$> seqZ 0 k).
Definition started (ms : list (list byte)) (w : Which) (k : Z) : list Event :=
  before ms k ++ (if decide (w = first_of k) then [] else measurement (first_of k) ms).

(** * Medians *)

Definition numbers (xs : list spec_float) : Prop := Forall (λ x, is_nan x = false) xs.
(** The middle of the sorted list. *)
Definition is_median (xs : list spec_float) (x : spec_float) : Prop :=
  ∃ ys, ys ≡ₚ xs ∧ Sorted double_le ys ∧ ys !! (length xs / 2)%nat = Some x.

Lemma compare_lt_antisym x y : SFltb x y = true → SFltb y x = false.
Proof.
  unfold SFltb. destruct x as [[]|[]| |[] m e], y as [[]|[]| |[] m' e']; try done; cbn [SFcompare].
  all: rewrite (Z.compare_antisym e e'); destruct (e ?= e') eqn:He; try done; cbn [CompOpp].
  all: change (Pos.compare_cont Eq) with Pos.compare; rewrite (Pos.compare_antisym m m'); by destruct (Pos.compare m m').
Qed.
#[export] Instance double_le_total : Total double_le.
Proof.
  intros x y. unfold double_le. destruct (SFltb y x) eqn:H; [right; by apply compare_lt_antisym|by left].
Qed.

Lemma median_spec xs :
  numbers xs → xs ≠ [] →
  ∃ ys x, sort xs = Ret ys ∧ middle ys = Ret x ∧ is_median xs x ∧ is_nan x = false.
Proof.
  intros Hxs Hne. unfold sort.
  assert (existsb is_nan xs = false) as ->.
  { clear Hne. induction Hxs as [|x xs Hx _ IH]; cbn; [done|by rewrite Hx]. }
  set (ys := merge_sort double_le xs). assert (Hperm : ys ≡ₚ xs) by apply merge_sort_Permutation.
  pose proof (Permutation_length Hperm) as Hlen. assert (0 < length xs)%nat by (destruct xs; [done|cbn; lia]).
  destruct (vget_is_Some ys (len ys / 2)) as [x Hx].
  { split; [apply Z.div_pos; lia|]. apply Z.div_lt; lia. }
  assert (Hlookup : ys !! (length xs / 2)%nat = Some x).
  { unfold vget in Hx. rewrite decide_True in Hx by (apply Z.div_pos; lia).
    change 2 with (Z.of_nat 2) in Hx. rewrite <-Nat2Z.inj_div, Nat2Z.id, Hlen in Hx. exact Hx. }
  exists ys, x. split; [done|]. unfold middle. rewrite Hx. split; [done|]. split.
  - exists ys. split_and!; [done|apply Sorted_merge_sort; apply _|done].
  - unfold numbers in Hxs. rewrite <-Hperm, Forall_forall in Hxs. by apply Hxs, (list_elem_of_lookup_2 _ (length xs / 2)%nat).
Qed.

Lemma throughput_number n ns : 0 < n < 2 ^ 53 → is_nan (throughput n ns) = false.
Proof.
  intros Hn. unfold throughput, div. destruct (of_Z_double n Hn) as (_ & m & -> & _).
  pose proof (duration_not_nan 1000000000 ns ltac:(lia)) as Hd.
  destruct (of_Z_double 1000000 ltac:(lia)) as (_ & m' & -> & _).
  apply quotient_not_nan; [|done|by destruct (SFdiv _ _ _ _)].
  apply quotient_not_nan; [done|done|]. by destruct (duration 1000000000 ns).
Qed.

(** The printed unit: millions of messages a second. *)
Lemma throughput_approximates n ns :
  0 < n < 2 ^ 53 → 0 < ns < 2 ^ 53 → approximates 48 (n * 10 ^ 9) (ns * 10 ^ 6) (throughput n ns).
Proof.
  intros Hn Hns. unfold throughput.
  pose proof (div_approximately 52 157 60 50 49 n 1 ns (10 ^ 9) _ _ (of_Z_approximately n Hn)
    (duration_approximately (10 ^ 9) ns ltac:(done) Hns)) as H1.
  pose proof (div_approximately 262 52 49 60 48 (n * 10 ^ 9) (1 * ns) (10 ^ 6) 1 _ _
    (H1 ltac:(lia) ltac:(by split) ltac:(lia) ltac:(lia) ltac:(lia) ltac:(lia) ltac:(lia) ltac:(lia) ltac:(lia))
    (of_Z_approximately (10 ^ 6) ltac:(done))) as H2.
  rewrite Z.mul_1_r, Z.mul_1_l in H2. eapply approximately_approximates, H2; first [by split|lia].
Qed.

Lemma batch_count_step n : 0 < n → batch_count n = 1 + batch_count (n - batch_size).
Proof.
  intros. unfold batch_count. rewrite <-Z.div_add_l by done. f_equal. lia.
Qed.
Lemma batch_count_lt n k : 0 ≤ k → k * batch_size < n ↔ k < batch_count n.
Proof.
  intros Hk. unfold batch_count. split; intros H.
  - enough (k + 1 ≤ (n + batch_size - 1) / batch_size) by lia. apply Z.div_le_lower_bound; unfold batch_size in *; lia.
  - assert (batch_size * ((n + batch_size - 1) / batch_size) ≤ n + batch_size - 1) by (apply Z.mul_div_le; done).
    unfold batch_size in *. lia.
Qed.

(** * Decoding *)

Section benchmark.
Context (decoder : Which → BookDecoder) `{Hwire : ∀ w, DecodesWire (decoder w)}.
Context (clock : list Event → Z).

Lemma decode_one_spec w m weight s st :
  weighs m weight → decode_one decoder w m s st = (Ret (u64 (s + weight)), later [Decoded w m] st).
Proof.
  intros (e & Hf & Hw & <-). unfold decode_one, mbind, M_bind, observe, modify, lift. by rewrite (Hwire w e).
Qed.
Lemma u64_add_l a b : u64 (u64 a + b) = u64 (a + b).
Proof. unfold u64, wrap. by rewrite Zplus_mod_idemp_l. Qed.
Lemma decode_each_spec w ms ws s st :
  Forall2 weighs ms ws → decode_each decoder w ms (u64 s) st = (Ret (u64 (s + total ws)), later (decodes w ms) st).
Proof.
  intros Hms. revert s st. induction Hms as [|m weight ms ws Hm _ IH]; intros s st; cbn [decode_each].
  - unfold decodes. cbn. by rewrite later_nil, Z.add_0_r.
  - unfold mbind, M_bind. rewrite (decode_one_spec w m weight) by done.
    rewrite u64_add_l, IH, later_later, weights_cons. by rewrite Z.add_assoc.
Qed.
Lemma decode_range_spec w ms ws n i s st :
  Forall2 weighs ms ws → 0 ≤ i → i + Z.of_nat n ≤ len ms →
  decode_range decoder w ms i n (u64 s) st =
    (Ret (u64 (s + total (take n (drop (Z.to_nat i) ws)))), later (decodes w (take n (drop (Z.to_nat i) ms))) st).
Proof.
  intros Hms. revert i s st. induction n as [|n IH]; intros i s st Hi Hmax.
  { cbn [decode_range]. rewrite !take_0. unfold decodes. cbn. by rewrite later_nil, Z.add_0_r. }
  destruct (vget_is_Some ms i ltac:(lia)) as [m Hm]. cbn [decode_range]. rewrite Hm.
  assert (Hget : ms !! Z.to_nat i = Some m) by (unfold vget in Hm; by rewrite decide_True in Hm by done).
  destruct (Forall2_lookup_l _ _ _ _ _ Hms Hget) as (weight & Hw & Hweighs).
  unfold mbind, M_bind. rewrite (decode_one_spec w m weight) by done.
  rewrite u64_add_l, IH, later_later by lia. rewrite (drop_S ws weight (Z.to_nat i)), (drop_S ms m (Z.to_nat i)) by done.
  cbn [take]. rewrite weights_cons. replace (S (Z.to_nat i)) with (Z.to_nat (i + 1)) by lia. by rewrite Z.add_assoc.
Qed.

(** * Measuring *)

(** The times of consecutive batches, the first of which starts after the history [h]. *)
Fixpoint batch_times (w : Which) (h : list Event) (bs : list (list (list byte))) : list spec_float :=
  match bs with
  | [] => []
  | b :: bs => duration 1000 (clock (h ++ Reading :: decodes w b) - clock h) :: batch_times w (h ++ timed w b) bs
  end.
(** The rate of a measurement that starts after [h]. *)
Definition rate (w : Which) (ms : list (list byte)) (h : list Event) : spec_float :=
  throughput (len ms) (clock (h ++ Reading :: batch_events w (batches ms)) - clock h).
(** The median of its batches. *)
Definition batch_median (w : Which) (ms : list (list byte)) (h : list Event) (x : spec_float) : Prop :=
  is_median (batch_times w (h ++ [Reading]) (batches ms)) x.

Lemma batch_times_numbers w h bs : numbers (batch_times w h bs) ∧ length (batch_times w h bs) = length bs.
Proof.
  revert h. induction bs as [|b bs IH]; intros h; [split; [constructor|done]|]. cbn [batch_times length].
  destruct (IH (h ++ timed w b)) as [? ->]. split; [|done]. constructor; [|done]. apply duration_not_nan. lia.
Qed.

Lemma now_spec st : now clock st = (Ret (clock (events st)), later [Reading] st).
Proof. done. Qed.
Lemma batches_loop_spec w ms ws fuel k bs s st :
  Forall2 weighs ms ws → 0 ≤ k → Z.max 0 (len ms - k * batch_size) < Z.of_nat fuel →
  let rest := batch ms <$> seqZ k (batch_count (len ms) - k) in
  batches_loop decoder clock fuel w ms (k * batch_size) bs (u64 s) st =
    (Ret (bs ++ batch_times w (events st) rest, u64 (s + total (drop (Z.to_nat (k * batch_size)) ws))),
     later (batch_events w rest) st).
Proof.
  intros Hms. assert (Hlen : length ms = length ws) by by eapply Forall2_length.
  revert k bs s st. induction fuel as [|fuel IH]; intros k bs s st Hk Hfuel rest; [lia|]. cbn [batches_loop].
  pose proof (batch_count_lt (len ms) k Hk) as Hcount.
  destruct (Z.ltb_spec (k * batch_size) (len ms)) as [Hlt|Hge].
  - set (begin := k * batch_size) in *. set (n := Z.to_nat (Z.min (begin + batch_size) (len ms) - begin)).
    assert (Hb : 0 ≤ begin) by (unfold begin, batch_size; lia).
    assert (Htake : ∀ X (l : list X), length l = length ms → take n (drop (Z.to_nat begin) l) = take (Z.to_nat batch_size) (drop (Z.to_nat begin) l)).
    { intros X l Hl. unfold n. destruct (decide (batch_size ≤ len ms - begin)).
      - f_equal. lia.
      - rewrite !take_ge by (rewrite length_drop; lia). done. }
    assert (Htotal : total (take n (drop (Z.to_nat begin) ws)) + total (drop (Z.to_nat (begin + batch_size)) ws) =
                     total (drop (Z.to_nat begin) ws)).
    { rewrite Htake by done. rewrite <-(take_drop (Z.to_nat batch_size) (drop (Z.to_nat begin) ws)) at 2.
      rewrite weights_app, drop_drop. do 3 f_equal. unfold batch_size. lia. }
    assert (Hrest : rest = batch ms k :: (batch ms <$> seqZ (k + 1) (batch_count (len ms) - (k + 1)))).
    { unfold rest. rewrite seqZ_cons by lia. cbn [fmap list_fmap].
      by replace (Z.pred (batch_count (len ms) - k)) with (batch_count (len ms) - (k + 1)) by lia. }
    assert (Hbegin : begin + batch_size = (k + 1) * batch_size) by (unfold begin; lia).
    unfold mbind, M_bind. rewrite now_spec, (decode_range_spec w ms ws), now_spec by (done || lia).
    rewrite (Htake _ ms eq_refl), !later_later, Hbegin, IH by (unfold batch_size in *; lia).
    rewrite later_later, Hrest, <-Hbegin, <-Z.add_assoc, Htotal, <-app_assoc. reflexivity.
  - unfold rest. rewrite seqZ_nil by lia. unfold mret, M_ret. cbn [fmap list_fmap batch_times batch_events concat].
    rewrite later_nil, app_nil_r, drop_ge, Z.add_0_r by lia. done.
Qed.

(** A measurement: its trace, its rate, the median of its batches, and the work. *)
Lemma measure_spec w ms ws st :
  Forall2 weighs ms ws → 0 < len ms < 2 ^ 53 →
  ∃ b, measure decoder clock w ms st =
      (Ret (mkResult (rate w ms (events st)) b (u64 (total ws))), later (measurement w ms) st) ∧
    batch_median w ms (events st) b ∧ numbers [rate w ms (events st); b].
Proof.
  intros Hms Hn. pose proof (batches_loop_spec w ms ws (S (length ms)) 0 [] 0 (later [Reading] st) Hms ltac:(lia) ltac:(lia)) as Hloop.
  cbn zeta in Hloop. rewrite Z.sub_0_r, Z.mul_0_l, Z.add_0_l, drop_0 in Hloop. fold (batches ms) in Hloop. cbn [app] in Hloop.
  destruct (batch_times_numbers w (events st ++ [Reading]) (batches ms)) as [Hnumbers Hlength].
  destruct (median_spec _ Hnumbers) as (ys & b & Hys & Hb & Hmedian & Hnan).
  { intros Hnil. rewrite Hnil in Hlength. unfold batches in Hlength. rewrite length_fmap, length_seqZ in Hlength.
    pose proof (proj1 (batch_count_lt (len ms) 0 ltac:(lia)) ltac:(lia)). cbn in Hlength. lia. }
  exists b. split; [|split; [exact Hmedian|repeat constructor; [by apply throughput_number|done]]].
  unfold measure, mbind, M_bind. change (u64 0) with 0 in Hloop. rewrite now_spec, Hloop, now_spec.
  unfold lift. cbn [events later]. rewrite Hys, Hb, !later_later. unfold mret, M_ret, rate. cbn [app].
  rewrite <-!app_assoc. reflexivity.
Qed.
Lemma warmups_spec ms ws n st :
  Forall2 weighs ms ws → warmups decoder ms n st = (Ret tt, later (concat (replicate n (warmup ms))) st).
Proof.
  intros Hms. revert st. induction n as [|n IH]; intros st; cbn [warmups replicate concat]; [by rewrite later_nil|].
  pose proof (λ w, decode_each_spec w ms ws 0) as Hone. change (u64 0) with 0 in Hone.
  unfold mbind, M_bind, decode_all. rewrite !Hone, IH, !later_later by done. unfold warmup. by rewrite <-!app_assoc.
Qed.

(** * The trials *)

(** The figures of decoder [w] after [k] trials of the stream [ms]. *)
Definition rates (w : Which) (ms : list (list byte)) (k : Z) : list spec_float :=
  (λ i, rate w ms (started ms w i)) <$> seqZ 0 k.
Definition medians (w : Which) (ms : list (list byte)) (k : Z) (xs : list spec_float) : Prop :=
  Forall2 (λ i x, batch_median w ms (started ms w i) x) (seqZ 0 k) xs.

Record after (ms : list (list byte)) (work : Z) (k : nat) (t : Trials) : Prop := {
  after_generated : generated_rate t = rates Generated ms (Z.of_nat k) ∧ medians Generated ms (Z.of_nat k) (generated_batch t);
  after_reference : reference_rate t = rates Reference ms (Z.of_nat k) ∧ medians Reference ms (Z.of_nat k) (reference_batch t);
  after_numbers : Forall numbers [generated_rate t; generated_batch t; reference_rate t; reference_batch t];
  after_sink : total_sink t = u64 (2 * Z.of_nat k * work) }.

Lemma before_first ms : before ms 0 = warmup ms ++ warmup ms.
Proof. unfold before. change (concat (trial_events ms <$> seqZ 0 0)) with (@nil Event). by rewrite app_nil_r. Qed.
Lemma after_nothing ms work : after ms work 0 (mkTrials [] [] [] [] 0).
Proof.
  split; [split; [done|exact (List.Forall2_nil _)]..| |done].
  repeat (apply Forall_cons; split); [apply Forall_nil_2..|apply Forall_nil_2].
Qed.
Lemma seqZ_snoc k : seqZ 0 (Z.of_nat (S k)) = seqZ 0 (Z.of_nat k) ++ [Z.of_nat k].
Proof. rewrite Nat2Z.inj_succ, <-Z.add_1_r, seqZ_app by lia. by rewrite Z.add_0_l. Qed.
Lemma before_succ ms k : before ms (Z.of_nat (S k)) = before ms (Z.of_nat k) ++ trial_events ms (Z.of_nat k).
Proof. unfold before. rewrite seqZ_snoc, fmap_app, concat_app. cbn. by rewrite app_nil_r, <-!app_assoc. Qed.

Lemma record_trial_after ms work k t b b' :
  let g := rate Generated ms (started ms Generated (Z.of_nat k)) in
  let r := rate Reference ms (started ms Reference (Z.of_nat k)) in
  batch_median Generated ms (started ms Generated (Z.of_nat k)) b →
  batch_median Reference ms (started ms Reference (Z.of_nat k)) b' →
  numbers [g; b] → numbers [r; b'] → after ms work k t →
  after ms work (S k) (record_trial (mkResult g b (u64 work)) (mkResult r b' (u64 work)) t).
Proof.
  intros g r Hb Hb' [Ng Nb]%Forall_cons [Nr Nb']%Forall_cons [[Hg Hgb] [Hr Hrb] Hnum Hsink].
  apply Forall_cons in Nb as [Nb _], Nb' as [Nb' _].
  repeat apply Forall_cons in Hnum as [? Hnum].
  split; cbn -[Z.of_nat Z.mul]; unfold rates, medians; rewrite ?seqZ_snoc, ?fmap_app.
  - rewrite Hg. split; [done|]. apply Forall2_app; [done|by constructor].
  - rewrite Hr. split; [done|]. apply Forall2_app; [done|by constructor].
  - repeat (apply Forall_cons; split); [..|done]; apply Forall_app; (split; [done|by constructor]).
  - rewrite Hsink, u64_add_l, Z.add_comm, u64_add_l.
    rewrite <-Z.add_assoc, u64_add_l, Z.add_comm, <-Z.add_assoc, u64_add_l. f_equal. lia.
Qed.

Lemma started_first ms k : started ms (first_of k) k = before ms k.
Proof. unfold started. by rewrite decide_True, app_nil_r. Qed.
Lemma started_second ms k : started ms (other (first_of k)) k = before ms k ++ measurement (first_of k) ms.
Proof. unfold started. by rewrite decide_False by (by destruct (first_of k)). Qed.

Lemma trial_spec ms ws k t st :
  Forall2 weighs ms ws → 0 < len ms < 2 ^ 53 → after ms (total ws) k t → events st = before ms (Z.of_nat k) →
  ∃ t', trial decoder clock ms (Z.of_nat k) t st = (Ret t', later (trial_events ms (Z.of_nat k)) st) ∧
    after ms (total ws) (S k) t'.
Proof.
  intros Hms Hlen Ht Hst. set (w := first_of (Z.of_nat k)).
  destruct (measure_spec w ms ws st Hms Hlen) as (b1 & Hm1 & Hb1 & Hn1).
  destruct (measure_spec (other w) ms ws (later (measurement w ms) st) Hms Hlen) as (b2 & Hm2 & Hb2 & Hn2).
  cbn [events later] in Hm2, Hb2, Hn2. rewrite later_later in Hm2.
  rewrite Hst in *. pose proof (started_first ms (Z.of_nat k)) as H1. pose proof (started_second ms (Z.of_nat k)) as H2.
  fold w in H1, H2. rewrite <-H1 in Hm1, Hb1, Hn1. rewrite <-H2 in Hm2, Hb2, Hn2.
  unfold trial, mbind, M_bind. unfold trial_events. fold w.
  destruct (Z.of_nat k `mod` 2 =? 0) eqn:Hk; (assert (Hw : w = if Z.of_nat k `mod` 2 =? 0 then Generated else Reference) by done);
    rewrite Hk in Hw; rewrite Hw in *; cbn [other] in *; rewrite Hm1, Hm2; (eexists; split; [reflexivity|]).
  - by apply record_trial_after.
  - by apply record_trial_after.
Qed.
Lemma trials_spec ms ws n k t st :
  Forall2 weighs ms ws → 0 < len ms < 2 ^ 53 → after ms (total ws) k t → events st = before ms (Z.of_nat k) →
  ∃ t', trials decoder clock ms (Z.of_nat k) n t st = (Ret t', mkState (before ms (Z.of_nat (k + n))) (out st)) ∧
    after ms (total ws) (k + n) t'.
Proof.
  intros Hms Hlen. revert k t st. induction n as [|n IH]; intros k t st Ht Hst; cbn [trials].
  - exists t. rewrite Nat.add_0_r, <-Hst. split; [by destruct st|done].
  - destruct (trial_spec ms ws k t st Hms Hlen Ht Hst) as (t1 & Ht1 & Hafter).
    unfold mbind, M_bind. rewrite Ht1. replace (Z.of_nat k + 1) with (Z.of_nat (S k)) by lia.
    destruct (IH (S k) t1 (later (trial_events ms (Z.of_nat k)) st) Hafter) as (t' & -> & Ht').
    { cbn [events later]. by rewrite Hst, before_succ. }
    exists t'. by rewrite Nat.add_succ_r.
Qed.

(** * The report *)

Context (platform : Platform) (max_size : Z).

Definition line (s : list byte) : list byte := s ++ [Byte.x0a].
Definition platform_text : list byte :=
  (match compiler platform with
   | Clang v => bs "compiler=Clang " ++ v
   | Gcc v => bs "compiler=GCC " ++ v
   | UnknownCompiler => bs "compiler=unknown"
   end) ++ bs (if ndebug platform then " build=Release" else " build=non-Release") ++
  (match uname platform with
   | Some (machine, sysname, release) => bs " machine=" ++ machine ++ bs " os=" ++ sysname ++ bs " " ++ release
   | None => []
   end).
Definition decoder_text (who : string) (rate batch : spec_float) : list byte :=
  bs who ++ bs " median throughput=" ++ Text.format_fixed 2 rate ++ bs " M msg/s; median 256-message batch=" ++
  Text.format_fixed 2 batch ++ bs " us".
Definition report_text (n : Z) (g gb r rb : spec_float) : list byte :=
  line (bs "decoder benchmark: mixed A/E/X/D/U, " ++ Text.digits 10 n ++
        bs " messages, 256-message timing batches, 7 trials") ++
  line platform_text ++ line (decoder_text "generated" g gb) ++ line (decoder_text "reference" r rb) ++
  line (bs "sink=" ++ Text.digits 10 (u64 (14 * work n)) ++
        bs "; no per-message nanosecond percentiles are reported").

Lemma total_stream n :
  0 ≤ n < 2 ^ 53 → n ≤ max_size →
  ∃ ms ws, build_messages max_size n = Ret ms ∧ Forall2 weighs ms ws ∧ len ms = n ∧ total ws = work n.
Proof.
  intros Hn Hmax. unfold build_messages. destruct templates as [patterns|e|e|] eqn:Hp; [|vm_compute in Hp; discriminate Hp..].
  cbn [mbind outcome_bind]. rewrite decide_False by lia.
  destruct (messages_from_spec patterns (Z.to_nat n) 0 Hp ltac:(lia)) as (ms & Hms & Hws & Htotal); [unfold u64_max; lia|].
  exists ms, (weights 0 (Z.to_nat n)). split_and!; [done..| |].
  - rewrite (Forall2_length _ _ _ Hws). unfold weights. rewrite length_fmap, length_seqZ. lia.
  - rewrite Htotal. rewrite Z2Nat.id, Z.add_0_l by lia. change (work 0) with 0. lia.
Qed.

Lemma put_text_put_text (s s' : list byte) o : Text.put_text s' (Text.put_text s o) = Text.put_text (s ++ s') o.
Proof. unfold Text.put_text. cbn. by rewrite app_assoc. Qed.
Lemma print_platform_spec st :
  print_platform platform st =
  (Ret tt, mkState (events st) (Text.put_text (line platform_text) (out st))).
Proof.
  unfold print_platform, cout, mbind, M_bind, modify, line, platform_text.
  destruct (compiler platform), (uname platform) as [[[]]|]; 
    cbn -[bs Text.put_text]; by rewrite !put_text_put_text, ?app_nil_r, <-?app_assoc.
Qed.

(** With two decimals, text and numbers are appended. *)
Definition item_text (base : Z) (i : Item) : list byte :=
  match i with
  | Str s => bs s
  | Chars s => s
  | Unsigned n => Text.digits base n
  | Double x => Text.format_fixed 2 x
  | Newline => [Byte.x0a]
  | Hex | Dec | Fixed | Precision _ => []
  end.
Definition is_text (i : Item) : Prop := match i with Hex | Dec | Fixed | Precision _ => False | _ => True end.
Lemma cout_text items s t o :
  Forall is_text items → Text.fixed o = true → Text.precision o = 2 →
  cout items (mkState t (Text.put_text s o)) =
    (Ret tt, mkState t (Text.put_text
      (s ++ concat (item_text (if Text.hexadecimal o then 16 else 10) <$> items)) o)).
Proof.
  intros Hitems Hf Hp. unfold cout, modify. do 2 f_equal. cbn [out events]. revert s.
  induction Hitems as [|i items Hi _ IH]; intros s; cbn [foldl fmap list_fmap concat]; [by rewrite app_nil_r|].
  assert (put_item (Text.put_text s o) i = Text.put_text (s ++ item_text (if Text.hexadecimal o then 16 else 10) i) o) as ->.
  { destruct i; try done; cbn -[bs Text.digits Text.format_fixed]; unfold Text.put_double, Text.put_unsigned;
      cbn -[bs Text.digits Text.format_fixed]; rewrite ?Hf, ?Hp; apply put_text_put_text. }
  rewrite IH. by rewrite <-app_assoc.
Qed.
(** The median of what seven trials gave. *)
Definition reported_rate (w : Which) (ms : list (list byte)) (x : spec_float) : Prop := is_median (rates w ms 7) x.
Definition reported_batch (w : Which) (ms : list (list byte)) (x : spec_float) : Prop :=
  ∃ xs, medians w ms 7 xs ∧ is_median xs x.

Lemma report_spec ms work t st :
  after ms work 7 t →
  ∃ g gb r rb, numbers [g; gb; r; rb] ∧ reported_rate Generated ms g ∧ reported_batch Generated ms gb ∧
    reported_rate Reference ms r ∧ reported_batch Reference ms rb ∧
  report t st = (Ret tt, mkState (events st) (Text.put_text
    (line (decoder_text "generated" g gb) ++ line (decoder_text "reference" r rb) ++
     line (bs "sink=" ++ Text.digits (if Text.hexadecimal (out st) then 16 else 10) (u64 (14 * work)) ++
           bs "; no per-message nanosecond percentiles are reported"))
    (Text.set_precision 2 (Text.set_fixed (out st))))).
Proof.
  intros [[Hg Hgb] [Hr Hrb] Hnum Hsink]. change (Z.of_nat 7) with 7 in *.
  assert (Hpick : ∀ xs, numbers xs → length xs = 7%nat → ∃ x, median xs = Ret x ∧ is_median xs x ∧ is_nan x = false).
  { intros xs Hxs Hl. destruct (median_spec xs Hxs) as (ys & x & Hys & Hx & ? & ?); [by intros ->|]. exists x.
    unfold median. rewrite Hys. by split_and!. }
  repeat apply Forall_cons in Hnum as [? Hnum].
  destruct (Hpick (generated_rate t)) as (g & Eg & Mg & Ng); [done|by rewrite Hg|].
  destruct (Hpick (generated_batch t)) as (gb & Egb & Mgb & Ngb); [done|by rewrite <-(Forall2_length _ _ _ Hgb)|].
  destruct (Hpick (reference_rate t)) as (r & Er & Mr & Nr); [done|by rewrite Hr|].
  destruct (Hpick (reference_batch t)) as (rb & Erb & Mrb & Nrb); [done|by rewrite <-(Forall2_length _ _ _ Hrb)|].
  rewrite Hg in Mg. rewrite Hr in Mr.
  exists g, gb, r, rb. split; [by repeat constructor|]. split; [exact Mg|]. split; [by eexists|].
  split; [exact Mr|]. split; [by eexists|]. set (o := Text.set_precision 2 (Text.set_fixed (out st))).
  unfold report. rewrite Eg, Egb, Er, Erb, Hsink. replace (2 * 7 * work) with (14 * work) by lia.
  assert (Hfirst : cout [Fixed; Precision 2; Str "generated median throughput="] st =
    (Ret tt, mkState (events st) (Text.put_text (bs "generated median throughput=") o))) by done.
  unfold lift, mbind, M_bind. rewrite Hfirst. clear Hfirst.
  do 5 (rewrite cout_text by (done || by repeat constructor)). unfold mret, M_ret. do 2 f_equal.
  f_equal. unfold line, decoder_text. cbn [concat fmap list_fmap item_text]. rewrite <-!app_assoc. reflexivity.
Qed.
End benchmark.

(** * The program *)

(** C37: The benchmark measures equal work, and reports what it has measured.  For every number of
    messages from 1 up to what a vector can hold (below 2^53), every clock, and any two decoders
    that read the wire format, the program ends with exit code 0.  Its trace is two warm-ups of
    both decoders and seven trials in which both decoders, taking turns to begin, decode the whole
    stream, and nothing else, between two readings of the clock, with two more readings around every
    256 messages.  The printed rate of a decoder is the median of the seven rates that the readings
    at the ends of its measurements give, the printed batch time the median of the seven medians of
    its batches; none is a NaN, though a rate is infinite when no time passes.  For an interval of
    1 ns up to 2^53 ns, a batch time is the interval in microseconds up to a part in 2^50, and a rate
    the millions of messages a second up to a part in 2^48.  The printed sink is fourteen times the
    indices and lengths of the events in the stream, modulo 2^64. *)
Theorem benchmark_measures_equal_work decoder clock platform max_size argv n :
  (∀ w, DecodesWire (decoder w)) → message_count argv = Ret n → 1 ≤ n < 2 ^ 53 → n ≤ max_size →
  ∃ ms ws s, build_messages max_size n = Ret ms ∧ len ms = n ∧ Forall2 weighs ms ws ∧
    run decoder clock platform max_size argv (mkState [] Text.empty) = (Ret 0, s) ∧
    events s = warmup ms ++ warmup ms ++ concat (trial_events ms <$> [0; 1; 2; 3; 4; 5; 6]) ∧
    (∀ ns, 0 < ns < 2 ^ 53 →
       approximates 50 ns 1000 (duration 1000 ns) ∧ approximates 48 (n * 10 ^ 9) (ns * 10 ^ 6) (throughput n ns)) ∧
    ∃ g gb r rb, numbers [g; gb; r; rb] ∧
      reported_rate clock Generated ms g ∧ reported_batch clock Generated ms gb ∧
      reported_rate clock Reference ms r ∧ reported_batch clock Reference ms rb ∧
      Text.text (out s) = report_text platform n g gb r rb.
Proof.
  intros Hwire Hcount Hn Hmax.
  destruct (total_stream max_size n ltac:(lia) Hmax) as (ms & ws & Hbuild & Hms & Hlen & Htotal).
  exists ms, ws. unfold run, mbind, M_bind, lift. rewrite Hcount, Hbuild. unfold cout at 1, modify.
  rewrite print_platform_spec, (warmups_spec decoder ms ws) by done. cbn [replicate concat]. rewrite app_nil_r.
  match goal with |- context [trials _ _ _ _ _ _ ?st] =>
    destruct (trials_spec decoder clock ms ws 7 0 (mkTrials [] [] [] [] 0) st Hms ltac:(lia)) as (t & Ht & Hafter) end;
    [apply after_nothing|symmetry; exact (before_first ms)|].
  change (Z.of_nat 0) with 0 in Ht. rewrite Ht. rewrite Htotal in Hafter.
  edestruct (report_spec clock ms (work n) t) as (g & gb & r & rb & Hnumbers & Hg & Hgb & Hr & Hrb & Hreport); [exact Hafter|].
  rewrite Hreport. eexists. split_and!; [done..| |].
  { intros ns Hns. split; [|by apply throughput_approximates; [lia|]].
    by eapply approximately_approximates, duration_approximately. }
  exists g, gb, r, rb. split_and!; [done..|].
  unfold report_text, line, Text.put_unsigned. cbn -[bs Text.digits Z.mul]. by rewrite <-!app_assoc.
Qed.
(** The default run, of 500,000 messages, on a clock that counts 40 ns for everything it has seen. *)
Definition sample_platform : Platform :=
  mkPlatform (Gcc (bs "13.2.0")) true (Some (bs "x86_64", bs "Linux", bs "6.8")).
Definition sample_clock (h : list Event) : Z := 40 * len h.
Lemma benchmark_measures_equal_work_witness :
  u64 (14 * work 500000) = 215600000 ∧
  ∃ ms ws s, build_messages 384307168202282325 500000 = Ret ms ∧ len ms = 500000 ∧ Forall2 weighs ms ws ∧
    @main itch50_header sample_clock sample_platform 384307168202282325 [bs "efe_bench"] (mkState [] Text.empty) = (Ret 0, s) ∧
    events s = warmup ms ++ warmup ms ++ concat (trial_events ms <$> [0; 1; 2; 3; 4; 5; 6]) ∧
    (∀ ns, 0 < ns < 2 ^ 53 →
       approximates 50 ns 1000 (duration 1000 ns) ∧ approximates 48 (500000 * 10 ^ 9) (ns * 10 ^ 6) (throughput 500000 ns)) ∧
    ∃ g gb r rb, numbers [g; gb; r; rb] ∧
      reported_rate sample_clock Generated ms g ∧ reported_batch sample_clock Generated ms gb ∧
      reported_rate sample_clock Reference ms r ∧ reported_batch sample_clock Reference ms rb ∧
      Text.text (out s) = report_text sample_platform 500000 g gb r rb.
Proof.
  split; [vm_compute; reflexivity|]. unfold main.
  apply (benchmark_measures_equal_work
           (λ w, match w with Generated => @generated_decoder itch50_header | Reference => reference_decoder end)).
  - intros [|]; [exact (@generated_decodes_wire itch50_header itch50_header_generated)|exact reference_decodes_wire].
  - reflexivity.
  - lia.
  - lia.
Defined.

(** With no messages there are no batches, and the median of the batches is read out of bounds: the
    argument 0 is undefined behaviour, after the warm-ups. *)
Theorem benchmark_of_nothing_is_undefined decoder clock platform max_size argv st :
  message_count argv = Ret 0 → 0 ≤ max_size →
  ∃ why st', run decoder clock platform max_size argv st = (Undef why, st').
Proof.
  intros Hcount Hmax. assert (build_messages max_size 0 = Ret []) as Hbuild.
  { unfold build_messages. destruct templates as [patterns|e|e|] eqn:Hp; [|vm_compute in Hp; discriminate Hp..].
    cbn [mbind outcome_bind]. by rewrite decide_False by lia. }
  unfold run, lift, mbind, M_bind, cout, modify. rewrite Hcount, Hbuild, print_platform_spec. by eexists _, _.
Qed.
Lemma benchmark_of_nothing_is_undefined_witness :
  ∃ why st', @main itch50_header sample_clock sample_platform 1000 [bs "efe_bench"; bs "0"] (mkState [] Text.empty)
    = (Undef why, st').
Proof. unfold main. by apply benchmark_of_nothing_is_undefined. Defined.
